(* ===== verification/_CoqProject ===== *)
-Q . S2P
Prelude.v
Effects.v
BetterEnum.v
Priority.v
AccuLine.v
Addr.v
PTree.v
UConfig.v
Demo.v
Msg.v
InputProcessor.v
Stream.v
Dispatcher.v
Subscriptions.v
AResolver.v
Session.v
OutQueue.v
SessionSafe.v
Transport.v
Dump.v
Remote.v
ChannelSafe.v
Outgoing.v
NetServer.v
Events.v
ServerWf.v
ServerProps.v
ServerFrame.v
ServerMain.v
ServerSafe.v
ServerChannels.v
ConfigFile.v
Network.v
Roles.v
Nodes.v
NetRuns.v
NetLeaf.v
NetClient.v
EnumRuntime.v
EnumDecl.v
ClientMain.v
