(* ===== verification/Prelude.v ===== *)
(** * Uzel: verification of the message bus

    Uzel is a message bus written in C++ on boost::asio.  On every node runs
    a server (app/userver); applications (app/uecho, app/usender) connect to
    the server of their node, servers connect to one another, and messages,
    a header and a body as JSON lines, are routed by the address
    [<app>@<node>].  This library is a shallow embedding of the program, file
    by file, with the theorems that say what it guarantees and where it does
    not do what it means to.

    ** How the program is modelled

    - Objects are records with the fields of the class; a method is a function
      in the state monad [M W A] of [Effects] (state passing, with exceptions,
      undefined behaviour and divergence as outcomes).  Sessions are shared by
      pointer in the program; here they live in a [store] by identity [sid],
      and the connection tables and the channels hold identities.  A session
      that has been closed stays in the store, as its slots keep it alive.
    - Asynchronous operations are data: a session lists the operations it has
      in flight with their buffers, the acceptor and the timers count theirs.
      The event loop is a step relation ([wstep] for the output side of a
      session, [om_step] for the outgoing manager, [rstep] for a channel,
      [disp_step] for a dispatcher, [sv_turn] for the whole server, [cl_turn]
      for a client, [link_step] for two sessions and the bytes between them,
      [duo_step] for the two sides of a channel, [net_step] for a network of
      servers): one completion handler at a time, as the single thread of the
      program runs them, in any order and with any outcome.  A turn
      pairs its outcome with the state it leaves; [sv_step] is a turn that
      succeeds, [cl_step] a turn however it ends, and main returns when a turn
      throws.  The threads of the resolver's pool are [ar_step].
    - What a turn throws is what its handler throws, or what the handler left
      pending: a function that boost::asio::dispatch runs at once does not
      throw into its caller, the executor keeps the exception in the data of
      the thread, and io_context::run throws it when the handler has returned
      ([captured], [run_one] and the class [Thread] of [Effects]).  So the
      exception of a message without a name, which MsgDispatcher::dispatch
      looks up outside its try blocks, is never seen by the catch blocks of
      processNewInput.
    - The strand of the dispatcher runs a function at once when it is called
      from inside the loop ([inline = true]) and queues it otherwise.  The
      program constructs its objects before the loop runs: there the
      registration reads an identifier before it is written, [Undefined] in
      the model.  The theorems about reachable states of the server start
      from [NetServer_ctor true]: they say what the program does if the
      registrations of its constructor did run, as they are meant to.
    - Integers have their width where it matters: [uint16] in the enumeration
      translator, [size_t] counters of the outgoing manager, [uint64]
      identifiers.  Times are nanoseconds of the steady clock, in [Z].
    - What is not part of the repository is a parameter: the property tree and
      the JSON reader and writer ([PTree], with the documented laws in
      [PTreeLaws]), the host name, the process name and id and the
      configuration file ([Platform]).  [Demo] is a concrete platform on which
      the witnesses compute.

    ** Files

    - [Prelude]: strings, as the byte sequences of the program.
    - [Effects]: the monad, its rules for invariants and for safety, the
      tactics that use them; the thread of the event loop.
    - [BetterEnum] and [EnumRuntime] (src/uzel/enum.h): enumerations by value
      and by name; their static data, compile-time names, maps and streams.
      [EnumDecl]: the preprocessor lists, and what a declaration expands to.
      [Priority] (priority.h and the other enumerations): the instances and
      their text in a property tree.
    - [AccuLine] (acculine.h), [InputProcessor] (inputprocessor.h, .cpp):
      from blocks of bytes to lines to messages.
    - [Addr] (addr.h, .cpp), [UConfig] (uconfig.h, .cpp), [PTree], [Demo].
    - [Msg] (msg.h, .cpp): messages, their classification and their printers.
    - [Stream]: what a connection promises, a reliable channel of messages,
      and that the printers and [InputProcessor] implement it.
    - [Dispatcher] (dispatcher.h, .cpp): handlers by message name, connections
      and scoped connections.  [Subscriptions]: its specification, an ordered
      list of subscriptions, and the refinement.
    - [AResolver] (aresolver.h, netappcontext.h, .cpp): the pool of threads
      that resolve names, its destructor, the network context.
    - [Session] (session.h, .cpp): one connection and its output queue.
      [OutQueue]: its specification, a queue that may lose its front, and the
      refinement.  [Transport]: a session's queue, the bytes and the input
      processor of the other end together, as a channel that may lose what it
      still holds; the consumer of that processor only records the messages.
    - [Remote] (app/userver/remote.h, .cpp): the logical channel to a node.
    - [Outgoing] (OutgoingManager.h, .cpp): whom to connect to, and when; the
      application it works for is the class [OutHost] with the laws
      [OutHostLaws].
    - [NetServer] (app/userver/netserver.h, .cpp): the server and its event
      loop; the instance of [OutHost] and its laws.
    - [ServerWf]: the invariant of the server.  [ServerProps]: what the server
      does, end to end.  [ServerFrame]: the lemmas that carry a property of
      the whole state through every handler, from its preservation by a few
      operations (the class [ServerFrame]).  [ServerMain]
      (app/userver/main.cpp): when the loop ends and what main returns.
      [ServerChannels]: the server moves its channels only by their own
      operations.  [Events]: the turns of the server as data.
    - [SessionSafe], [ChannelSafe], [ServerSafe]: under which conditions the
      methods of a session, those of a channel and the handlers of the server
      do not run into undefined behaviour, and end.
    - [ConfigFile] (uconfig.cpp, its use by the server): the configuration
      object that is constructed once, and a file that cannot be read.
    - [Network]: reads of a session in arbitrary blocks, and the path of a
      message across two servers.  [Roles]: the channels of two nodes, one
      of which decides on the roles of the connections.  [Nodes]: any number
      of servers and their connections as one step relation; a server of a
      network runs as it does alone, so its invariant and its safety hold
      there too.  [NetRuns]: runs of a network that can be computed; two
      servers started from their constructors connect, and the witnesses of
      the theorems about two servers are states reached by such runs.
    - [NetLeaf] (NetLeaf.h, .cpp): the second kind of application, and its
      instance of [OutHost]; its channel is the class [Channel].
    - [NetClient] (netclient.h, .cpp, app/uecho, app/usender): a client.
      [ClientMain]: the constructors and main functions of the clients.
    - [Dump] (dump.h): buffers in the log.

    ** What the theorems show

    - The server: the invariant of its tables in every reachable state
      (C1); the one undefined behaviour of its event loop (C2), and that
      its handlers end (C9); where each class of message goes (C3); the limit
      of connections by address, and the peer that ends the server by leaving
      before it is accepted (C11); what a reconnecting
      application gets, and what it costs when a write is in flight (C14, C15); it keeps
      accepting, so main never returns 0 (C8), and which message ends it
      (C10).
    - Composition: two lines written by an application of one node, in any
      blocks, reach the named application of another node once and byte for
      byte (C4, with its conditions on the channel and on the texts);
      a connection refines a reliable channel of messages (C5),
      whatever the cutting into blocks (C13); a broadcast goes back and forth
      between two servers for ever (C37).
    - Channels: one side decides (C7); roles are exclusive (C17); the two sides
      agree on the roles whatever the order of the events (C38); the queue of
      a disconnected node goes to the session's queue on the side that
      decides (C20) and on no other, however long the server runs (C21); who may send a priority
      message (C32).
    - Sessions: the output side refines a queue that may lose its front
      (C35); what a connection delivers is what was put to it, in order,
      once each, less what the sender had not started (C6); in the
      server, one write in flight, from a live buffer (C16); authentication (C26); taking over a
      queue, and when it does not end (C27); the queue that stops being
      written (C28).
    - Outgoing connections: which sessions are created (C18, C19), ticks and
      pokes (C30, C31).  Names: no request is lost or answered twice (C22),
      the destructor ends after all are answered (C23).
    - The dispatcher refines an ordered list of subscriptions (C12); the
      snapshot that runs (C24).
    - Messages: the caches agree with the header (C25).
    - Clients: the echo (C33), the connection that is not renewed (C34);
      their exit codes are a lemma of [ClientMain].  The leaf never joins its channel (C36).
    - Enumerations: what a declaration expands to (C29); their text in a
      property tree (C39).
    - The configuration is read once, and what main does without it (C40).

    ** Loops and fuel

    The loop of [processNewInput] takes a line off its input at each turn: its
    fuel is the length of the input plus the length of the unfinished line
    plus one, and the theorems show that it is never exhausted.  The decimal
    printer has the number of digits as a bound.  The loop of
    [takeOverMessages] has the length of the other queue plus one as fuel;
    running out of it is [Diverges], and C27 shows that this happens exactly
    when no fuel is enough.  All other loops are structural.

    ** Undefined behaviour

    [Undefined] is what the model can see of it: a session, channel or host
    that is not there, a null pointer, the front of an empty queue, an
    identifier read before it is written; C2 is about these.  Two cases are
    outside: the buffer of a farewell, which is destroyed while it is written,
    and a message put to a session after its farewell has been started, which
    is written at the same time.

    ** Not modelled

    - The choice of features in enum.h by compiler and option, a declaration
      without constants, and the evaluation of initializers: a constant comes
      with the value of its initializer.
    - The class Channel of NetLeaf.h and three methods of NetLeaf that are
      declared and never defined: there is no code to read.
    - What [read_ini] makes of uzel.ini, whether it throws, and the contents
      of /proc are inputs.
    - Logging (dbg.h, the format of userver's log) and the memory of objects;
      a dangling reference or an uninitialised value is [Undefined].
    - The bytes of a farewell, whose buffer is a destroyed string: [Transport]
      follows a connection until one is started, [Nodes] lets any bytes follow.
    - Threads other than the resolver's: the program runs its event loop in
      one thread. *)
From Stdlib Require Export Sorted.
From stdpp Require Export base tactics numbers list strings gmap.
From Stdlib Require Export Ascii Lia.
#[export] Set Default Goal Selector "!".

(** ** Strings

    A [std::string], [std::string_view] or [std::vector<char>] is a [string]:
    a finite sequence of bytes.  [npos] is [None]. *)

(** The line feed byte, '\n'. *)
Definition NL : ascii := "010"%char.

Definition str1 (c : ascii) : string := String c EmptyString.

(** [s.empty()] *)
Definition str_empty (s : string) : bool :=
  match s with EmptyString => true | String _ _ => false end.

(** [s.find(c)], [s.find_first_of(c)] for one character. *)
Fixpoint str_find (c : ascii) (s : string) : option nat :=
  match s with
  | EmptyString => None
  | String a s' => if decide (a = c) then Some 0 else S <$> str_find c s'
  end.

(** [s.substr(0, n)] *)
Fixpoint str_take (n : nat) (s : string) : string :=
  match n, s with
  | O, _ => EmptyString
  | S _, EmptyString => EmptyString
  | S n', String a s' => String a (str_take n' s')
  end.

(** [s.substr(n)] for [n <= s.size()], [s.remove_prefix(n)] *)
Fixpoint str_drop (n : nat) (s : string) : string :=
  match n, s with
  | O, _ => s
  | S _, EmptyString => EmptyString
  | S n', String _ s' => str_drop n' s'
  end.

(** Membership of a byte. *)
Fixpoint str_in (c : ascii) (s : string) : bool :=
  match s with
  | EmptyString => false
  | String a s' => bool_decide (a = c) || str_in c s'
  end.

(** [is >> std::ws] *)
Fixpoint skip_ws (s : string) : string :=
  match s with
  | EmptyString => EmptyString
  | String c s' => if Ascii.is_space c then skip_ws s' else s
  end.

(** The bytes, as a list. *)
Fixpoint str_list (s : string) : list ascii :=
  match s with EmptyString => [] | String c s' => c :: str_list s' end.

(** [a < b] on [std::string]: lexicographic on unsigned bytes. *)
Definition str_lt (a b : string) : bool := String.ltb a b.

Create HintDb str discriminated.
Create Rewrite HintDb strrw.

Lemma str_app_nil_l s : EmptyString +:+ s = s.
Proof. reflexivity. Qed.

Lemma str_app_cons c s t : String c s +:+ t = String c (s +:+ t).
Proof. reflexivity. Qed.

Lemma str_app_nil_r s : s +:+ EmptyString = s.
Proof. induction s as [|c s IH]; [done|]. by rewrite str_app_cons, IH. Qed.

Lemma str_app_assoc s t u : (s +:+ t) +:+ u = s +:+ (t +:+ u).
Proof. induction s as [|c s IH]; [done|]. by rewrite !str_app_cons, IH. Qed.

Lemma str_length_app s t :
  String.length (s +:+ t) = String.length s + String.length t.
Proof. induction s as [|c s IH]; [done|]. rewrite str_app_cons; simpl; lia. Qed.

#[export] Hint Rewrite str_app_nil_l str_app_nil_r str_app_cons str_app_assoc
  str_length_app : strrw.

Lemma str_empty_true s : str_empty s = true <-> s = EmptyString.
Proof. by destruct s. Qed.

Lemma str_empty_false s : str_empty s = false <-> s <> EmptyString.
Proof. by destruct s. Qed.

Lemma str_empty_decide s : str_empty s = bool_decide (s = EmptyString).
Proof. by destruct s. Qed.

Lemma str_list_length s : length (str_list s) = String.length s.
Proof. induction s; simpl; congruence. Qed.

Lemma str_list_app s t : str_list (s +:+ t) = str_list s ++ str_list t.
Proof. induction s as [|c s IH]; csimpl; [done|]. by rewrite <-IH. Qed.

Lemma str_in_app c s t : str_in c (s +:+ t) = str_in c s || str_in c t.
Proof.
  induction s as [|a s IH]; [done|]. rewrite str_app_cons; simpl.
  by rewrite IH, orb_assoc.
Qed.

Lemma str_find_None c s : str_find c s = None <-> str_in c s = false.
Proof.
  induction s as [|a s IH]; simpl; [done|].
  case_decide as Ha; [by rewrite bool_decide_eq_true_2|].
  rewrite bool_decide_eq_false_2 by done; simpl. rewrite <-IH.
  by destruct (str_find c s).
Qed.

(** The first occurrence of a byte cuts the string in three. *)
Lemma str_find_Some c s n :
  str_find c s = Some n ->
  s = str_take n s +:+ String c (str_drop (S n) s) /\ str_in c (str_take n s) = false.
Proof.
  revert n; induction s as [|a s IH]; simpl; intros n Hn; [done|].
  case_decide as Ha.
  - simplify_eq. by destruct s.
  - destruct (str_find c s) as [m|] eqn:Hm; simplify_eq/=.
    destruct (IH m eq_refl) as [Hs Hin]. split.
    + rewrite str_app_cons. by rewrite Hs at 1.
    + by rewrite bool_decide_eq_false_2.
Qed.

Lemma str_find_app c s t :
  str_in c s = false -> str_find c (s +:+ String c t) = Some (String.length s).
Proof.
  induction s as [|a s IH]; cbn [str_in]; intros Hs.
  - rewrite str_app_nil_l; simpl. by rewrite decide_True.
  - apply orb_false_iff in Hs as [Ha%bool_decide_eq_false Hs].
    rewrite str_app_cons; simpl. rewrite decide_False by done.
    by rewrite (IH Hs).
Qed.

Lemma str_take_app s t : str_take (String.length s) (s +:+ t) = s.
Proof.
  induction s as [|a s IH]; [by destruct t|].
  rewrite str_app_cons; simpl. by rewrite IH.
Qed.

Lemma str_app_inj_r s s' t : s +:+ t = s' +:+ t -> s = s'.
Proof.
  intros H. pose proof (f_equal String.length H) as Hl. rewrite !str_length_app in Hl.
  rewrite <-(str_take_app s t), H. replace (String.length s) with (String.length s') by lia.
  apply str_take_app.
Qed.

Lemma str_drop_app s t : str_drop (String.length s) (s +:+ t) = t.
Proof. induction s as [|a s IH]; [done|]. by rewrite str_app_cons; simpl. Qed.

Lemma str_drop_app_S s c t : str_drop (S (String.length s)) (s +:+ String c t) = t.
Proof.
  induction s as [|a s IH]; [done|]. rewrite str_app_cons. exact IH.
Qed.

Lemma str_length_take_drop_lt c s n :
  str_find c s = Some n -> String.length (str_drop (S n) s) < String.length s.
Proof.
  intros [Hs _]%str_find_Some. rewrite Hs at 2. autorewrite with strrw; simpl. lia.
Qed.

(** The order of [std::string] is a strict total order. *)
Lemma str_lt_irrefl s : str_lt s s = false.
Proof.
  unfold str_lt, String.ltb. pose proof (String.compare_antisym s s) as H.
  by destruct (String.compare s s).
Qed.

Lemma str_lt_total s t : s <> t -> str_lt s t = negb (str_lt t s).
Proof.
  intros Hne. unfold str_lt, String.ltb. rewrite String.compare_antisym.
  destruct (String.compare t s) eqn:Hc; [|done..].
  apply String.compare_eq_iff in Hc. by destruct Hne.
Qed.
