(* ===== verification/Effects.v ===== *)
(** * Effects: state, exceptions and undefined behaviour

    C++ code that mutates objects and may throw is a function of type [M W A]:
    from a state [W] to an outcome and the state reached.  A thrown exception
    keeps the mutations made before it; [catch_all] is [catch (...)].
    [Undefined] is undefined behaviour of the language or of a library
    contract (an indeterminate value read, [pop_front] of an empty deque, a
    null pointer dereferenced), [Diverges] a loop that does not end: neither
    can be caught.  An exception may also be kept by the thread that runs the
    event loop, which throws it when the running handler has returned
    ([captured], [run_one]). *)
From S2P Require Import Prelude.

(** The exceptions the program or its libraries throw. *)
Inductive exn :=
  | logic_error (what : string)        (* std::logic_error *)
  | runtime_error (what : string)      (* std::runtime_error *)
  | ptree_bad_path (path : string)     (* boost::property_tree::ptree_bad_path *)
  | json_parser_error                  (* boost::property_tree::json_parser_error *)
  | system_error                       (* boost::system::system_error *)
  | multiple_exceptions.               (* boost::asio::multiple_exceptions *)

#[export] Instance exn_eq_dec : EqDecision exn.
Proof. solve_decision. Defined.

Inductive outcome (A : Type) :=
  | Ok (a : A)
  | Throw (e : exn)
  | Undefined
  | Diverges.
Arguments Ok {A} a.
Arguments Throw {A} e.
Arguments Undefined {A}.
Arguments Diverges {A}.

Definition M (W A : Type) : Type := W -> outcome A * W.

Section ops.
Context {W : Type}.

Definition ret {A} (a : A) : M W A := fun w => (Ok a, w).

Definition bind {A B} (m : M W A) (k : A -> M W B) : M W B := fun w =>
  match m w with
  | (Ok a, w') => k a w'
  | (Throw e, w') => (Throw e, w')
  | (Undefined, w') => (Undefined, w')
  | (Diverges, w') => (Diverges, w')
  end.

Definition gets {A} (f : W -> A) : M W A := fun w => (Ok (f w), w).
Definition modify (f : W -> W) : M W unit := fun w => (Ok tt, f w).
Definition throw {A} (e : exn) : M W A := fun w => (Throw e, w).
Definition ub {A} : M W A := fun w => (Undefined, w).
Definition diverge {A} : M W A := fun w => (Diverges, w).

(** [try { m } catch (...) { h }] *)
Definition catch_all {A} (m h : M W A) : M W A := fun w =>
  match m w with
  | (Throw _, w') => h w'
  | r => r
  end.

(** A value computed by code that may throw and does not touch [W]. *)
Definition lift {A} (o : outcome A) : M W A := fun w => (o, w).

Definition when (b : bool) (m : M W unit) : M W unit :=
  if b then m else ret tt.

(** [for (x : l) f(x);] *)
Fixpoint for_each {A} (l : list A) (f : A -> M W unit) : M W unit :=
  match l with
  | [] => ret tt
  | x :: l' => bind (f x) (fun _ => for_each l' f)
  end.

Definition of_option {A} (e : exn) (o : option A) : outcome A :=
  match o with Some a => Ok a | None => Throw e end.
End ops.

(** ** The thread of the event loop

    A function that boost::asio::dispatch runs at once, because the caller is
    already inside io_context::run, does not throw into the caller: the
    executor keeps the exception in the data of the thread
    (thread_info_base::capture_current_exception; a second one replaces it by
    multiple_exceptions), and run throws it when the handler that runs has
    returned (scheduler::do_run_one, rethrow_pending_exception). *)
Class Thread (W : Type) := {
  raised : W -> option exn;              (* the exception that is pending *)
  set_raised : option exn -> W -> W;
}.

Section Thread.
Context {W : Type} {TH : Thread W}.

Definition capture (e : exn) (pending : option exn) : option exn :=
  Some (match pending with None => e | Some _ => multiple_exceptions end).

Definition captured (m : M W unit) : M W unit := fun w =>
  match m w with
  | (Throw e, w') => (Ok tt, set_raised (capture e (raised w')) w')
  | r => r
  end.

Definition rethrow : M W unit := fun w =>
  match raised w with
  | None => (Ok tt, w)
  | Some e => (Throw e, set_raised None w)
  end.

(** One completion handler, run by the event loop. *)
Definition run_one (m : M W unit) : M W unit := bind m (fun _ => rethrow).
End Thread.

(** An operation of a part of the state is an operation of the whole. *)
Definition zoom {W V A} (get : W -> V) (set : V -> W -> W) (m : M V A) : M W A :=
  fun w => let '(o, v) := m (get w) in (o, set v w).

Declare Scope uzel_scope.
Delimit Scope uzel_scope with uzel.
Notation "x <- m ;; k" := (bind m (fun x => k))
  (at level 100, m at next level, right associativity,
   format "x  <-  m  ;;  '//' k") : uzel_scope.
Notation "m ;; k" := (bind m (fun _ => k))
  (at level 100, right associativity, format "m  ;;  '//' k") : uzel_scope.
#[global] Open Scope uzel_scope.

(** ** Invariants

    [preserves I m]: from a state with [I], [m] ends in a state with [I],
    however it ends.  The rules are in the hint database [preserve]. *)

Definition preserves {W A} (I : W -> Prop) (m : M W A) : Prop :=
  forall w, I w -> I (m w).2.

(** [hoare P m Q]: from [P], if [m] returns [a] then [Q a] holds, and in any
    case it does not run into undefined behaviour and ends. *)
Definition hoare {W A} (P : W -> Prop) (m : M W A) (Q : A -> W -> Prop)
    (E : exn -> W -> Prop) : Prop :=
  forall w, P w ->
    match m w with
    | (Ok a, w') => Q a w'
    | (Throw e, w') => E e w'
    | _ => False
    end.

Create HintDb preserve.

Section rules.
Context {W : Type}.
Implicit Types (I P : W -> Prop).

Lemma preserves_ret {A} I (a : A) : preserves I (ret a).
Proof. by intros w. Qed.

Lemma preserves_bind {A B} I (m : M W A) (k : A -> M W B) :
  preserves I m -> (forall a, preserves I (k a)) -> preserves I (bind m k).
Proof.
  intros Hm Hk w Hw. unfold bind. specialize (Hm w Hw).
  destruct (m w) as [[a|e| |] w']; simpl in *; auto. by apply Hk.
Qed.

Lemma preserves_gets {A} I (f : W -> A) : preserves I (gets f).
Proof. by intros w. Qed.

Lemma preserves_modify I f : (forall w, I w -> I (f w)) -> preserves I (modify f).
Proof. intros Hf w Hw. by apply Hf. Qed.

Lemma preserves_throw {A} I e : preserves I (@throw W A e).
Proof. by intros w. Qed.

Lemma preserves_ub {A} I : preserves I (@ub W A).
Proof. by intros w. Qed.

Lemma preserves_diverge {A} I : preserves I (@diverge W A).
Proof. by intros w. Qed.

Lemma preserves_lift {A} I (o : outcome A) : preserves I (lift o).
Proof. by intros w. Qed.

Lemma preserves_catch_all {A} I (m h : M W A) :
  preserves I m -> preserves I h -> preserves I (catch_all m h).
Proof.
  intros Hm Hh w Hw. unfold catch_all. specialize (Hm w Hw).
  destruct (m w) as [[a|e| |] w']; simpl in *; auto.
Qed.

Lemma preserves_when I b m : preserves I m -> preserves I (when b m).
Proof. intros Hm. destruct b; [exact Hm|apply preserves_ret]. Qed.

Lemma preserves_for_each {A} I (l : list A) f :
  (forall x, x ∈ l -> preserves I (f x)) -> preserves I (for_each l f).
Proof.
  induction l as [|x l IH]; simpl; intros Hf; [intros w Hw; exact Hw|].
  apply preserves_bind; [by apply Hf; left|].
  intros _. apply IH. intros y Hy. apply Hf. by right.
Qed.

Lemma preserves_zoom {V A} I (J : V -> Prop) get set (m : M V A) :
  preserves J m ->
  (forall w, I w -> J (get w)) ->
  (forall w v, I w -> J v -> I (set v w)) ->
  preserves I (zoom get set m).
Proof.
  intros Hm Hget Hset w Hw. unfold zoom.
  specialize (Hm (get w) (Hget w Hw)). destruct (m (get w)) as [o v]; simpl in *.
  by apply Hset.
Qed.

Lemma preserves_if {A} I (b : bool) (m n : M W A) :
  preserves I m -> preserves I n -> preserves I (if b then m else n).
Proof. intros Hm Hn. destruct b; [exact Hm|exact Hn]. Qed.

(** [catch (...)] never lets an exception out of the handler's reach. *)
Lemma catch_all_no_throw {A} (m h : M W A) w e :
  (forall w', (h w').1 <> Throw e) -> (catch_all m h w).1 <> Throw e.
Proof.
  intros Hh. unfold catch_all. by destruct (m w) as [[a|e'| |] w'].
Qed.

Lemma bind_ok {A B} (m : M W A) (k : A -> M W B) w a w' :
  m w = (Ok a, w') -> bind m k w = k a w'.
Proof. intros Hm. unfold bind. by rewrite Hm. Qed.

Lemma bind_assoc {A B C} (m : M W A) (k : A -> M W B) (l : B -> M W C) w :
  bind (bind m k) l w = bind m (fun a => bind (k a) l) w.
Proof. unfold bind. by destruct (m w) as [[]?]. Qed.

Lemma bind_ext {A B} (m : M W A) (k k' : A -> M W B) w :
  (forall a w', k a w' = k' a w') -> bind m k w = bind m k' w.
Proof. intros Hk. unfold bind. by destruct (m w) as [[]?]. Qed.

Lemma for_each_app {A} (l1 l2 : list A) (f : A -> M W unit) w :
  for_each (l1 ++ l2) f w = bind (for_each l1 f) (fun _ => for_each l2 f) w.
Proof.
  revert w; induction l1 as [|x l1 IH]; intros w; [done|].
  simpl. rewrite bind_assoc. unfold bind. by destruct (f x w) as [[]?].
Qed.
End rules.

Section thread_rules.
Context {W : Type} {TH : Thread W}.
Implicit Types (I : W -> Prop).

Lemma preserves_captured I m :
  preserves I m -> (forall v w, I w -> I (set_raised v w)) -> preserves I (captured m).
Proof.
  intros Hm Hs w Hw. specialize (Hm w Hw). unfold captured.
  destruct (m w) as [[[]|e| |] w']; simpl in *; auto.
Qed.

Lemma preserves_run_one I m :
  preserves I m -> (forall v w, I w -> I (set_raised v w)) -> preserves I (run_one m).
Proof.
  intros Hm Hs. apply preserves_bind; [done|]. intros _ w Hw. unfold rethrow.
  destruct (raised w); simpl; auto.
Qed.

(** A turn that returns is a handler that returned with nothing pending. *)
Lemma run_one_inv m w w' :
  run_one m w = (Ok tt, w') -> m w = (Ok tt, w') /\ raised w' = None.
Proof.
  unfold run_one, bind, rethrow. destruct (m w) as [[[]|e| |] w1]; try done.
  destruct (raised w1) eqn:Hr; [done|]. by intros [= <-].
Qed.

Lemma run_one_ok m w w' : m w = (Ok tt, w') -> raised w' = None -> run_one m w = (Ok tt, w').
Proof. intros E Hr. unfold run_one, bind, rethrow. by rewrite E, Hr. Qed.

(** A turn that throws: the handler did, or it returned with the exception
    pending. *)
Lemma run_one_throws m w e w' :
  run_one m w = (Throw e, w') ->
  m w = (Throw e, w') \/ exists w1, m w = (Ok tt, w1) /\ raised w1 = Some e.
Proof.
  unfold run_one, bind, rethrow. destruct (m w) as [[[]|e1| |] w1] eqn:E; try done.
  - destruct (raised w1) eqn:Hr; [|done]. intros [= <- _]. right. by exists w1.
  - intros [= -> ->]. by left.
Qed.

Lemma run_one_undefined m w : (run_one m w).1 = Undefined <-> (m w).1 = Undefined.
Proof.
  unfold run_one, bind, rethrow. destruct (m w) as [[[]|e| |] w1]; try done.
  by destruct (raised w1).
Qed.

Lemma run_one_diverges m w : (run_one m w).1 = Diverges <-> (m w).1 = Diverges.
Proof.
  unfold run_one, bind, rethrow. destruct (m w) as [[[]|e| |] w1]; try done.
  by destruct (raised w1).
Qed.
End thread_rules.

#[export] Hint Resolve preserves_ret preserves_bind preserves_gets preserves_throw
  preserves_ub preserves_diverge preserves_lift preserves_catch_all
  preserves_when preserves_if : preserve.
#[export] Hint Extern 2 (preserves _ (match ?x with _ => _ end)) => destruct x : preserve.

(** ** Safety

    [safe D I m]: from a state with [I], [m] does not run into undefined
    behaviour, ends unless [D], throws nothing but a [foreign] exception, and
    when it returns or throws [I] holds again.
    [safe_at] is the same of one state, for steps that depend on what was
    read before. *)

(** A message cannot be written or has no name, or several of one block have
    none; not the std::logic_error of a method of the program. *)
Definition foreign (e : exn) : Prop :=
  match e with
  | json_parser_error | multiple_exceptions => True
  | ptree_bad_path path => path = "cname"
  | _ => False
  end.

Definition harmless {A} (o : outcome A) : Prop :=
  match o with Ok _ => True | Throw e => foreign e | _ => False end.

Definition safe_at {W A} (D : Prop) (I : W -> Prop) (m : M W A) (w : W) : Prop :=
  match m w with
  | (Ok _, w') => I w'
  | (Throw e, w') => foreign e /\ I w'
  | (Undefined, _) => False
  | (Diverges, _) => D
  end.
Definition safe {W A} (D : Prop) (I : W -> Prop) (m : M W A) : Prop :=
  forall w, I w -> safe_at D I m w.

Create HintDb safety.

Section safe_rules.
Context {W : Type}.
Implicit Types (D : Prop) (I : W -> Prop).

Lemma safe_at_bind {A B} D I (m : M W A) (k : A -> M W B) w :
  safe_at D I m w -> (forall a w', m w = (Ok a, w') -> I w' -> safe_at D I (k a) w') ->
  safe_at D I (bind m k) w.
Proof.
  unfold safe_at at 1 3, bind. intros Hm Hk. destruct (m w) as [[a|e| |] w']; try done. by apply Hk.
Qed.

Lemma safe_at_ok {A B} D I (m : M W A) (k : A -> M W B) w a w' :
  m w = (Ok a, w') -> safe_at D I (k a) w' -> safe_at D I (bind m k) w.
Proof. unfold safe_at, bind. by intros ->. Qed.

Lemma safe_at_weaken {A} D D' I I' (m : M W A) w :
  (D -> D') -> (forall w', I w' -> I' w') -> safe_at D I m w -> safe_at D' I' m w.
Proof. unfold safe_at. destruct (m w) as [[a|e| |] w']; naive_solver. Qed.

Lemma safe_at_also {A} D I I' (m : M W A) w :
  safe_at D I m w -> I' (m w).2 -> safe_at D (fun w' => I w' /\ I' w') m w.
Proof. unfold safe_at. destruct (m w) as [[a|e| |] w']; naive_solver. Qed.

Lemma safe_ret {A} D I (a : A) : safe D I (ret a).
Proof. by intros w. Qed.

Lemma safe_bind {A B} D I (m : M W A) (k : A -> M W B) :
  safe D I m -> (forall a, safe D I (k a)) -> safe D I (bind m k).
Proof. intros Hm Hk w Hw. apply safe_at_bind; [by apply Hm|]. intros a w' _. apply Hk. Qed.

Lemma safe_gets {A} D I (f : W -> A) : safe D I (gets f).
Proof. by intros w. Qed.

Lemma safe_modify D I f : (forall w, I w -> I (f w)) -> safe D I (modify f).
Proof. intros Hf w Hw. by apply Hf. Qed.

Lemma safe_lift {A} D I (o : outcome A) :
  harmless o -> safe D I (lift o).
Proof. intros Ho w Hw. unfold safe_at, lift. by destruct o. Qed.

Lemma safe_catch_all {A} D I (m h : M W A) : safe D I m -> safe D I h -> safe D I (catch_all m h).
Proof.
  intros Hm Hh w Hw. specialize (Hm w Hw). unfold safe_at, catch_all in *.
  destruct (m w) as [[a|e| |] w']; try done. by apply Hh, Hm.
Qed.

Lemma safe_when D I b m : safe D I m -> safe D I (when b m).
Proof. intros Hm. destruct b; [exact Hm|apply safe_ret]. Qed.

Lemma safe_if {A} D I (b : bool) (m n : M W A) : safe D I m -> safe D I n -> safe D I (if b then m else n).
Proof. by destruct b. Qed.

Lemma safe_for_each {A} D I (l : list A) f :
  (forall x, x ∈ l -> safe D I (f x)) -> safe D I (for_each l f).
Proof.
  induction l as [|x l IH]; simpl; intros Hf; [apply safe_ret|].
  apply safe_bind; [by apply Hf; left|]. intros _. apply IH. intros y Hy. apply Hf. by right.
Qed.

Lemma safe_zoom {V A} D I (J : V -> Prop) get set (m : M V A) :
  safe D J m -> (forall w, I w -> J (get w)) -> (forall w v, I w -> J v -> I (set v w)) ->
  safe D I (zoom get set m).
Proof.
  intros Hm Hget Hset w Hw. specialize (Hm _ (Hget w Hw)). unfold safe_at, zoom in *.
  destruct (m (get w)) as [[a|e| |] v]; naive_solver.
Qed.
End safe_rules.

#[export] Hint Resolve safe_ret safe_bind safe_gets safe_catch_all safe_when safe_if : safety.
#[export] Hint Extern 2 (safe _ _ (match ?x with _ => _ end)) => destruct x : safety.

(** Runs a monadic computation on concrete constructors. *)
Ltac run_m := unfold bind, ret, gets, modify, throw, ub, diverge, lift, when, zoom;
              simpl.
