(* ===== verification/BetterEnum.v ===== *)
(** * BetterEnum: the run-time part of the enum library (src/uzel/enum.h)

    [BETTER_ENUM(Enum, Underlying, ...)] declares a class with an array of
    its values and an array of its names as written, initializers included.
    An instance of the class [BetterEnum] gives these arrays; the functions
    are those of the library; [BetterEnumOk] is what a declaration must
    satisfy.  C strings are [string]s without NUL, the end of a [string]
    standing for the terminator. *)
From S2P Require Import Prelude Effects.

Class BetterEnum (E : Type) := {
  underlying : Z -> Z;            (* conversion to the underlying type *)
  to_integral : E -> Z;           (* _to_integral *)
  value_array : list E;           (* _value_array *)
  raw_names : list string;        (* _raw_names: the stringized enumerators *)
}.

Definition NUL : ascii := "000"%char.

(** [_ends_name]: one of "= \t\n" or the terminator. *)
Definition ends_name (c : ascii) : bool :=
  bool_decide (c = "="%char) || bool_decide (c = " "%char) ||
  bool_decide (c = "009"%char) || bool_decide (c = NL) || bool_decide (c = NUL).

(** [_has_initializer] *)
Fixpoint has_initializer (s : string) : bool :=
  match s with
  | EmptyString => false
  | String c s' => if decide (c = "="%char) then true else has_initializer s'
  end.

(** [_constant_length] *)
Fixpoint constant_length (s : string) : nat :=
  match s with
  | EmptyString => 0
  | String c s' => if ends_name c then 0 else S (constant_length s')
  end.

(** [_to_lower_ascii] *)
Definition to_lower_ascii (c : ascii) : ascii :=
  let n := nat_of_ascii c in
  if (65 <=? n)%nat && (n <=? 90)%nat then ascii_of_nat (n + 32) else c.

(** [_names_match] and [_names_match_nocase], [f] being the identity or
    [_to_lower_ascii]. *)
Fixpoint names_match_by (f : ascii -> ascii) (stringizedName referenceName : string) : bool :=
  match stringizedName with
  | EmptyString => str_empty referenceName
  | String a s =>
      if ends_name a then str_empty referenceName
      else
        match referenceName with
        | EmptyString => false
        | String b r => if decide (f a <> f b) then false else names_match_by f s r
        end
  end.
Definition names_match : string -> string -> bool := names_match_by id.
Definition names_match_nocase : string -> string -> bool := names_match_by to_lower_ascii.

(** [_trim_names]: [storage] holds the raw names, each followed by one
    character; a NUL is written at the end of each name, and the trimmed name
    [index] is the C string at its offset. *)
Definition reserve_storage (names : list string) : list ascii :=
  concat ((fun n => str_list n ++ [","%char]) <$> names).

Fixpoint trim_loop (names : list string) (offset : nat) (storage : list ascii)
    : list nat * list ascii :=
  match names with
  | [] => ([], storage)
  | n :: names' =>
      let trimmed_length := constant_length n in
      let storage := <[offset + trimmed_length := NUL]> storage in
      let '(offs, storage) := trim_loop names' (offset + (String.length n + 1)) storage in
      (offset :: offs, storage)
  end.

(** The C string at the start of [l]. *)
Fixpoint c_str (l : list ascii) : string :=
  match l with
  | [] => EmptyString
  | c :: l' => if decide (c = NUL) then EmptyString else String c (c_str l')
  end.

Definition trim_names (names : list string) : list string :=
  let '(offs, storage) := trim_loop names 0 (reserve_storage names) in
  (fun o => c_str (drop o storage)) <$> offs.

Section Enum.
Context {E : Type} {BE : BetterEnum E}.

(** [_from_value_loop]: the index of the first enumerator with the value. *)
Fixpoint from_value_loop_in (l : list E) (value : Z) (index : nat) : option nat :=
  match l with
  | [] => None
  | e :: l' =>
      if decide (to_integral e = value) then Some index
      else from_value_loop_in l' value (S index)
  end.
Definition from_value_loop (value : Z) : option nat :=
  from_value_loop_in value_array value 0.

(** [_from_string_loop], [_from_string_nocase_loop] *)
Fixpoint from_string_loop_in (match_ : string -> string -> bool) (l : list string)
    (name : string) (index : nat) : option nat :=
  match l with
  | [] => None
  | n :: l' =>
      if match_ n name then Some index
      else from_string_loop_in match_ l' name (S index)
  end.
Definition from_string_loop (name : string) : option nat :=
  from_string_loop_in names_match raw_names name 0.
Definition from_string_nocase_loop (name : string) : option nat :=
  from_string_loop_in names_match_nocase raw_names name 0.

(** [_map_index] *)
Definition map_index {A} (array : list A) (index : option nat) : option A :=
  index ≫= fun i => array !! i.

Definition from_integral_nothrow (value : Z) : option E :=
  map_index value_array (from_value_loop (underlying value)).
Definition from_integral (value : Z) : outcome E :=
  of_option (runtime_error "_from_integral: invalid argument") (from_integral_nothrow value).
(** [_to_string]; [None] is the null pointer. *)
Definition to_string (e : E) : option string :=
  map_index (trim_names raw_names) (from_value_loop (to_integral e)).
Definition from_string_nothrow (name : string) : option E :=
  map_index value_array (from_string_loop name).
Definition from_string (name : string) : outcome E :=
  of_option (runtime_error "_from_string: invalid argument") (from_string_nothrow name).
Definition from_string_nocase_nothrow (name : string) : option E :=
  map_index value_array (from_string_nocase_loop name).
Definition is_valid (value : Z) : bool := bool_decide (is_Some (from_value_loop (underlying value))).
Definition is_valid_name (name : string) : bool :=
  bool_decide (is_Some (from_string_loop name)).
End Enum.

(** What a declaration must satisfy for the conversions to be inverses. *)
Class BetterEnumOk (E : Type) {BE : BetterEnum E} := {
  be_length : length raw_names = length (value_array : list E);
  be_complete (e : E) : e ∈ value_array;
  be_inj (e e' : E) : to_integral e = to_integral e' -> e = e';
  be_nodup : NoDup (value_array : list E);
  be_underlying (e : E) : underlying (to_integral e) = to_integral e;
  be_names_nodup : NoDup ((fun n => str_take (constant_length n) n) <$> raw_names);
  be_no_nul : Forall (fun n => str_in NUL n = false) raw_names;
}.

(** ** Lemmas *)

Definition trim (n : string) : string := str_take (constant_length n) n.

(** A string through [f], one character at a time. *)
Fixpoint str_map (f : ascii -> ascii) (s : string) : string :=
  match s with
  | EmptyString => EmptyString
  | String c s' => String (f c) (str_map f s')
  end.

Lemma names_match_by_spec f s r :
  names_match_by f s r = bool_decide (str_map f (trim s) = str_map f r).
Proof.
  unfold trim. revert r; induction s as [|a s IH]; intros r; simpl.
  - rewrite str_empty_decide. apply bool_decide_ext. by destruct r.
  - destruct (ends_name a) eqn:Ha; simpl.
    + rewrite str_empty_decide. apply bool_decide_ext. by destruct r.
    + destruct r as [|b r]; [by rewrite bool_decide_eq_false_2|]. simpl.
      destruct (decide (f a = f b)) as [Hab|Hab].
      * rewrite decide_False by (intros H; by apply H). rewrite IH.
        apply bool_decide_ext. rewrite Hab. split; [by intros ->|by intros [= ->]].
      * rewrite decide_True by done. by rewrite bool_decide_eq_false_2 by naive_solver.
Qed.

Lemma str_map_id s : str_map id s = s.
Proof. induction s as [|c s IH]; [done|]. simpl. by rewrite IH. Qed.

Lemma names_match_spec s r : names_match s r = bool_decide (trim s = r).
Proof. unfold names_match. by rewrite names_match_by_spec, !str_map_id. Qed.

Lemma from_value_loop_in_spec {E} {BE : BetterEnum E} (l : list E) v i :
  match from_value_loop_in l v i with
  | Some j => exists e, i <= j /\ l !! (j - i) = Some e /\ to_integral e = v
  | None => Forall (fun e => to_integral e <> v) l
  end.
Proof.
  revert i; induction l as [|e l IH]; intros i; simpl; [done|].
  destruct (decide (to_integral e = v)) as [He|He].
  - exists e. by rewrite Nat.sub_diag.
  - specialize (IH (S i)). destruct (from_value_loop_in l v (S i)) as [j|].
    + destruct IH as (e' & Hle & Hl & Hv). exists e'. split_and!; [lia| |done].
      by replace (j - i) with (S (j - S i)) by lia.
    + by constructor.
Qed.

Lemma from_string_loop_in_spec m (l : list string) name i :
  match from_string_loop_in m l name i with
  | Some j => exists n, i <= j /\ l !! (j - i) = Some n /\ m n name = true /\
                Forall (fun n' => m n' name = false) (take (j - i) l)
  | None => Forall (fun n => m n name = false) l
  end.
Proof.
  revert i; induction l as [|n l IH]; intros i; simpl; [done|].
  destruct (m n name) eqn:Hn.
  - exists n. by rewrite Nat.sub_diag.
  - specialize (IH (S i)). destruct (from_string_loop_in m l name (S i)) as [j|].
    + destruct IH as (n' & Hle & Hl & Hm & Hf). exists n'.
      replace (j - i) with (S (j - S i)) by lia. split_and!; [lia|done|done|].
      simpl. by constructor.
    + by constructor.
Qed.

(** *** The trimmed names *)

Lemma constant_length_le n : constant_length n <= String.length n.
Proof. induction n as [|c n IH]; simpl; [lia|]. destruct (ends_name c); lia. Qed.

(** One name of the storage with its NUL written. *)
Definition marked (n : string) : list ascii :=
  <[constant_length n := NUL]> (str_list n ++ [","%char]).

Lemma marked_length n : length (marked n) = String.length n + 1.
Proof. unfold marked. rewrite length_insert, length_app, str_list_length. done. Qed.

Lemma c_str_marked n rest : str_in NUL n = false -> c_str (marked n ++ rest) = trim n.
Proof.
  unfold marked, trim. induction n as [|c n IH]; intros Hn; [done|].
  simpl in Hn. apply orb_false_iff in Hn as [Hc%bool_decide_eq_false Hn].
  simpl. destruct (ends_name c); simpl; [done|].
  rewrite decide_False by done. by rewrite <-IH.
Qed.

Fixpoint offsets (names : list string) (offset : nat) : list nat :=
  match names with
  | [] => []
  | n :: names' => offset :: offsets names' (offset + (String.length n + 1))
  end.

Lemma trim_loop_spec names pre post :
  trim_loop names (length pre) (pre ++ reserve_storage names ++ post) =
  (offsets names (length pre), pre ++ concat (marked <$> names) ++ post).
Proof.
  revert pre; induction names as [|n names IH]; intros pre; [done|].
  assert (length pre + (String.length n + 1) = length (pre ++ marked n)) as Hoff
    by (rewrite length_app, marked_length; lia).
  assert (<[length pre + constant_length n := NUL]>
            (pre ++ reserve_storage (n :: names) ++ post) =
          (pre ++ marked n) ++ reserve_storage names ++ post) as Hst.
  { change (reserve_storage (n :: names))
      with ((str_list n ++ [","%char]) ++ reserve_storage names).
    rewrite <-(app_assoc _ (reserve_storage names)), insert_app_r, insert_app_l.
    - by rewrite <-app_assoc.
    - rewrite length_app, str_list_length; simpl. pose proof (constant_length_le n). lia. }
  cbn [trim_loop]. rewrite Hst, Hoff, IH. simpl. by rewrite <-!app_assoc, Hoff.
Qed.

Lemma offsets_c_str names pre post :
  Forall (fun n => str_in NUL n = false) names ->
  (fun o => c_str (drop o (pre ++ concat (marked <$> names) ++ post)))
    <$> offsets names (length pre)
  = trim <$> names.
Proof.
  revert pre; induction names as [|n names IH]; intros pre Hn; [done|].
  apply Forall_cons in Hn as [Hn Hns]. cbn [offsets]. rewrite !fmap_cons. cbn [concat].
  f_equal.
  - by rewrite drop_app_length, <-app_assoc, c_str_marked.
  - rewrite <-(IH (pre ++ marked n)) by done.
    rewrite length_app, marked_length. by rewrite <-!app_assoc.
Qed.

Lemma trim_names_spec names :
  Forall (fun n => str_in NUL n = false) names -> trim_names names = trim <$> names.
Proof.
  intros Hn. unfold trim_names.
  pose proof (trim_loop_spec names [] []) as Ht. simpl in Ht. rewrite app_nil_r in Ht.
  rewrite Ht. by apply (offsets_c_str names [] []).
Qed.

Section Enum_lemmas.
Context {E : Type} {BE : BetterEnum E} {OK : BetterEnumOk E}.

Lemma from_value_loop_complete (e : E) :
  exists i, from_value_loop (to_integral e) = Some i /\ value_array !! i = Some e.
Proof.
  pose proof (from_value_loop_in_spec value_array (to_integral e) 0) as H.
  unfold from_value_loop. destruct (from_value_loop_in _ _ _) as [i|].
  - destruct H as (e' & _ & Hl & Hv). rewrite Nat.sub_0_r in Hl.
    apply be_inj in Hv as ->. eauto.
  - rewrite Forall_forall in H. by destruct (H e (be_complete e)).
Qed.

Lemma to_string_lookup (e : E) i :
  value_array !! i = Some e -> to_string e = trim <$> raw_names !! i.
Proof.
  intros Hi. destruct (from_value_loop_complete e) as (j & Hj & Hlj).
  unfold to_string. rewrite Hj; simpl. rewrite trim_names_spec by apply be_no_nul.
  rewrite list_lookup_fmap. do 2 f_equal.
  by apply (NoDup_lookup value_array j i e be_nodup).
Qed.

(** The first raw name that trims to [s] is the only one. *)
Lemma from_string_loop_lookup i n :
  raw_names !! i = Some n -> from_string_loop (trim n) = Some i.
Proof.
  intros Hi. pose proof (from_string_loop_in_spec names_match raw_names (trim n) 0) as H.
  unfold from_string_loop. destruct (from_string_loop_in _ _ _ _) as [j|].
  - destruct H as (n' & _ & Hl & Hm & _). rewrite Nat.sub_0_r in Hl.
    rewrite names_match_spec in Hm. apply bool_decide_eq_true in Hm.
    f_equal. apply (NoDup_lookup (trim <$> raw_names) j i (trim n) be_names_nodup);
      rewrite list_lookup_fmap; [by rewrite Hl; simpl; rewrite Hm|by rewrite Hi].
  - rewrite Forall_forall in H.
    specialize (H n (list_elem_of_lookup_2 _ _ _ Hi)).
    rewrite names_match_spec in H. by apply bool_decide_eq_false in H.
Qed.

(** _from_integral accepts exactly the integers of the declared values. *)
Lemma from_integral_spec (v : Z) (e : E) :
  from_integral_nothrow v = Some e <-> underlying v = to_integral e.
Proof.
  unfold from_integral_nothrow. split.
  - pose proof (from_value_loop_in_spec value_array (underlying v) 0) as H.
    unfold from_value_loop. destruct (from_value_loop_in _ _ _) as [i|]; [|done].
    destruct H as (e' & _ & Hl & Hv). rewrite Nat.sub_0_r in Hl. simpl. rewrite Hl.
    intros [= ->]. done.
  - intros ->. destruct (from_value_loop_complete e) as (i & -> & Hi). done.
Qed.

(** For every declared enumeration the name that _to_string yields, which is
    the written name trimmed of its initializer in the reserved storage, is
    turned back into the value by _from_string. *)
Lemma from_string_to_string (e : E) :
  exists name, to_string e = Some name /\ from_string name = Ok e.
Proof.
  destruct (list_elem_of_lookup_1 _ _ (be_complete e)) as [i Hi].
  destruct (lookup_lt_is_Some_2 raw_names i) as [n Hn].
  { rewrite be_length. by apply lookup_lt_is_Some_1. }
  exists (trim n). split.
  - by rewrite (to_string_lookup e i Hi), Hn.
  - unfold from_string, from_string_nothrow.
    rewrite (from_string_loop_lookup i n Hn); simpl. by rewrite Hi.
Qed.
End Enum_lemmas.
