(* ===== verification/Priority.v ===== *)
(** * Priority: the enumerations and the integer translator
    (src/uzel/priority.h; Direction of session.h, HostStatus of
    OutgoingManager.h)

    [get_value] and [put_value] are the translator that reads and writes an
    enumeration in a property tree as a decimal integer. *)
From S2P Require Import Prelude Effects BetterEnum.

(** BETTER_ENUM(Priority, uint16_t, undefined=255, low = 0, high = 10, control) *)
Inductive Priority := undefined | low | high | control.

#[export] Instance Priority_eq_dec : EqDecision Priority.
Proof. solve_decision. Defined.

Definition uint16 (v : Z) : Z := (v mod 65536)%Z.
Definition uint8 (v : Z) : Z := (v mod 256)%Z.
Definition int8 (v : Z) : Z := ((v + 128) mod 256 - 128)%Z.

#[export] Instance Priority_enum : BetterEnum Priority := {
  underlying := uint16;
  to_integral p := match p with undefined => 255 | low => 0 | high => 10 | control => 11 end%Z;
  value_array := [undefined; low; high; control];
  raw_names := ["undefined=255"; "low = 0"; "high = 10"; "control"];
}.

(** BETTER_ENUM(Direction, uint8_t, incoming = 0, outgoing) *)
Inductive Direction := incoming | outgoing.

#[export] Instance Direction_eq_dec : EqDecision Direction.
Proof. solve_decision. Defined.

#[export] Instance Direction_enum : BetterEnum Direction := {
  underlying := uint8;
  to_integral d := match d with incoming => 0 | outgoing => 1 end%Z;
  value_array := [incoming; outgoing];
  raw_names := ["incoming = 0"; "outgoing"];
}.

(** BETTER_ENUM(HostStatus, int8_t, initial, ...) *)
Inductive HostStatus :=
  initial | resolving | resolving_error | connecting | connection_error | connected | closed.

#[export] Instance HostStatus_eq_dec : EqDecision HostStatus.
Proof. solve_decision. Defined.

#[export] Instance HostStatus_enum : BetterEnum HostStatus := {
  underlying := int8;
  to_integral s := match s with
    | initial => 0 | resolving => 1 | resolving_error => 2 | connecting => 3
    | connection_error => 4 | connected => 5 | closed => 6 end%Z;
  value_array :=
    [initial; resolving; resolving_error; connecting; connection_error; connected; closed];
  raw_names := ["initial"; "resolving"; "resolving_error"; "connecting";
                "connection_error"; "connected"; "closed"];
}.

Ltac solve_enum_ok :=
  split;
  [ reflexivity
  | intros []; apply (bool_decide_unpack _); reflexivity
  | intros [] []; (reflexivity || discriminate)
  | apply (bool_decide_unpack _); reflexivity
  | intros []; reflexivity
  | apply (bool_decide_unpack _); reflexivity
  | repeat constructor ].

#[export] Instance Priority_ok : BetterEnumOk Priority.
Proof. solve_enum_ok. Qed.
#[export] Instance Direction_ok : BetterEnumOk Direction.
Proof. solve_enum_ok. Qed.
#[export] Instance HostStatus_ok : BetterEnumOk HostStatus.
Proof. solve_enum_ok. Qed.

(** ** Decimal integers of the standard library *)

Definition digit_of (d : Z) : ascii := ascii_of_nat (48 + Z.to_nat d).
Definition digit_val (c : ascii) : option Z :=
  let n := nat_of_ascii c in
  if (48 <=? n)%nat && (n <=? 57)%nat then Some (Z.of_nat n - 48)%Z else None.

#[global] Arguments digit_of : simpl never.
#[global] Arguments digit_val : simpl never.

(** [std::to_string] of a non-negative integer; [fuel] bounds the digits. *)
Fixpoint dec_go (fuel : nat) (n : Z) (acc : string) : string :=
  match fuel with
  | O => acc
  | S fuel' =>
      let acc := String (digit_of (n mod 10)) acc in
      if (n / 10 =? 0)%Z then acc else dec_go fuel' (n / 10) acc
  end.
Definition dec_string (n : Z) : string :=
  if (n <? 0)%Z then String "-"%char (dec_go 20 (- n) EmptyString)
  else dec_go 20 n EmptyString.

(** The value of the digits at the start of [s], [None] without a digit. *)
Fixpoint digits_go (acc : Z) (s : string) : Z * string :=
  match s with
  | EmptyString => (acc, s)
  | String c s' =>
      match digit_val c with Some d => digits_go (acc * 10 + d) s' | None => (acc, s) end
  end.
Definition digits (s : string) : option (Z * string) :=
  match s with
  | String c _ => if decide (is_Some (digit_val c)) then Some (digits_go 0 s) else None
  | EmptyString => None
  end.

Definition int_range (v : Z) : bool := ((-2147483648 <=? v) && (v <=? 2147483647))%Z.

(** A sign at the start: [Some true] for minus. *)
Definition sign_of (s : string) : option bool :=
  match s with
  | String c _ =>
      if decide (c = "-"%char) then Some true
      else if decide (c = "+"%char) then Some false else None
  | EmptyString => None
  end.

(** [std::from_chars] to an [int]: a minus sign only, and what follows the
    digits is not looked at. *)
Definition from_chars_int (s : string) : option Z :=
  let minus := bool_decide (sign_of s = Some true) in
  '(v, _) ← digits (if minus then str_drop 1 s else s);
  let v := if minus then (- v)%Z else v in
  if int_range v then Some v else None.

(** [is >> int]: the value and the rest of the stream, [None] on failure. *)
Definition extract_int (input : string) : option (Z * string) :=
  let s := skip_ws input in
  let sign := sign_of s in
  '(v, rest) ← digits (match sign with Some _ => str_drop 1 s | None => s end);
  let v := if decide (sign = Some true) then (- v)%Z else v in
  if int_range v then Some (v, rest) else None.

(** ** The translator and the stream operators *)

Section Translator.
Context {E : Type} {BE : BetterEnum E}.

Definition get_value (str : string) : option E :=
  match from_chars_int str with
  | None => None
  | Some val => from_integral_nothrow val
  end.

Definition put_value (value : E) : option string := Some (dec_string (to_integral value)).
End Translator.

Definition Priority_print (pr : Priority) : string := dec_string (to_integral pr).

(** [operator>>]: [None] sets failbit and leaves the priority as it was. *)
Definition Priority_extract (input : string) : option (Priority * string) :=
  '(v, rest) ← extract_int input; pr ← from_integral_nothrow v; Some (pr, rest).

(** ** Lemmas *)

Lemma digit_val_of d : (0 <= d < 10)%Z -> digit_val (digit_of d) = Some d.
Proof.
  intros Hd.
  assert (d ∈ [0;1;2;3;4;5;6;7;8;9]%Z) as Hin.
  { rewrite !elem_of_cons, elem_of_nil. lia. }
  repeat (apply elem_of_cons in Hin as [->|Hin]; [reflexivity|]).
  by apply elem_of_nil in Hin.
Qed.

Lemma digits_go_dec fuel n acc :
  (0 <= n < 10 ^ Z.of_nat fuel)%Z ->
  digits_go 0 (dec_go fuel n acc) = digits_go n acc \/ fuel = 0.
Proof.
  revert n acc; induction fuel as [|fuel IH]; intros n acc Hn; [by right|left].
  pose proof (Z.mod_pos_bound n 10 ltac:(lia)) as Hm.
  pose proof (Z.div_mod n 10 ltac:(lia)) as Hdm.
  cbn [dec_go]. destruct (Z.eqb_spec (n / 10) 0) as [Hz|Hz].
  - cbn [digits_go]. rewrite digit_val_of by done. f_equal. clear Hn IH. lia.
  - rewrite Nat2Z.inj_succ, Z.pow_succ_r in Hn by lia.
    assert (0 <= n / 10 < 10 ^ Z.of_nat fuel)%Z as Hq.
    { split; [apply Z.div_pos; lia|apply Z.div_lt_upper_bound; lia]. }
    destruct (IH (n / 10)%Z (String (digit_of (n mod 10)) acc) Hq) as [->| ->].
    + cbn [digits_go]. rewrite digit_val_of by done. f_equal. clear Hn IH Hq. lia.
    + change (10 ^ Z.of_nat 0)%Z with 1%Z in Hq. clear Hn IH. lia.
Qed.

Lemma dec_go_digit fuel n acc :
  (0 <= n)%Z -> fuel <> 0 -> exists d s, dec_go fuel n acc = String (digit_of d) s /\ (0 <= d < 10)%Z.
Proof.
  revert n acc; induction fuel as [|fuel IH]; intros n acc Hn Hf; [done|].
  pose proof (Z.mod_pos_bound n 10 ltac:(lia)) as Hm.
  cbn [dec_go]. destruct (n / 10 =? 0)%Z; [by eauto|].
  destruct fuel as [|fuel]; [by eauto|]. apply IH; [apply Z.div_pos; lia|done].
Qed.

(** The digits of a number are read back. *)
Lemma digits_dec n :
  (0 <= n < 100000000000000000000)%Z ->
  digits (dec_go 20 n EmptyString) = Some (n, EmptyString) /\
  sign_of (dec_go 20 n EmptyString) = None.
Proof.
  intros Hn. destruct (digits_go_dec 20 n EmptyString) as [Hd|?]; [exact Hn| |done].
  destruct (dec_go_digit 20 n EmptyString) as (d & s & Hs & Hr); [lia|done|].
  rewrite Hs in *. pose proof (digit_val_of d Hr) as Hv. split.
  - unfold digits. rewrite decide_True by (rewrite Hv; eauto). by rewrite Hd.
  - unfold sign_of.
    rewrite (decide_False (P := digit_of d = "-"%char)) by (intros Hc; by rewrite Hc in Hv).
    by rewrite (decide_False (P := digit_of d = "+"%char)) by (intros Hc; by rewrite Hc in Hv).
Qed.

Lemma from_chars_dec n :
  (-2147483648 <= n <= 2147483647)%Z -> from_chars_int (dec_string n) = Some n.
Proof.
  intros Hn. assert (int_range n = true) as Hi by (unfold int_range; lia).
  unfold dec_string, from_chars_int. destruct (Z.ltb_spec n 0) as [Hneg|Hpos].
  - destruct (digits_dec (- n)) as [Hd _]; [lia|]. rewrite bool_decide_eq_true_2 by done.
    cbn [str_drop]. rewrite Hd. simpl. rewrite Z.opp_involutive. by rewrite Hi.
  - destruct (digits_dec n) as [Hd Hs]; [lia|]. rewrite Hs, bool_decide_eq_false_2 by done.
    rewrite Hd. simpl. by rewrite Hi.
Qed.

(** ** Properties *)

(** C39: An enumeration value whose integer, negative or not, is in the
    range of int is read back by the property tree translator from the text
    it was written as. *)
Theorem translator_roundtrip {E} {BE : BetterEnum E} {OK : BetterEnumOk E} (e : E) :
  (-2147483648 <= to_integral e <= 2147483647)%Z ->
  exists s, put_value e = Some s /\ get_value s = Some e.
Proof.
  intros He. exists (dec_string (to_integral e)). split; [done|].
  unfold get_value. rewrite from_chars_dec by done.
  unfold from_integral_nothrow. rewrite be_underlying.
  by destruct (from_value_loop_complete e) as (i & -> & Hi).
Qed.

(** A number that is not the value of any priority is accepted as one when
    it agrees with it modulo 65536, because the translator narrows it to the
    underlying type before the test. *)
Lemma priority_out_of_range_accepted (p : Priority) (k : Z) :
  (0 <= k < 32767)%Z ->
  get_value (dec_string (to_integral p + 65536 * k)) = Some p.
Proof.
  intros Hk. unfold get_value.
  assert (0 <= to_integral p < 65536)%Z as Hp by (destruct p; simpl; lia).
  rewrite from_chars_dec by lia. unfold from_integral_nothrow.
  assert (@underlying Priority _ (to_integral p + 65536 * k) = to_integral p) as ->.
  { simpl. unfold uint16. rewrite Z.mul_comm, Z.mod_add by lia.
    by apply Z.mod_small. }
  by destruct (from_value_loop_complete p) as (i & -> & Hi).
Qed.

(** ** Witnesses *)

Lemma translator_roundtrip_witness :
  exists s, put_value high = Some s /\ get_value s = Some high.
Proof. apply (translator_roundtrip high). simpl. lia. Defined.

Lemma priority_out_of_range_accepted_witness : get_value "65546" = Some high.
Proof. apply (priority_out_of_range_accepted high 1). lia. Defined.

Lemma from_integral_spec_witness :
  from_integral_nothrow 11 = Some control.
Proof. apply (from_integral_spec 11 control). reflexivity. Defined.

Lemma from_string_to_string_witness :
  exists name, to_string control = Some name /\ from_string name = Ok control.
Proof. apply (from_string_to_string control). Defined.
