(* ===== verification/AccuLine.v ===== *)
(** * AccuLine: the line accumulator (src/uzel/acculine.h)

    The bytes of a connection arrive in blocks; [AccuLine] cuts the stream
    into lines.  [m_cmd] is the unfinished line of the earlier blocks,
    [m_curline] the part of the current block that has not been looked at.
    The reference is [split_lines], which cuts the whole stream at once. *)
From S2P Require Import Prelude.

Record AccuLine := mkAccuLine { m_cmd : string; m_curline : string }.

Definition AccuLine_init : AccuLine := mkAccuLine EmptyString EmptyString.

(** Overwrites the view of the current block. *)
Definition addNewInput (inputstr : string) (a : AccuLine) : AccuLine :=
  mkAccuLine (m_cmd a) inputstr.

Definition getNextCmd (a : AccuLine) : option string * AccuLine :=
  if str_empty (m_curline a) then (None, a)
  else
    let eolpos := str_find NL (m_curline a) in
    let '(newcmd, curline, complete) :=
      match eolpos with
      | None => (m_curline a, EmptyString, false)
      | Some p => (str_take p (m_curline a), str_drop (p + 1) (m_curline a), true)
      end in
    let cmd := m_cmd a +:+ newcmd in
    if negb complete then (None, mkAccuLine cmd curline)
    else (Some cmd, mkAccuLine EmptyString curline).

(** The consumer's loop [while((line = getNextCmd()))]; [None] when the fuel
    does not suffice. *)
Fixpoint drain (fuel : nat) (a : AccuLine) : option (list string * AccuLine) :=
  match fuel with
  | O => None
  | S fuel' =>
      match getNextCmd a with
      | (None, a') => Some ([], a')
      | (Some line, a') =>
          '(ls, a'') ← drain fuel' a'; Some (line :: ls, a'')
      end
  end.

(** Blocks handed over one after the other, each one drained. *)
Fixpoint feed (blocks : list string) (a : AccuLine) : option (list string * AccuLine) :=
  match blocks with
  | [] => Some ([], a)
  | b :: bs =>
      '(ls, a') ← drain (S (String.length b)) (addNewInput b a);
      '(ls', a'') ← feed bs a';
      Some (ls ++ ls', a'')
  end.

(** The reference: cut [s] at its line feeds; [cur] is the line begun. *)
Fixpoint split_lines (cur s : string) : list string * string :=
  match s with
  | EmptyString => ([], cur)
  | String c s' =>
      if decide (c = NL) then
        let '(ls, r) := split_lines EmptyString s' in (cur :: ls, r)
      else split_lines (cur +:+ str1 c) s'
  end.

Definition unlines (ls : list string) (rest : string) : string :=
  foldr (fun l acc => l +:+ String NL acc) rest ls.

(** ** Lemmas *)

Lemma split_lines_no_nl cur s :
  str_in NL s = false -> split_lines cur s = ([], cur +:+ s).
Proof.
  revert cur; induction s as [|c s IH]; simpl; intros cur Hs.
  - by rewrite str_app_nil_r.
  - apply orb_false_iff in Hs as [Hc%bool_decide_eq_false Hs].
    rewrite decide_False by done. rewrite IH by done.
    by rewrite str_app_assoc.
Qed.

Lemma split_lines_line cur l s :
  str_in NL l = false ->
  split_lines cur (l +:+ String NL s) =
  ((cur +:+ l) :: (split_lines EmptyString s).1, (split_lines EmptyString s).2).
Proof.
  revert cur; induction l as [|c l IH]; simpl; intros cur Hl.
  - rewrite str_app_nil_r.
    by destruct (split_lines EmptyString s).
  - apply orb_false_iff in Hl as [Hc%bool_decide_eq_false Hl].
    rewrite decide_False by done.
    rewrite IH by done. by rewrite str_app_assoc.
Qed.

Lemma split_lines_line0 l s :
  str_in NL l = false ->
  split_lines EmptyString (l +:+ String NL s) =
  (l :: (split_lines EmptyString s).1, (split_lines EmptyString s).2).
Proof. intros Hl. by rewrite split_lines_line. Qed.

Lemma split_lines_app cur s t :
  split_lines cur (s +:+ t) =
  ((split_lines cur s).1 ++ (split_lines (split_lines cur s).2 t).1,
   (split_lines (split_lines cur s).2 t).2).
Proof.
  revert cur; induction s as [|c s IH]; intros cur; simpl.
  - rewrite str_app_nil_l. by destruct (split_lines cur t).
  - rewrite !IH. destruct (decide (c = NL)); [|done].
    by destruct (split_lines EmptyString s).
Qed.

(** [getNextCmd] peels the first line of the reference off the stream. *)
Lemma getNextCmd_spec a :
  match getNextCmd a with
  | (None, a') =>
      split_lines (m_cmd a) (m_curline a) = ([], m_cmd a') /\ m_curline a' = EmptyString
  | (Some l, a') =>
      split_lines (m_cmd a) (m_curline a) =
        (l :: (split_lines (m_cmd a') (m_curline a')).1,
         (split_lines (m_cmd a') (m_curline a')).2) /\
      m_cmd a' = EmptyString /\
      String.length (m_curline a') < String.length (m_curline a)
  end.
Proof.
  destruct a as [cmd cur]; unfold getNextCmd; simpl.
  destruct (str_empty cur) eqn:He; [by apply str_empty_true in He as ->|].
  destruct (str_find NL cur) as [p|] eqn:Hp; simpl.
  - rewrite Nat.add_1_r. pose proof (str_length_take_drop_lt _ _ _ Hp) as Hlt.
    apply str_find_Some in Hp as [Hcur Hin]. split; [|done].
    rewrite Hcur at 1. by rewrite split_lines_line.
  - apply str_find_None in Hp. by rewrite split_lines_no_nl.
Qed.

Lemma drain_spec fuel a :
  String.length (m_curline a) < fuel ->
  drain fuel a =
  Some ((split_lines (m_cmd a) (m_curline a)).1,
        mkAccuLine (split_lines (m_cmd a) (m_curline a)).2 EmptyString).
Proof.
  revert a; induction fuel as [|fuel IH]; intros a Hf; [lia|]; simpl.
  pose proof (getNextCmd_spec a) as Hspec.
  destruct (getNextCmd a) as [[l|] a'].
  - destruct Hspec as (Hs & Hc & Hlt). rewrite IH by lia. by rewrite Hs.
  - destruct Hspec as [Hs Hc]. rewrite Hs. destruct a'; simpl in *. by subst.
Qed.

Lemma feed_split blocks a :
  m_curline a = EmptyString ->
  feed blocks a =
  Some ((split_lines (m_cmd a) (foldr String.append EmptyString blocks)).1,
        mkAccuLine (split_lines (m_cmd a) (foldr String.append EmptyString blocks)).2
          EmptyString).
Proof.
  revert a; induction blocks as [|b bs IH]; intros a Ha; cbn [feed foldr].
  - destruct a; simpl in *; by subst.
  - rewrite drain_spec by (simpl; lia). simpl.
    rewrite IH by done. simpl. by rewrite split_lines_app.
Qed.

(** ** Properties *)

(** Whatever the sizes of the blocks in which the stream arrives, draining
    each one yields exactly the lines of the whole stream, in order, and
    leaves the unfinished line in [m_cmd]; the loop always ends. *)
Lemma feed_chunk_independent (blocks : list string) :
  feed blocks AccuLine_init =
  Some ((split_lines EmptyString (foldr String.append EmptyString blocks)).1,
        mkAccuLine (split_lines EmptyString (foldr String.append EmptyString blocks)).2
          EmptyString).
Proof. by apply feed_split. Qed.
