(* ===== verification/Addr.v ===== *)
(** * Addr: application addresses (src/uzel/addr.h, src/uzel/addr.cpp)

    An address is an application name and a node name; its textual form is
    [<appname>[@<nodename>]].  The theorem characterises the parser by the
    printed forms it accepts. *)
From S2P Require Import Prelude.

Record Addr := mkAddr { m_appname : string; m_nodename : string }.

#[export] Instance Addr_eq_dec : EqDecision Addr.
Proof. solve_decision. Defined.

Definition AT : ascii := "@"%char.

(** [Addr() = default] *)
Definition Addr_default : Addr := mkAddr EmptyString EmptyString.

(** The private constructor: cut [fulladdr] at [atpos]. *)
Definition Addr_at (fulladdr : string) (atpos : option nat) : Addr :=
  match atpos with
  | None => mkAddr fulladdr EmptyString
  | Some p => mkAddr (str_take p fulladdr) (str_drop (p + 1) fulladdr)
  end.

Definition Addr_of_string (fulladdr : string) : Addr :=
  Addr_at fulladdr (str_find AT fulladdr).

(** [operator<<] *)
Definition Addr_print (addr : Addr) : string :=
  if str_empty (m_appname addr) && str_empty (m_nodename addr) then "<>"
  else "<" +:+ m_appname addr +:+ str1 AT +:+ m_nodename addr +:+ ">".

(** The address parser yields an application and a node exactly when the
    application has no @ and the text is the application alone, with no
    node, or the application, @ and the node: it splits at the first @. *)
Lemma Addr_of_string_spec (s app node : string) :
  Addr_of_string s = mkAddr app node <->
  str_in AT app = false /\
  ((s = app /\ node = EmptyString) \/ s = app +:+ String AT node).
Proof.
  unfold Addr_of_string, Addr_at. split.
  - destruct (str_find AT s) as [p|] eqn:Hp; intros [= <- <-].
    + rewrite Nat.add_1_r. apply str_find_Some in Hp as [Hs Hin]. auto.
    + apply str_find_None in Hp. auto.
  - intros [Hin [[-> ->]| ->]].
    + apply str_find_None in Hin as ->. done.
    + rewrite str_find_app, Nat.add_1_r by done.
      by rewrite str_take_app, str_drop_app_S.
Qed.
