(* ===== verification/PTree.v ===== *)
(** * PTree: the interface of boost::property_tree

    [boost::property_tree::ptree] and its JSON reader and writer are not part
    of the repository: they are the class [PTree] (the operations the code
    calls) with the documented laws the proofs rely on ([PTreeLaws]), and the
    class [Json].  A dotted path such as ["to.n"] is the list of its keys.
    [tree] is a reference implementation of the interface, with the laws
    proved: the hypotheses are consistent, and the witnesses compute on it. *)
From S2P Require Import Prelude.

Class PTree (T : Type) := {
  pt_empty : T;
  (** [get_optional<std::string>(path)], and [get_child(path).data()] *)
  pt_get : list string -> T -> option string;
  (** [put(path, value)] *)
  pt_put : list string -> string -> T -> T;
  (** [add(key, value)] for a one-key path: a new child at the end *)
  pt_add : string -> string -> T -> T;
  (** [find(key)]; [None] is [not_found()] *)
  pt_find : string -> T -> option T;
  (** [erase(key)]: all the children with that key *)
  pt_erase : string -> T -> T;
  (** [put_child(key, child)] for a one-key path *)
  pt_put_child : string -> T -> T -> T;
}.

Class PTreeLaws (T : Type) `{PTree T} := {
  pt_get_empty p : p <> [] -> pt_get p pt_empty = None;
  pt_get_put p v t : p <> [] -> pt_get p (pt_put p v t) = Some v;
  pt_get_put_ne p q v t :
    ~ q `prefix_of` p -> pt_get q (pt_put p v t) = pt_get q t;
  pt_get_add k v t : pt_get [k] t = None -> pt_get [k] (pt_add k v t) = Some v;
  pt_find_put_child k c t : pt_find k (pt_put_child k c t) = Some c;
  pt_erase_put_child k c t :
    pt_find k t = None -> pt_erase k (pt_put_child k c t) = t;
  pt_get_put_child_ne k k' q c t :
    k <> k' -> pt_get (k' :: q) (pt_put_child k c t) = pt_get (k' :: q) t;
}.

(** [write_json(os, pt, false)] is the text with its final line feed, [None]
    when it throws; [read_json] is [None] when it throws. *)
Class Json (T : Type) := {
  write_json : T -> option string;
  read_json : string -> option T;
}.

(** [get<std::string>(path, default)] *)
Definition pt_get_or {T} `{PTree T} (path : list string) (dflt : string) (t : T) : string :=
  default dflt (pt_get path t).

(** ** A reference implementation *)

Inductive tree := Node (data : string) (kids : list (string * tree)).

Module RefTree.
Definition data (t : tree) : string := let 'Node d _ := t in d.
Definition kids (t : tree) : list (string * tree) := let 'Node _ ks := t in ks.

Fixpoint find_kid (k : string) (ks : list (string * tree)) : option tree :=
  match ks with
  | [] => None
  | (k', t) :: ks' => if decide (k' = k) then Some t else find_kid k ks'
  end.

(** Applies [f] to the first child [k]; a missing child is created at the end. *)
Fixpoint upd_kid (k : string) (f : tree -> tree) (ks : list (string * tree))
    : list (string * tree) :=
  match ks with
  | [] => [(k, f (Node EmptyString []))]
  | (k', t) :: ks' =>
      if decide (k' = k) then (k', f t) :: ks' else (k', t) :: upd_kid k f ks'
  end.

Fixpoint get (p : list string) (t : tree) : option string :=
  match p with
  | [] => Some (data t)
  | k :: p' => find_kid k (kids t) ≫= get p'
  end.

Fixpoint put (p : list string) (v : string) (t : tree) : tree :=
  match p with
  | [] => Node v (kids t)
  | k :: p' => Node (data t) (upd_kid k (put p' v) (kids t))
  end.

Definition add (k v : string) (t : tree) : tree :=
  Node (data t) (kids t ++ [(k, Node v [])]).

Definition erase (k : string) (t : tree) : tree :=
  Node (data t) (filter (fun kt => kt.1 <> k) (kids t)).

Definition put_child (k : string) (c t : tree) : tree :=
  Node (data t) (upd_kid k (fun _ => c) (kids t)).

Lemma find_upd k f ks :
  find_kid k (upd_kid k f ks) =
  Some (f (default (Node EmptyString []) (find_kid k ks))).
Proof.
  induction ks as [|[k' t] ks IH]; simpl; [by rewrite decide_True|].
  destruct (decide (k' = k)) as [->|Hk]; simpl.
  - by rewrite decide_True.
  - by rewrite decide_False.
Qed.

Lemma find_upd_ne k k' f ks :
  k <> k' -> find_kid k' (upd_kid k f ks) = find_kid k' ks.
Proof.
  intros Hne. induction ks as [|[k'' t] ks IH]; simpl; [by rewrite decide_False|].
  destruct (decide (k'' = k)) as [->|Hk]; simpl.
  - by rewrite !decide_False.
  - by rewrite IH.
Qed.

Lemma get_put p v t : get p (put p v t) = Some v.
Proof.
  revert t; induction p as [|k p IH]; intros t; simpl; [done|].
  rewrite find_upd; simpl. apply IH.
Qed.

Lemma get_empty p : p <> [] -> get p (Node EmptyString []) = None.
Proof. by destruct p. Qed.

Lemma get_put_ne p q v t :
  ~ q `prefix_of` p -> get q (put p v t) = get q t.
Proof.
  revert q t; induction p as [|k p IH]; intros [|k' q] t Hq; simpl.
  - by destruct Hq.
  - done.
  - destruct Hq. by exists (k :: p).
  - destruct (decide (k = k')) as [->|Hk]; [|by rewrite find_upd_ne].
    rewrite find_upd; simpl.
    assert (~ q `prefix_of` p) as Hq' by (intros ?; apply Hq; by apply prefix_cons).
    rewrite IH by done. destruct (find_kid k' (kids t)) as [c|]; simpl; [done|].
    apply get_empty. intros ->. apply Hq'. by exists p.
Qed.

Lemma find_app_None k ks ks' :
  find_kid k ks = None -> find_kid k (ks ++ ks') = find_kid k ks'.
Proof.
  induction ks as [|[k' t] ks IH]; simpl; [done|]. by case_decide.
Qed.

Lemma erase_upd k c ks :
  find_kid k ks = None -> filter (fun kt => kt.1 <> k) (upd_kid k (fun _ => c) ks) = ks.
Proof.
  induction ks as [|[k' t] ks IH]; cbn [find_kid upd_kid]; intros Hk.
  - by rewrite filter_cons_False by (simpl; naive_solver).
  - case_decide as Hk'; [done|].
    rewrite filter_cons_True by done. by rewrite IH.
Qed.
End RefTree.

#[export] Instance tree_PTree : PTree tree := {
  pt_empty := Node EmptyString [];
  pt_get := RefTree.get;
  pt_put := RefTree.put;
  pt_add := RefTree.add;
  pt_find k t := RefTree.find_kid k (RefTree.kids t);
  pt_erase := RefTree.erase;
  pt_put_child := RefTree.put_child;
}.

#[export] Instance tree_PTreeLaws : PTreeLaws tree.
Proof.
  split.
  - apply RefTree.get_empty.
  - intros p v t _. apply RefTree.get_put.
  - apply RefTree.get_put_ne.
  - intros k v [d ks]; simpl. intros Hk.
    destruct (RefTree.find_kid k ks) eqn:Hf; simpl in Hk; [done|].
    rewrite RefTree.find_app_None by done; simpl. by rewrite decide_True.
  - intros k c t. simpl. by rewrite RefTree.find_upd.
  - intros k c [d ks]; simpl. intros Hk. unfold RefTree.put_child, RefTree.erase; simpl.
    by rewrite RefTree.erase_upd.
  - intros k k' q c t Hk. simpl. by rewrite RefTree.find_upd_ne.
Qed.
