(* ===== verification/UConfig.v ===== *)
(** * UConfig: the identity of the process and its configuration
    (src/uzel/uconfig.h, src/uzel/uconfig.cpp)

    What the process reads from outside is the class [Platform]: the host
    name (boost::asio::ip::host_name), the text of /proc/self/comm, the tree
    read from uzel.ini, the process id.  [split_remotes] is the tokenizer
    [std::sregex_token_iterator] with the expression [\s*([,])\s*] and
    submatch -1. *)
From S2P Require Import Prelude Effects PTree.

Class Platform (T : Type) := {
  plat_PTree :: PTree T;
  plat_Json :: Json T;
  host_name : string;
  proc_self_comm : string;
  uzel_ini : T;
  getpid : string;
}.

(** [is >> word]: skip white space, then read up to the next white space. *)
Fixpoint word_go (s : string) : string :=
  match s with
  | EmptyString => EmptyString
  | String c s' => if Ascii.is_space c then EmptyString else String c (word_go s')
  end.

Definition executable_name (comm : string) : string := word_go (skip_ws comm).

Definition COMMA : ascii := ","%char.

(** The tokens of [s] cut at the matches of [\s*([,])\s*].  [cur] is the
    token begun, [ws] the white space read after it, which belongs to the
    token unless a comma follows; [skip]: inside the trailing [\s*] of a
    match.  The last token is dropped when it is empty and a match precedes. *)
Fixpoint tokens (matched skip : bool) (cur ws s : string) : list string :=
  match s with
  | EmptyString =>
      let suffix := cur +:+ ws in
      if matched && str_empty suffix then [] else [suffix]
  | String c s' =>
      if decide (c = COMMA) then cur :: tokens true true EmptyString EmptyString s'
      else if Ascii.is_space c then
        if skip then tokens matched true cur ws s'
        else tokens matched false cur (ws +:+ str1 c) s'
      else tokens matched false (cur +:+ ws +:+ str1 c) EmptyString s'
  end.

Definition split_remotes (rs : string) : list string :=
  tokens false false EmptyString EmptyString rs.

Section UConfig.
Context {T : Type} {PL : Platform T}.

Definition nodeName : string := host_name.
Definition appName : string := executable_name proc_self_comm.
Definition isLocalNode (nname : string) : bool := bool_decide (nname = nodeName).

(** [get<std::string>("remotes.name")] throws when the entry is missing. *)
Definition remotes : outcome (list string) :=
  match pt_get ["remotes"; "name"] uzel_ini with
  | None => Throw (ptree_bad_path "remotes.name")
  | Some rs => Ok (split_remotes rs)
  end.
End UConfig.

(** ** Lemmas *)

(** A name as the configuration lists them: no comma and no white space. *)
Fixpoint clean (s : string) : bool :=
  match s with
  | EmptyString => true
  | String c s' => bool_decide (c <> COMMA) && negb (Ascii.is_space c) && clean s'
  end.

Fixpoint blank (s : string) : bool :=
  match s with
  | EmptyString => true
  | String c s' => Ascii.is_space c && blank s'
  end.

Lemma space_not_comma c : Ascii.is_space c = true -> c <> COMMA.
Proof. by intros Hc ->. Qed.

Lemma tokens_clean matched skip cur n s :
  clean n = true -> n <> EmptyString ->
  tokens matched skip cur EmptyString (n +:+ s) =
  tokens matched false (cur +:+ n) EmptyString s.
Proof.
  revert matched skip cur; induction n as [|c n IH]; intros matched skip cur Hn Hne; [done|].
  cbn [clean] in Hn. apply andb_true_iff in Hn as [[Hc Hsp]%andb_true_iff Hn].
  apply bool_decide_eq_true in Hc. apply negb_true_iff in Hsp.
  rewrite str_app_cons; cbn [tokens]. rewrite decide_False, Hsp by done.
  rewrite str_app_nil_l. destruct n as [|c' n]; [done|].
  rewrite IH by done. by rewrite str_app_assoc.
Qed.

Lemma tokens_blank_keep matched cur ws b s :
  blank b = true ->
  tokens matched false cur ws (b +:+ s) = tokens matched false cur (ws +:+ b) s.
Proof.
  revert ws; induction b as [|c b IH]; intros ws Hb.
  - by rewrite str_app_nil_r.
  - cbn [blank] in Hb. apply andb_true_iff in Hb as [Hc Hb].
    rewrite str_app_cons; cbn [tokens].
    rewrite decide_False by (by apply space_not_comma). rewrite Hc, IH by done.
    by rewrite str_app_assoc.
Qed.

Lemma tokens_blank_skip matched cur b s :
  blank b = true ->
  tokens matched true cur EmptyString (b +:+ s) = tokens matched true cur EmptyString s.
Proof.
  induction b as [|c b IH]; intros Hb; [done|].
  cbn [blank] in Hb. apply andb_true_iff in Hb as [Hc Hb].
  rewrite str_app_cons; cbn [tokens].
  rewrite decide_False by (by apply space_not_comma). rewrite Hc. by apply IH.
Qed.

(** A list of names written with commas, with any white space around them. *)
Fixpoint join_rest (l : list (string * string * string)) : string :=
  match l with
  | [] => EmptyString
  | (b1, b2, n) :: l' => b1 +:+ String COMMA (b2 +:+ n +:+ join_rest l')
  end.

Definition good_item (i : string * string * string) : Prop :=
  blank i.1.1 = true /\ blank i.1.2 = true /\ clean i.2 = true /\ i.2 <> EmptyString.

Lemma tokens_join matched cur l :
  cur <> EmptyString -> Forall good_item l ->
  tokens matched false cur EmptyString (join_rest l) = cur :: (snd <$> l).
Proof.
  revert matched cur; induction l as [|[[b1 b2] n] l IH]; intros matched cur Hcur Hl.
  - simpl. rewrite str_app_nil_r. destruct cur; [done|]. by destruct matched.
  - apply Forall_cons in Hl as [(H1 & H2 & H3 & H4) Hl]; simpl in H1, H2, H3, H4.
    cbn [join_rest]. rewrite tokens_blank_keep by done. cbn [tokens].
    rewrite decide_True by done.
    rewrite tokens_blank_skip, tokens_clean by done. by rewrite IH.
Qed.

(** ** Properties *)

(** The list of remotes in the configuration is read back name by name:
    names joined by commas, with any blanks around the commas, are split
    into exactly these names, in order. *)
Lemma split_remotes_join (n : string) (l : list (string * string * string)) :
  good_item (EmptyString, EmptyString, n) -> Forall good_item l ->
  split_remotes (n +:+ join_rest l) = n :: (snd <$> l).
Proof.
  intros (_ & _ & Hn & Hne) Hl. unfold split_remotes.
  rewrite tokens_clean by done. by apply tokens_join.
Qed.

Lemma split_remotes_join_witness :
  split_remotes "pingutv , liver" = ["pingutv"; "liver"].
Proof.
  apply (split_remotes_join "pingutv" [(" ", " ", "liver")]).
  - repeat split; discriminate.
  - repeat constructor; discriminate.
Defined.
