(* ===== verification/Demo.v ===== *)
(** * Demo: concrete platforms for the witnesses

    The theorems hold for any implementation of the [Platform] interface; the
    witnesses run the program on this one: property trees are the reference
    [tree]s, written as the JSON objects of app/userver/msg.json (no escapes:
    a tree that would need one is refused by the writer). *)
From S2P Require Import Prelude Effects PTree UConfig.

Module DemoJson.
Definition QUOTE : ascii := "034"%char.

Fixpoint plain (s : string) : bool :=
  match s with
  | EmptyString => true
  | String c s' =>
      negb (bool_decide (c = QUOTE)) && negb (bool_decide (c = "\"%char)) &&
      bool_decide (32 <= nat_of_ascii c)%nat && plain s'
  end.

Definition quoted (s : string) : option string :=
  if plain s then Some (String QUOTE s +:+ str1 QUOTE) else None.

(** Values: an object when there are children, a string otherwise. *)
Fixpoint print_value (top : bool) (t : tree) : option string :=
  let 'Node d ks := t in
  let fix members (ks : list (string * tree)) : option string :=
    match ks with
    | [] => Some "}"
    | (k, c) :: ks' =>
        qk ← quoted k; v ← print_value false c; rest ← members ks';
        Some (qk +:+ ":" +:+ v +:+ (match ks' with [] => EmptyString | _ => "," end) +:+ rest)
    end in
  if top || negb (bool_decide (length ks = 0)) then
    rest ← members ks; Some ("{" +:+ rest)
  else quoted d.

Definition write (t : tree) : option string :=
  s ← print_value true t; Some (s +:+ str1 NL).

(** The characters up to the next quote. *)
Fixpoint scan_string (s : string) : option (string * string) :=
  match s with
  | EmptyString => None
  | String c s' =>
      if decide (c = QUOTE) then Some (EmptyString, s')
      else '(v, rest) ← scan_string s'; Some (String c v, rest)
  end.

Fixpoint parse_value (fuel : nat) (s : string) : option (tree * string) :=
  match fuel with
  | O => None
  | S fuel' =>
      match skip_ws s with
      | String c s' =>
          if decide (c = QUOTE) then
            '(v, rest) ← scan_string s'; Some (Node v [], rest)
          else if decide (c = "{"%char) then
            match skip_ws s' with
            | String "}" rest => Some (Node EmptyString [], rest)
            | _ =>
                '(ks, rest) ← parse_members fuel' s'; Some (Node EmptyString ks, rest)
            end
          else None
      | EmptyString => None
      end
  end
with parse_members (fuel : nat) (s : string) : option (list (string * tree) * string) :=
  match fuel with
  | O => None
  | S fuel' =>
      match skip_ws s with
      | String q s1 =>
          if decide (q = QUOTE) then
            '(k, s2) ← scan_string s1;
            match skip_ws s2 with
            | String ":" s3 =>
                '(v, s4) ← parse_value fuel' s3;
                match skip_ws s4 with
                | String "," s5 =>
                    '(ks, s6) ← parse_members fuel' s5; Some ((k, v) :: ks, s6)
                | String "}" s5 => Some ([(k, v)], s5)
                | _ => None
                end
            | _ => None
            end
          else None
      | EmptyString => None
      end
  end.

Definition read (s : string) : option tree :=
  match parse_value (S (String.length s)) s with
  | Some (t, rest) => if str_empty (skip_ws rest) then Some t else None
  | None => None
  end.
End DemoJson.

(** The program [app] running on the host [node]. *)
Definition demo (node app : string) : Platform tree := {|
  plat_PTree := tree_PTree;
  plat_Json := {| write_json := DemoJson.write; read_json := DemoJson.read |};
  host_name := node;
  proc_self_comm := app +:+ str1 NL;
  uzel_ini := Node EmptyString
    [("remotes", Node EmptyString [("name", Node "pingutv,liver" [])])];
  getpid := "4242";
|}.

Definition demo_tree : tree :=
  Node EmptyString
    [("from", Node EmptyString [("n", Node "liver" []); ("a", Node "uclient1" [])]);
     ("cname", Node "ping" [])].

Example demo_json_roundtrip :
  (DemoJson.write demo_tree ≫= DemoJson.read) = Some demo_tree.
Proof. vm_compute. reflexivity. Qed.

(** The JSON text of a tree, without the line feed. *)
Definition demo_line (t : tree) : string := default EmptyString (DemoJson.print_value true t).
