(* ===== verification/Msg.v ===== *)
(** * Msg: messages and their classification (src/uzel/msg.h, src/uzel/msg.cpp)

    A message is a header tree and a body, kept as text until it is needed.
    [m_destType], [m_dest], [m_from] and [m_toMe] are caches computed from
    the header; [msg_wf] says they agree with it. *)
From S2P Require Import Prelude Effects PTree UConfig Addr Demo.

(** Identity of a session object (the pointer). *)
Definition sid := positive.

Inductive DestType := service | local | remote | broadcast | localbroadcast.

#[export] Instance DestType_eq_dec : EqDecision DestType.
Proof. solve_decision. Defined.

(** [std::variant<std::vector<char>, ptree>] *)
Inductive body (T : Type) := Raw (v : string) | Parsed (t : T).
Arguments Raw {T} v.
Arguments Parsed {T} t.

Record Msg (T : Type) := mkMsg {
  m_header : T;
  m_body : body T;
  m_destType : DestType;
  m_dest : Addr;
  m_from : Addr;
  m_toMe : bool;
  m_origin : option sid;
}.
Arguments mkMsg {T}.
Arguments m_header {T}.
Arguments m_body {T}.
Arguments m_destType {T}.
Arguments m_dest {T}.
Arguments m_from {T}.
Arguments m_toMe {T}.
Arguments m_origin {T}.

Definition STAR : string := "*".

Section Msg.
Context {T : Type} {PL : Platform T}.
Implicit Types (m : Msg T).

Definition set_header (h : T) m : Msg T :=
  mkMsg h (m_body m) (m_destType m) (m_dest m) (m_from m) (m_toMe m) (m_origin m).
Definition set_body (b : body T) m : Msg T :=
  mkMsg (m_header m) b (m_destType m) (m_dest m) (m_from m) (m_toMe m) (m_origin m).
Definition set_from (a : Addr) m : Msg T :=
  mkMsg (m_header m) (m_body m) (m_destType m) (m_dest m) a (m_toMe m) (m_origin m).

(** The branches of [updateDest]: the type of the destination [appn@dest],
    and whether the message is (also) for this application. *)
Definition classify (appn dest : string) : DestType * bool :=
  if str_empty appn && str_empty dest then (service, true)
  else if str_empty dest then (local, bool_decide (appn = appName))
  else if bool_decide (dest = nodeName) then
    let toMe := bool_decide (appn = appName) in
    if bool_decide (appn = STAR) then (localbroadcast, true) else (local, toMe)
  else if bool_decide (dest = STAR) then
    let toMe := bool_decide (appn = appName) in
    if bool_decide (appn = STAR) then (broadcast, true) else (broadcast, toMe)
  else (remote, false).

Definition updateDest m : Msg T :=
  let dest := pt_get_or ["to"; "n"] EmptyString (m_header m) in
  let appn := pt_get_or ["to"; "a"] EmptyString (m_header m) in
  let '(dt, toMe) := classify appn dest in
  mkMsg (m_header m) (m_body m) dt (mkAddr appn dest) (m_from m) toMe (m_origin m).

Definition updateFrom m : Msg T :=
  set_from (mkAddr (pt_get_or ["from"; "a"] EmptyString (m_header m))
                   (pt_get_or ["from"; "n"] EmptyString (m_header m))) m.

Definition setFromLocal m : Msg T :=
  let h := pt_put ["from"; "n"] nodeName (m_header m) in
  let h := pt_put ["from"; "a"] appName h in
  set_from (mkAddr appName nodeName) (set_header h m).

Definition setDest (dest : Addr) m : Msg T :=
  let realhname :=
    if bool_decide (m_nodename dest = "localhost") then nodeName else m_nodename dest in
  let m :=
    if negb (str_empty (m_appname dest)) && negb (str_empty (m_nodename dest)) then
      set_header (pt_put ["to"; "a"] (m_appname dest)
                    (pt_put ["to"; "n"] realhname (m_header m))) m
    else m in
  updateDest m.

Definition setCname (cname : string) m : Msg T :=
  set_header (pt_put ["cname"] cname (m_header m)) m.

(** [get_child("cname").data()] *)
Definition cname m : outcome string :=
  of_option (ptree_bad_path "cname") (pt_get ["cname"] (m_header m)).

(** Incoming message with its body still unparsed. *)
Definition Msg_raw (header : T) (body : string) (origin : option sid) : Msg T :=
  updateDest (updateFrom
    (mkMsg header (Raw body) local Addr_default Addr_default false origin)).

(** Incoming message whose body was found in the header. *)
Definition Msg_parsed (header body : T) (origin : option sid) : Msg T :=
  updateDest (updateFrom
    (mkMsg header (Parsed body) local Addr_default Addr_default false origin)).

(** Outgoing message. *)
Definition Msg_out (dest : Addr) (cname : string) (body : T) : Msg T :=
  let m := mkMsg pt_empty (Raw EmptyString) service Addr_default Addr_default false None in
  let m := setFromLocal m in
  let m := set_body (Parsed body) m in
  let m := setDest dest m in
  setCname cname m.

(** Forwarded copy of a message. *)
Definition Msg_forward (dest : Addr) (other : Msg T) : Msg T :=
  setDest dest (setFromLocal other).

Definition toMe m : bool := m_toMe m.
Definition destType m : DestType := m_destType m.
Definition isBroadcast m : bool := bool_decide (m_destType m = broadcast).
Definition isLocal m : bool := bool_decide (m_destType m = local).
Definition isRemote m : bool := bool_decide (m_destType m = remote).
Definition isLocalBroadcast m : bool := bool_decide (m_destType m = localbroadcast).
Definition fromLocal m : bool := isLocalNode (m_nodename (m_from m)).

(** The wire form: the header line, then the body line. *)
Definition str m : outcome string :=
  match m_body m with
  | Raw vbody =>
      match write_json (m_header m) with
      | Some h => Ok (h +:+ vbody +:+ str1 NL)
      | None => Throw json_parser_error
      end
  | Parsed pbody =>
      match write_json (m_header m), write_json pbody with
      | Some h, Some b => Ok (h +:+ b)
      | _, _ => Throw json_parser_error
      end
  end.

(** The wire form in one line, the body inside the header; the message is
    consumed. *)
Definition move_tostr : M (Msg T) string := fun m =>
  match m_body m with
  | Raw vbody => (str m, m)
  | Parsed pbody =>
      let m' := set_body (Parsed pt_empty)
                  (set_header (pt_put_child "body" pbody (m_header m)) m) in
      (of_option json_parser_error (write_json (m_header m')), m')
  end.

Definition charvec m : outcome string := str m.
Definition moveToCharvec : M (Msg T) string := move_tostr.

(** Parses the body on first use; a body that does not parse has been moved
    out and replaced by the empty tree when the exception leaves. *)
Definition pbody : M (Msg T) T := fun m =>
  match m_body m with
  | Parsed t => (Ok t, m)
  | Raw bodyvec =>
      match read_json bodyvec with
      | Some t => (Ok t, set_body (Parsed t) m)
      | None => (Throw json_parser_error, set_body (Parsed pt_empty) m)
      end
  end.

(** The caches agree with the header. *)
Definition hdr_dest m : Addr :=
  mkAddr (pt_get_or ["to"; "a"] EmptyString (m_header m))
         (pt_get_or ["to"; "n"] EmptyString (m_header m)).
Definition hdr_from m : Addr :=
  mkAddr (pt_get_or ["from"; "a"] EmptyString (m_header m))
         (pt_get_or ["from"; "n"] EmptyString (m_header m)).

Definition msg_wf m : Prop :=
  m_dest m = hdr_dest m /\
  m_from m = hdr_from m /\
  (m_destType m, m_toMe m) = classify (m_appname (m_dest m)) (m_nodename (m_dest m)).
End Msg.

(** ** Lemmas *)

Section Msg_lemmas.
Context {T : Type} {PL : Platform T}.
Implicit Types (m : Msg T).

Lemma updateDest_header m : m_header (updateDest m) = m_header m.
Proof. unfold updateDest. by destruct (classify _ _). Qed.

Lemma updateDest_body m : m_body (updateDest m) = m_body m.
Proof. unfold updateDest. by destruct (classify _ _). Qed.

Lemma updateDest_from m : m_from (updateDest m) = m_from m.
Proof. unfold updateDest. by destruct (classify _ _). Qed.

Lemma updateDest_origin m : m_origin (updateDest m) = m_origin m.
Proof. unfold updateDest. by destruct (classify _ _). Qed.

Lemma updateDest_dest m : m_dest (updateDest m) = hdr_dest m.
Proof. unfold updateDest. by destruct (classify _ _). Qed.

Lemma updateDest_class m :
  (m_destType (updateDest m), m_toMe (updateDest m)) =
  classify (m_appname (hdr_dest m)) (m_nodename (hdr_dest m)).
Proof. unfold updateDest. simpl. by destruct (classify _ _). Qed.

(** After [updateDest] only the sender can be out of date. *)
Lemma updateDest_wf m : m_from m = hdr_from m -> msg_wf (updateDest m).
Proof.
  intros Hf. unfold msg_wf.
  rewrite updateDest_class, updateDest_dest, updateDest_from.
  unfold hdr_dest, hdr_from in *. by rewrite updateDest_header.
Qed.

Context {LAWS : PTreeLaws T}.

Lemma pt_get_or_put p v d (t : T) : p <> [] -> pt_get_or p d (pt_put p v t) = v.
Proof. intros Hp. unfold pt_get_or. by rewrite pt_get_put. Qed.

Lemma pt_get_or_put_ne p q v d (t : T) :
  ~ q `prefix_of` p -> pt_get_or q d (pt_put p v t) = pt_get_or q d t.
Proof. intros Hp. unfold pt_get_or. by rewrite pt_get_put_ne. Qed.
End Msg_lemmas.

(** Decides the side conditions on concrete paths. *)
Ltac path_ne := first [ typeclasses eauto | discriminate | let H := fresh in intros [? H]; by simplify_eq/= ].

Create Rewrite HintDb msgrw.
#[export] Hint Rewrite @updateDest_header @updateDest_body @updateDest_from
  @updateDest_origin @updateDest_dest : msgrw.
#[export] Hint Rewrite @pt_get_or_put using path_ne : msgrw.
#[export] Hint Rewrite @pt_get_or_put_ne using path_ne : msgrw.

(** The messages the program makes: the four constructors, then [setCname]
    and the parsing of the body. *)
Inductive built {T} {PL : Platform T} : Msg T -> Prop :=
  | built_raw header body origin : built (Msg_raw header body origin)
  | built_parsed header body origin : built (Msg_parsed header body origin)
  | built_out dest cn body : built (Msg_out dest cn body)
  | built_forward dest other : built other -> built (Msg_forward dest other)
  | built_setCname cn m : built m -> built (setCname cn m)
  | built_pbody m : built m -> built (pbody m).2
  | built_move m : built m -> built (move_tostr m).2.

Section Msg_props.
Context {T : Type} {PL : Platform T} {LAWS : PTreeLaws T}.
Implicit Types (m : Msg T).

Lemma setFromLocal_from m : m_from (setFromLocal m) = hdr_from (setFromLocal m).
Proof.
  unfold hdr_from, setFromLocal, set_from, set_header; simpl.
  by autorewrite with msgrw.
Qed.

Lemma setDest_wf dest m : m_from m = hdr_from m -> msg_wf (setDest dest m).
Proof.
  intros Hf. unfold setDest. apply updateDest_wf.
  case_match; [|done]. unfold hdr_from, set_header in *; simpl in *.
  by autorewrite with msgrw.
Qed.

Lemma setCname_wf cn m : msg_wf m -> msg_wf (setCname cn m).
Proof.
  unfold msg_wf, hdr_dest, hdr_from, setCname, set_header; simpl.
  by autorewrite with msgrw.
Qed.

Lemma set_body_wf b m : msg_wf m -> msg_wf (set_body b m).
Proof. done. Qed.

Lemma pbody_wf m : msg_wf m -> msg_wf (pbody m).2.
Proof. intros Hm. unfold pbody. by repeat case_match. Qed.

Lemma move_tostr_wf m : msg_wf m -> msg_wf (move_tostr m).2.
Proof.
  intros Hm. unfold move_tostr. case_match; [done|]. simpl.
  unfold msg_wf, hdr_dest, hdr_from, pt_get_or in *; simpl.
  by rewrite !pt_get_put_child_ne.
Qed.

Lemma Msg_out_wf dest cn (b : T) : msg_wf (Msg_out dest cn b).
Proof. apply setCname_wf, setDest_wf, setFromLocal_from. Qed.

(** C25: Every message that is made by a constructor and then readdressed,
    renamed, forwarded, serialised destructively or whose body is parsed has
    caches that agree with its header: destination, sender, class and the
    toMe flag are those of the header fields. *)
Theorem built_msg_wf m : built m -> msg_wf m.
Proof.
  induction 1; auto using setCname_wf, pbody_wf, move_tostr_wf, Msg_out_wf.
  - by apply updateDest_wf.
  - by apply updateDest_wf.
  - apply setDest_wf, setFromLocal_from.
Qed.

(** The class of a message is decided by its destination: service without
    application and node, remote for the name of another node, broadcast for
    node *, local broadcast for application * on this node, local otherwise;
    and the message is for this process exactly when it is a service
    message, names this application on this node or everywhere, or is for
    all applications of this node or of all nodes. *)
Lemma updateDest_spec m :
  let app := pt_get_or ["to"; "a"] EmptyString (m_header m) in
  let node := pt_get_or ["to"; "n"] EmptyString (m_header m) in
  let m' := updateDest m in
  (m_destType m' = service <-> app = EmptyString /\ node = EmptyString) /\
  (m_destType m' = remote <->
     node <> EmptyString /\ node <> nodeName /\ node <> STAR) /\
  (m_destType m' = broadcast <-> node = STAR /\ nodeName <> STAR) /\
  (m_destType m' = localbroadcast <->
     node <> EmptyString /\ node = nodeName /\ app = STAR) /\
  (m_destType m' = local <->
     (node = EmptyString /\ app <> EmptyString) \/
     (node <> EmptyString /\ node = nodeName /\ app <> STAR)) /\
  (m_toMe m' = true <->
     (app = EmptyString /\ node = EmptyString) \/
     ((node = EmptyString \/ node = nodeName \/ node = STAR) /\ app = appName) \/
     (node <> EmptyString /\ (node = nodeName \/ node = STAR) /\ app = STAR)).
Proof.
  intros app node m'.
  assert ((m_destType m', m_toMe m') = classify app node) as Hc
    by apply updateDest_class.
  destruct (classify app node) as [dt me] eqn:Hcl. injection Hc as -> ->.
  unfold classify in Hcl. clearbody app node. clear m'.
  rewrite !str_empty_decide in Hcl.
  assert (STAR <> EmptyString) as HS by done.
  revert HS Hcl; generalize EmptyString STAR; intros ε star HS Hcl.
  repeat (case_bool_decide; simpl in Hcl); injection Hcl as <- <-; subst.
  all: split_and!; intuition congruence.
Qed.

(** A message built for a full address has that destination, with localhost
    replaced by this node's name, this process as the sender, the given name
    and body and no origin, in its header as in its caches. *)
Lemma Msg_out_addressed dest cn (b : T) :
  m_appname dest <> EmptyString -> m_nodename dest <> EmptyString ->
  let node := if bool_decide (m_nodename dest = "localhost") then nodeName
              else m_nodename dest in
  let m := Msg_out dest cn b in
  m_dest m = mkAddr (m_appname dest) node /\
  m_from m = mkAddr appName nodeName /\
  hdr_dest m = m_dest m /\ hdr_from m = m_from m /\
  cname m = Ok cn /\ m_body m = Parsed b /\ m_origin m = None.
Proof.
  intros Ha%str_empty_false Hn%str_empty_false node m. subst m.
  assert (msg_wf (Msg_out dest cn b)) as (Hd & Hf & _) by apply Msg_out_wf.
  rewrite <-Hd, <-Hf. unfold Msg_out, setDest, cname. rewrite Ha, Hn; simpl.
  rewrite updateDest_dest, updateDest_from, updateDest_body, updateDest_origin.
  unfold hdr_dest; simpl. autorewrite with msgrw.
  rewrite pt_get_put by done. by split_and!.
Qed.

(** A message built for an address without application or without node gets
    no destination at all: it becomes a service message for whoever receives
    it. *)
Lemma Msg_out_incomplete dest cn (b : T) :
  m_appname dest = EmptyString \/ m_nodename dest = EmptyString ->
  let m := Msg_out dest cn b in
  m_dest m = Addr_default /\ m_destType m = service /\ m_toMe m = true.
Proof.
  intros Hd m.
  assert (negb (str_empty (m_appname dest)) && negb (str_empty (m_nodename dest)) = false)
    as Hif by (rewrite !str_empty_decide; destruct Hd as [-> | ->]; simpl;
               [done|apply andb_false_r]).
  assert (msg_wf m) as (Hmd & _ & Hc) by apply Msg_out_wf.
  assert (m_dest m = Addr_default) as Hdef.
  { rewrite Hmd. unfold hdr_dest. subst m. unfold Msg_out, setDest. rewrite Hif.
    simpl. rewrite updateDest_header; simpl. autorewrite with msgrw.
    unfold pt_get_or. by rewrite !pt_get_empty. }
  rewrite Hdef in *. by injection Hc.
Qed.

(** After a failed pbody the body is an empty tree, and the second call
    succeeds with it. *)
Lemma pbody_twice m :
  match m_body m with
  | Parsed t => pbody m = (Ok t, m)
  | Raw v =>
      (pbody m).1 = of_option json_parser_error (read_json v) /\
      (pbody (pbody m).2).1 = Ok (default pt_empty (read_json v)) /\
      m_header (pbody m).2 = m_header m /\ m_dest (pbody m).2 = m_dest m
  end.
Proof. unfold pbody. destruct (m_body m) as [v|t]; [|done]. by destruct (read_json v). Qed.
End Msg_props.

(** ** Witnesses *)

Section Msg_witnesses.
#[local] Existing Instance tree_PTreeLaws.
#[local] Instance liver : Platform tree := demo "liver" "usender".

Definition ping_body : tree := Node EmptyString [("serial", Node "0" [])].

Lemma built_msg_wf_witness :
  msg_wf (setCname "pong" (Msg_raw demo_tree "{}" (Some 1%positive))).
Proof. apply built_msg_wf. apply built_setCname, built_raw. Defined.

Lemma Msg_out_addressed_witness :
  m_dest (Msg_out (mkAddr "uecho" "localhost") "ping" ping_body) = mkAddr "uecho" "liver".
Proof.
  refine (proj1 (Msg_out_addressed (mkAddr "uecho" "localhost") "ping" ping_body _ _));
    discriminate.
Defined.

Lemma Msg_out_incomplete_witness :
  m_destType (Msg_out (Addr_of_string "uecho") "ping" ping_body) = service.
Proof.
  refine (proj1 (proj2 (Msg_out_incomplete (Addr_of_string "uecho") "ping" ping_body _))).
  right. vm_compute. reflexivity.
Defined.
End Msg_witnesses.
