(* ===== verification/InputProcessor.v ===== *)
(** * InputProcessor: from bytes to messages
    (src/uzel/inputprocessor.h, src/uzel/inputprocessor.cpp)

    [processNewInput] cuts the block into lines with [AccuLine] and makes a
    message of a header line alone (the body inside it) or of a header line
    and a body line.  The consumer [session::dispatchMsg] is the parameter
    [dispatchMsg], which acts on the rest of the program's state [W].  The
    reference is [run_lines], the same machine on the lines of the stream. *)
From S2P Require Import Prelude Effects AccuLine PTree UConfig Addr Demo Msg.

Record InputProcessor (T : Type) := mkIP {
  m_acculine : AccuLine;
  ip_header : option T;   (* m_header *)
}.
Arguments mkIP {T}.
Arguments m_acculine {T}.
Arguments ip_header {T}.

Definition IP_init {T} : InputProcessor T := mkIP AccuLine_init None.

Section InputProcessor.
Context {T : Type} {PL : Platform T} {W : Type}.
Variable dispatchMsg : Msg T -> M W unit.
Variable self : sid.   (* ss.weak_from_this() *)

(** The state of the loop body: [m_header] and the rest of the program. *)
Definition put_header (h : option T) : M (option T * W) unit :=
  modify (fun s => (h, s.2)).
Definition dispatch_line (msg : Msg T) : M (option T * W) unit :=
  zoom snd (fun w s => (s.1, w)) (dispatchMsg msg).

(** The body of the loop for one line; [false] is [return false]. *)
Definition on_line (line : string) : M (option T * W) bool :=
  header <- gets fst ;;
  match header with
  | None =>
      catch_all
        (put_header (Some pt_empty) ;;
         h <- lift (of_option json_parser_error (read_json line)) ;;
         put_header (Some h) ;;
         match pt_find "body" h with
         | Some body =>
             let h := pt_erase "body" h in
             put_header (Some h) ;;
             dispatch_line (Msg_parsed h body (Some self)) ;;
             put_header None ;;
             ret true
         | None => ret true
         end)
        (ret false)
  | Some h =>
      (* the constructor swaps the header with an empty tree *)
      put_header (Some pt_empty) ;;
      dispatch_line (Msg_raw h line (Some self)) ;;
      put_header None ;;
      ret true
  end.

Definition get_line_state (s : InputProcessor T * W) : option T * W :=
  (ip_header s.1, s.2).
Definition set_line_state (l : option T * W) (s : InputProcessor T * W)
    : InputProcessor T * W := (mkIP (m_acculine s.1) l.1, l.2).

Definition nextCmd : M (InputProcessor T * W) (option string) := fun s =>
  let '(line, acc) := getNextCmd (m_acculine s.1) in
  (Ok line, (mkIP acc (ip_header s.1), s.2)).

(** [while((line = m_acculine.getNextCmd())) ...] *)
Fixpoint process_loop (fuel : nat) : M (InputProcessor T * W) bool :=
  match fuel with
  | O => diverge
  | S fuel' =>
      line <- nextCmd ;;
      match line with
      | None => ret true
      | Some line =>
          continue <- zoom get_line_state set_line_state (on_line line) ;;
          if continue : bool then process_loop fuel' else ret false
      end
  end.

Definition processNewInput (input : string) : M (InputProcessor T * W) bool :=
  modify (fun s => (mkIP (addNewInput input (m_acculine s.1)) (ip_header s.1), s.2)) ;;
  process_loop (S (String.length input)).

(** The reference: the lines of the stream, one after the other. *)
Fixpoint run_lines (ls : list string) : M (option T * W) bool :=
  match ls with
  | [] => ret true
  | l :: ls' =>
      continue <- on_line l ;;
      if continue : bool then run_lines ls' else ret false
  end.
End InputProcessor.

(** ** Lemmas *)

Section InputProcessor_lemmas.
Context {T : Type} {PL : Platform T} {W : Type}.
Variable dispatchMsg : Msg T -> M W unit.
Variable self : sid.
Abbreviation process_loop := (process_loop dispatchMsg self).
Abbreviation processNewInput := (processNewInput dispatchMsg self).
Abbreviation run_lines := (run_lines dispatchMsg self).

(** A result of the program's loop agrees with one of the reference. *)
Definition agrees (rest : string) (r : outcome bool * (InputProcessor T * W))
    (ref : outcome bool * (option T * W)) : Prop :=
  r.1 = ref.1 /\ get_line_state r.2 = ref.2 /\
  (r.1 = Ok true -> m_acculine r.2.1 = mkAccuLine rest EmptyString).

Lemma run_lines_app ls1 ls2 s :
  run_lines (ls1 ++ ls2) s =
  bind (run_lines ls1) (fun b => if b : bool then run_lines ls2 else ret false) s.
Proof.
  revert s; induction ls1 as [|l ls1 IH]; intros s; [done|].
  simpl. rewrite bind_assoc. apply bind_ext. by intros [] s'.
Qed.

Lemma process_loop_spec fuel ip w :
  String.length (m_curline (m_acculine ip)) < fuel ->
  let sl := split_lines (m_cmd (m_acculine ip)) (m_curline (m_acculine ip)) in
  agrees sl.2 (process_loop fuel (ip, w)) (run_lines sl.1 (ip_header ip, w)).
Proof.
  revert ip w; induction fuel as [|fuel IH]; intros ip w Hf; [lia|].
  pose proof (getNextCmd_spec (m_acculine ip)) as Hspec.
  cbn [process_loop]. unfold bind at 1, nextCmd; simpl.
  destruct (getNextCmd (m_acculine ip)) as [[l|] acc].
  - destruct Hspec as (-> & Hc & Hlt). cbn [fst snd InputProcessor.run_lines].
    unfold bind, zoom, get_line_state; simpl.
    destruct (on_line dispatchMsg self l (ip_header ip, w)) as [[[|]|e| |] [h w']];
      try by repeat split.
    apply (IH (mkIP acc h) w'). simpl. lia.
  - destruct Hspec as [-> Hc]. repeat split. intros _. simpl.
    destruct acc; simpl in *. by subst.
Qed.

Lemma processNewInput_lines input ip w :
  let sl := split_lines (m_cmd (m_acculine ip)) input in
  agrees sl.2 (processNewInput input (ip, w)) (run_lines sl.1 (ip_header ip, w)).
Proof.
  apply (process_loop_spec (S (String.length input))
           (mkIP (addNewInput input (m_acculine ip)) (ip_header ip)) w). simpl. lia.
Qed.

(** The four courses of the loop body. *)
Lemma on_line_bad l w :
  read_json l = None ->
  on_line dispatchMsg self l (None, w) = (Ok false, (Some pt_empty, w)).
Proof.
  intros Hr. unfold on_line, catch_all, put_header. run_m. by rewrite Hr.
Qed.

Lemma on_line_header l h w :
  read_json l = Some h -> pt_find "body" h = None ->
  on_line dispatchMsg self l (None, w) = (Ok true, (Some h, w)).
Proof.
  intros Hr Hb. unfold on_line, catch_all, put_header. run_m. rewrite Hr; simpl.
  by rewrite Hb.
Qed.

Lemma on_line_inline l h b w :
  read_json l = Some h -> pt_find "body" h = Some b ->
  on_line dispatchMsg self l (None, w) =
  match dispatchMsg (Msg_parsed (pt_erase "body" h) b (Some self)) w with
  | (Ok _, w') => (Ok true, (None, w'))
  | (Throw _, w') => (Ok false, (Some (pt_erase "body" h), w'))
  | (Undefined, w') => (Undefined, (Some (pt_erase "body" h), w'))
  | (Diverges, w') => (Diverges, (Some (pt_erase "body" h), w'))
  end.
Proof.
  intros Hr Hb. unfold on_line, catch_all, put_header, dispatch_line. run_m.
  rewrite Hr; simpl. rewrite Hb; simpl. by destruct (dispatchMsg _ w) as [[[]|e| |] w'].
Qed.

Lemma on_line_body v h w :
  on_line dispatchMsg self v (Some h, w) =
  match dispatchMsg (Msg_raw h v (Some self)) w with
  | (Ok _, w') => (Ok true, (None, w'))
  | (Throw e, w') => (Throw e, (Some pt_empty, w'))
  | (Undefined, w') => (Undefined, (Some pt_empty, w'))
  | (Diverges, w') => (Diverges, (Some pt_empty, w'))
  end.
Proof.
  unfold on_line, put_header, dispatch_line. run_m.
  by destruct (dispatchMsg _ w) as [[[]|e| |] w'].
Qed.

Lemma run_lines_cons l ls s :
  run_lines (l :: ls) s =
  match on_line dispatchMsg self l s with
  | (Ok true, s') => run_lines ls s'
  | r => r
  end.
Proof.
  cbn [InputProcessor.run_lines]. unfold bind.
  by destruct (on_line dispatchMsg self l s) as [[[|]|e| |] s'].
Qed.
End InputProcessor_lemmas.

Section InputProcessor_preserves.
Context {T : Type} {PL : Platform T}.

(** What the consumer keeps, the processor keeps. *)
Lemma processNewInput_preserves {W} (I : W -> Prop) dispatchMsg self input :
  (forall msg : Msg T, preserves I (dispatchMsg msg)) ->
  preserves (fun s => I s.2) (processNewInput dispatchMsg self input).
Proof.
  intros Hd. unfold processNewInput. apply preserves_bind; [by apply preserves_modify|intros _].
  generalize (S (String.length input)) as fuel.
  induction fuel as [|fuel IH]; [apply preserves_diverge|]. cbn [process_loop].
  apply preserves_bind.
  { intros [ip w] Hw. unfold nextCmd. simpl. by destruct (getNextCmd _). }
  intros [line|]; [|apply preserves_ret].
  apply preserves_bind; [|intros []; [exact IH|apply preserves_ret]].
  apply (preserves_zoom _ (fun l => I l.2)); try done.
  assert (forall msg, preserves (fun l : option T * W => I l.2) (dispatch_line dispatchMsg msg)) as Hl.
  { intros msg. by apply (preserves_zoom _ I). }
  assert (forall h, preserves (fun l : option T * W => I l.2) (put_header h)) as Hh
    by (intros h; by apply preserves_modify).
  unfold on_line. apply preserves_bind; [apply preserves_gets|intros [h|]];
    auto 10 with preserve.
Qed.

#[local] Hint Extern 1 (m_origin _ = _) =>
  unfold Msg_raw, Msg_parsed; by rewrite updateDest_origin : safety.

(** The processor is as safe as its consumer is on the messages it makes, and
    ends when that does. *)
Lemma processNewInput_safe {W} D (I : W -> Prop) dispatchMsg self input :
  (forall msg : Msg T, m_origin msg = Some self -> safe D I (dispatchMsg msg)) ->
  safe D (fun s => I s.2) (processNewInput dispatchMsg self input).
Proof.
  intros Hd. assert (forall line, safe D (fun l => I l.2) (on_line dispatchMsg self line)) as Hon.
  { intros line. assert (forall msg, m_origin msg = Some self ->
      safe D (fun l : option T * W => I l.2) (dispatch_line dispatchMsg msg)) as Hl.
    { intros msg Hm. apply (safe_zoom _ _ I); auto. }
    assert (forall h, safe D (fun l : option T * W => I l.2) (put_header h)) as Hh
      by (intros h; by apply safe_modify).
    unfold on_line. apply safe_bind; [apply safe_gets|intros [h|]]; [auto 10 with safety|].
    apply safe_catch_all; [|apply safe_ret].
    apply safe_bind; [apply Hh|intros _]. apply safe_bind; [|intros h; auto 10 with safety].
    by apply safe_lift; destruct (read_json line). }
  assert (forall fuel s, String.length (m_curline (m_acculine s.1)) < fuel -> I s.2 ->
    safe_at D (fun s => I s.2) (process_loop dispatchMsg self fuel) s) as Hloop.
  { induction fuel as [|fuel IH]; intros [ip w] Hf Hw; simpl in Hf; [lia|].
    cbn [process_loop]. pose proof (getNextCmd_spec (m_acculine ip)) as Hspec.
    eapply safe_at_ok; [unfold nextCmd; simpl; by rewrite (surjective_pairing (getNextCmd _))|].
    destruct (getNextCmd (m_acculine ip)) as [[line|] acc]; [|exact Hw].
    destruct Hspec as (_ & _ & Hlt). simpl.
    specialize (Hon line (ip_header ip, w) Hw). unfold safe_at, bind, zoom, get_line_state in *.
    simpl. destruct (on_line _ _ _ _) as [[b|e| |] [h w']]; try done. simpl.
    destruct b; [|done]. apply IH; simpl; [lia|done]. }
  intros [ip w] Hw. unfold processNewInput. eapply safe_at_ok; [done|].
  apply Hloop; [simpl; lia|exact Hw].
Qed.
End InputProcessor_preserves.

(** Blocks read from the socket one after the other, until one is refused. *)
Fixpoint process_blocks {T} {PL : Platform T} {W} (dispatchMsg : Msg T -> M W unit)
    (self : sid) (blocks : list string) : M (InputProcessor T * W) bool :=
  match blocks with
  | [] => ret true
  | b :: bs =>
      continue <- processNewInput dispatchMsg self b ;;
      if continue : bool then process_blocks dispatchMsg self bs else ret false
  end.

(** The body line of the wire form. *)
Definition wire_body {T} {PL : Platform T} (m : Msg T) (v : string) : Prop :=
  match m_body m with
  | Raw v' => v = v'
  | Parsed b => write_json b = Some (v +:+ str1 NL)
  end.

Section InputProcessor_props.
Context {T : Type} {PL : Platform T} {W : Type}.
Variable dispatchMsg : Msg T -> M W unit.
Variable self : sid.
Implicit Types (m : Msg T) (h b : T) (w : W).

Lemma process_blocks_agrees blocks ip w :
  m_curline (m_acculine ip) = EmptyString ->
  let sl := split_lines (m_cmd (m_acculine ip)) (foldr String.append EmptyString blocks) in
  agrees sl.2 (process_blocks dispatchMsg self blocks (ip, w))
    (run_lines dispatchMsg self sl.1 (ip_header ip, w)).
Proof.
  revert ip w; induction blocks as [|bl bs IH]; intros ip w Hc; cbn [foldr process_blocks].
  - simpl. repeat split. intros _. simpl. destruct ip as [[cmd cur] hd]; simpl in *.
    by subst.
  - pose proof (processNewInput_lines dispatchMsg self bl ip w) as Hp; simpl in Hp.
    rewrite split_lines_app. cbn [fst snd]. rewrite run_lines_app.
    destruct Hp as (Ho & Hg & Ha). unfold bind.
    destruct (processNewInput dispatchMsg self bl (ip, w)) as [o [ip' w']].
    destruct (run_lines dispatchMsg self _ _) as [o2 hw2]. simpl in Ho, Hg, Ha.
    subst o2 hw2. destruct o as [[|]|e| |]; try by repeat split.
    specialize (IH ip' w'). rewrite Ha in IH by done. by apply IH.
Qed.

(** C13: However the byte stream of a connection is cut into blocks, calling
    processNewInput on each block in turn has the outcome, the effect on the
    program and the pending header of the line-by-line machine run on the
    lines of the whole stream, exceptions and refusals included, and leaves
    the unfinished last line in the accumulator. *)
Theorem processNewInput_chunk_independent (blocks : list string) w :
  let sl := split_lines EmptyString (foldr String.append EmptyString blocks) in
  agrees sl.2 (process_blocks dispatchMsg self blocks (IP_init, w))
    (run_lines dispatchMsg self sl.1 (None, w)).
Proof. by apply (process_blocks_agrees blocks IP_init). Qed.

Lemma process_fresh input w :
  let r := processNewInput dispatchMsg self input (IP_init, w) in
  let ref := run_lines dispatchMsg self (split_lines EmptyString input).1 (None, w) in
  r.1 = ref.1 /\ r.2.2 = ref.2.2.
Proof.
  intros r ref.
  destruct (processNewInput_lines dispatchMsg self input IP_init w) as (Ho & Hg & _).
  split; [exact Ho|]. exact (f_equal snd Hg).
Qed.

Lemma process_fresh_ok input ls w w' :
  split_lines EmptyString input = (ls, EmptyString) ->
  run_lines dispatchMsg self ls (None, w) = (Ok true, (None, w')) ->
  processNewInput dispatchMsg self input (IP_init, w) = (Ok true, (IP_init, w')).
Proof.
  intros Hs Hr. pose proof (processNewInput_lines dispatchMsg self input IP_init w) as Hp.
  simpl in Hp. rewrite Hs in Hp; simpl in Hp. rewrite Hr in Hp.
  destruct (processNewInput dispatchMsg self input (IP_init, w)) as [o [[acc hd] w'']].
  destruct Hp as (Ho & Hg & Ha). unfold get_line_state in Hg; simpl in *. simplify_eq.
  by rewrite Ha.
Qed.

(** What Msg::str prints is read back by processNewInput as one message with
    the same header and the same body text, handed once to the consumer, and
    nothing is left over, for header and body texts of one line each and a
    JSON reader that reads back the header. *)
Lemma str_roundtrip m hl v w w' :
  write_json (m_header m) = Some (hl +:+ str1 NL) -> wire_body m v ->
  str_in NL hl = false -> str_in NL v = false ->
  read_json hl = Some (m_header m) -> pt_find "body" (m_header m) = None ->
  dispatchMsg (Msg_raw (m_header m) v (Some self)) w = (Ok tt, w') ->
  exists s, str m = Ok s /\
    processNewInput dispatchMsg self s (IP_init, w) = (Ok true, (IP_init, w')).
Proof.
  intros Hw Hv Hhl Hvl Hr Hb Hd.
  exists (hl +:+ String NL (v +:+ String NL EmptyString)). split.
  - unfold str. rewrite Hw. unfold wire_body in Hv.
    destruct (m_body m) as [v'|b]; simplify_eq; [|rewrite Hv];
      unfold str1; autorewrite with strrw; done.
  - apply (process_fresh_ok _ [hl; v]); [by rewrite !split_lines_line0|].
    rewrite run_lines_cons, (on_line_header _ _ _ _ _ Hr Hb).
    by rewrite run_lines_cons, on_line_body, Hd.
Qed.

(** What the destructive printer makes of a message with a parsed body, one
    line with the body inside the header tree, is read back by
    processNewInput as one message with the same header and the same parsed
    body, handed once to the consumer, and nothing is left over. *)
Lemma move_tostr_roundtrip {LAWS : PTreeLaws T} m b l w w' :
  m_body m = Parsed b -> pt_find "body" (m_header m) = None ->
  write_json (pt_put_child "body" b (m_header m)) = Some (l +:+ str1 NL) ->
  str_in NL l = false -> read_json l = Some (pt_put_child "body" b (m_header m)) ->
  dispatchMsg (Msg_parsed (m_header m) b (Some self)) w = (Ok tt, w') ->
  exists s, (move_tostr m).1 = Ok s /\
    processNewInput dispatchMsg self s (IP_init, w) = (Ok true, (IP_init, w')).
Proof.
  intros Hb Hf Hw Hl Hr Hd. exists (l +:+ String NL EmptyString). split.
  - unfold move_tostr. rewrite Hb; simpl. by rewrite Hw.
  - apply (process_fresh_ok _ [l]); [by rewrite split_lines_line0|].
    rewrite run_lines_cons, (on_line_inline _ _ _ _ b _ Hr) by apply pt_find_put_child.
    by rewrite pt_erase_put_child, Hd.
Qed.

(** A header line that is not JSON refuses the connection. *)
Lemma malformed_header_refused l rest w :
  str_in NL l = false -> read_json l = None ->
  let r := processNewInput dispatchMsg self (l +:+ String NL rest) (IP_init, w) in
  r.1 = Ok false /\ r.2.2 = w.
Proof.
  intros Hl Hr r. destruct (process_fresh (l +:+ String NL rest) w) as [Ho Hg].
  subst r. rewrite Ho, Hg, split_lines_line0 by done; cbn [fst].
  by rewrite run_lines_cons, on_line_bad.
Qed.

(** An exception of the consumer is turned into a refusal of the connection
    when the message came in one line, and leaves processNewInput as an
    exception when it came as a header line and a body line; the effects of
    the consumer are kept in both cases. *)
Lemma dispatch_exception_paths hl h v e w w' :
  str_in NL hl = false -> str_in NL v = false -> read_json hl = Some h ->
  let input := hl +:+ String NL (v +:+ str1 NL) in
  let r := processNewInput dispatchMsg self input (IP_init, w) in
  (forall b, pt_find "body" h = Some b ->
     dispatchMsg (Msg_parsed (pt_erase "body" h) b (Some self)) w = (Throw e, w') ->
     r.1 = Ok false /\ r.2.2 = w') /\
  (pt_find "body" h = None ->
     dispatchMsg (Msg_raw h v (Some self)) w = (Throw e, w') ->
     r.1 = Throw e /\ r.2.2 = w').
Proof.
  intros Hhl Hv Hr input r. destruct (process_fresh input w) as [Ho Hg].
  subst r. rewrite Ho, Hg. subst input. unfold str1.
  rewrite !split_lines_line0 by done. cbn [fst].
  rewrite run_lines_cons. split; [intros b Hb Hd|intros Hb Hd].
  - by rewrite (on_line_inline _ _ _ _ b _ Hr), Hd.
  - by rewrite (on_line_header _ _ _ _ _ Hr Hb), run_lines_cons, on_line_body, Hd.
Qed.
End InputProcessor_props.

(** ** Witnesses *)

Section InputProcessor_witnesses.
#[local] Existing Instance tree_PTreeLaws.
#[local] Instance ip_liver : Platform tree := demo "liver" "userver".

(** A consumer that records the messages, and one that refuses them. *)
Definition record_msg (m : Msg tree) : M (list (Msg tree)) unit := modify (cons m).
Definition refuse_msg (m : Msg tree) : M (list (Msg tree)) unit :=
  throw (ptree_bad_path "cname").

Definition demo_msg : Msg tree := Msg_out (mkAddr "uecho" "pingutv") "ping" ping_body.

Lemma str_roundtrip_witness :
  exists s, str demo_msg = Ok s /\
    processNewInput record_msg 1%positive s (IP_init, []) =
    (Ok true, (IP_init,
       [Msg_raw (m_header demo_msg) (demo_line ping_body) (Some 1%positive)])).
Proof.
  apply (str_roundtrip record_msg 1%positive demo_msg
           (demo_line (m_header demo_msg)) (demo_line ping_body));
    vm_compute; reflexivity.
Defined.

Lemma move_tostr_roundtrip_witness :
  exists s, (move_tostr demo_msg).1 = Ok s /\
    processNewInput record_msg 1%positive s (IP_init, []) =
    (Ok true, (IP_init, [Msg_parsed (m_header demo_msg) ping_body (Some 1%positive)])).
Proof.
  apply (move_tostr_roundtrip record_msg 1%positive demo_msg ping_body
           (demo_line (pt_put_child "body" ping_body (m_header demo_msg))));
    vm_compute; reflexivity.
Defined.

Lemma malformed_header_refused_witness :
  (processNewInput record_msg 1%positive ("not json" +:+ String NL "{}") (IP_init, [])).1
  = Ok false.
Proof.
  apply (malformed_header_refused record_msg 1%positive "not json" "{}" []);
    vm_compute; reflexivity.
Defined.

Lemma dispatch_exception_paths_witness :
  (processNewInput refuse_msg 1%positive
     (demo_line demo_tree +:+ String NL ("{}" +:+ str1 NL)) (IP_init, [])).1
  = Throw (ptree_bad_path "cname").
Proof.
  apply (dispatch_exception_paths refuse_msg 1%positive (demo_line demo_tree) demo_tree "{}"
           (ptree_bad_path "cname") [] []); vm_compute; reflexivity.
Defined.
End InputProcessor_witnesses.
