(* ===== verification/Stream.v ===== *)
(** * Stream: a connection as a reliable channel of messages

    The composition of the printers of [Msg] with the reader of
    [InputProcessor]: the texts of a sequence of messages, one after the
    other on the wire, cut anywhere by the network, are read as that
    sequence.  The specification is the list of the messages whose whole
    text has arrived. *)
From S2P Require Import Prelude Effects AccuLine PTree UConfig Addr Demo Msg InputProcessor.

(** The text [s] that a printer of the program makes of [m] is one that the
    reader of the session [self] takes as the message [r]. *)
Inductive transmits {T} {PL : Platform T} (self : sid) (m : Msg T) : string -> Msg T -> Prop :=
  | by_str s hl v :
      str m = Ok s -> write_json (m_header m) = Some (hl +:+ str1 NL) -> wire_body m v ->
      str_in NL hl = false -> str_in NL v = false ->
      read_json hl = Some (m_header m) -> pt_find "body" (m_header m) = None ->
      transmits self m s (Msg_raw (m_header m) v (Some self))
  | by_move_tostr s b l h :
      (move_tostr m).1 = Ok s -> m_body m = Parsed b ->
      write_json (pt_put_child "body" b (m_header m)) = Some (l +:+ str1 NL) ->
      str_in NL l = false -> read_json l = Some h ->
      pt_find "body" h = Some b -> pt_erase "body" h = m_header m ->
      transmits self m s (Msg_parsed (m_header m) b (Some self)).

(** The texts on the wire. *)
Definition wire (ss : list string) : string := foldr String.append EmptyString ss.

(** ** Lemmas *)

Lemma wire_app ss1 ss2 : wire (ss1 ++ ss2) = wire ss1 +:+ wire ss2.
Proof. induction ss1 as [|s ss1 IH]; [done|]. simpl. by rewrite IH, str_app_assoc. Qed.

(** Where a prefix of [s ++ t] ends: after [s] or inside it. *)
Lemma str_app_split p rest s t :
  p +:+ rest = s +:+ t ->
  (exists p', p = s +:+ p' /\ p' +:+ rest = t) \/ (exists c q, s = p +:+ String c q).
Proof.
  revert p; induction s as [|a s IH]; intros p Heq; [by left; exists p|].
  destruct p as [|a' p]; [right; by exists a, s|].
  cbn in Heq. injection Heq as -> Heq.
  destruct (IH _ Heq) as [(p' & -> & Ht)|(c & q & ->)]; [left; by exists p'|right].
  by exists c, q.
Qed.

Section Stream_lemmas.
Context {T : Type} {PL : Platform T} {W : Type}.
Variable dispatchMsg : Msg T -> M W unit.
Variable self : sid.
Implicit Types (m r : Msg T) (w : W).
Abbreviation run_lines := (run_lines dispatchMsg self).

(** [ls] are the lines of the text [s]: run from the fresh state they dispatch
    the message [r]; a part of the text that is not the whole dispatches
    nothing. *)
Record frame (s : string) r (ls : list string) : Prop := {
  frame_text t : split_lines EmptyString (s +:+ t) =
    (ls ++ (split_lines EmptyString t).1, (split_lines EmptyString t).2);
  frame_run w w' : dispatchMsg r w = (Ok tt, w') ->
    run_lines ls (None, w) = (Ok true, (None, w'));
  frame_part p c q : s = p +:+ String c q -> exists h, forall w,
    run_lines (split_lines EmptyString p).1 (None, w) = (Ok true, (h, w));
}.

(** A proper prefix of a line with its line feed is a part of the line. *)
Lemma line_part p c q l :
  str_in NL l = false -> l +:+ str1 NL = p +:+ String c q -> str_in NL p = false.
Proof.
  intros Hl Heq. symmetry in Heq. apply str_app_split in Heq as [(p' & -> & Hp)|(a & b & ->)].
  - destruct p' as [|a p']; [by rewrite str_app_nil_r|].
    injection Hp as _ Hp. by destruct p'.
  - rewrite str_in_app in Hl. by apply orb_false_iff in Hl as [??].
Qed.

Lemma frame_one_line l r :
  str_in NL l = false ->
  (forall w w', dispatchMsg r w = (Ok tt, w') ->
     on_line dispatchMsg self l (None, w) = (Ok true, (None, w'))) ->
  frame (l +:+ str1 NL) r [l].
Proof.
  intros Hl Hd. split.
  - intros t. unfold str1. autorewrite with strrw. by apply split_lines_line0.
  - intros w w' Hw. by rewrite run_lines_cons, (Hd _ _ Hw).
  - intros p c q Heq. exists None. intros w.
    by rewrite (split_lines_no_nl _ _ (line_part _ _ _ _ Hl Heq)).
Qed.

Lemma frame_two_lines hl v h r :
  str_in NL hl = false -> str_in NL v = false ->
  (forall w, on_line dispatchMsg self hl (None, w) = (Ok true, (Some h, w))) ->
  (forall w w', dispatchMsg r w = (Ok tt, w') ->
     on_line dispatchMsg self v (Some h, w) = (Ok true, (None, w'))) ->
  frame (hl +:+ String NL (v +:+ str1 NL)) r [hl; v].
Proof.
  intros Hhl Hv Hh Hd. split.
  - intros t. unfold str1. autorewrite with strrw. by rewrite !split_lines_line0.
  - intros w w' Hw. by rewrite run_lines_cons, Hh, run_lines_cons, (Hd _ _ Hw).
  - intros p c q Heq. change (String NL (v +:+ str1 NL)) with (str1 NL +:+ (v +:+ str1 NL)) in Heq.
    rewrite <-str_app_assoc in Heq. symmetry in Heq.
    apply str_app_split in Heq as [(p' & -> & Hp)|(a & b & Hp)].
    + exists (Some h). intros w. unfold str1 at 1. autorewrite with strrw.
      rewrite split_lines_line0 by done.
      rewrite (split_lines_no_nl _ _ (line_part _ _ _ _ Hv (eq_sym Hp))). cbn [fst].
      by rewrite run_lines_cons, Hh.
    + exists None. intros w. by rewrite (split_lines_no_nl _ _ (line_part _ _ _ _ Hhl Hp)).
Qed.

Lemma transmits_frame m s r : transmits self m s r -> exists ls, frame s r ls.
Proof.
  intros [s' hl v Hs Hh Hv Hhl Hvl Hr Hb|s' b l h Hs Hb Hw Hl Hr Hf He].
  - exists [hl; v]. assert (s' = hl +:+ String NL (v +:+ str1 NL)) as ->.
    { unfold str in Hs. rewrite Hh in Hs. unfold wire_body in Hv.
      destruct (m_body m) as [v'|b]; simplify_eq; [|rewrite Hv in Hs; simplify_eq];
        unfold str1; autorewrite with strrw; done. }
    apply (frame_two_lines _ _ (m_header m)); [done|done| |].
    + intros w. by apply on_line_header.
    + intros w w' Hd. by rewrite on_line_body, Hd.
  - exists [l]. assert (s' = l +:+ str1 NL) as ->.
    { unfold move_tostr in Hs. rewrite Hb in Hs. simpl in Hs. rewrite Hw in Hs.
      by injection Hs. }
    apply frame_one_line; [done|]. intros w w' Hd.
    by rewrite (on_line_inline _ _ _ _ b _ Hr Hf), He, Hd.
Qed.

(** The messages whose whole text is in [p], a part of the wire. *)
Lemma run_part ms ss rs p rest w w' :
  Forall3 (transmits self) ms ss rs -> p +:+ rest = wire ss ->
  for_each rs dispatchMsg w = (Ok tt, w') ->
  exists k w1 h,
    for_each (take k rs) dispatchMsg w = (Ok tt, w1) /\
    run_lines (split_lines EmptyString p).1 (None, w) = (Ok true, (h, w1)) /\
    (exists tail, p = wire (take k ss) +:+ tail /\
       (k = length ss /\ tail = EmptyString /\ (h, (split_lines EmptyString p).2) = (None, EmptyString) \/
        exists s c q, ss !! k = Some s /\ s = tail +:+ String c q)).
Proof.
  intros Hf. revert p w; induction Hf as [|m s r ms ss rs Ht Hf IH]; intros p w Hp Hd.
  - exists 0, w, None. destruct p; [|done]. split_and!; [done|done|].
    exists EmptyString. split; [done|by left].
  - destruct (transmits_frame _ _ _ Ht) as [ls [Htext Hrun Hpart]].
    cbn [for_each] in Hd. unfold bind in Hd.
    destruct (dispatchMsg r w) as [[[]|e| |] w2] eqn:Hr; try done.
    cbn [wire foldr] in Hp. apply str_app_split in Hp as [(p' & -> & Hp)|(c & q & Hs)].
    + destruct (IH _ _ Hp Hd) as (k & w1 & h & Hk & Hl & tail & -> & Htail).
      exists (S k), w1, h. split_and!.
      * cbn [take for_each]. by rewrite (bind_ok _ _ _ _ _ Hr).
      * rewrite Htext. cbn [fst]. rewrite run_lines_app.
        by rewrite (bind_ok _ _ _ _ _ (Hrun _ _ Hr)).
      * exists tail. split; [by rewrite <-str_app_assoc|].
        rewrite Htext. destruct Htail as [(-> & -> & Hh)|Htail]; [left|by right].
        split_and!; [done|done|exact Hh].
    + destruct (Hpart p c q Hs) as [h Hh].
      exists 0, w, h. split_and!; [done|done|]. exists p. split; [done|].
      right. by exists s, c, q.
Qed.

(** The messages whose whole text is in the blocks are dispatched, and what is
    left is a part of the next text. *)
Lemma blocks_read_prefix (ms : list (Msg T)) ss rs blocks rest w w' :
  Forall3 (transmits self) ms ss rs ->
  wire blocks +:+ rest = wire ss ->
  for_each rs dispatchMsg w = (Ok tt, w') ->
  exists k w1 ip tail,
    for_each (take k rs) dispatchMsg w = (Ok tt, w1) /\
    process_blocks dispatchMsg self blocks (IP_init, w) = (Ok true, (ip, w1)) /\
    wire blocks = wire (take k ss) +:+ tail /\
    (k = length ss /\ tail = EmptyString /\ ip = IP_init \/
     exists s c q, ss !! k = Some s /\ s = tail +:+ String c q).
Proof.
  intros Hf Hw Hd.
  destruct (run_part _ _ _ _ _ _ _ Hf Hw Hd) as (k & w1 & h & Hk & Hl & tail & Ht & Hc).
  pose proof (process_blocks_agrees dispatchMsg self blocks IP_init w eq_refl) as (Ho & Hg & Ha).
  cbn [m_acculine IP_init m_cmd AccuLine_init ip_header] in Ho, Hg, Ha.
  fold (wire blocks) in Ho, Hg, Ha. rewrite Hl in Ho, Hg.
  destruct (process_blocks _ _ _ _) as [o [ip w2]]. unfold get_line_state in Hg. simpl in *. simplify_eq.
  exists k, w1, ip, tail. split_and!; try done.
  destruct Hc as [(-> & -> & Hh)|Hc]; [left|by right].
  split_and!; [done|done|]. injection Hh as Hh Hr.
  destruct ip as [acc hd]. simpl in *. subst hd. by rewrite Ha, Hr.
Qed.
End Stream_lemmas.

(** ** Properties *)

Section Stream_props.
Context {T : Type} {PL : Platform T} {W : Type}.
Variable dispatchMsg : Msg T -> M W unit.
Variable self : sid.

(** C5: A connection refines a reliable channel of messages: for messages
    printed by str or by move_tostr one after the other that can be read
    back (the text of the header is one line and is read back as it was,
    without a body key, and so is the text of the body), a consumer that
    succeeds on every one of them, and any blocks that make up a part of
    that text, the blocks are accepted and exactly the messages whose whole
    text has arrived have been handed to the consumer, once each and in
    order; what follows them is a part of the next text, and when everything
    has arrived the processor is as new. *)
Theorem stream_refines_fifo (ms : list (Msg T)) ss rs blocks rest w w' :
  Forall3 (transmits self) ms ss rs ->
  wire blocks +:+ rest = wire ss ->
  for_each rs dispatchMsg w = (Ok tt, w') ->
  exists k w1 ip tail,
    for_each (take k rs) dispatchMsg w = (Ok tt, w1) /\
    process_blocks dispatchMsg self blocks (IP_init, w) = (Ok true, (ip, w1)) /\
    wire blocks = wire (take k ss) +:+ tail /\
    (k = length ss /\ tail = EmptyString /\ ip = IP_init \/
     exists s c q, ss !! k = Some s /\ s = tail +:+ String c q).
Proof. apply blocks_read_prefix. Qed.
End Stream_props.

(** ** Witnesses *)

Section Stream_witnesses.
#[local] Instance st_liver : Platform tree := demo "liver" "userver".

Definition st_one : Msg tree := Msg_out (mkAddr "uecho" "pingutv") "ping" ping_body.
Definition st_two : Msg tree := Msg_out (mkAddr "usender" "pingutv") "pong" ping_body.
Definition st_text (o : outcome string) : string :=
  match o with Ok s => s | _ => EmptyString end.
Definition st_texts : list string := [st_text (str st_one); st_text (move_tostr st_two).1].
Definition st_read : list (Msg tree) :=
  [Msg_raw (m_header st_one) (demo_line ping_body) (Some 1%positive);
   Msg_parsed (m_header st_two) ping_body (Some 1%positive)].

(** The wire cut inside the second text, the rest being still on its way. *)
Lemma stream_refines_fifo_witness :
  exists k w1 ip tail,
    for_each (take k st_read) record_msg [] = (Ok tt, w1) /\
    process_blocks record_msg 1%positive
      [str_take 30 (wire st_texts); str_drop 30 (str_take 120 (wire st_texts))] (IP_init, [])
      = (Ok true, (ip, w1)) /\
    wire [str_take 30 (wire st_texts); str_drop 30 (str_take 120 (wire st_texts))]
      = wire (take k st_texts) +:+ tail /\
    (k = length st_texts /\ tail = EmptyString /\ ip = IP_init \/
     exists s c q, st_texts !! k = Some s /\ s = tail +:+ String c q).
Proof.
  apply (stream_refines_fifo record_msg 1%positive [st_one; st_two] st_texts st_read _
    (str_drop 120 (wire st_texts)) [] (rev st_read)); try (vm_compute; reflexivity).
  repeat constructor.
  - apply (by_str _ st_one _ (demo_line (m_header st_one))); vm_compute; reflexivity.
  - apply (by_move_tostr _ st_two _ ping_body
      (demo_line (pt_put_child "body" ping_body (m_header st_two)))
      (pt_put_child "body" ping_body (m_header st_two))); vm_compute; reflexivity.
Defined.
End Stream_witnesses.
