(* ===== verification/Dispatcher.v ===== *)
(** * MsgDispatcher: handlers by message name
    (src/uzel/dispatcher.h, src/uzel/dispatcher.cpp)

    Handlers are kept in immutable vectors that are replaced as a whole, so a
    running [dispatch] iterates over the vector it picked up.  Handlers are
    first-order data [H] (by name) and [HS] (any-post) with their meaning
    [runH] and [runHS]: they act on the whole program state [W], of which the
    dispatcher is a part, and on the message, whose body cache they may fill.

    Every operation goes through [boost::asio::dispatch] on a strand:
    documented to run the function at once when the calling thread is inside
    the executor ([inline = true]) and to queue it otherwise.  Of the
    functions only that of [dispatch] throws: see [captured]. *)
From S2P Require Import Prelude Effects PTree UConfig Addr Demo Msg.

(** [std::uint64_t] *)
Abbreviation Id := Z.
Definition uint64 (v : Z) : Z := (v mod 18446744073709551616)%Z.

(** A function queued on the strand. *)
Inductive job (T : Type) :=
  | JDisconnect (cname : string) (id : Id)
  | JUnregisterAll (cname : string)
  | JClearAnyPost
  | JDispatch (msg : Msg T).
Arguments JDisconnect {T}.
Arguments JUnregisterAll {T}.
Arguments JClearAnyPost {T}.
Arguments JDispatch {T}.

Record MsgDispatcher (T H HS : Type) := mkDispatcher {
  m_handlers : gmap string (list (Id * H));
  m_anyPost : option (list (Id * HS));
  m_nextId : Id;
  m_strand : list (job T);
  m_shared : bool;   (* weak_from_this().use_count() != 0 *)
}.
Arguments mkDispatcher {T H HS}.
Arguments m_handlers {T H HS}.
Arguments m_anyPost {T H HS}.
Arguments m_nextId {T H HS}.
Arguments m_strand {T H HS}.
Arguments m_shared {T H HS}.

(** Made by [std::make_shared]. *)
Definition MsgDispatcher_init {T H HS} : MsgDispatcher T H HS :=
  mkDispatcher ∅ None 1%Z [] true.

(** A registration; [conn_self] is the weak pointer to the dispatcher. *)
Record Connection := mkConnection { conn_self : bool; conn_cname : string; conn_id : Id }.

Definition Connection_default : Connection := mkConnection false EmptyString 0%Z.
Definition conn_connected (c : Connection) : bool :=
  conn_self c && negb (conn_id c =? 0)%Z.

Record ScopedConnection := mkScoped { m_c : Connection }.

Definition ScopedConnection_default : ScopedConnection := mkScoped Connection_default.

Section Dispatcher.
Context {T H HS : Type}.
Notation D := (MsgDispatcher T H HS).
Implicit Types (d : D).

Definition set_handlers (hs : gmap string (list (Id * H))) d : D :=
  mkDispatcher hs (m_anyPost d) (m_nextId d) (m_strand d) (m_shared d).
Definition set_anyPost (p : option (list (Id * HS))) d : D :=
  mkDispatcher (m_handlers d) p (m_nextId d) (m_strand d) (m_shared d).
Definition set_nextId (n : Id) d : D :=
  mkDispatcher (m_handlers d) (m_anyPost d) n (m_strand d) (m_shared d).
Definition push_job (j : job T) d : D :=
  mkDispatcher (m_handlers d) (m_anyPost d) (m_nextId d) (m_strand d ++ [j]) (m_shared d).

Definition assertShared : M D unit :=
  shared <- gets m_shared ;;
  if shared : bool then ret tt
  else throw (logic_error "MsgDispatcher must be owned by std::shared_ptr").

(** When the lambda is only queued, the local [id] is returned without ever
    being written. *)
Definition nextIdOnStrand (inline : bool) : M D Id :=
  if inline then
    id <- gets m_nextId ;;
    modify (set_nextId (uint64 (id + 1))) ;;
    ret id
  else ub.

Definition registerHandler (inline : bool) (cname : string) (handler : H) : M D Connection :=
  assertShared ;;
  id <- nextIdOnStrand inline ;;
  modify (fun d =>
    let newv := default [] (m_handlers d !! cname) ++ [(id, handler)] in
    set_handlers (<[cname := newv]> (m_handlers d)) d) ;;
  ret (mkConnection true cname id).

Definition registerAnyPost (inline : bool) (handler : HS) : M D Connection :=
  assertShared ;;
  id <- nextIdOnStrand inline ;;
  modify (fun d =>
    let newv := default [] (m_anyPost d) ++ [(id, handler)] in
    set_anyPost (Some newv) d) ;;
  ret (mkConnection true EmptyString id).

(** [std::remove_if] by id, then [erase]. *)
Definition remove_id {A} (id : Id) (v : list (Id * A)) : list (Id * A) :=
  filter (fun item => item.1 <> id) v.

Definition disconnect_job (cname : string) (id : Id) d : D :=
  if negb (str_empty cname) then
    match m_handlers d !! cname with
    | None => d
    | Some v =>
        match remove_id id v with
        | [] => set_handlers (delete cname (m_handlers d)) d
        | nv => set_handlers (<[cname := nv]> (m_handlers d)) d
        end
    end
  else
    match m_anyPost d with
    | None => d
    | Some v =>
        match remove_id id v with
        | [] => set_anyPost None d
        | nv => set_anyPost (Some nv) d
        end
    end.

Definition disconnectImpl (inline : bool) (cname : string) (id : Id) : M D unit :=
  modify (if inline then disconnect_job cname id else push_job (JDisconnect cname id)).

Definition unregisterAll (inline : bool) (cname : string) : M D unit :=
  modify (if inline then fun d => set_handlers (delete cname (m_handlers d)) d
          else push_job (JUnregisterAll cname)).

Definition clearAnyPost (inline : bool) : M D unit :=
  modify (if inline then set_anyPost None else push_job JClearAnyPost).

Definition disconnect (inline : bool) (c : Connection) : M D Connection :=
  when (conn_self c) (disconnectImpl inline (conn_cname c) (conn_id c)) ;;
  ret (mkConnection false (conn_cname c) 0%Z).

(** [ScopedConnection] holds a connection [m_c]; its move assignment is the
    default one, which assigns the member: the new value of the target and
    what is left in the source, whose weak pointer and name are moved out.
    What the target held is overwritten. *)
Definition registerHandlerScoped (inline : bool) (cname : string) (handler : H)
    : M D ScopedConnection :=
  c <- registerHandler inline cname handler ;;
  ret (mkScoped c).
Definition registerAnyPostScoped (inline : bool) (handler : HS) : M D ScopedConnection :=
  c <- registerAnyPost inline handler ;;
  ret (mkScoped c).
Definition scoped_move_assign (target source : ScopedConnection)
    : ScopedConnection * ScopedConnection :=
  (mkScoped (m_c source), mkScoped (mkConnection false EmptyString (conn_id (m_c source)))).
Definition scoped_destroy (inline : bool) (s : ScopedConnection) : M D unit :=
  disconnect inline (m_c s) ;;
  ret tt.
End Dispatcher.

Section Dispatch.
Context {T H HS W : Type} {PL : Platform T} {TH : Thread W}.
Variable getD : W -> MsgDispatcher T H HS.
Variable setD : MsgDispatcher T H HS -> W -> W.
Variable runH : H -> M (W * Msg T) unit.
Variable runHS : HS -> M (W * Msg T) unit.

(** One handler in its [try] block: what it throws is logged. *)
Definition guarded (m : M (W * Msg T) unit) : M (W * Msg T) unit := catch_all m (ret tt).

Definition dispatch_job : M (W * Msg T) unit :=
  msg <- gets snd ;;
  cname <- lift (cname msg) ;;
  when (toMe msg)
    (per <- gets (fun s => m_handlers (getD s.1) !! cname) ;;
     for_each (default [] per) (fun kv => guarded (runH kv.2))) ;;
  post <- gets (fun s => m_anyPost (getD s.1)) ;;
  for_each (default [] post) (fun kv => guarded (runHS kv.2)).

Definition with_msg (msg : Msg T) (m : M (W * Msg T) unit) : M W unit := fun w =>
  let '(o, (w', _)) := m (w, msg) in (o, w').

(** [inline]: the caller is a completion handler, outside the strand; the
    executor keeps what the function throws.  (From inside the strand the
    function would throw into the caller; nobody dispatches from there.) *)
Definition dispatch (inline : bool) (msg : Msg T) : M W unit :=
  zoom getD setD assertShared ;;
  if inline then captured (with_msg msg dispatch_job)
  else modify (fun w => setD (push_job (JDispatch msg) (getD w)) w).

(** The executor runs a queued function. *)
Definition run_job (j : job T) : M W unit :=
  match j with
  | JDisconnect cname id => zoom getD setD (modify (disconnect_job cname id))
  | JUnregisterAll cname => zoom getD setD (unregisterAll true cname)
  | JClearAnyPost => zoom getD setD (clearAnyPost true)
  | JDispatch msg => with_msg msg dispatch_job
  end.
End Dispatch.

(** The vectors: the identifiers are unique and below the counter, and no
    empty vector is stored. *)
Definition vec_wf {A} (n : Id) (v : list (Id * A)) : Prop :=
  v <> [] /\ NoDup v.*1 /\ Forall (fun i => 0 < i.1 < n)%Z v.

Definition dispatcher_wf {T H HS} (d : MsgDispatcher T H HS) : Prop :=
  (0 < m_nextId d < 18446744073709551616)%Z /\
  map_Forall (fun _ v => vec_wf (m_nextId d) v) (m_handlers d) /\
  (forall v, m_anyPost d = Some v -> vec_wf (m_nextId d) v).

(** The operations of a dispatcher whose strand runs functions at once. *)
Inductive disp_step {T H HS} : relation (MsgDispatcher T H HS) :=
  | step_register cname h c d d' :
      (m_nextId d + 1 < 18446744073709551616)%Z ->
      registerHandler true cname h d = (Ok c, d') -> disp_step d d'
  | step_registerAny h c d d' :
      (m_nextId d + 1 < 18446744073709551616)%Z ->
      registerAnyPost true h d = (Ok c, d') -> disp_step d d'
  | step_disconnect c d : disp_step d (disconnect true c d).2
  | step_unregisterAll cname d : disp_step d (unregisterAll true cname d).2
  | step_clear d : disp_step d (clearAnyPost true d).2.

(** ** Lemmas *)

Section Dispatcher_lemmas.
Context {T H HS : Type}.
Implicit Types (d : MsgDispatcher T H HS).

Lemma remove_id_app {A} id (v1 v2 : list (Id * A)) :
  remove_id id (v1 ++ v2) = remove_id id v1 ++ remove_id id v2.
Proof. apply filter_app. Qed.

Lemma remove_id_fresh {A} n id (v : list (Id * A)) :
  Forall (fun i => 0 < i.1 < n)%Z v -> (n <= id)%Z -> remove_id id v = v.
Proof.
  intros Hv Hid. induction Hv as [|i v Hi Hv IH]; [done|].
  unfold remove_id. rewrite filter_cons_True; [|simpl in *; lia]. f_equal. exact IH.
Qed.

Lemma vec_wf_append {A} n (v : list (Id * A)) h :
  (0 < n)%Z -> v = [] \/ vec_wf n v -> vec_wf (n + 1) (v ++ [(n, h)]).
Proof.
  intros Hn Hv. assert (NoDup v.*1 /\ Forall (fun i => 0 < i.1 < n)%Z v) as [Hnd Hf].
  { destruct Hv as [->|(_ & ? & ?)]; [by repeat constructor|done]. }
  split_and!; [by destruct v|..].
  - rewrite fmap_app. apply NoDup_app. split_and!; [done| |by apply NoDup_singleton].
    intros i (x & -> & Hx)%list_elem_of_fmap. rewrite Forall_forall in Hf.
    specialize (Hf x Hx). rewrite fmap_cons; simpl. rewrite list_elem_of_singleton. lia.
  - apply Forall_app. split; [|by repeat constructor; simpl; lia].
    eapply Forall_impl; [done|]. simpl; lia.
Qed.

Lemma vec_wf_weaken {A} n m (v : list (Id * A)) :
  (n <= m)%Z -> vec_wf n v -> vec_wf m v.
Proof.
  intros Hnm (Hne & Hnd & Hf). split_and!; [done..|].
  eapply Forall_impl; [done|]. simpl; lia.
Qed.

Lemma vec_wf_remove {A} n id (v : list (Id * A)) :
  vec_wf n v -> remove_id id v = [] \/ vec_wf n (remove_id id v).
Proof.
  intros (Hne & Hnd & Hf). destruct (remove_id id v) as [|i v'] eqn:Hr; [by left|right].
  split_and!; [done| |]; rewrite <-Hr.
  - eapply sublist_NoDup; [exact Hnd|]. apply fmap_sublist, sublist_filter.
  - rewrite Forall_forall in *. intros x [_ Hx]%list_elem_of_filter. by apply Hf.
Qed.

Lemma uint64_small n : (0 <= n < 18446744073709551616)%Z -> uint64 n = n.
Proof. apply Z.mod_small. Qed.

Lemma registerHandler_eq cname h d :
  m_shared d = true ->
  registerHandler true cname h d =
  (Ok (mkConnection true cname (m_nextId d)),
   set_handlers (<[cname := default [] (m_handlers d !! cname) ++ [(m_nextId d, h)]]>
                   (m_handlers d))
     (set_nextId (uint64 (m_nextId d + 1)) d)).
Proof.
  intros Hs. unfold registerHandler, assertShared, nextIdOnStrand. run_m.
  by rewrite Hs.
Qed.

Lemma registerAnyPost_eq h d :
  m_shared d = true ->
  registerAnyPost true h d =
  (Ok (mkConnection true EmptyString (m_nextId d)),
   set_anyPost (Some (default [] (m_anyPost d) ++ [(m_nextId d, h)]))
     (set_nextId (uint64 (m_nextId d + 1)) d)).
Proof.
  intros Hs. unfold registerAnyPost, assertShared, nextIdOnStrand. run_m.
  by rewrite Hs.
Qed.

Lemma unshared_throws d : m_shared d = false ->
  (forall cname h, (registerHandler true cname h d).1 =
     Throw (logic_error "MsgDispatcher must be owned by std::shared_ptr")) /\
  (forall h, (registerAnyPost true h d).1 =
     Throw (logic_error "MsgDispatcher must be owned by std::shared_ptr")).
Proof.
  intros Hs. unfold registerHandler, registerAnyPost, assertShared. run_m.
  by rewrite Hs.
Qed.

Lemma disconnect_job_wf cname id d :
  dispatcher_wf d -> dispatcher_wf (disconnect_job cname id d).
Proof.
  intros Hwf. pose proof Hwf as (Hn & Hh & Hp). unfold disconnect_job. case_match.
  - destruct (m_handlers d !! cname) as [v|] eqn:Hv; [|done].
    pose proof (vec_wf_remove _ id _ (Hh _ _ Hv)) as Hr.
    destruct (remove_id id v) as [|i v']; refine (conj Hn (conj _ Hp)).
    + by apply map_Forall_delete.
    + apply map_Forall_insert_2; [|done]. by destruct Hr.
  - destruct (m_anyPost d) as [v|] eqn:Hv; [|done].
    pose proof (vec_wf_remove _ id _ (Hp _ eq_refl)) as Hr.
    destruct (remove_id id v) as [|i v']; refine (conj Hn (conj Hh _)); [done|].
    intros ? [= <-]. by destruct Hr.
Qed.

Lemma register_wf cname h d :
  dispatcher_wf d -> (m_nextId d + 1 < 18446744073709551616)%Z ->
  dispatcher_wf (set_handlers
    (<[cname := default [] (m_handlers d !! cname) ++ [(m_nextId d, h)]]> (m_handlers d))
    (set_nextId (uint64 (m_nextId d + 1)) d)).
Proof.
  intros (Hn & Hh & Hp) Hlt. unfold dispatcher_wf; simpl.
  rewrite uint64_small by lia. split; [lia|split].
  - apply map_Forall_insert_2.
    + apply vec_wf_append; [lia|].
      destruct (m_handlers d !! cname) as [v|] eqn:Hv; [right|by left]. by apply (Hh _ _ Hv).
    + intros k v Hv. eapply vec_wf_weaken; [|by apply (Hh _ _ Hv)]. lia.
  - intros v Hv. eapply vec_wf_weaken; [|by apply Hp]. lia.
Qed.

Lemma registerAny_wf h d :
  dispatcher_wf d -> (m_nextId d + 1 < 18446744073709551616)%Z ->
  dispatcher_wf (set_anyPost (Some (default [] (m_anyPost d) ++ [(m_nextId d, h)]))
    (set_nextId (uint64 (m_nextId d + 1)) d)).
Proof.
  intros (Hn & Hh & Hp) Hlt. unfold dispatcher_wf; simpl.
  rewrite uint64_small by lia. split; [lia|split].
  - intros k v Hv. eapply vec_wf_weaken; [|by apply (Hh _ _ Hv)]. lia.
  - intros ? [= <-]. apply vec_wf_append; [lia|].
    destruct (m_anyPost d) as [v|]; [right|by left]. by apply Hp.
Qed.
End Dispatcher_lemmas.

Section Dispatcher_props.
Context {T H HS : Type}.
Implicit Types (d : MsgDispatcher T H HS).

(** Whatever handlers are registered and connections disconnected, in
    whatever order, the identifiers of the dispatcher stay distinct within
    every handler vector and below the next identifier, and no vector is
    kept empty, as long as the 64-bit counter has not wrapped. *)
Lemma dispatcher_reachable_wf d :
  rtc disp_step MsgDispatcher_init d -> dispatcher_wf d /\ m_shared d = true.
Proof.
  revert d. apply (rtc_ind_r (fun d => dispatcher_wf d /\ m_shared d = true)).
  { split; [|done]. split; [simpl; lia|split]; [|done]. apply map_Forall_empty. }
  intros d d' _ Hstep [Hwf Hs]. destruct Hstep as [cname h c d d' Hlt Hr|h c d d' Hlt Hr|c d|cname d|d].
  - rewrite registerHandler_eq in Hr by done. injection Hr as <- <-.
    split; [by apply register_wf|done].
  - rewrite registerAnyPost_eq in Hr by done. injection Hr as <- <-.
    split; [by apply registerAny_wf|done].
  - unfold disconnect, disconnectImpl. destruct (conn_self c); run_m; [|done].
    split; [by apply disconnect_job_wf|]. unfold disconnect_job. by repeat case_match.
  - destruct Hwf as (Hn & Hh & Hp). split; [|done].
    refine (conj Hn (conj _ Hp)). by apply map_Forall_delete.
  - destruct Hwf as (Hn & Hh & Hp). split; [|done]. by refine (conj Hn (conj Hh _)).
Qed.

(** Disconnecting a fresh connection restores the handlers. *)
Lemma register_disconnect cname h d :
  dispatcher_wf d -> m_shared d = true -> cname <> EmptyString ->
  exists c d1, registerHandler true cname h d = (Ok c, d1) /\
    m_handlers d1 !! cname = Some (default [] (m_handlers d !! cname) ++ [(m_nextId d, h)]) /\
    (forall k, k <> cname -> m_handlers d1 !! k = m_handlers d !! k) /\
    m_handlers (disconnect true c d1).2 = m_handlers d /\
    m_anyPost (disconnect true c d1).2 = m_anyPost d.
Proof.
  intros (Hn & Hh & Hp) Hs Hc. do 2 eexists. split; [by apply registerHandler_eq|].
  simpl. split; [by rewrite lookup_insert_eq|]. split.
  { intros k Hk. by rewrite lookup_insert_ne. }
  apply str_empty_false in Hc. unfold disconnect, disconnectImpl, disconnect_job.
  run_m. rewrite Hc; simpl. rewrite lookup_insert_eq, remove_id_app.
  assert (remove_id (m_nextId d) [(m_nextId d, h)] = []) as ->.
  { unfold remove_id. by rewrite filter_cons_False by (simpl; naive_solver). }
  rewrite app_nil_r. destruct (m_handlers d !! cname) as [v|] eqn:Hv; simpl.
  - destruct (Hh _ _ Hv) as (Hne & _ & Hf).
    rewrite (remove_id_fresh (m_nextId d)) by (done || lia).
    destruct v; [done|]. simpl. split; [|done].
    by rewrite insert_insert_eq, insert_id.
  - split; [|done]. rewrite delete_insert_eq. by apply delete_id.
Qed.

Lemma registerHandlerScoped_eq cname h d :
  m_shared d = true ->
  exists d1, registerHandlerScoped true cname h d =
    (Ok (mkScoped (mkConnection true cname (m_nextId d))), d1) /\
    registerHandler true cname h d = (Ok (mkConnection true cname (m_nextId d)), d1).
Proof.
  intros Hs. unfold registerHandlerScoped, bind. rewrite registerHandler_eq by done.
  by eexists.
Qed.

Lemma scoped_destroy_eq c d : scoped_destroy true c d = (Ok tt, (disconnect true (m_c c) d).2).
Proof.
  unfold scoped_destroy, disconnect, disconnectImpl. run_m. by destruct (conn_self (m_c c)).
Qed.

(** Destroying a scoped connection restores the handlers as they were before
    its registration; destroying one that was moved from changes nothing;
    move-assigning over a live one leaks the handler it held, which no
    destructor removes any more. *)
Lemma scoped_lifetime cname h1 h2 d :
  dispatcher_wf d -> m_shared d = true -> cname <> EmptyString ->
  (m_nextId d + 1 < 18446744073709551616)%Z ->
  exists s1 d1 s2 d2,
    registerHandlerScoped true cname h1 d = (Ok s1, d1) /\
    registerHandlerScoped true cname h2 d1 = (Ok s2, d2) /\
    let '(target, source) := scoped_move_assign s1 s2 in
    m_handlers (scoped_destroy true s1 d1).2 = m_handlers d /\
    scoped_destroy true source d2 = (Ok tt, d2) /\
    m_handlers (scoped_destroy true target d2).2 !! cname =
      Some (default [] (m_handlers d !! cname) ++ [(m_nextId d, h1)]).
Proof.
  intros Hwf Hs Hc Hn.
  destruct (registerHandlerScoped_eq cname h1 d Hs) as (d1 & E1 & R1).
  assert (dispatcher_wf d1 /\ m_shared d1 = true) as [Hwf1 Hs1].
  { rewrite registerHandler_eq in R1 by done. injection R1 as <-.
    split; [by apply register_wf|done]. }
  destruct (registerHandlerScoped_eq cname h2 d1 Hs1) as (d2 & E2 & R2).
  do 4 eexists. split; [exact E1|]. split; [exact E2|]. cbn [scoped_move_assign m_c].
  rewrite !scoped_destroy_eq. cbn [m_c snd].
  destruct (register_disconnect cname h1 d Hwf Hs Hc) as (c1 & d1' & R1' & Hl1 & _ & Hh1 & _).
  rewrite R1 in R1'. injection R1' as <- <-.
  destruct (register_disconnect cname h2 d1 Hwf1 Hs1 Hc) as (c2 & d2' & R2' & _ & _ & Hh2 & _).
  rewrite R2 in R2'. injection R2' as <- <-.
  split_and!; [exact Hh1|done|]. by rewrite Hh2.
Qed.
End Dispatcher_props.

Section Dispatch_preserves.
Context {T H HS W : Type} {PL : Platform T} {TH : Thread W}.
Variable getD : W -> MsgDispatcher T H HS.
Variable setD : MsgDispatcher T H HS -> W -> W.
Variable runH : H -> M (W * Msg T) unit.
Variable runHS : HS -> M (W * Msg T) unit.

(** What every handler keeps, a dispatch keeps. *)
Lemma dispatch_inline_preserves (I : W -> Prop) msg :
  (forall w, I w -> I (setD (getD w) w)) ->
  (forall v w, I w -> I (set_raised v w)) ->
  (forall h, preserves (fun s => I s.1) (runH h)) ->
  (forall h, preserves (fun s => I s.1) (runHS h)) ->
  preserves I (dispatch getD setD runH runHS true msg).
Proof.
  intros Hset Hrs HH HHS. unfold dispatch. apply preserves_bind; [|intros _].
  { intros w Hw. unfold zoom, assertShared. run_m.
    destruct (m_shared (getD w)); simpl; by apply Hset. }
  apply preserves_captured; [|done]. intros w Hw. unfold with_msg.
  assert (preserves (fun s : W * Msg T => I s.1) (dispatch_job getD runH runHS)) as Hj.
  { unfold dispatch_job. apply preserves_bind; [apply preserves_gets|intros m].
    apply preserves_bind; [apply preserves_lift|intros cn].
    apply preserves_bind; [apply preserves_when|intros _];
      (apply preserves_bind; [apply preserves_gets|intros l]); apply preserves_for_each;
      intros [id h] _; apply preserves_catch_all; auto using preserves_ret. }
  specialize (Hj (w, msg) Hw). by destruct (dispatch_job _ _ _ _) as [o [w' m']].
Qed.

Lemma dispatch_preserves (I : W -> Prop) inline msg :
  (forall d w, I w -> I (setD d w)) ->
  (forall v w, I w -> I (set_raised v w)) ->
  (forall h, preserves (fun s => I s.1) (runH h)) ->
  (forall h, preserves (fun s => I s.1) (runHS h)) ->
  preserves I (dispatch getD setD runH runHS inline msg).
Proof.
  intros Hset Hrs HH HHS. destruct inline.
  { apply dispatch_inline_preserves; auto. }
  unfold dispatch. apply preserves_bind; [|intros _; apply preserves_modify; auto].
  apply (preserves_zoom _ (fun _ => True)); auto. intros d. auto.
Qed.
End Dispatch_preserves.

Section Dispatch_props.
Context {T H HS W : Type} {PL : Platform T} {TH : Thread W}.
Variable getD : W -> MsgDispatcher T H HS.
Variable setD : MsgDispatcher T H HS -> W -> W.
Variable runH : H -> M (W * Msg T) unit.
Variable runHS : HS -> M (W * Msg T) unit.
Hypothesis set_get : forall w, setD (getD w) w = w.

(** What the handlers do is observed through a log; they may throw, change
    the dispatcher itself, or touch the message. *)
Variable log : W -> list (H + HS).
Definition logs (m : M (W * Msg T) unit) (x : H + HS) : Prop :=
  forall s, exists o s', m s = (o, s') /\ (o = Ok tt \/ exists e, o = Throw e) /\
    log s'.1 = log s.1 ++ [x].
Hypothesis runH_logs : forall h, logs (runH h) (inl h).
Hypothesis runHS_logs : forall h, logs (runHS h) (inr h).

Lemma guarded_logs m x s :
  logs m x -> exists s', guarded m s = (Ok tt, s') /\ log s'.1 = log s.1 ++ [x].
Proof.
  intros Hm. destruct (Hm s) as (o & s' & Hr & Ho & Hl). exists s'.
  unfold guarded, catch_all. rewrite Hr. by destruct Ho as [->|[e ->]].
Qed.

Lemma for_each_logs {A} (run : A -> M (W * Msg T) unit) (inj : A -> H + HS)
    (v : list (Id * A)) s :
  (forall a, logs (run a) (inj a)) ->
  exists s', for_each v (fun kv => guarded (run kv.2)) s = (Ok tt, s') /\
    log s'.1 = log s.1 ++ (inj <$> v.*2).
Proof.
  intros Hrun. revert s; induction v as [|[i a] v IH]; intros s.
  { exists s. by rewrite app_nil_r. }
  destruct (guarded_logs _ _ s (Hrun a)) as (s1 & Hg & Hl1).
  destruct (IH s1) as (s2 & Hf & Hl2). exists s2. split.
  - cbn [for_each]. by rewrite (bind_ok _ _ _ _ _ Hg).
  - rewrite Hl2, Hl1, !fmap_cons. by rewrite <-app_assoc.
Qed.

Lemma assertShared_ok w :
  m_shared (getD w) = true -> zoom getD setD assertShared w = (Ok tt, w).
Proof.
  intros Hs. unfold zoom, assertShared, bind, gets. simpl. rewrite Hs. simpl.
  by rewrite set_get.
Qed.

(** A message without a name runs no handler: dispatch returns and leaves the
    exception to the event loop. *)
Lemma dispatch_without_cname msg e w :
  m_shared (getD w) = true -> cname msg = Throw e ->
  dispatch getD setD runH runHS true msg w = (Ok tt, set_raised (capture e (raised w)) w).
Proof.
  intros Hs Hc. unfold dispatch. rewrite (bind_ok _ _ _ _ _ (assertShared_ok w Hs)).
  unfold captured, with_msg, dispatch_job, bind, gets, lift. simpl. by rewrite Hc.
Qed.

(** C24: On a dispatcher that a shared pointer owns, called from a
    completion handler, whose handlers return or throw: dispatch of a
    message with a name returns, after it has run every handler of that name
    that was registered when it started, once each and in order of
    registration, only when the message is for this application, whatever
    handlers register, disconnect or throw meanwhile, and then every
    any-post handler registered at that point.  Of a message without a name
    it runs no handler and returns too, and the exception is pending on the
    thread of the event loop. *)
Theorem dispatch_runs_snapshot msg w :
  m_shared (getD w) = true ->
  (forall cn, cname msg = Ok cn ->
   exists w1 w',
    dispatch getD setD runH runHS true msg w = (Ok tt, w') /\
    log w1 = log w ++ (inl <$> (if toMe msg
                                then (default [] (m_handlers (getD w) !! cn)).*2 else [])) /\
    (toMe msg = false -> w1 = w) /\
    log w' = log w1 ++ (inr <$> (default [] (m_anyPost (getD w1))).*2)) /\
  (forall e, cname msg = Throw e ->
   dispatch getD setD runH runHS true msg w = (Ok tt, set_raised (capture e (raised w)) w)).
Proof.
  intros Hs. split; [|intros e; by apply dispatch_without_cname]. intros cn Hc. unfold dispatch. rewrite (bind_ok _ _ _ _ _ (assertShared_ok w Hs)).
  unfold captured, with_msg, dispatch_job.
  assert (exists s1, when (toMe msg)
     (per <- gets (fun s : W * Msg T => m_handlers (getD s.1) !! cn) ;;
      for_each (default [] per) (fun kv => guarded (runH kv.2))) (w, msg) = (Ok tt, s1) /\
     log s1.1 = log w ++ (inl <$> (if toMe msg
                           then (default [] (m_handlers (getD w) !! cn)).*2 else [])) /\
     (toMe msg = false -> s1.1 = w)) as (s1 & Hw & Hl1 & Hn).
  { destruct (toMe msg); simpl.
    - destruct (for_each_logs runH inl (default [] (m_handlers (getD w) !! cn)) (w, msg)
                  runH_logs) as (s1 & Hf & Hl). exists s1. by split_and!.
    - exists (w, msg). by rewrite app_nil_r. }
  destruct (for_each_logs runHS inr (default [] (m_anyPost (getD s1.1))) s1 runHS_logs)
    as (s2 & Hf2 & Hl2).
  exists s1.1, s2.1. split_and!; [|done|done|done].
  unfold bind at 1, gets at 1. simpl. unfold lift, bind at 1. rewrite Hc.
  rewrite (bind_ok _ _ _ _ _ Hw). unfold bind, gets. rewrite Hf2. by destruct s2.
Qed.

End Dispatch_props.

(** ** Witnesses: handler 0 throws, handler 1 removes every handler of "ping". *)

Section Dispatch_witnesses.
#[local] Instance disp_liver : Platform tree := demo "liver" "uecho".

(** A dispatcher, the handlers that have run, and the pending exception. *)
Definition dw : Type := MsgDispatcher tree nat nat * list (nat + nat) * option exn.
#[local] Instance dw_thread : Thread dw := {
  raised := snd;
  set_raised e w := (w.1, e);
}.
Definition dw_get (w : dw) : MsgDispatcher tree nat nat := w.1.1.
Definition dw_set (d : MsgDispatcher tree nat nat) (w : dw) : dw := (d, w.1.2, w.2).
Definition dw_log (w : dw) : list (nat + nat) := w.1.2.
Definition dw_run (inj : nat -> nat + nat) (h : nat) : M (dw * Msg tree) unit := fun s =>
  let '((d, l, e), m) := s in
  let d' := if decide (h = 1) then set_handlers (delete "ping" (m_handlers d)) d else d in
  (if decide (h = 0) then Throw (runtime_error "handler") else Ok tt,
   ((d', l ++ [inj h], e), m)).
Definition dw_init : dw :=
  (mkDispatcher {[ "ping" := [(1%Z, 1); (2%Z, 0); (3%Z, 7)] ]} (Some [(4%Z, 5)]) 5%Z [] true, [], None).
Definition dw_msg : Msg tree := Msg_raw demo_tree "{}" None.

Lemma dw_logs inj h : logs dw_log (dw_run inj h) (inj h).
Proof.
  intros [[[d l] e] m]. do 2 eexists. split; [reflexivity|]. split; [|done].
  destruct (decide (h = 0)); eauto.
Qed.

Lemma dw_set_get w : dw_set (dw_get w) w = w.
Proof. by destruct w as [[d l] e]. Qed.

Lemma dispatch_runs_snapshot_witness :
  (exists w1 w' : dw,
    dispatch dw_get dw_set (dw_run inl) (dw_run inr) true dw_msg dw_init = (Ok tt, w') /\
    dw_log w1 = [inl 1; inl 0; inl 7] /\
    dw_log w' = dw_log w1 ++ (inr <$> (default [] (m_anyPost (dw_get w1))).*2)) /\
  dispatch dw_get dw_set (dw_run inl) (dw_run inr) true
    (Msg_raw (Node EmptyString []) "{}" None) dw_init
  = (Ok tt, (dw_init.1, Some (ptree_bad_path "cname"))).
Proof.
  split.
  - destruct (dispatch_runs_snapshot dw_get dw_set (dw_run inl) (dw_run inr) dw_set_get dw_log
              (dw_logs inl) (dw_logs inr) dw_msg dw_init eq_refl) as [H _].
    destruct (H "ping") as (w1 & w' & H1 & H2 & _ & H4); [vm_compute; reflexivity|].
    vm_compute in H2. exists w1, w'. split; [exact H1|]. split; [exact H2|exact H4].
  - exact (proj2 (dispatch_runs_snapshot dw_get dw_set (dw_run inl) (dw_run inr) dw_set_get dw_log
              (dw_logs inl) (dw_logs inr) (Msg_raw (Node EmptyString []) "{}" None) dw_init eq_refl)
              (ptree_bad_path "cname") eq_refl).
Defined.

Lemma dispatcher_reachable_wf_witness :
  dispatcher_wf (T := tree) (HS := nat)
    (registerHandler true "ping" 7 MsgDispatcher_init).2.
Proof.
  apply dispatcher_reachable_wf. apply rtc_once.
  eapply step_register; [|reflexivity]. vm_compute. reflexivity.
Defined.

Lemma register_disconnect_witness :
  exists c d1, registerHandler true "ping" 7 (MsgDispatcher_init (T := tree) (HS := nat))
                 = (Ok c, d1) /\ m_handlers (disconnect true c d1).2 = ∅.
Proof.
  destruct (register_disconnect "ping" 7 (MsgDispatcher_init (T := tree) (HS := nat)))
    as (c & d1 & H1 & _ & _ & H2 & _); [|reflexivity|discriminate|].
  - split; [simpl; lia|split]; [apply map_Forall_empty|done].
  - exists c, d1. split; [exact H1|exact H2].
Defined.

Lemma scoped_lifetime_witness :
  exists s1 d1, registerHandlerScoped true "ping" 7 (@MsgDispatcher_init tree nat nat) = (Ok s1, d1)
    /\ m_handlers (scoped_destroy true s1 d1).2 = ∅.
Proof.
  destruct (scoped_lifetime "ping" 7 8 (@MsgDispatcher_init tree nat nat))
    as (s1 & d1 & s2 & d2 & H1 & _ & H3 & _).
  - split; [simpl; lia|split]; [|done]. apply map_Forall_empty.
  - reflexivity.
  - discriminate.
  - reflexivity.
  - exists s1, d1. split; [exact H1|exact H3].
Defined.
End Dispatch_witnesses.
