(* ===== verification/Subscriptions.v ===== *)
(** * Subscriptions: what a dispatcher promises

    The specification of [MsgDispatcher] is a list of subscriptions in the
    order in which they were made, each with its identity; a connection is a
    handle on one of them.  The vectors by name, their replacement and the
    connections of the program refine it. *)
From S2P Require Import Prelude Effects PTree UConfig Addr Demo Msg Dispatcher.

(** ** The specification *)

Record registry (H HS : Type) := mkRegistry {
  r_subs : list (Id * (string * H + HS));
  r_next : Id;
  r_handles : list (option Id);   (* the connections returned so far *)
}.
Arguments mkRegistry {H HS}.
Arguments r_subs {H HS}.
Arguments r_next {H HS}.
Arguments r_handles {H HS}.

Definition registry_init {H HS} : registry H HS := mkRegistry [] 1 [].

(** What a client does; connections are numbered in the order of their making. *)
Inductive op (H HS : Type) :=
  | ORegister (cname : string) (h : H)
  | ORegisterAny (h : HS)
  | ODisconnect (n : nat)
  | OUnregisterAll (cname : string)
  | OClearAny.
Arguments ORegister {H HS}.
Arguments ORegisterAny {H HS}.
Arguments ODisconnect {H HS}.
Arguments OUnregisterAll {H HS}.
Arguments OClearAny {H HS}.

Section Spec.
Context {H HS : Type}.
Implicit Types (r : registry H HS) (x : string * H + HS) (l : list (Id * (string * H + HS))).

(** The handlers of a message name, and the any-post handlers. *)
Definition named (cn : string) l : list (Id * H) :=
  omap (fun s => match s.2 with
                 | inl (c, h) => if decide (c = cn) then Some (s.1, h) else None
                 | inr _ => None
                 end) l.
Definition anys l : list (Id * HS) :=
  omap (fun s => match s.2 with inl _ => None | inr h => Some (s.1, h) end) l.

Definition subscribe x r : registry H HS :=
  mkRegistry (r_subs r ++ [(r_next r, x)]) (r_next r + 1) (r_handles r ++ [Some (r_next r)]).

(** The subscriptions that stay. *)
Definition keep (P : Id * (string * H + HS) -> bool) r : registry H HS :=
  mkRegistry (filter P (r_subs r)) (r_next r) (r_handles r).

Definition spec_op (o : op H HS) r : registry H HS :=
  match o with
  | ORegister cn h => subscribe (inl (cn, h)) r
  | ORegisterAny h => subscribe (inr h) r
  | ODisconnect n =>
      match r_handles r !! n with
      | Some (Some id) =>
          let r := keep (fun s => bool_decide (s.1 <> id)) r in
          mkRegistry (r_subs r) (r_next r) (<[n := None]> (r_handles r))
      | _ => r
      end
  | OUnregisterAll cn =>
      keep (fun s => match s.2 with inl (c, _) => bool_decide (c <> cn) | inr _ => true end) r
  | OClearAny => keep (fun s => match s.2 with inl _ => true | inr _ => false end) r
  end.
End Spec.

(** ** The program *)

Section Program.
Context {T H HS : Type}.
Abbreviation D := (MsgDispatcher T H HS).
Abbreviation P := (list Connection * D)%type.

Definition on_disp {A} (m : M D A) : M P A := zoom snd (fun d p => (p.1, d)) m.

Definition prog_op (o : op H HS) : M P unit :=
  match o with
  | ORegister cn h =>
      c <- on_disp (registerHandler true cn h) ;;
      modify (fun p => (p.1 ++ [c], p.2))
  | ORegisterAny h =>
      c <- on_disp (registerAnyPost true h) ;;
      modify (fun p => (p.1 ++ [c], p.2))
  | ODisconnect n =>
      oc <- gets (fun p => p.1 !! n) ;;
      match oc with
      | Some c =>
          c' <- on_disp (disconnect true c) ;;
          modify (fun p => (<[n := c']> p.1, p.2))
      | None => ret tt
      end
  | OUnregisterAll cn => on_disp (unregisterAll true cn)
  | OClearAny => on_disp (clearAnyPost true)
  end.

(** A handler registered for the empty name could not be disconnected. *)
Definition op_ok (o : op H HS) : Prop :=
  match o with ORegister cn _ | OUnregisterAll cn => cn <> EmptyString | _ => True end.
End Program.

(** ** Lemmas *)

Section Subs_lemmas.
Context {H HS : Type}.
Implicit Types (l : list (Id * (string * H + HS))) (x : string * H + HS).

Lemma named_app cn l1 l2 : named cn (l1 ++ l2) = named cn l1 ++ named cn l2.
Proof. apply omap_app. Qed.
Lemma anys_app l1 l2 : anys (l1 ++ l2) = anys l1 ++ anys l2.
Proof. apply omap_app. Qed.

Definition topic x : string := match x with inl (cn, _) => cn | inr _ => EmptyString end.

Lemma elem_of_named cn id h l : (id, h) ∈ named cn l <-> (id, inl (cn, h)) ∈ l.
Proof.
  unfold named. rewrite list_elem_of_omap. split.
  - intros ([i [[c k]|k]] & Hin & Heq); simpl in Heq; [|done].
    destruct (decide (c = cn)); simplify_eq. done.
  - intros Hin. exists (id, inl (cn, h)). split; [done|]. simpl. by rewrite decide_True.
Qed.

(** Removing by identity in the list and in its projections. *)
Lemma named_remove id cn l :
  named cn (filter (fun s => bool_decide (s.1 <> id)) l) = remove_id id (named cn l).
Proof.
  induction l as [|[i x] l IH]; [done|]. unfold remove_id in *.
  rewrite filter_cons. destruct (decide (i = id)) as [->|Hi].
  - rewrite decide_False by (intros Hb%bool_decide_unpack; by apply Hb).
    rewrite IH. destruct x as [[c h]|h]; [|done]. cbn [named omap list_omap snd fst].
    destruct (decide (c = cn)); [|done]. by rewrite filter_cons_False by naive_solver.
  - rewrite decide_True by (by apply bool_decide_pack).
    destruct x as [[c h]|h]; cbn [named omap list_omap snd fst]; [|exact IH].
    destruct (decide (c = cn)); [|exact IH].
    rewrite filter_cons_True by done. f_equal. exact IH.
Qed.

Lemma anys_remove id l :
  anys (filter (fun s => bool_decide (s.1 <> id)) l) = remove_id id (anys l).
Proof.
  induction l as [|[i x] l IH]; [done|]. unfold remove_id in *.
  rewrite filter_cons. destruct (decide (i = id)) as [->|Hi].
  - rewrite decide_False by (intros Hb%bool_decide_unpack; by apply Hb).
    rewrite IH. destruct x as [[c h]|h]; [done|]. cbn [anys omap list_omap snd fst].
    by rewrite filter_cons_False by naive_solver.
  - rewrite decide_True by (by apply bool_decide_pack).
    destruct x as [[c h]|h]; cbn [anys omap list_omap snd fst]; [exact IH|].
    rewrite filter_cons_True by done. f_equal. exact IH.
Qed.
End Subs_lemmas.

Section Refinement.
Context {T H HS : Type}.
Implicit Types (d : MsgDispatcher T H HS) (r : registry H HS)
  (p : list Connection * MsgDispatcher T H HS) (l : list (Id * (string * H + HS))).

(** A connection is the handle of a subscription, or of none any more. *)
Definition handle_of l (n : Id) (c : Connection) (handle : option Id) : Prop :=
  match handle with
  | None => conn_self c = false
  | Some id => conn_self c = true /\ conn_id c = id /\ (0 < id < n)%Z /\
               forall x, (id, x) ∈ l -> topic x = conn_cname c
  end.

Record refines p r : Prop := {
  ref_shared : m_shared p.2 = true;
  ref_next : m_nextId p.2 = r_next r;
  ref_pos : (0 < r_next r)%Z;
  ref_named cn : default [] (m_handlers p.2 !! cn) = named cn (r_subs r);
  ref_any : default [] (m_anyPost p.2) = anys (r_subs r);
  ref_nodup : NoDup (r_subs r).*1;
  ref_range : Forall (fun s => 0 < s.1 < r_next r)%Z (r_subs r);
  ref_topics : Forall (fun s => match s.2 with inl (cn, _) => cn <> EmptyString
                                | inr _ => True end) (r_subs r);
  ref_conns : Forall2 (handle_of (r_subs r) (r_next r)) p.1 (r_handles r);
}.

Lemma remove_id_notin {A} id (v : list (Id * A)) : id ∉ v.*1 -> remove_id id v = v.
Proof.
  intros Hid. induction v as [|[i a] v IH]; [done|]. rewrite fmap_cons, not_elem_of_cons in Hid.
  destruct Hid as [Hi Hid]. unfold remove_id. rewrite filter_cons_True by (simpl in *; congruence).
  f_equal. by apply IH.
Qed.

Lemma disconnect_job_named cname id d cn :
  default [] (m_handlers (disconnect_job cname id d) !! cn) =
  if decide (cn = cname /\ cname <> EmptyString)
  then remove_id id (default [] (m_handlers d !! cn)) else default [] (m_handlers d !! cn).
Proof.
  unfold disconnect_job. rewrite str_empty_decide. case_bool_decide as He; simpl.
  - rewrite decide_False by tauto. repeat case_match; done.
  - destruct (m_handlers d !! cname) as [v|] eqn:Hv.
    + destruct (decide (cn = cname)) as [->|Hne].
      * rewrite decide_True, Hv by done. simpl.
        destruct (remove_id id v) as [|i v'] eqn:Hr; simpl.
        -- by rewrite lookup_delete_eq.
        -- by rewrite lookup_insert_eq.
      * rewrite decide_False by tauto. case_match; simpl.
        -- by rewrite lookup_delete_ne.
        -- by rewrite lookup_insert_ne.
    + case_decide as Hc; [|done]. destruct Hc as [-> _]. by rewrite Hv.
Qed.

Lemma disconnect_job_any cname id d :
  default [] (m_anyPost (disconnect_job cname id d)) =
  if decide (cname = EmptyString)
  then remove_id id (default [] (m_anyPost d)) else default [] (m_anyPost d).
Proof.
  unfold disconnect_job. rewrite str_empty_decide. case_bool_decide as He; simpl.
  - rewrite decide_True by done. destruct (m_anyPost d) as [v|] eqn:Hv; [|by rewrite Hv].
    simpl. destruct (remove_id id v) eqn:Hr; by simpl.
  - rewrite decide_False by done. repeat case_match; done.
Qed.

Lemma handle_of_weaken l l' n n' c h :
  (forall id x, (id < n)%Z -> (id, x) ∈ l' -> (id, x) ∈ l) -> (n <= n')%Z ->
  handle_of l n c h -> handle_of l' n' c h.
Proof.
  intros Hl Hn. destruct h as [id|]; [|done]. intros (? & ? & ? & Ht).
  split_and!; [done|done|lia|lia|]. intros x Hx. apply Ht, Hl; [lia|done].
Qed.

Lemma elem_of_keep (P : Id * (string * H + HS) -> bool) s l : s ∈ filter P l -> s ∈ l.
Proof. by intros [_ ?]%list_elem_of_filter. Qed.

Lemma Forall_keep (P : Id * (string * H + HS) -> bool) (Q : Id * (string * H + HS) -> Prop) l :
  Forall Q l -> Forall Q (filter P l).
Proof. rewrite !Forall_forall. intros HQ s Hs%elem_of_keep. by apply HQ. Qed.

(** Filtering the subscriptions. *)
Lemma refines_keep (P : Id * (string * H + HS) -> bool) p d r hs :
  refines p r ->
  m_shared d = true -> m_nextId d = m_nextId p.2 ->
  (forall cn, default [] (m_handlers d !! cn) = named cn (filter P (r_subs r))) ->
  default [] (m_anyPost d) = anys (filter P (r_subs r)) ->
  forall cs, Forall2 (handle_of (filter P (r_subs r)) (r_next r)) cs hs ->
  refines (cs, d) (mkRegistry (filter P (r_subs r)) (r_next r) hs).
Proof.
  intros [Hs Hn Hpos Hnm Han Hnd Hr Ht Hc] Hs' Hn' Hnm' Han' cs Hcs.
  split; simpl; try done; try congruence.
  - eapply sublist_NoDup; [exact Hnd|]. apply fmap_sublist, sublist_filter.
  - by apply Forall_keep.
  - by apply Forall_keep.
Qed.

Lemma refines_subscribe x p d c r :
  refines p r -> (r_next r + 1 < 18446744073709551616)%Z ->
  match x with inl (cn, _) => cn <> EmptyString | inr _ => True end ->
  m_shared d = true -> m_nextId d = uint64 (r_next r + 1) ->
  (forall cn, default [] (m_handlers d !! cn) = named cn (r_subs r ++ [(r_next r, x)])) ->
  default [] (m_anyPost d) = anys (r_subs r ++ [(r_next r, x)]) ->
  conn_self c = true -> conn_cname c = topic x -> conn_id c = r_next r ->
  refines (p.1 ++ [c], d) (subscribe x r).
Proof.
  intros [Hs Hn Hpos Hnm Han Hnd Hr Ht Hc] Hlt Hx Hs' Hn' Hnm' Han' Hc1 Hc2 Hc3.
  rewrite Forall_forall in Hr.
  assert (forall y, (r_next r, y) ∉ r_subs r) as Hfresh
    by (intros y Hy; specialize (Hr _ Hy); simpl in Hr; lia).
  split; simpl; try done.
  - rewrite Hn'. apply uint64_small. lia.
  - lia.
  - rewrite fmap_app. apply NoDup_app. split_and!; [done| |by apply NoDup_singleton].
    intros i ([j y] & -> & Hy)%list_elem_of_fmap. simpl. rewrite list_elem_of_singleton.
    intros ->. by apply (Hfresh y).
  - apply Forall_app. split; [|by repeat constructor; simpl; lia].
    rewrite Forall_forall. intros s Hin. specialize (Hr s Hin). lia.
  - apply Forall_app. split; [done|]. by repeat constructor.
  - apply Forall2_app.
    + eapply Forall2_impl; [exact Hc|]. intros c' h. apply handle_of_weaken; [|lia].
      intros id y Hid [Hy|[= -> ->]%list_elem_of_singleton]%elem_of_app; [done|lia].
    + repeat constructor; try done; try lia.
      intros y [Hy|[= ->]%list_elem_of_singleton]%elem_of_app; [by destruct (Hfresh y)|done].
Qed.

Lemma refines_disconnect n p r :
  refines p r -> exists p', prog_op (ODisconnect n) p = (Ok tt, p') /\
    refines p' (spec_op (ODisconnect n) r).
Proof.
  intros Hr. pose proof Hr as [Hs Hn Hpos Hnm Han Hnd Hra Ht Hc].
  cbn [prog_op spec_op]. unfold bind, gets.
  destruct (p.1 !! n) as [c|] eqn:Hcn.
  2:{ exists p. split; [done|]. destruct (r_handles r !! n) as [h|] eqn:Hh; [|done].
      destruct (Forall2_lookup_r _ _ _ _ _ Hc Hh) as (c & Hc' & _). congruence. }
  destruct (Forall2_lookup_l _ _ _ _ _ Hc Hcn) as (h & Hh & Hch). rewrite Hh.
  destruct c as [self cname id]. unfold on_disp, zoom, disconnect, disconnectImpl. run_m.
  destruct h as [i|]; simpl in Hch.
  - destruct Hch as (-> & -> & Hi & Htop). simpl.
    eexists. split; [done|].
    assert (forall cn k, cn <> cname -> (i, inl (cn, k)) ∉ r_subs r) as Hno.
    { intros cn k Hcn' Hin. specialize (Htop _ Hin). done. }
    assert (cname = EmptyString -> forall cn k, (i, inl (cn, k)) ∉ r_subs r) as Hno0.
    { intros -> cn k Hin. rewrite Forall_forall in Ht. pose proof (Ht _ Hin) as Hx.
      specialize (Htop _ Hin). simpl in *. congruence. }
    assert (cname <> EmptyString -> forall k, (i, inr k) ∉ r_subs r) as Hno1.
    { intros Hne k Hin. specialize (Htop _ Hin). simpl in *. congruence. }
    apply (refines_keep _ p _ r _ Hr).
    + unfold disconnect_job. repeat case_match; done.
    + unfold disconnect_job. repeat case_match; done.
    + intros cn. rewrite disconnect_job_named, named_remove, Hnm.
      case_decide as Hd; [done|]. symmetry. apply remove_id_notin.
      intros ([j k] & -> & Hin)%list_elem_of_fmap. apply elem_of_named in Hin. simpl in *.
      destruct (decide (cn = cname)) as [->|Hne]; [|by eapply Hno].
      destruct (decide (cname = EmptyString)) as [He|He]; [by eapply Hno0|tauto].
    + rewrite disconnect_job_any, anys_remove, Han.
      case_decide as Hd; [done|]. symmetry. apply remove_id_notin.
      intros ([j k] & -> & Hin)%list_elem_of_fmap. apply list_elem_of_omap in Hin.
      destruct Hin as ([j' [x|k']] & Hin & Heq); simpl in *; [done|]. simplify_eq.
      by eapply Hno1.
    + apply Forall2_insert; [|done]. eapply Forall2_impl; [exact Hc|].
      intros c' h'. apply handle_of_weaken; [|lia]. intros ? ? _. apply elem_of_keep.
  - subst self. simpl. eexists. split; [done|].
    replace r with (mkRegistry (r_subs r) (r_next r) (r_handles r)) by (by destruct r).
    split; try done. simpl. rewrite <-(list_insert_id _ _ _ Hh).
    apply Forall2_insert; done.
Qed.

Lemma named_filter (P : Id * (string * H + HS) -> bool) (keepn : string -> bool) l cn :
  (forall i c h, P (i, inl (c, h)) = keepn c) ->
  named cn (filter P l) = if keepn cn then named cn l else [].
Proof.
  intros HP. induction l as [|[i x] l IH]; [by destruct (keepn cn)|].
  rewrite filter_cons. destruct x as [[c h]|h].
  - rewrite (HP i c h). cbn [named omap list_omap snd fst].
    destruct (decide (c = cn)) as [->|Hc].
    + destruct (keepn cn) eqn:Hk; [rewrite decide_True by done|rewrite decide_False by (intros []); exact IH].
      cbn [named omap list_omap snd fst]. rewrite decide_True by done. f_equal. exact IH.
    + destruct (decide _); [|exact IH]. cbn [named omap list_omap snd fst].
      rewrite decide_False by done. exact IH.
  - destruct (decide _); exact IH.
Qed.

Lemma anys_filter (P : Id * (string * H + HS) -> bool) (b : bool) l :
  (forall i h, P (i, inr h) = b) -> anys (filter P l) = if b then anys l else [].
Proof.
  intros HP. induction l as [|[i x] l IH]; [by destruct b|].
  rewrite filter_cons. destruct x as [c|h].
  - destruct (decide _); exact IH.
  - rewrite (HP i h). cbn [anys omap list_omap snd fst].
    destruct b; [rewrite decide_True by done|rewrite decide_False by (intros []); exact IH].
    cbn [anys omap list_omap snd fst]. f_equal. exact IH.
Qed.

Lemma refines_conns_keep (P : Id * (string * H + HS) -> bool) p r :
  refines p r -> Forall2 (handle_of (filter P (r_subs r)) (r_next r)) p.1 (r_handles r).
Proof.
  intros Hr. eapply Forall2_impl; [apply (ref_conns _ _ Hr)|].
  intros c' h'. apply handle_of_weaken; [|lia]. intros ? ? _. apply elem_of_keep.
Qed.

Lemma refines_op (o : op H HS) p r :
  refines p r -> op_ok o -> (r_next r + 1 < 18446744073709551616)%Z ->
  exists p', prog_op o p = (Ok tt, p') /\ refines p' (spec_op o r).
Proof.
  intros Hr Ho Hlt. pose proof Hr as [Hs Hn Hpos Hnm Han Hnd Hra Ht Hc].
  destruct o as [cn h|h|n|cn|]; [| |by apply refines_disconnect| |]; cbn [prog_op spec_op].
  - unfold bind at 1, on_disp, zoom. rewrite registerHandler_eq by done.
    eexists. split; [done|]. rewrite Hn. apply (refines_subscribe _ p); try done.
    + intros cn'. rewrite named_app. simpl.
      destruct (decide (cn = cn')) as [->|Hne]; simpl.
      * by rewrite lookup_insert_eq, <-Hnm.
      * by rewrite lookup_insert_ne, app_nil_r.
    + simpl. by rewrite anys_app, app_nil_r.
  - unfold bind at 1, on_disp, zoom. rewrite registerAnyPost_eq by done.
    eexists. split; [done|]. rewrite Hn. apply (refines_subscribe _ p); try done.
    + intros cn'. simpl. by rewrite named_app, app_nil_r.
    + simpl. by rewrite anys_app, Han.
  - eexists. split; [done|]. simpl. apply (refines_keep _ p _ r _ Hr); try done.
    + intros cn'. simpl.
      rewrite (named_filter _ (fun c => bool_decide (c <> cn))) by done.
      case_bool_decide as Hne; [by rewrite lookup_delete_ne|].
      subst cn'. by rewrite lookup_delete_eq.
    + simpl. by rewrite (anys_filter _ true).
    + by apply refines_conns_keep.
  - eexists. split; [done|]. simpl. apply (refines_keep _ p _ r _ Hr); try done.
    + intros cn'. simpl. by rewrite (named_filter _ (fun _ => true)).
    + simpl. by rewrite (anys_filter _ false).
    + by apply refines_conns_keep.
Qed.
End Refinement.

(** ** Properties *)

Section Subscriptions_props.
Context {T H HS : Type}.

(** C12: Whatever sequence of registrations, disconnections and removals is
    made on a dispatcher, the calls succeed and the handler vectors by name
    and the any-post vector are those of an ordered list of subscriptions on
    which the same operations are done; identities are distinct, and a
    connection is attached exactly as long as its handle has not been
    disconnected.  Names are not empty and the 64-bit counter does not wrap. *)
Theorem dispatcher_refines_registry (ops : list (op H HS)) :
  Forall op_ok ops -> (Z.of_nat (length ops) < 18446744073709551615)%Z ->
  let r := fold_left (fun r o => spec_op o r) ops registry_init in
  exists cs d,
    for_each ops prog_op ([], MsgDispatcher_init (T := T)) = (Ok tt, (cs, d)) /\
    (forall cn, default [] (m_handlers d !! cn) = named cn (r_subs r)) /\
    default [] (m_anyPost d) = anys (r_subs r) /\
    NoDup (r_subs r).*1 /\
    Forall2 (fun c h => conn_self c = bool_decide (is_Some h) /\
                        from_option (fun id => conn_id c = id) True h) cs (r_handles r).
Proof.
  intros Hok Hlen.
  assert (forall (p : list Connection * MsgDispatcher T H HS) r, refines p r -> (r_next r + Z.of_nat (length ops) < 18446744073709551616)%Z ->
    exists p', for_each ops prog_op p = (Ok tt, p') /\
      refines p' (fold_left (fun r o => spec_op o r) ops r)) as Hrun.
  { clear Hlen. induction Hok as [|o ops Ho Hok IH]; intros p r Hr Hlt; [by exists p|].
    simpl in Hlt. destruct (refines_op o p r Hr Ho ltac:(lia)) as (p1 & Hp & Hr1).
    simpl. rewrite (bind_ok _ _ _ _ _ Hp). apply IH; [done|].
    assert (r_next (spec_op o r) <= r_next r + 1)%Z by
      (destruct o as [| |n| |]; simpl; [lia..| |lia|lia]; repeat case_match; simpl; lia).
    lia. }
  destruct (Hrun ([], MsgDispatcher_init (T := T)) registry_init) as ([cs d] & Hp & Hr).
  { split; simpl; try done; [apply NoDup_nil_2|by constructor..]. }
  { simpl. lia. }
  exists cs, d. destruct Hr as [_ _ _ Hnm Han Hnd _ _ Hc]. split_and!; try done.
  eapply Forall2_impl; [exact Hc|]. intros c [id|]; simpl; [|done]. by intros (? & ? & _).
Qed.
End Subscriptions_props.

(** ** Witnesses *)

Lemma dispatcher_refines_registry_witness :
  let ops := [ORegister "ping" 1; ORegisterAny 2; ORegister "ping" 3; ODisconnect 0;
              ODisconnect 0] in
  let r := fold_left (fun r o => spec_op o r) ops (registry_init (H := nat) (HS := nat)) in
  exists cs d,
    for_each ops prog_op ([], MsgDispatcher_init (T := tree)) = (Ok tt, (cs, d)) /\
    (forall cn, default [] (m_handlers d !! cn) = named cn (r_subs r)) /\
    default [] (m_anyPost d) = anys (r_subs r) /\
    NoDup (r_subs r).*1 /\
    Forall2 (fun c h => conn_self c = bool_decide (is_Some h) /\
                        from_option (fun id => conn_id c = id) True h) cs (r_handles r).
Proof.
  apply dispatcher_refines_registry; [repeat constructor; discriminate|reflexivity].
Defined.
