(* ===== verification/AResolver.v ===== *)
(** * AResolver: name resolution on a pool of threads
    (src/uzel/aresolver.h; NetAppContext of src/uzel/netappcontext.h, .cpp)

    The resolver has an [io_context] of its own, run by a pool of threads;
    a request is a function posted to it, which resolves the name
    synchronously and posts the caller's handler, with the answer, to the
    main [io_context].  The threads interleave: [ar_step] is one step of one
    of them.  What boost::asio documents: a thread in [run()] takes the first
    posted function, and [run()] returns when the work guard is gone, nothing
    is posted and no function is running.  The answer of the system's
    resolver is any value of [R]. *)
From S2P Require Import Prelude Effects PTree UConfig Addr Demo Msg Dispatcher.

(** The bound call of [do_async_resolve]; [K]: the handlers. *)
Record request (K : Type) := mkRequest {
  rq_host : string;
  rq_service : string;
  rq_handler : K;
}.
Arguments mkRequest {K}.
Arguments rq_host {K}.
Arguments rq_service {K}.
Arguments rq_handler {K}.

Record aresolver (K R : Type) := mkResolver {
  ar_posted : list (request K);    (* posted to m_iocontext, not begun *)
  ar_running : list (request K);   (* in do_async_resolve, one per thread *)
  ar_idle : nat;                   (* threads waiting in run() *)
  ar_exited : nat;                 (* threads whose run() has returned *)
  ar_work : bool;                  (* m_work holds a guard *)
  ar_main : list (K * R);          (* posted to m_mainiocontext so far *)
}.
Arguments mkResolver {K R}.
Arguments ar_posted {K R}.
Arguments ar_running {K R}.
Arguments ar_idle {K R}.
Arguments ar_exited {K R}.
Arguments ar_work {K R}.
Arguments ar_main {K R}.

Section AResolver.
Context {K R : Type}.
Implicit Types (a : aresolver K R) (rq : request K).

(** The constructor creates [pool_size] threads. *)
Definition AResolver_ctor (pool_size : nat) : aresolver K R :=
  mkResolver [] [] pool_size 0 true [].

Definition async_resolve (host service : string) (handler : K) a : aresolver K R :=
  mkResolver (ar_posted a ++ [mkRequest host service handler]) (ar_running a) (ar_idle a)
    (ar_exited a) (ar_work a) (ar_main a).

(** A thread begins the first posted function. *)
Definition take_job a : option (aresolver K R) :=
  match ar_posted a, ar_idle a with
  | rq :: rest, S idle =>
      Some (mkResolver rest (ar_running a ++ [rq]) idle (ar_exited a) (ar_work a) (ar_main a))
  | _, _ => None
  end.

(** The end of [do_async_resolve] on the [n]-th busy thread, with the answer. *)
Definition do_async_resolve (n : nat) (answer : R) a : option (aresolver K R) :=
  rq ← ar_running a !! n;
  Some (mkResolver (ar_posted a) (delete n (ar_running a)) (S (ar_idle a)) (ar_exited a)
          (ar_work a) (ar_main a ++ [(rq_handler rq, answer)])).

(** [run()] returns in an idle thread. *)
Definition run_returns a : option (aresolver K R) :=
  match ar_work a, ar_posted a, ar_running a, ar_idle a with
  | false, [], [], S idle =>
      Some (mkResolver [] [] idle (S (ar_exited a)) false (ar_main a))
  | _, _, _, _ => None
  end.

(** [m_work = boost::none], the first statement of the destructor. *)
Definition release_work a : aresolver K R :=
  mkResolver (ar_posted a) (ar_running a) (ar_idle a) (ar_exited a) false (ar_main a).

(** [m_threads.join_all()] returns: every thread of the pool has exited. *)
Definition joined a : bool := bool_decide (ar_running a = []) && (ar_idle a =? 0)%nat.
End AResolver.

(** A step of one of the threads of the pool. *)
Inductive ar_step {K R} : relation (aresolver K R) :=
  | ar_take a a' : take_job a = Some a' -> ar_step a a'
  | ar_done n answer a a' : do_async_resolve n answer a = Some a' -> ar_step a a'
  | ar_return a a' : run_returns a = Some a' -> ar_step a a'.

(** The life of a resolver, with the requests made so far. *)
Inductive ar_life {K R} (pool_size : nat) : list (request K) -> aresolver K R -> Prop :=
  | life_ctor : ar_life pool_size [] (AResolver_ctor pool_size)
  | life_resolve host service handler rqs a :
      ar_life pool_size rqs a -> ar_work a = true ->
      ar_life pool_size (rqs ++ [mkRequest host service handler])
        (async_resolve host service handler a)
  | life_step rqs a a' :
      ar_life pool_size rqs a -> ar_step a a' -> ar_life pool_size rqs a'
  | life_destroy rqs a :
      ar_life pool_size rqs a -> ar_life pool_size rqs (release_work a).

(** The network context of an application. *)
Definition ResolverThreads : nat := 5.

Record NetAppContext (T H HS K R : Type) := mkNetApp {
  m_aresolver : aresolver K R;
  m_dispatcher : MsgDispatcher T H HS;
}.
Arguments mkNetApp {T H HS K R}.
Arguments m_aresolver {T H HS K R}.
Arguments m_dispatcher {T H HS K R}.

Definition NetAppContext_ctor {T H HS K R} : NetAppContext T H HS K R :=
  mkNetApp (AResolver_ctor ResolverThreads) MsgDispatcher_init.

(** ** Lemmas *)

Section AResolver_lemmas.
Context {K R : Type}.
Implicit Types (a : aresolver K R) (rqs : list (request K)).

(** What is to be done, at most. *)
Definition ar_measure a : nat :=
  3 * length (ar_posted a) + 2 * length (ar_running a) + ar_idle a.

Lemma ar_step_measure a a' : ar_step a a' -> ar_measure a' < ar_measure a.
Proof.
  unfold ar_measure. intros [a1 a2 H|n answer a1 a2 H|a1 a2 H].
  - unfold take_job in H. destruct (ar_posted a1), (ar_idle a1) as [|idle]; try done.
    injection H as <-. simpl. rewrite length_app. simpl. lia.
  - unfold do_async_resolve in H. destruct (ar_running a1 !! n) as [rq|] eqn:Hn; [|done].
    injection H as <-. simpl. apply lookup_lt_Some in Hn as Hl.
    rewrite length_delete by (by eexists). lia.
  - unfold run_returns in H.
    destruct (ar_work a1), (ar_posted a1), (ar_running a1), (ar_idle a1); try done.
    injection H as <-. simpl. lia.
Qed.

(** The invariant of the life of a resolver. *)
Record ar_ok (pool_size : nat) rqs a : Prop := {
  ok_threads : length (ar_running a) + ar_idle a + ar_exited a = pool_size;
  ok_begun : exists begun, rqs = begun ++ ar_posted a /\
    rq_handler <$> begun ≡ₚ (ar_main a).*1 ++ (rq_handler <$> ar_running a);
  ok_exited : ar_exited a <> 0 ->
    ar_posted a = [] /\ ar_running a = [] /\ ar_work a = false;
}.

Lemma ar_step_ok pool_size rqs a a' :
  ar_ok pool_size rqs a -> ar_step a a' -> ar_ok pool_size rqs a'.
Proof.
  intros Hok Hs. destruct Hs as [a1 a2 H|n answer a1 a2 H|a1 a2 H];
    destruct Hok as [Ht (begun & Hb & Hp) He].
  - unfold take_job in H. destruct (ar_posted a1) as [|rq rest] eqn:Hpo; [done|].
    destruct (ar_idle a1) as [|idle] eqn:Hi; [done|]. injection H as <-. split; simpl.
    + rewrite length_app. simpl. lia.
    + exists (begun ++ [rq]). split; [by rewrite <-app_assoc|].
      by rewrite !fmap_app, Hp, app_assoc.
    + intros Hx. by destruct (He Hx).
  - unfold do_async_resolve in H. destruct (ar_running a1 !! n) as [rq|] eqn:Hn; [|done].
    injection H as <-. split; simpl.
    + apply lookup_lt_Some in Hn as Hl. rewrite length_delete by (by eexists). lia.
    + exists begun. split; [done|]. rewrite Hp, fmap_app. simpl.
      rewrite (delete_Permutation _ _ _ Hn) at 1. rewrite fmap_cons, <-app_assoc. done.
    + intros Hx. destruct (He Hx) as (_ & Hr & _). by rewrite Hr in Hn.
  - unfold run_returns in H.
    destruct (ar_work a1) eqn:Hw, (ar_posted a1) eqn:Hpo, (ar_running a1) eqn:Hr,
      (ar_idle a1) eqn:Hi; try done.
    injection H as <-. split; simpl; [simpl in Ht; lia| |done].
    exists begun. by rewrite Hb.
Qed.

Lemma ar_life_ok pool_size rqs a : ar_life pool_size rqs a -> ar_ok pool_size rqs a.
Proof.
  induction 1 as [|host service handler rqs a Hl [Ht (begun & Hb & Hp) He] Hw
    |rqs a a' Hl IH Hs|rqs a Hl [Ht (begun & Hb & Hp) He]].
  - split; simpl; [lia|by exists []|lia].
  - split; simpl; [done| |].
    + exists begun. by rewrite Hb, app_assoc.
    + intros Hx. destruct (He Hx) as (_ & _ & ?). congruence.
  - by eapply ar_step_ok.
  - split; simpl; [done|by exists begun|]. intros Hx. by destruct (He Hx) as (? & ? & _).
Qed.
End AResolver_lemmas.

(** ** Properties *)

Section AResolver_props.
Context {K R : Type}.
Implicit Types (a : aresolver K R) (rqs : list (request K)).

(** C22: Whatever the interleaving of the threads of the resolver's pool,
    every thread is busy, idle or has left, the requests are begun in the
    order in which they were made, and each begun request is being resolved
    by a thread or has had its handler posted to the main io_context exactly
    once. *)
Theorem resolver_conserves pool_size rqs a :
  ar_life pool_size rqs a ->
  length (ar_running a) + ar_idle a + ar_exited a = pool_size /\
  exists begun, rqs = begun ++ ar_posted a /\
    rq_handler <$> begun ≡ₚ (ar_main a).*1 ++ (rq_handler <$> ar_running a).
Proof. intros Hl. by destruct (ar_life_ok _ _ _ Hl). Qed.

(** C23: Once the destructor of a resolver with at least one thread has
    released the work guard, every step of the threads decreases a measure
    and some thread can step until all have left, so join_all returns; by
    then the handler of every request ever made has been posted, once. *)
Theorem resolver_destructor_drains pool_size rqs a (answer : R) :
  0 < pool_size -> ar_life pool_size rqs a -> ar_work a = false ->
  (forall a', ar_step a a' -> ar_work a' = false /\ ar_measure a' < ar_measure a) /\
  (joined a = false -> exists a', ar_step a a') /\
  (joined a = true -> ar_exited a = pool_size /\ (ar_main a).*1 ≡ₚ rq_handler <$> rqs).
Proof.
  intros Hpool Hl Hw. destruct (ar_life_ok _ _ _ Hl) as [Ht (begun & Hb & Hp) He].
  split; [|split].
  - intros a' Hs. split; [|by apply ar_step_measure].
    clear - Hw Hs. destruct Hs as [a1 a2 H|n ans a1 a2 H|a1 a2 H]; revert H.
    + unfold take_job. repeat case_match; try done. by intros [= <-].
    + unfold do_async_resolve. destruct (ar_running a1 !! n); [|done]. by intros [= <-].
    + unfold run_returns. repeat case_match; try done. by intros [= <-].
  - unfold joined. intros Hj.
    destruct (ar_running a) as [|rq l] eqn:Hr.
    2:{ eexists. apply (ar_done 0 answer). unfold do_async_resolve. by rewrite Hr. }
    destruct (ar_idle a) as [|idle] eqn:Hi; [done|].
    destruct (ar_posted a) as [|rq l] eqn:Hpo.
    + eexists. apply ar_return. unfold run_returns. by rewrite Hw, Hpo, Hr, Hi.
    + eexists. apply ar_take. unfold take_job. by rewrite Hpo, Hi.
  - unfold joined. intros [Hr%bool_decide_eq_true Hi%Nat.eqb_eq]%andb_true_iff.
    rewrite Hr, Hi in Ht. simpl in Ht. split; [done|].
    destruct (He ltac:(lia)) as (Hpo & _ & _).
    rewrite Hr in Hp. by rewrite Hb, Hpo, app_nil_r, Hp, app_nil_r.
Qed.
End AResolver_props.

(** ** Witnesses *)

(** Two requests, the first one begun by a thread of a pool of two. *)
Definition aw_rqs : list (request nat) :=
  [mkRequest "pingutv" "32300" 1; mkRequest "liver" "32300" 2].
Definition aw_two : aresolver nat string :=
  mkResolver [mkRequest "liver" "32300" 2] [mkRequest "pingutv" "32300" 1] 1 0 true [].

Lemma resolver_conserves_witness :
  length (ar_running aw_two) + ar_idle aw_two + ar_exited aw_two = 2 /\
  exists begun, aw_rqs = begun ++ ar_posted aw_two /\
    rq_handler <$> begun ≡ₚ (ar_main aw_two).*1 ++ (rq_handler <$> ar_running aw_two).
Proof.
  apply (resolver_conserves 2 aw_rqs).
  apply (life_step 2 _ (mkResolver aw_rqs [] 2 0 true [])); [|by apply ar_take].
  apply (life_resolve 2 "liver" "32300" 2 [mkRequest "pingutv" "32300" 1]
    (async_resolve "pingutv" "32300" 1 (AResolver_ctor 2))); [|done].
  apply (life_resolve 2 "pingutv" "32300" 1 [] (AResolver_ctor 2)); [|done]. apply life_ctor.
Defined.

Lemma resolver_destructor_drains_witness :
  exists a', ar_step (release_work (AResolver_ctor (K := nat) (R := string) 2)) a'.
Proof.
  apply (resolver_destructor_drains 2 [] _ "127.0.0.1"); [lia| |reflexivity|reflexivity].
  apply life_destroy, life_ctor.
Defined.
