(* ===== verification/Session.v ===== *)
(** * Session: one TCP connection (src/uzel/session.h, src/uzel/session.cpp)

    The state of a [session] object together with what it has asked of its
    socket: [m_pending] lists the asynchronous operations in flight, each
    with the buffer it was given; the environment completes them.  [now] is
    [std::chrono::steady_clock::now()] in nanoseconds at the time of the
    call.  Handlers that emit [s_closed] return the slots connected to it, for
    their caller to run: the emission is always the last thing they do. *)
From S2P Require Import Prelude Effects AccuLine Priority PTree UConfig Addr Demo Msg.
From S2P Require Import InputProcessor.

Definition ip_address : Type := string.

Definition seconds (s : Z) : Z := (s * 1000000000)%Z.
Definition MessageTTL_sec : Z := 60.

Record QueuedMsg := mkQueuedMsg {
  m_rawmsg : string;
  m_dt : DestType;
  m_enqueueTime : Z;
}.

#[export] Instance QueuedMsg_eq_dec : EqDecision QueuedMsg.
Proof. solve_decision. Defined.

(** Operations in flight on [m_socket]. *)
Inductive async_op := AConnect | ARead | AWrite (buf : string) | ABye (buf : string).

#[export] Instance async_op_eq_dec : EqDecision async_op.
Proof. solve_decision. Defined.

(** The slots the server connects to [s_closed]: NetServer::onSessionClosed,
    remote::onSessionClosed of a node, and the lambda of
    OutgoingManager::connectResolved for a host. *)
Inductive closed_slot :=
  | SlotServer
  | SlotRemote (node : string)
  | SlotHost (hostname : string).

#[export] Instance closed_slot_eq_dec : EqDecision closed_slot.
Proof. solve_decision. Defined.

Record session (T : Type) := mkSession {
  m_direction : Direction;
  m_processor : InputProcessor T;
  m_outQueue : list QueuedMsg;
  m_msg1 : option (Msg T);
  m_closeFlag : bool;
  m_stopped : bool;
  m_reason : string;
  m_remoteHostName : string;
  m_remoteIp : ip_address;
  s_auth : bool;                 (* NetServer::auth is connected *)
  s_closed : list closed_slot;
  m_pending : list async_op;
}.
Arguments mkSession {T}.
Arguments m_direction {T}.
Arguments m_processor {T}.
Arguments m_outQueue {T}.
Arguments m_msg1 {T}.
Arguments m_closeFlag {T}.
Arguments m_stopped {T}.
Arguments m_reason {T}.
Arguments m_remoteHostName {T}.
Arguments m_remoteIp {T}.
Arguments s_auth {T}.
Arguments s_closed {T}.
Arguments m_pending {T}.

(** The constructor. *)
Definition session_init {T} (direction : Direction) (ip : ip_address) (remoteHostName : string)
    : session T :=
  mkSession direction IP_init [] None false false EmptyString remoteHostName ip false [] [].

Section Setters.
Context {T : Type}.
Implicit Types (s : session T).

Definition set_processor p s := mkSession (m_direction s) p (m_outQueue s) (m_msg1 s)
  (m_closeFlag s) (m_stopped s) (m_reason s) (m_remoteHostName s) (m_remoteIp s)
  (s_auth s) (s_closed s) (m_pending s).
Definition set_outQueue q s := mkSession (m_direction s) (m_processor s) q (m_msg1 s)
  (m_closeFlag s) (m_stopped s) (m_reason s) (m_remoteHostName s) (m_remoteIp s)
  (s_auth s) (s_closed s) (m_pending s).
Definition set_msg1 m s := mkSession (m_direction s) (m_processor s) (m_outQueue s) m
  (m_closeFlag s) (m_stopped s) (m_reason s) (m_remoteHostName s) (m_remoteIp s)
  (s_auth s) (s_closed s) (m_pending s).
Definition set_closing reason s := mkSession (m_direction s) (m_processor s) (m_outQueue s)
  (m_msg1 s) true (m_stopped s) reason (m_remoteHostName s) (m_remoteIp s)
  (s_auth s) (s_closed s) (m_pending s).
Definition set_stopped s := mkSession (m_direction s) (m_processor s) (m_outQueue s)
  (m_msg1 s) true true (m_reason s) (m_remoteHostName s) (m_remoteIp s)
  (s_auth s) (s_closed s) (m_pending s).
Definition set_pending p s := mkSession (m_direction s) (m_processor s) (m_outQueue s)
  (m_msg1 s) (m_closeFlag s) (m_stopped s) (m_reason s) (m_remoteHostName s) (m_remoteIp s)
  (s_auth s) (s_closed s) p.
Definition connect_auth s := mkSession (m_direction s) (m_processor s) (m_outQueue s)
  (m_msg1 s) (m_closeFlag s) (m_stopped s) (m_reason s) (m_remoteHostName s) (m_remoteIp s)
  true (s_closed s) (m_pending s).
Definition connect_closed slot s := mkSession (m_direction s) (m_processor s) (m_outQueue s)
  (m_msg1 s) (m_closeFlag s) (m_stopped s) (m_reason s) (m_remoteHostName s) (m_remoteIp s)
  (s_auth s) (s_closed s ++ [slot]) (m_pending s).

(** An asynchronous operation is started. *)
Definition async (op : async_op) : M (session T) unit :=
  modify (fun s => set_pending (m_pending s ++ [op]) s).

(** An asynchronous operation is completed: its first occurrence goes. *)
Fixpoint remove_op (op : async_op) (l : list async_op) : list async_op :=
  match l with
  | [] => []
  | o :: l' => if decide (o = op) then l' else o :: remove_op op l'
  end.
Definition complete (op : async_op) : M (session T) unit :=
  modify (fun s => set_pending (remove_op op (m_pending s)) s).
End Setters.

Section Session.
Context {T : Type} {PL : Platform T}.
Implicit Types (s : session T).

Definition QueuedMsg_of (now : Z) (msg : Msg T) : outcome QueuedMsg :=
  match charvec msg with
  | Ok raw => Ok (mkQueuedMsg raw (destType msg) now)
  | Throw e => Throw e
  | Undefined => Undefined
  | Diverges => Diverges
  end.

Definition authenticated s : bool := bool_decide (is_Some (m_msg1 s)).
Definition outQueueEmpty s : bool := bool_decide (m_outQueue s = []).

Definition msg1_or_throw (what : string) : M (session T) (Msg T) :=
  msg1 <- gets m_msg1 ;;
  match msg1 with
  | Some m => ret m
  | None => throw (logic_error what)
  end.

Definition peerIsLocal : M (session T) bool :=
  m <- msg1_or_throw "called peerIsLocal() on non-authenticated socket" ;;
  ret (fromLocal m).
Definition peerNode : M (session T) string :=
  m <- msg1_or_throw "called peerNode() on non-authenticated socket" ;;
  ret (m_nodename (m_from m)).
Definition peerApp : M (session T) string :=
  m <- msg1_or_throw "called peerApp() on non-authenticated socket" ;;
  ret (m_appname (m_from m)).

Definition authenticate (msg : Msg T) : M (session T) bool :=
  let app := m_appname (m_from msg) in
  let node := m_nodename (m_from msg) in
  if str_empty app || str_empty node then ret false
  else
    let isLocal := isLocalNode node in
    let accept := modify (set_msg1 (Some msg)) ;; ret true in
    if bool_decide (appName = "userver") then
      if isLocal then
        if bool_decide (app = "userver") then ret false else accept
      else if bool_decide (app <> "userver") then ret false else accept
    else if negb isLocal then ret false
    else if bool_decide (app <> "userver") then ret false
    else accept.

Definition shutdown : M (session T) unit :=
  stopped <- gets m_stopped ;;
  if stopped : bool then ret tt
  else modify set_stopped.

(** [stop] returns the slots [s_closed()] runs. *)
Definition stop : M (session T) (list closed_slot) :=
  stopped <- gets m_stopped ;;
  if stopped : bool then ret []
  else
    shutdown ;;
    modify set_stopped ;;
    gets s_closed.

Definition sendByeAndClose : M (session T) unit :=
  reason <- gets m_reason ;;
  let body := pt_add "bye" reason pt_empty in
  byeStr <- lift (move_tostr (Msg_out Addr_default "bye" body)).1 ;;
  async (ABye byeStr).

Definition gracefullClose (reason : string) : M (session T) unit :=
  closeFlag <- gets m_closeFlag ;;
  if closeFlag : bool then ret tt
  else
    modify (set_closing reason) ;;
    empty <- gets outQueueEmpty ;;
    when empty sendByeAndClose.

(** The loop of [deleteOld]: how many messages are dropped, what is left. *)
Fixpoint drop_old (now : Z) (q : list QueuedMsg) : nat * list QueuedMsg :=
  match q with
  | [] => (0, [])
  | m :: q' =>
      if (seconds MessageTTL_sec <? now - m_enqueueTime m)%Z then
        let '(n, rest) := drop_old now q' in (S n, rest)
      else (0, q)
  end.

(** The warning names the peer through [m_msg1]. *)
Definition deleteOld (now : Z) : M (session T) unit :=
  q <- gets m_outQueue ;;
  let '(dropped, rest) := drop_old now q in
  modify (set_outQueue rest) ;;
  if (0 <? dropped)%nat then
    msg1 <- gets m_msg1 ;;
    match msg1 with Some _ => ret tt | None => ub end
  else ret tt.

Definition do_write (now : Z) : M (session T) unit :=
  deleteOld now ;;
  q <- gets m_outQueue ;;
  match q with
  | [] => ret tt
  | front :: _ => async (AWrite (m_rawmsg front))
  end.

(** The completion handler of [do_write]; the call of [do_write] at its end
    is behind an unconditional [return]. *)
Definition write_handler (now : Z) (buf : string) (ec : bool) : M (session T) (list closed_slot) :=
  complete (AWrite buf) ;;
  if ec then stop
  else
    q <- gets m_outQueue ;;
    match q with
    | [] => ub
    | _ :: q' =>
        modify (set_outQueue q') ;;
        deleteOld now ;;
        closeFlag <- gets m_closeFlag ;;
        when closeFlag sendByeAndClose ;;
        ret []
    end.

(** The completion handler of [sendByeAndClose]. *)
Definition bye_handler (buf : string) : M (session T) (list closed_slot) :=
  complete (ABye buf) ;;
  stop.

Definition putOutQueue (now : Z) (msg : Msg T) : M (session T) unit :=
  wasEmpty <- gets outQueueEmpty ;;
  qm <- lift (QueuedMsg_of now msg) ;;
  modify (fun s => set_outQueue (m_outQueue s ++ [qm]) s) ;;
  when wasEmpty (do_write now).

(** [while(!oq.empty())]: the number of messages moved; the source queue is
    the second part of the state. *)
Fixpoint takeOver_loop (fuel : nat) (count : nat)
    : M (session T * list QueuedMsg) nat :=
  match fuel with
  | O => diverge
  | S fuel' =>
      oq <- gets snd ;;
      match oq with
      | [] => ret count
      | front :: rest =>
          if decide (m_dt front = service) then takeOver_loop fuel' count
          else
            modify (fun st => (set_outQueue (m_outQueue st.1 ++ [front]) st.1, rest)) ;;
            takeOver_loop fuel' (S count)
      end
  end.

Definition takeOverMessages (now : Z) : M (session T * list QueuedMsg) unit :=
  wasEmpty <- gets (fun st => outQueueEmpty st.1) ;;
  n <- gets (fun st => length st.2) ;;
  count <- takeOver_loop (S n) 0 ;;
  when ((0 <? count)%nat && wasEmpty)
    (zoom fst (fun s st => (s, st.2)) (do_write now)).

Definition do_read : M (session T) unit := async ARead.

Definition start (now : Z) : M (session T) unit :=
  let body := pt_add "pid" getpid pt_empty in
  putOutQueue now (Msg_out Addr_default "auth" body) ;;
  do_read.

Definition startConnection : M (session T) unit := async AConnect.

Definition connectHandler (now : Z) (ec : bool) : M (session T) (list closed_slot) :=
  complete AConnect ;;
  if ec then stop
  else
    start now ;;
    ret [].
End Session.

(** The course of the output side of one session: the clock advances,
    messages are put, writes complete, the session is asked to close. *)
Inductive wstep {T} {PL : Platform T} : relation (Z * session T) :=
  | w_clock now now' s : (now <= now')%Z -> wstep (now, s) (now', s)
  | w_put now msg s s' :
      putOutQueue now msg s = (Ok tt, s') -> wstep (now, s) (now, s')
  | w_written now buf slots s s' :
      AWrite buf ∈ m_pending s ->
      write_handler now buf false s = (Ok slots, s') -> wstep (now, s) (now, s')
  | w_close now reason s s' :
      gracefullClose reason s = (Ok tt, s') -> wstep (now, s) (now, s').

Definition is_write (op : async_op) : bool :=
  match op with AWrite _ => true | _ => false end.

(** The writes in flight. *)
Definition writes {T} (s : session T) : list async_op := filter is_write (m_pending s).

(** What [boost::asio::async_write] requires of its user: no second write is
    started before the first one has completed, and the buffer stays that of
    the front message. *)
Definition one_write {T} (s : session T) : Prop :=
  m_closeFlag s = false /\
  (writes s = [] \/
   exists front rest, m_outQueue s = front :: rest /\ writes s = [AWrite (m_rawmsg front)]).

(** Messages wait, and no write is in flight that would send the next one. *)
Definition stalled {T} (s : session T) : Prop :=
  m_outQueue s <> [] /\ writes s = [].

(** ** Lemmas *)

Section Session_lemmas.
Context {T : Type} {PL : Platform T}.
Implicit Types (s : session T).

Lemma TTL_pos : (0 < seconds MessageTTL_sec)%Z.
Proof. reflexivity. Qed.

Lemma drop_old_suffix now q :
  exists d, q = d ++ (drop_old now q).2 /\ length d = (drop_old now q).1.
Proof.
  induction q as [|m q [d [Hq Hd]]]; cbn [drop_old]; [by exists []|].
  destruct (_ <? _)%Z; [|by exists []]. destruct (drop_old now q) as [n rest].
  exists (m :: d). simpl in *. by rewrite <-Hq, Hd.
Qed.

Lemma drop_old_fresh now m q :
  (now - m_enqueueTime m <= seconds MessageTTL_sec)%Z -> drop_old now (m :: q) = (0, m :: q).
Proof.
  intros Hm. cbn [drop_old].
  destruct (Z.ltb_spec (seconds MessageTTL_sec) (now - m_enqueueTime m)); [lia|done].
Qed.

Lemma drop_old_sorted now q :
  StronglySorted Z.le (m_enqueueTime <$> q) ->
  (drop_old now q).2 =
  filter (fun m => ~ (seconds MessageTTL_sec < now - m_enqueueTime m)%Z) q.
Proof.
  induction q as [|m q IH]; [done|]. rewrite fmap_cons. intros Hs.
  apply StronglySorted_inv in Hs as [Hs Hm]. cbn [drop_old].
  destruct (Z.ltb_spec (seconds MessageTTL_sec) (now - m_enqueueTime m)) as [Hlt|Hge].
  - rewrite filter_cons_False by lia. rewrite <-(IH Hs).
    by destruct (drop_old now q).
  - rewrite filter_cons_True by lia. simpl. f_equal. clear IH Hs.
    rewrite Forall_fmap in Hm. induction Hm as [|m' q Hle Hq IH]; [done|].
    simpl in Hle. rewrite filter_cons_True by lia. by f_equal.
Qed.

Lemma deleteOld_eq now s :
  deleteOld now s =
  ((if ((0 <? (drop_old now (m_outQueue s)).1)%nat && negb (authenticated s))
    then Undefined else Ok tt),
   set_outQueue (drop_old now (m_outQueue s)).2 s).
Proof.
  unfold deleteOld, authenticated. run_m.
  destruct (drop_old now (m_outQueue s)) as [n rest]; simpl.
  destruct (0 <? n)%nat; simpl; [|done]. by destruct (m_msg1 s).
Qed.

Lemma set_outQueue_same s : set_outQueue (m_outQueue s) s = s.
Proof. by destruct s. Qed.

Lemma deleteOld_fresh now s m q :
  m_outQueue s = m :: q -> (now - m_enqueueTime m <= seconds MessageTTL_sec)%Z ->
  deleteOld now s = (Ok tt, s).
Proof.
  intros Hq Hm. rewrite deleteOld_eq, Hq, drop_old_fresh by done. simpl.
  by rewrite <-Hq, set_outQueue_same.
Qed.

Lemma deleteOld_nil now s : m_outQueue s = [] -> deleteOld now s = (Ok tt, s).
Proof. intros Hq. rewrite deleteOld_eq, Hq. simpl. by rewrite <-Hq, set_outQueue_same. Qed.

(** [putOutQueue] when the message can be written. *)
Lemma putOutQueue_ok now msg s raw :
  charvec msg = Ok raw ->
  let qm := mkQueuedMsg raw (destType msg) now in
  putOutQueue now msg s =
  (Ok tt, if outQueueEmpty s
          then set_pending (m_pending s ++ [AWrite raw]) (set_outQueue [qm] s)
          else set_outQueue (m_outQueue s ++ [qm]) s).
Proof.
  intros Hc qm. unfold putOutQueue, QueuedMsg_of. run_m. rewrite Hc; simpl.
  unfold outQueueEmpty. case_bool_decide as Hq; simpl; [|done].
  rewrite Hq. simpl. unfold do_write, bind.
  rewrite (deleteOld_fresh now _ qm []) by (done || (simpl; pose proof TTL_pos; lia)).
  done.
Qed.

Lemma putOutQueue_inv now msg s s' :
  putOutQueue now msg s = (Ok tt, s') -> exists raw, charvec msg = Ok raw.
Proof.
  unfold putOutQueue, QueuedMsg_of. run_m.
  destruct (charvec msg) as [raw|e| |]; try discriminate. eauto.
Qed.

Lemma writes_app s ops :
  writes (set_pending (m_pending s ++ ops) s) = writes s ++ filter is_write ops.
Proof. unfold writes. simpl. apply filter_app. Qed.

Lemma remove_op_write buf l :
  filter is_write (remove_op (AWrite buf) l) = remove_op (AWrite buf) (filter is_write l).
Proof.
  induction l as [|o l IH]; [done|]. cbn [remove_op].
  destruct (decide (o = AWrite buf)) as [->|Ho].
  - rewrite filter_cons_True by done. simpl. by rewrite decide_True.
  - destruct o as [| |b|b];
      try (rewrite !filter_cons_False by (simpl; tauto); exact IH).
    rewrite !filter_cons_True by done. cbn [remove_op]. rewrite decide_False by done.
    by rewrite IH.
Qed.

Lemma remove_op_incl op o (l : list async_op) : o ∈ remove_op op l -> o ∈ l.
Proof. induction l as [|x l IH]; simpl; [done|]. case_decide; set_solver. Qed.

(** The handler of a successful write, up to the closing of the session. *)
Lemma write_handler_open now buf m q s :
  m_closeFlag s = false -> m_outQueue s = m :: q ->
  exists o, write_handler now buf false s =
    (o, set_outQueue (drop_old now q).2
          (set_pending (remove_op (AWrite buf) (m_pending s)) s)) /\
    (o = Ok [] \/ o = Undefined).
Proof.
  intros Hc Hq. unfold write_handler, complete. run_m. rewrite Hq.
  rewrite deleteOld_eq. simpl. rewrite Hc. simpl.
  destruct (_ && _); eauto.
Qed.
End Session_lemmas.

Section TakeOver_lemmas.
Context {T : Type} {PL : Platform T}.
Implicit Types (s : session T) (oq : list QueuedMsg).

Lemma set_outQueue_twice q q' s : set_outQueue q (set_outQueue q' s) = set_outQueue q s.
Proof. done. Qed.

Lemma takeOver_loop_moves fuel count s oq :
  Forall (fun m => m_dt m <> service) oq -> length oq < fuel ->
  takeOver_loop fuel count (s, oq) =
  (Ok (count + length oq), (set_outQueue (m_outQueue s ++ oq) s, [])).
Proof.
  revert count s oq; induction fuel as [|fuel IH]; intros count s oq Hf Hl; [lia|].
  cbn [takeOver_loop]. unfold bind at 1, gets. simpl.
  destruct oq as [|m oq].
  - rewrite app_nil_r, set_outQueue_same, Nat.add_0_r. done.
  - apply Forall_cons in Hf as [Hm Hf]. rewrite decide_False by done.
    unfold bind, modify. simpl. rewrite IH by (done || (simpl in Hl; lia)).
    simpl. rewrite set_outQueue_twice, <-app_assoc. do 2 f_equal. simpl. lia.
Qed.

Lemma takeOver_loop_stuck fuel count s m oq :
  m_dt m = service -> (takeOver_loop fuel count (s, m :: oq)).1 = Diverges.
Proof.
  intros Hm. revert count; induction fuel as [|fuel IH]; intros count; [done|].
  cbn [takeOver_loop]. unfold bind, gets. simpl. rewrite decide_True by done. apply IH.
Qed.

Lemma takeOver_loop_diverges fuel count s oq :
  Exists (fun m => m_dt m = service) oq ->
  (takeOver_loop fuel count (s, oq)).1 = Diverges.
Proof.
  intros He. revert fuel count s; induction He as [m oq Hm|m oq He IH]; intros fuel count s.
  - by apply takeOver_loop_stuck.
  - destruct fuel as [|fuel]; [done|].
    destruct (decide (m_dt m = service)) as [Hm|Hm]; [by apply takeOver_loop_stuck|].
    cbn [takeOver_loop]. unfold bind, gets, modify. simpl. rewrite decide_False by done.
    apply IH.
Qed.

Lemma takeOverMessages_stuck now s oq :
  Exists (fun m => m_dt m = service) oq ->
  (takeOverMessages now (s, oq)).1 = Diverges.
Proof.
  intros Hoq. unfold takeOverMessages, gets. unfold bind at 1 2.
  pose proof (takeOver_loop_diverges (S (length oq)) 0 s oq Hoq) as Hd.
  unfold bind. simpl snd. destruct (takeOver_loop _ _ _) as [o st].
  simpl in Hd. by subst.
Qed.

Lemma takeOverMessages_moves now s oq :
  Forall (fun m => m_dt m <> service) oq ->
  takeOverMessages now (s, oq) =
  zoom fst (fun s st => (s, st.2))
    (when (bool_decide (oq <> []) && bool_decide (m_outQueue s = [])) (do_write now))
    (set_outQueue (m_outQueue s ++ oq) s, []).
Proof.
  intros Hoq. unfold takeOverMessages, gets. unfold bind at 1 2. simpl length.
  rewrite (bind_ok _ _ _ _ _ (takeOver_loop_moves (S (length oq)) 0 s oq Hoq ltac:(lia))).
  unfold outQueueEmpty. simpl. destruct oq as [|m oq]; [done|].
  by destruct (bool_decide (m_outQueue s = [])).
Qed.

(** A session that is writing already is not written to. *)
Lemma takeOverMessages_busy now s oq :
  Forall (fun m => m_dt m <> service) oq -> m_outQueue s <> [] ->
  takeOverMessages now (s, oq) = (Ok tt, (set_outQueue (m_outQueue s ++ oq) s, [])).
Proof.
  intros Hoq Hs. rewrite takeOverMessages_moves by done.
  rewrite (bool_decide_eq_false_2 (m_outQueue s = [])) by done. by rewrite andb_false_r.
Qed.
End TakeOver_lemmas.

(** ** Properties *)

Section Session_props.
Context {T : Type} {PL : Platform T}.
Implicit Types (s : session T) (msg : Msg T).

(** C26: authenticate accepts a message, and then keeps it as the first
    message of the session, exactly when the sender names an application and
    a node and, in the server, is either an application of this node other
    than a server or the server of another node, in an application, the
    server of this node; otherwise it changes nothing. *)
Theorem authenticate_spec msg s :
  let app := m_appname (m_from msg) in
  let node := m_nodename (m_from msg) in
  let accepted :=
    app <> EmptyString /\ node <> EmptyString /\
    (appName = "userver" -> (node = nodeName <-> app <> "userver")) /\
    (appName <> "userver" -> node = nodeName /\ app = "userver") in
  (accepted -> authenticate msg s = (Ok true, set_msg1 (Some msg) s)) /\
  (~ accepted -> authenticate msg s = (Ok false, s)).
Proof.
  intros app node accepted. unfold authenticate. fold app node.
  rewrite !str_empty_decide. unfold isLocalNode.
  assert ("userver" <> EmptyString) as Hu by done. revert Hu.
  subst accepted. generalize "userver" EmptyString; intros userver ε Hu.
  repeat (case_bool_decide; simpl); run_m; (split; intros Ha;
    [done || exfalso | done || exfalso]); intuition congruence.
Qed.

(** C27: takeOverMessages appends the whole other queue in order, empties it
    and starts a write if this session's queue was empty, provided no
    service message is in it; with a service message anywhere in the other
    queue the loop never ends, whatever the fuel. *)
Theorem takeOverMessages_spec now s oq :
  (Forall (fun m => m_dt m <> service) oq ->
   takeOverMessages now (s, oq) =
   zoom fst (fun s st => (s, st.2))
     (when (bool_decide (oq <> []) && bool_decide (m_outQueue s = [])) (do_write now))
     (set_outQueue (m_outQueue s ++ oq) s, [])) /\
  (Exists (fun m => m_dt m = service) oq ->
   (takeOverMessages now (s, oq)).1 = Diverges /\
   forall fuel count, (takeOver_loop fuel count (s, oq)).1 = Diverges).
Proof.
  split; intros Hoq.
  - by apply takeOverMessages_moves.
  - split; [by apply takeOverMessages_stuck|intros; by apply takeOver_loop_diverges].
Qed.

(** On a queue in the order of its enqueue times deleteOld removes exactly
    the messages older than the time to live, when there is none or the
    session is authenticated; with an old message on a session that is not
    authenticated it dereferences the null first message. *)
Lemma deleteOld_spec now s :
  StronglySorted Z.le (m_enqueueTime <$> m_outQueue s) ->
  let fresh := filter (fun m => ~ (seconds MessageTTL_sec < now - m_enqueueTime m)%Z)
                 (m_outQueue s) in
  (fresh = m_outQueue s \/ authenticated s = true ->
     deleteOld now s = (Ok tt, set_outQueue fresh s)) /\
  (fresh <> m_outQueue s -> authenticated s = false -> (deleteOld now s).1 = Undefined).
Proof.
  intros Hs fresh. subst fresh. rewrite <-drop_old_sorted, deleteOld_eq by done.
  destruct (drop_old_suffix now (m_outQueue s)) as (d & Hd & Hl).
  destruct (drop_old now (m_outQueue s)) as [n rest]; simpl in *.
  split.
  - intros [He| ->]; [|by rewrite andb_false_r].
    assert (n = 0) as -> by (apply (f_equal length) in Hd; rewrite length_app in Hd; subst; lia).
    done.
  - intros Hne ->. destruct n as [|n]; [|done].
    destruct d; [|done]. by destruct Hne.
Qed.

(** Steps that do not close the session. *)
Definition open_step (st st' : Z * session T) : Prop :=
  wstep st st' /\ m_closeFlag st'.2 = false.

Lemma one_write_step now s now' s' :
  one_write s -> wstep (now, s) (now', s') -> m_closeFlag s' = false -> one_write s'.
Proof.
  intros [Hc Hw] Hstep Hc'. split; [done|].
  inversion Hstep as [? ? ? ?|? msg ? ? Hput|? buf slots ? ? Hin Hwr|? reason ? ? Hcl]; subst.
  - done.
  - destruct (putOutQueue_inv _ _ _ _ Hput) as [raw Hraw].
    rewrite (putOutQueue_ok _ _ _ _ Hraw) in Hput. injection Hput as <-.
    unfold outQueueEmpty. case_bool_decide as Hq.
    + right. exists (mkQueuedMsg raw (destType msg) now'), []. split; [done|].
      rewrite (writes_app (set_outQueue _ s)). unfold writes in *; simpl.
      destruct Hw as [->|(f & r & Hf & _)]; [done|]. by rewrite Hq in Hf.
    + destruct Hw as [Hw|(f & r & Hf & Hw)]; [by left|right].
      exists f, (r ++ [mkQueuedMsg raw (destType msg) now']). split; [|done].
      simpl. by rewrite Hf.
  - left. destruct (m_outQueue s) as [|m q] eqn:Hq.
    { unfold write_handler, complete in Hwr. revert Hwr. run_m. by rewrite Hq. }
    destruct (write_handler_open now' buf m q s Hc Hq) as (o & Hr & _).
    rewrite Hr in Hwr. injection Hwr as _ <-.
    unfold writes; simpl. rewrite remove_op_write.
    assert (AWrite buf ∈ writes s) as Hb by (apply list_elem_of_filter; done).
    destruct Hw as [Hw|(f & r & _ & Hw)]; unfold writes in *; rewrite Hw in *.
    { by apply elem_of_nil in Hb. }
    apply list_elem_of_singleton in Hb as ->. simpl. by rewrite decide_True.
  - exfalso. revert Hcl. unfold gracefullClose. run_m. rewrite Hc. run_m.
    destruct (outQueueEmpty _); [|by intros [= <-]].
    unfold sendByeAndClose, async. run_m.
    destruct (move_tostr _).1; simpl; try discriminate. by intros [= <-].
Qed.

(** On a session that is not being closed, whatever messages are put and
    whatever writes complete at whatever time, at most one write is in
    flight and its buffer is that of the message at the front of the queue,
    which is therefore still alive: what boost::asio::async_write requires. *)
Lemma one_write_in_flight direction ip hname st :
  rtc open_step (0%Z, session_init direction ip hname) st ->
  writes st.2 = [] \/
  exists front rest, m_outQueue st.2 = front :: rest /\
    writes st.2 = [AWrite (m_rawmsg front)].
Proof.
  intros Hr. cut (one_write st.2); [by intros [_ ?]|].
  revert st Hr. apply (rtc_ind_r (fun st => one_write st.2)).
  - split; [done|by left].
  - intros [n s] [n' s'] _ [Hstep Hc'] Ho. by eapply one_write_step.
Qed.

Lemma stalled_step now s now' s' :
  stalled s -> wstep (now, s) (now', s') ->
  stalled s' /\ m_pending s' = m_pending s /\ m_outQueue s `prefix_of` m_outQueue s'.
Proof.
  intros [Hq Hw] Hstep.
  inversion Hstep as [? ? ? ?|? msg ? ? Hput|? buf slots ? ? Hin Hwr|? reason ? ? Hcl]; subst.
  - done.
  - destruct (putOutQueue_inv _ _ _ _ Hput) as [raw Hraw].
    rewrite (putOutQueue_ok _ _ _ _ Hraw) in Hput. injection Hput as <-.
    unfold outQueueEmpty. rewrite bool_decide_eq_false_2 by done.
    split; [|split; [done|by apply prefix_app_r]].
    split; [|done]. simpl. by destruct (m_outQueue s).
  - exfalso. assert (AWrite buf ∈ writes s) as Hb by (apply list_elem_of_filter; done).
    rewrite Hw in Hb. by apply elem_of_nil in Hb.
  - revert Hcl. unfold gracefullClose. run_m. destruct (m_closeFlag s); [by intros [= <-]|].
    unfold outQueueEmpty; simpl. rewrite bool_decide_eq_false_2 by done. run_m.
    by intros [= <-].
Qed.

(** C28: A session with messages in its queue and no write in flight stays
    so: whatever is put, completes or is closed later, the queue only grows
    and no write is ever started again. *)
Theorem stalled_forever now s st :
  stalled s -> rtc wstep (now, s) st ->
  m_outQueue s `prefix_of` m_outQueue st.2 /\ m_pending st.2 = m_pending s /\
  stalled st.2.
Proof.
  intros Hs. revert st.
  apply (rtc_ind_r (fun st => m_outQueue s `prefix_of` m_outQueue st.2 /\
           m_pending st.2 = m_pending s /\ stalled st.2)); [done|].
  intros [n1 s1] [n2 s2] _ Hstep (Hp & Hpe & Hst).
  destruct (stalled_step _ _ _ _ Hst Hstep) as (Hst' & Hpe' & Hp').
  split_and!; [by etrans|by simpl in *; congruence|apply Hst'..].
Qed.

(** A message put while the write of the previous one is in flight is not
    sent: when that write completes within the time to live, the handler
    takes the written message off the queue and returns without starting the
    next write, and the session is stalled. *)
Lemma second_message_stalls now later m1 m2 raw1 raw2 s :
  m_outQueue s = [] -> writes s = [] -> m_closeFlag s = false ->
  charvec m1 = Ok raw1 -> charvec m2 = Ok raw2 ->
  (later - now <= seconds MessageTTL_sec)%Z ->
  exists s1 s2 s3,
    putOutQueue now m1 s = (Ok tt, s1) /\
    putOutQueue now m2 s1 = (Ok tt, s2) /\
    write_handler later raw1 false s2 = (Ok [], s3) /\
    m_outQueue s3 = [mkQueuedMsg raw2 (destType m2) now] /\ stalled s3.
Proof.
  intros Hq Hw Hc H1 H2 Hl. do 3 eexists.
  split; [by apply putOutQueue_ok|]. split; [by apply putOutQueue_ok|].
  unfold outQueueEmpty. rewrite (bool_decide_eq_true_2 (m_outQueue s = [])) by done.
  simpl. unfold write_handler, complete. run_m.
  rewrite deleteOld_eq. cbn [m_outQueue set_outQueue]. rewrite drop_old_fresh by done.
  simpl. rewrite Hc. simpl. split; [done|]. split; [done|]. split; [done|].
  unfold writes in *; simpl. rewrite remove_op_write, filter_app, Hw. simpl.
  by rewrite decide_True.
Qed.

(** stop shuts the socket down and emits the closed signal the first
    time only. *)
Lemma stop_once s :
  (m_stopped s = true -> stop s = (Ok [], s)) /\
  (m_stopped s = false ->
     exists s', stop s = (Ok (s_closed s), s') /\ m_stopped s' = true /\
       m_closeFlag s' = true /\ m_outQueue s' = m_outQueue s /\ stop s' = (Ok [], s')).
Proof.
  unfold stop, shutdown. run_m. split; intros Hs.
  - by rewrite Hs.
  - rewrite Hs. simpl. rewrite Hs. by eexists.
Qed.

(** gracefullClose sets the close flag once; with nothing queued the
    farewell is sent at once. *)
Lemma gracefullClose_spec reason s :
  (m_closeFlag s = true -> gracefullClose reason s = (Ok tt, s)) /\
  (m_closeFlag s = false -> m_outQueue s <> [] ->
     gracefullClose reason s = (Ok tt, set_closing reason s)) /\
  (forall bye, m_closeFlag s = false -> m_outQueue s = [] ->
     (move_tostr (Msg_out Addr_default "bye" (pt_add "bye" reason pt_empty))).1 = Ok bye ->
     gracefullClose reason s =
       (Ok tt, set_pending (m_pending s ++ [ABye bye]) (set_closing reason s)) /\
     exists s', bye_handler bye (gracefullClose reason s).2 = (Ok (if m_stopped s then [] else s_closed s), s')
                /\ m_stopped s' = true).
Proof.
  unfold gracefullClose, outQueueEmpty. run_m. split_and!.
  - by intros ->.
  - intros -> Hq. simpl. by rewrite bool_decide_eq_false_2.
  - intros bye -> Hq Hb. simpl. rewrite bool_decide_eq_true_2 by done.
    unfold sendByeAndClose, async. run_m. rewrite Hb. simpl. split; [done|].
    unfold bye_handler, complete, stop, shutdown. run_m.
    destruct (m_stopped s) eqn:Hs; simpl; [|rewrite Hs]; by eexists.
Qed.
End Session_props.

(** ** Witnesses *)

Section Session_witnesses.
#[local] Instance ss_liver : Platform tree := demo "liver" "userver".

Definition ds : session tree := session_init incoming "10.0.0.2" EmptyString.
Definition ds_msg : Msg tree := Msg_out (mkAddr "uecho" "pingutv") "ping" ping_body.
Definition ds_raw : string :=
  match charvec ds_msg with Ok raw => raw | _ => EmptyString end.
Definition ds_put : session tree := (putOutQueue 0 ds_msg ds).2.

Lemma ds_charvec : charvec ds_msg = Ok ds_raw.
Proof. vm_compute. reflexivity. Qed.

Lemma deleteOld_spec_witness :
  deleteOld (seconds 61) (set_outQueue [mkQueuedMsg "a" remote 0;
      mkQueuedMsg "b" remote (seconds 5)] (set_msg1 (Some ds_msg) ds))
  = (Ok tt, set_outQueue [mkQueuedMsg "b" remote (seconds 5)] (set_msg1 (Some ds_msg) ds)).
Proof.
  apply (deleteOld_spec (seconds 61) (set_outQueue [mkQueuedMsg "a" remote 0;
      mkQueuedMsg "b" remote (seconds 5)] (set_msg1 (Some ds_msg) ds))).
  - repeat constructor. vm_compute. discriminate.
  - right. reflexivity.
Defined.

Lemma one_write_in_flight_witness :
  exists front rest, m_outQueue ds_put = front :: rest /\
    writes ds_put = [AWrite (m_rawmsg front)].
Proof.
  destruct (one_write_in_flight incoming "10.0.0.2" EmptyString (0%Z, ds_put)) as [H|H].
  - apply rtc_once. split; [|vm_compute; reflexivity].
    apply (w_put 0 ds_msg). vm_compute. reflexivity.
  - vm_compute in H. discriminate.
  - exact H.
Defined.

Definition ds_stalled : session tree :=
  (write_handler 1 ds_raw false (putOutQueue 0 ds_msg ds_put).2).2.

Lemma second_message_stalls_witness :
  exists s1 s2 s3,
    putOutQueue 0 ds_msg ds = (Ok tt, s1) /\ putOutQueue 0 ds_msg s1 = (Ok tt, s2) /\
    write_handler 1 ds_raw false s2 = (Ok [], s3) /\
    m_outQueue s3 = [mkQueuedMsg ds_raw (destType ds_msg) 0] /\ stalled s3.
Proof.
  apply (second_message_stalls 0 1 ds_msg ds_msg ds_raw ds_raw ds);
    [reflexivity..|apply ds_charvec|apply ds_charvec|vm_compute; discriminate].
Defined.

Lemma stalled_forever_witness :
  m_pending (gracefullClose "bye" ds_stalled).2 = m_pending ds_stalled.
Proof.
  apply (stalled_forever 1 ds_stalled (1%Z, (gracefullClose "bye" ds_stalled).2)).
  - split; [vm_compute; discriminate|vm_compute; reflexivity].
  - apply rtc_once. apply (w_close 1 "bye"). vm_compute. reflexivity.
Defined.
End Session_witnesses.
