(* ===== verification/OutQueue.v ===== *)
(** * OutQueue: the output side of a session refines a lossy queue

    The specification is a queue that accepts messages at one end, emits them
    at the other and may lose the one in front: [fifo].  The program is a
    session to which messages are put, which takes over the queues of other
    sessions, whose writes complete and which is asked to close, with the
    texts it was given and the buffers it gave to the socket as history. *)
From S2P Require Import Prelude Effects AccuLine Priority PTree UConfig Addr Demo Msg.
From S2P Require Import InputProcessor Session.

(** ** The specification *)

Record fifo := mkFifo {
  f_accepted : list string;   (* everything ever accepted *)
  f_emitted : list string;    (* everything ever emitted *)
  f_waiting : list string;
}.

Inductive fifo_step : relation fifo :=
  | fifo_accept x a e w : fifo_step (mkFifo a e w) (mkFifo (a ++ [x]) e (w ++ [x]))
  | fifo_emit x a e w : fifo_step (mkFifo a e (x :: w)) (mkFifo a (e ++ [x]) w)
  | fifo_lose x a e w : fifo_step (mkFifo a e (x :: w)) (mkFifo a e w).

Definition fifo_init : fifo := mkFifo [] [] [].

(** ** The program with its history *)

Definition buffer (op : async_op) : list string :=
  match op with AWrite buf => [buf] | _ => [] end.

(** The buffers of the writes that [s'] has in flight on top of those of [s]. *)
Definition started {T} (s s' : session T) : list string :=
  drop (length (writes s)) (writes s') ≫= buffer.

(** What is in the queue and not in flight. *)
Definition waiting {T} (s : session T) : list string :=
  m_rawmsg <$> (if decide (writes s = []) then m_outQueue s else drop 1 (m_outQueue s)).

Inductive history {T} {PL : Platform T} (s0 : session T) :
    list string -> list string -> Z * session T -> Prop :=
  | h_init now : history s0 [] [] (now, s0)
  | h_clock puts outs now now' s :
      history s0 puts outs (now, s) -> (now <= now')%Z -> history s0 puts outs (now', s)
  | h_put puts outs now msg raw s s' :
      history s0 puts outs (now, s) -> charvec msg = Ok raw ->
      putOutQueue now msg s = (Ok tt, s') ->
      history s0 (puts ++ [raw]) (outs ++ started s s') (now, s')
  | h_take puts outs now oq s s' :
      history s0 puts outs (now, s) ->
      takeOverMessages now (s, oq) = (Ok tt, (s', [])) ->
      history s0 (puts ++ (m_rawmsg <$> oq)) (outs ++ started s s') (now, s')
  | h_written puts outs now buf slots s s' :
      history s0 puts outs (now, s) -> AWrite buf ∈ m_pending s ->
      write_handler now buf false s = (Ok slots, s') ->
      history s0 puts (outs ++ started s s') (now, s')
  | h_close puts outs now reason s s' :
      history s0 puts outs (now, s) -> gracefullClose reason s = (Ok tt, s') ->
      history s0 puts (outs ++ started s s') (now, s').

(** ** Lemmas *)

Section Fifo_lemmas.
Implicit Types (q d : list string).

Lemma fifo_accept_all q a e w : rtc fifo_step (mkFifo a e w) (mkFifo (a ++ q) e (w ++ q)).
Proof.
  revert a w; induction q as [|x q IH]; intros a w; [by rewrite !app_nil_r|].
  eapply rtc_l; [apply (fifo_accept x)|]. specialize (IH (a ++ [x]) (w ++ [x])).
  by rewrite <-!app_assoc in IH.
Qed.

Lemma fifo_lose_all d a e w : rtc fifo_step (mkFifo a e (d ++ w)) (mkFifo a e w).
Proof. induction d as [|x d IH]; [done|]. eapply rtc_l; [apply fifo_lose|exact IH]. Qed.

(** The specification: what is emitted, then what waits, is what was accepted,
    in order and once each, less what was lost. *)
Lemma fifo_in_order f :
  rtc fifo_step fifo_init f -> f_emitted f ++ f_waiting f `sublist_of` f_accepted f.
Proof.
  apply (rtc_ind_r (fun f => f_emitted f ++ f_waiting f `sublist_of` f_accepted f));
    [apply sublist_nil_l|].
  intros ? ? _ [x a e w|x a e w|x a e w]; cbn [f_accepted f_emitted f_waiting]; intros H.
  - rewrite app_assoc. by apply sublist_app.
  - by rewrite <-app_assoc.
  - etrans; [|exact H]. apply sublist_app; [done|]. by apply sublist_cons.
Qed.
End Fifo_lemmas.

Section OutQueue_lemmas.
Context {T : Type} {PL : Platform T}.
Implicit Types (s : session T).

Lemma writes_pending s s1 ops :
  writes (set_pending (m_pending s ++ ops) s1) = writes s ++ filter is_write ops.
Proof. unfold writes. simpl. apply filter_app. Qed.

(** At most one write is in flight, that of the message in front. *)
Definition front_write s : Prop :=
  writes s = [] \/
  exists front rest, m_outQueue s = front :: rest /\ writes s = [AWrite (m_rawmsg front)].

Lemma front_write_nil s : front_write s -> m_outQueue s = [] -> writes s = [].
Proof. intros [Hw|(f & r & Hf & _)] Hq; congruence. Qed.

Lemma waiting_eq s s' :
  m_outQueue s' = m_outQueue s -> writes s' = writes s ->
  waiting s' = waiting s /\ started s s' = [] /\ (front_write s -> front_write s').
Proof.
  intros Hq Hw. unfold waiting, started, front_write. rewrite Hq, Hw.
  split_and!; [done| |done]. by rewrite drop_all.
Qed.

(** The queue grows at its end while its front does not change. *)
Lemma waiting_app q s s' :
  front_write s -> m_outQueue s <> [] ->
  m_outQueue s' = m_outQueue s ++ q -> writes s' = writes s ->
  waiting s' = waiting s ++ (m_rawmsg <$> q) /\ started s s' = [] /\ front_write s'.
Proof.
  intros Hf Hne Hq Hw. unfold waiting, started, front_write. rewrite Hq, Hw.
  rewrite drop_all. unfold front_write in Hf. destruct (m_outQueue s) as [|m r]; [done|].
  split_and!; [|done|].
  - rewrite <-fmap_app. by destruct (decide _).
  - destruct Hf as [Hf|(f & r' & Hfr & Hf)]; [by left|right]. injection Hfr as -> ->.
    by exists f, (r' ++ q).
Qed.

(** A write of the message in front is started. *)
Lemma waiting_write q s s' :
  writes s = [] -> writes s' = [AWrite (m_rawmsg q)] ->
  forall r, m_outQueue s' = q :: r ->
  waiting s' = m_rawmsg <$> r /\ started s s' = [m_rawmsg q] /\ front_write s'.
Proof.
  intros Hw Hw' r Hq. unfold waiting, started, front_write. rewrite Hw, Hw', Hq.
  rewrite decide_False by done. split_and!; [done|done|right]. by exists q, r.
Qed.

Lemma do_write_eq now s :
  do_write now s =
  let q := (drop_old now (m_outQueue s)).2 in
  if ((0 <? (drop_old now (m_outQueue s)).1)%nat && negb (authenticated s))
  then (Undefined, set_outQueue q s)
  else (Ok tt, match q with
               | [] => set_outQueue q s
               | front :: _ => set_pending (m_pending s ++ [AWrite (m_rawmsg front)])
                                 (set_outQueue q s)
               end).
Proof.
  unfold do_write, bind at 1. rewrite deleteOld_eq.
  destruct (_ && _); [done|]. unfold async. run_m. simpl.
  by destruct (drop_old now (m_outQueue s)).2.
Qed.

(** A transition of the session is one of the specification that accepts
    [P], emits what was started and may lose something. *)
Definition simulated P s s' : Prop :=
  front_write s' /\
  forall a e, rtc fifo_step (mkFifo a e (waiting s))
                (mkFifo (a ++ P) (e ++ started s s') (waiting s')).

Lemma simulated_same s s' :
  front_write s -> m_outQueue s' = m_outQueue s -> writes s' = writes s -> simulated [] s s'.
Proof.
  intros Hf Hq Hw. destruct (waiting_eq s s' Hq Hw) as (Hwa & Hst & Hf').
  split; [by apply Hf'|]. intros a e. by rewrite Hwa, Hst, !app_nil_r.
Qed.

Lemma simulated_app q s s' :
  front_write s -> m_outQueue s <> [] ->
  m_outQueue s' = m_outQueue s ++ q -> writes s' = writes s ->
  simulated (m_rawmsg <$> q) s s'.
Proof.
  intros Hf Hne Hq Hw. destruct (waiting_app q s s' Hf Hne Hq Hw) as (Hwa & Hst & Hf').
  split; [done|]. intros a e. rewrite Hwa, Hst, app_nil_r. apply fifo_accept_all.
Qed.

(** Messages come to an idle session, and the first fresh one is written. *)
Lemma simulated_write d q s s' :
  writes s = [] -> m_outQueue s = [] -> m_outQueue s' = q ->
  writes s' = match q with [] => [] | m :: _ => [AWrite (m_rawmsg m)] end ->
  simulated (m_rawmsg <$> (d ++ q)) s s'.
Proof.
  intros Hw Hq Hq' Hw'. unfold simulated.
  assert (waiting s = []) as -> by (unfold waiting; rewrite Hw, Hq; done).
  assert (forall a e, rtc fifo_step (mkFifo a e [])
            (mkFifo (a ++ (m_rawmsg <$> d ++ q)) e (m_rawmsg <$> q))) as Hacc.
  { intros a e. etrans; [apply (fifo_accept_all (m_rawmsg <$> d ++ q))|].
    rewrite app_nil_l. rewrite (fmap_app _ d q) at 2. apply fifo_lose_all. }
  destruct q as [|m r].
  - unfold waiting, started. rewrite Hw', Hq'. split; [by left|].
    intros a e. rewrite drop_nil. cbn [mbind list_bind]. rewrite (app_nil_r e). apply Hacc.
  - destruct (waiting_write m s s' Hw Hw' r Hq') as (-> & -> & Hf). split; [done|].
    intros a e. eapply rtc_r; [apply Hacc|]. apply fifo_emit.
Qed.

Lemma simulated_put now msg raw s s' :
  front_write s -> charvec msg = Ok raw -> putOutQueue now msg s = (Ok tt, s') ->
  simulated [raw] s s'.
Proof.
  intros Hf Hraw Hput. rewrite (putOutQueue_ok _ _ _ _ Hraw) in Hput.
  injection Hput as <-. unfold outQueueEmpty. case_bool_decide as Hq.
  - pose proof (front_write_nil _ Hf Hq) as Hw.
    apply (simulated_write [] [mkQueuedMsg raw (destType msg) now]); try done.
    by rewrite writes_pending, Hw.
  - by apply (simulated_app [mkQueuedMsg raw (destType msg) now]).
Qed.

Lemma simulated_take now oq s s' :
  front_write s -> takeOverMessages now (s, oq) = (Ok tt, (s', [])) ->
  simulated (m_rawmsg <$> oq) s s'.
Proof.
  intros Hf Ht.
  destruct (Forall_Exists_dec (fun m => m_dt m <> service) (fun m => m_dt m = service)
    (fun m => swap_if (decide (m_dt m = service))) oq) as [Hoq|Hoq].
  2:{ pose proof (takeOverMessages_stuck now s oq Hoq) as Hd. by rewrite Ht in Hd. }
  rewrite takeOverMessages_moves in Ht by done.
  destruct oq as [|m oq].
  - injection Ht as <-. rewrite app_nil_r, set_outQueue_same.
    by apply simulated_same.
  - rewrite (bool_decide_eq_true_2 (m :: oq <> [])) in Ht by done.
    case_bool_decide as Hq; simpl in Ht.
    + pose proof (front_write_nil _ Hf Hq) as Hw. revert Ht. unfold zoom.
      destruct (drop_old_suffix now (m :: oq)) as (d & Hd & _).
      rewrite Hq, do_write_eq. cbn [m_outQueue set_outQueue app fst snd].
      destruct (drop_old now (m :: oq)) as [n q]. cbn [fst snd] in *.
      destruct (_ && _); [done|]. intros [= <-]. rewrite Hd.
      apply simulated_write; destruct q as [|x r]; try done.
      by rewrite writes_pending, Hw.
    + injection Ht as <-. by apply simulated_app.
Qed.

Lemma simulated_written now buf slots s s' :
  front_write s -> AWrite buf ∈ m_pending s ->
  write_handler now buf false s = (Ok slots, s') -> simulated [] s s'.
Proof.
  intros Hf Hin Hwr.
  assert (AWrite buf ∈ writes s) as Hb by (by apply list_elem_of_filter).
  destruct Hf as [Hf|(m & q & Hq & Hw)]; [rewrite Hf in Hb; by apply elem_of_nil in Hb|].
  assert (m_outQueue s' = (drop_old now q).2 /\ writes s' = []) as [Hq' Hw'].
  { revert Hwr. unfold write_handler, complete. run_m. rewrite Hq, deleteOld_eq. simpl.
    destruct (_ && _); [done|]. unfold writes in *.
    destruct (m_closeFlag s); simpl; [unfold sendByeAndClose, async; run_m|].
    - destruct (move_tostr _).1; simpl; try discriminate. intros [= _ <-].
      simpl. rewrite filter_app, remove_op_write, Hw in *.
      apply list_elem_of_singleton in Hb as ->. simpl. by rewrite decide_True.
    - intros [= _ <-]. simpl. rewrite remove_op_write, Hw in *.
      apply list_elem_of_singleton in Hb as ->. simpl. by rewrite decide_True. }
  destruct (drop_old_suffix now q) as (d & Hd & _).
  unfold simulated, waiting, started. rewrite Hq', Hw, Hw', Hq. split; [by left|].
  intros a e. rewrite !app_nil_r.
  replace (m_rawmsg <$> (if decide _ then _ else drop 1 (m :: q)))
    with ((m_rawmsg <$> d) ++ (m_rawmsg <$> (drop_old now q).2)); [apply fifo_lose_all|].
  by rewrite <-fmap_app, <-Hd.
Qed.

Lemma simulated_close reason s s' :
  front_write s -> gracefullClose reason s = (Ok tt, s') -> simulated [] s s'.
Proof.
  intros Hf Hc. assert (m_outQueue s' = m_outQueue s /\ writes s' = writes s) as [??];
    [|by apply simulated_same].
  revert Hc. unfold gracefullClose. run_m. destruct (m_closeFlag s); [by intros [= <-]|].
  destruct (outQueueEmpty _); [|by intros [= <-]].
  unfold sendByeAndClose, async. run_m.
  destruct (move_tostr _).1; simpl; try discriminate. intros [= <-]. split; [done|].
  unfold writes. simpl. by rewrite filter_app, app_nil_r.
Qed.
End OutQueue_lemmas.

(** ** Properties *)

Section OutQueue_props.
Context {T : Type} {PL : Platform T}.

Lemma history_ok s0 puts outs (st : Z * session T) :
  m_outQueue s0 = [] -> writes s0 = [] -> history s0 puts outs st ->
  front_write st.2 /\ rtc fifo_step fifo_init (mkFifo puts outs (waiting st.2)).
Proof.
  intros Hq Hw Hh.
  assert (forall P puts outs (s s' : session T), front_write s /\ rtc fifo_step fifo_init (mkFifo puts outs (waiting s)) ->
    (front_write s -> simulated P s s') ->
    front_write s' /\ rtc fifo_step fifo_init (mkFifo (puts ++ P) (outs ++ started s s') (waiting s')))
    as Hstep.
  { intros P p o s s' [Hf Hr] Hs. destruct (Hs Hf) as [Hf' Hr']. split; [done|]. by etrans. }
  induction Hh as [now|puts outs now now' s Hh IH Hn|puts outs now msg raw s s' Hh IH Hraw Hput
    |puts outs now oq s s' Hh IH Ht|puts outs now buf slots s s' Hh IH Hin Hwr
    |puts outs now reason s s' Hh IH Hc]; simpl in *.
  - split; [by left|]. unfold waiting. by rewrite Hw, Hq.
  - done.
  - eapply Hstep; [exact IH|]. intros Hf. by eapply simulated_put.
  - eapply Hstep; [exact IH|]. intros Hf. by eapply simulated_take.
  - rewrite <-(app_nil_r puts). eapply Hstep; [exact IH|]. intros Hf. by eapply simulated_written.
  - rewrite <-(app_nil_r puts). eapply Hstep; [exact IH|]. intros Hf. by eapply simulated_close.
Qed.

(** C35: The output side of a session that starts with nothing queued or in
    flight refines a queue that may lose its front: whatever messages that
    can be written are put, queues are taken over by calls that return,
    writes complete without an error and closings are asked for, there is a
    run of that queue with the same accepted messages, the buffers of the
    started writes as emitted ones and the rest of the session's queue as
    waiting; so what was written, then what waits, is a subsequence of what
    was put, in order and never twice. *)
Theorem session_refines_fifo s0 puts outs (st : Z * session T) :
  m_outQueue s0 = [] -> writes s0 = [] -> history s0 puts outs st ->
  rtc fifo_step fifo_init (mkFifo puts outs (waiting st.2)) /\
  outs ++ waiting st.2 `sublist_of` puts.
Proof.
  intros Hq Hw Hh. destruct (history_ok _ _ _ _ Hq Hw Hh) as [_ Hr].
  split; [exact Hr|]. exact (fifo_in_order _ Hr).
Qed.
End OutQueue_props.

(** ** Witnesses *)

Section OutQueue_witnesses.
#[local] Instance oq_liver : Platform tree := demo "liver" "userver".

(** Two messages are put, the write of the first one completes. *)
Lemma session_refines_fifo_witness :
  rtc fifo_step fifo_init (mkFifo [ds_raw; ds_raw] [ds_raw] [ds_raw]).
Proof.
  set (s2 := (putOutQueue 0 ds_msg ds_put).2).
  set (s3 := (write_handler 1 ds_raw false s2).2).
  assert (history ds [ds_raw; ds_raw] [ds_raw] (1%Z, s3)) as Hh.
  { apply (h_written ds [ds_raw; ds_raw] [ds_raw] 1 ds_raw [] s2 s3);
      [|vm_compute; left|vm_compute; reflexivity].
    apply (h_clock _ _ _ 0); [|done].
    apply (h_put ds [ds_raw] [ds_raw] 0 ds_msg ds_raw ds_put s2); [|vm_compute; reflexivity..].
    apply (h_put ds [] [] 0 ds_msg ds_raw ds ds_put); [constructor|vm_compute; reflexivity..]. }
  exact (proj1 (session_refines_fifo ds _ _ (1%Z, s3) eq_refl eq_refl Hh)).
Defined.
End OutQueue_witnesses.
