(* ===== verification/SessionSafe.v ===== *)
(** * SessionSafe: the methods of a session do not run into undefined behaviour

    What a session must satisfy so that none of its methods does: the shape
    of its pending operations and of its queue, and how they change.  The
    server's part is in [ServerSafe]. *)
From S2P Require Import Prelude Effects BetterEnum Priority AccuLine PTree UConfig.
From S2P Require Import Addr Demo Msg InputProcessor Session OutQueue.

Section Safe.
Context {T : Type} {PL : Platform T}.
Implicit Types (s : session T).

(** A session that is not authenticated has queued its greeting at most; one
    that is being connected has done nothing yet; its slots satisfy [N]. *)
Record sess_sound (N : closed_slot -> Prop) s : Prop := {
  so_quiet : m_msg1 s = None -> length (m_outQueue s) <= 1;
  so_connect : AConnect ∈ m_pending s ->
    m_pending s = [AConnect] /\ m_outQueue s = [] /\ m_msg1 s = None;
  so_slots : Forall N (s_closed s);
}.

(** What no method of the session undoes. *)
Record sess_grows s s' : Prop := {
  sg_msg1 : forall m, m_msg1 s = Some m -> m_msg1 s' = Some m;
  sg_connect : AConnect ∉ m_pending s -> AConnect ∉ m_pending s';
  sg_front : front_write s -> front_write s';
}.

#[export] Instance sess_grows_preorder : PreOrder sess_grows.
Proof.
  split; [by intros s; split|]. intros s1 s2 s3 [? ? ?] [? ? ?]. split; auto.
Qed.

(** The method is safe on the session, and leaves it well. *)
Definition method_safe {A} N (m : M (session T) A) s : Prop :=
  safe_at False (fun s' => sess_sound N s' /\ sess_grows s s') m s.

(** A completion handler, with the slots it leaves to run. *)
Definition handler_safe N (m : M (session T) (list closed_slot)) s : Prop :=
  method_safe N m s /\ forall slots s', m s = (Ok slots, s') -> Forall N slots.

(** The first message stays or is the first one. *)
Lemma sess_sound_move N s s' :
  sess_sound N s -> (m_msg1 s' = m_msg1 s \/ is_Some (m_msg1 s')) ->
  (m_msg1 s' = None -> length (m_outQueue s') <= 1) ->
  (AConnect ∉ m_pending s') -> s_closed s' = s_closed s -> sess_sound N s'.
Proof. intros [Hq Hc Hs] Hm Hq' Hc' Hs'. split; [done|done|by rewrite Hs']. Qed.

Lemma grows_move s s' :
  m_msg1 s' = m_msg1 s -> (AConnect ∉ m_pending s -> AConnect ∉ m_pending s') ->
  (front_write s -> front_write s') -> sess_grows s s'.
Proof. intros Hm Hc Hf. split; [by rewrite Hm|done|done]. Qed.

(** Only the parts of the session that do not matter here change. *)
Lemma still_safe N s s' :
  sess_sound N s -> m_msg1 s' = m_msg1 s -> m_outQueue s' = m_outQueue s ->
  m_pending s' = m_pending s -> s_closed s' = s_closed s -> sess_sound N s' /\ sess_grows s s'.
Proof.
  intros [Hq Hc Hs] H1 H2 H3 H4. split.
  - split; [by rewrite H1, H2|by rewrite H1, H2, H3|by rewrite H4].
  - apply grows_move; [done|by rewrite H3|]. unfold front_write, writes. by rewrite H2, H3.
Qed.

Lemma method_safe_read {A} N (f : session T -> A) s : sess_sound N s -> method_safe N (gets f) s.
Proof. intros Hs. by split. Qed.

(** An operation that is not a write of a message is started or completed. *)
Lemma pending_safe N s ops :
  sess_sound N s -> AConnect ∉ m_pending s -> AConnect ∉ ops -> filter is_write ops = [] ->
  let s' := set_pending (m_pending s ++ ops) s in sess_sound N s' /\ sess_grows s s'.
Proof.
  intros Hs Hc Hops Hw s'. assert (AConnect ∉ m_pending s') as Hc'.
  { simpl. rewrite elem_of_app. tauto. }
  split.
  - apply (sess_sound_move N s); try done; [by left|by apply Hs].
  - apply grows_move; [done|done|]. unfold front_write, s'. simpl.
    by rewrite writes_app, Hw, app_nil_r.
Qed.

Lemma complete_safe N s op :
  sess_sound N s -> op ∈ m_pending s -> is_write op = false ->
  let s' := (complete op s).2 in
  sess_sound N s' /\ sess_grows s s' /\ AConnect ∉ m_pending s'.
Proof.
  intros Hs Hin Hop s'. assert (AConnect ∉ m_pending s') as Hc'.
  { simpl. intros H. pose proof (remove_op_incl _ _ _ H) as H0.
    destruct (so_connect _ _ Hs H0) as [Hp _]. rewrite Hp in *.
    apply list_elem_of_singleton in Hin as ->. simpl in H. by apply elem_of_nil in H. }
  split_and!; [|apply grows_move|]; try done.
  - apply (sess_sound_move N s); try done; [by left|by apply Hs].
  - assert (writes s' = writes s) as Hw; [|unfold front_write; by rewrite Hw].
    unfold writes, s', complete, modify. simpl. clear -Hop.
    induction (m_pending s) as [|x l IH]; simpl; [done|].
    destruct (decide (x = op)) as [->|Hx].
    + by rewrite filter_cons_False by (rewrite Hop; by intros []).
    + destruct (is_write x) eqn:Hw.
      * rewrite !filter_cons_True by (by rewrite Hw). by f_equal.
      * by rewrite !filter_cons_False by (rewrite Hw; by intros []).
Qed.

(** ** The methods *)

Lemma charvec_harmless (msg : Msg T) : harmless (charvec msg).
Proof.
  unfold charvec, str. destruct (m_body msg), (write_json (m_header msg)); try done.
  by destruct (write_json _).
Qed.

Lemma move_tostr_harmless (msg : Msg T) : harmless (move_tostr msg).1.
Proof.
  unfold move_tostr. destruct (m_body msg); simpl; [apply charvec_harmless|].
  by destruct (write_json _).
Qed.

(** A message is put to an authenticated session, or to one with nothing to
    write. *)
Lemma putOutQueue_safe N now msg s :
  sess_sound N s -> AConnect ∉ m_pending s -> is_Some (m_msg1 s) \/ m_outQueue s = [] ->
  method_safe N (putOutQueue now msg) s.
Proof.
  intros Hs Hc Hm. unfold method_safe, safe_at.
  pose proof (charvec_harmless msg) as Hh.
  destruct (charvec msg) as [raw|e| |] eqn:Hraw; try done.
  - destruct (putOutQueue now msg s) as [o s'] eqn:E. pose proof E as E'.
    rewrite (putOutQueue_ok _ _ _ _ Hraw) in E'. injection E' as <- Hs'.
    assert (AConnect ∉ m_pending s') as Hc'.
    { subst s'. destruct (outQueueEmpty s); simpl; rewrite ?elem_of_app; set_solver. }
    split.
    + apply (sess_sound_move N s); try done; subst s'; destruct (outQueueEmpty s) eqn:He; simpl; auto.
      intros Hn. destruct Hm as [Hm|Hm]; [rewrite Hn in Hm; by destruct Hm|].
      unfold outQueueEmpty in He. by rewrite bool_decide_eq_true_2 in He.
    + apply grows_move; [subst s'; by destruct (outQueueEmpty s)|done|].
      intros Hf. by apply (simulated_put now msg raw s s' Hf Hraw E).
  - unfold putOutQueue, QueuedMsg_of. run_m. rewrite Hraw. simpl. by split.
Qed.

(** Taking over empties the other queue, or, with a service message in it,
    does not end. *)
Lemma takeOverMessages_safe N now oq s :
  sess_sound N s -> is_Some (m_msg1 s) ->
  (Exists (fun m => m_dt m = service) oq /\ (takeOverMessages now (s, oq)).1 = Diverges) \/
  exists s', takeOverMessages now (s, oq) = (Ok tt, (s', [])) /\ sess_sound N s' /\ sess_grows s s'.
Proof.
  intros Hs Hm.
  destruct (Forall_Exists_dec (fun m => m_dt m <> service) (fun m => m_dt m = service)
    (fun m => swap_if (decide (m_dt m = service))) oq) as [Hoq|Hoq];
    [right|left; split; [done|by apply takeOverMessages_stuck]].
  assert (AConnect ∉ m_pending s) as Hc.
  { intros Hc. destruct (so_connect _ _ Hs Hc) as (_ & _ & Hn). rewrite Hn in Hm. by destruct Hm. }
  assert (authenticated s = true) as Hau by (unfold authenticated; by apply bool_decide_eq_true_2).
  assert (exists s', takeOverMessages now (s, oq) = (Ok tt, (s', [])) /\ m_msg1 s' = m_msg1 s /\
    AConnect ∉ m_pending s' /\ s_closed s' = s_closed s) as (s' & E & H1 & H2 & H3).
  { rewrite takeOverMessages_moves by done. destruct (_ && _); [|by eexists].
    unfold when, zoom. simpl. rewrite do_write_eq. simpl. rewrite andb_false_intro2
      by (unfold authenticated in *; simpl; by rewrite Hau). eexists. split; [done|].
    destruct (drop_old _ _).2; simpl; [done|]. by rewrite elem_of_app; set_solver. }
  exists s'. split; [done|]. split.
  - apply (sess_sound_move N s); [done|by left| |done|done].
    rewrite H1. intros Hn. rewrite Hn in Hm. by destruct Hm.
  - apply grows_move; [done|done|]. intros Hf. by apply (simulated_take now oq s s').
Qed.

Lemma sendByeAndClose_safe N s :
  sess_sound N s -> AConnect ∉ m_pending s -> method_safe N sendByeAndClose s.
Proof.
  intros Hs Hc. unfold method_safe, safe_at, sendByeAndClose, async. run_m.
  pose proof (move_tostr_harmless (Msg_out Addr_default "bye"
    (pt_add "bye" (m_reason s) pt_empty))) as Hd.
  destruct (move_tostr _).1 as [bye|e| |]; try done.
  by apply pending_safe; [| |set_solver|].
Qed.

Lemma when_safe N b (m : M (session T) unit) s :
  sess_sound N s -> (b = true -> method_safe N m s) -> method_safe N (when b m) s.
Proof. intros Hs Hm. destruct b; [by apply Hm|by split]. Qed.

Lemma gracefullClose_safe N reason s :
  sess_sound N s -> AConnect ∉ m_pending s -> method_safe N (gracefullClose reason) s.
Proof.
  intros Hs Hc. unfold method_safe, gracefullClose. eapply safe_at_ok; [done|].
  destruct (m_closeFlag s); [by apply still_safe|].
  set (s1 := set_closing reason s).
  assert (sess_sound N s1 /\ sess_grows s s1) as [Hs1 Hg1] by (by apply still_safe).
  eapply (safe_at_ok _ _ _ _ _ tt s1); [done|]. eapply safe_at_ok; [done|].
  eapply (safe_at_weaken False _ (fun s' => sess_sound N s' /\ sess_grows s1 s')); [done| |].
  - intros s' [H1 H2]. split; [done|by etrans].
  - apply (when_safe N _ _ s1); [done|]. intros _. by apply sendByeAndClose_safe.
Qed.

Lemma stop_safe N s : sess_sound N s -> handler_safe N stop s.
Proof.
  intros Hs. unfold handler_safe, method_safe, safe_at, stop, shutdown. run_m.
  destruct (m_stopped s) eqn:Hst; simpl; [|rewrite Hst; simpl].
  - split; [by apply still_safe|]. by intros ? ? [= <- _].
  - split; [by apply still_safe|]. intros ? ? [= <- _]. apply Hs.
Qed.

Lemma op_no_connect N s op :
  sess_sound N s -> op ∈ m_pending s -> op <> AConnect -> AConnect ∉ m_pending s.
Proof.
  intros Hs Hop Hne Hc. destruct (so_connect _ _ Hs Hc) as [Hp _]. rewrite Hp in Hop.
  by apply list_elem_of_singleton in Hop.
Qed.

(** A completion handler begins by taking the operation off the pending ones. *)
Lemma handler_after N op (m : M (session T) (list closed_slot)) s :
  sess_sound N (complete op s).2 -> sess_grows s (complete op s).2 ->
  handler_safe N m (complete op s).2 -> handler_safe N (complete op ;; m) s.
Proof.
  intros H1 H2 [H3 H4]. split; [|exact H4].
  eapply safe_at_ok; [done|]. eapply safe_at_weaken; [exact id| |exact H3].
  intros s' [??]. split; [done|by etrans].
Qed.

Lemma bye_handler_safe N buf s :
  sess_sound N s -> ABye buf ∈ m_pending s -> handler_safe N (bye_handler buf) s.
Proof.
  intros Hs Hop. destruct (complete_safe _ _ _ Hs Hop eq_refl) as (H1 & H2 & _).
  apply handler_after; try done. by apply stop_safe.
Qed.

Lemma start_safe N now s :
  sess_sound N s -> AConnect ∉ m_pending s -> m_outQueue s = [] ->
  method_safe N (Session.start now) s.
Proof.
  intros Hs Hc Hq. apply safe_at_bind.
  { apply putOutQueue_safe; auto. }
  intros [] s1 _ [H1 H2]. unfold safe_at, do_read, async, modify.
  destruct (pending_safe N s1 [ARead] H1) as [H3 H4];
    [by apply (sg_connect _ _ H2)|set_solver|done|].
  split; [done|by etrans].
Qed.

Lemma handler_then_nil N (m : M (session T) unit) s :
  method_safe N m s -> handler_safe N (m ;; ret []) s.
Proof.
  unfold handler_safe, method_safe, safe_at, bind.
  destruct (m s) as [[a|e| |] s1]; intros H; split; try done. by intros ? ? [= <- _].
Qed.

Lemma connectHandler_safe N now ec s :
  sess_sound N s -> AConnect ∈ m_pending s -> handler_safe N (connectHandler now ec) s.
Proof.
  intros Hs Hop. destruct (so_connect _ _ Hs Hop) as (_ & Hq & _).
  destruct (complete_safe _ _ _ Hs Hop eq_refl) as (H1 & H2 & H3).
  apply handler_after; try done. destruct ec; [by apply stop_safe|].
  by apply handler_then_nil, start_safe.
Qed.

Lemma authenticate_safe N msg s :
  sess_sound N s -> m_msg1 s = None -> AConnect ∉ m_pending s ->
  method_safe N (authenticate msg) s.
Proof.
  intros Hs Hn Hc. unfold method_safe, safe_at.
  assert (exists b, authenticate msg s = (Ok b, s) \/
            authenticate msg s = (Ok b, set_msg1 (Some msg) s)) as (b & [-> | ->]).
  { unfold authenticate. repeat case_match; eexists; by (left + right). }
  - by split.
  - split; [|by split; [rewrite Hn| |]].
    destruct Hs as [Hq Hcc Hsl]. by split.
Qed.

Lemma connect_closed_safe N slot s :
  sess_sound N s -> N slot -> method_safe N (modify (connect_closed slot)) s.
Proof.
  intros [Hq Hc Hs] Hn. split; [|by split]. split; [done|done|].
  simpl. by apply Forall_app; split; [|apply Forall_singleton].
Qed.

(** *** The completion of a write *)

Lemma written_writes buf s :
  front_write s -> AWrite buf ∈ m_pending s -> writes (complete (AWrite buf) s).2 = [].
Proof.
  intros Hf Hin. assert (AWrite buf ∈ writes s) as Hb by (by apply list_elem_of_filter).
  unfold writes in *. simpl. rewrite remove_op_write.
  destruct Hf as [Hf|(m & q & _ & Hw)]; unfold writes in *; [by rewrite Hf in *; apply elem_of_nil in Hb|].
  rewrite Hw in *. apply list_elem_of_singleton in Hb as ->. simpl. by rewrite decide_True.
Qed.

Lemma written_safe N buf q s :
  sess_sound N s -> AWrite buf ∈ m_pending s ->
  length q <= length (m_outQueue s) ->
  let s' := set_outQueue q (complete (AWrite buf) s).2 in
  sess_sound N s' /\ sess_grows s s' /\ AConnect ∉ m_pending s'.
Proof.
  intros Hs Hop Hq s'. pose proof (op_no_connect _ _ _ Hs Hop ltac:(done)) as Hc.
  assert (AConnect ∉ m_pending s') as Hc'.
  { simpl. intros H. by apply remove_op_incl in H. }
  split_and!; [|apply grows_move|]; try done.
  - apply (sess_sound_move N s); try done; [by left|]. intros Hn. simpl.
    pose proof (so_quiet _ _ Hs Hn). lia.
  - intros Hf. left. by apply (written_writes buf s).
Qed.

Lemma write_handler_eq now buf m q s :
  m_outQueue s = m :: q ->
  let s' := set_outQueue (drop_old now q).2 (complete (AWrite buf) s).2 in
  write_handler now buf false s =
  if ((0 <? (drop_old now q).1)%nat && negb (authenticated s)) then (Undefined, s')
  else (when (m_closeFlag s) sendByeAndClose ;; ret []) s'.
Proof.
  intros Hq s'. unfold write_handler, bind at 1 2, gets at 1. simpl. rewrite Hq.
  unfold bind at 1, modify. unfold bind at 1. rewrite deleteOld_eq. simpl.
  by destruct (_ && _).
Qed.

(** The front of an empty queue cannot be taken off: the one condition under
    which the completion of a write is not safe. *)
Lemma write_handler_safe N now buf ec s :
  sess_sound N s -> AWrite buf ∈ m_pending s -> ec = true \/ m_outQueue s <> [] ->
  handler_safe N (write_handler now buf ec) s.
Proof.
  intros Hs Hop Hec. destruct ec; [|destruct Hec as [?|Hq]; [done|]].
  { destruct (written_safe N buf (m_outQueue s) s Hs Hop ltac:(lia)) as (H1 & H2 & _).
    unfold write_handler. apply handler_after; [exact H1|exact H2|by apply stop_safe]. }
  destruct (m_outQueue s) as [|m q] eqn:Hmq; [done|].
  destruct (drop_old_suffix now q) as (d & Hd & Hl).
  assert (length q = length d + length (drop_old now q).2) as Hlen
    by (rewrite Hd at 1; by rewrite length_app).
  destruct (written_safe N buf (drop_old now q).2 s Hs Hop) as (H1 & H2 & H3).
  { rewrite Hmq. simpl. lia. }
  set (s' := set_outQueue _ _) in *.
  assert (handler_safe N (when (m_closeFlag s) sendByeAndClose ;; ret []) s') as [H4 H5].
  { apply handler_then_nil, when_safe; [done|]. intros _. by apply sendByeAndClose_safe. }
  unfold handler_safe, method_safe, safe_at. rewrite (write_handler_eq now buf m q s Hmq). cbv zeta.
  fold s'. destruct (_ && _) eqn:E.
  - apply andb_true_iff in E as [E1 E2]. apply Nat.ltb_lt in E1.
    apply negb_true_iff, bool_decide_eq_false in E2.
    assert (m_msg1 s = None) as Hn by (destruct (m_msg1 s); [by destruct E2|done]).
    pose proof (so_quiet _ _ Hs Hn) as Hle. rewrite Hmq in Hle. simpl in Hle. lia.
  - split; [|exact H5]. eapply safe_at_weaken; [exact id| |exact H4].
    intros x [??]. split; [done|by etrans].
Qed.

(** With a write in flight of the message in front, there is one to take off. *)
Lemma front_write_queue buf s : front_write s -> AWrite buf ∈ m_pending s -> m_outQueue s <> [].
Proof.
  intros Hf Hin Hq. assert (AWrite buf ∈ writes s) as Hb by (by apply list_elem_of_filter).
  rewrite (front_write_nil _ Hf Hq) in Hb. by apply elem_of_nil in Hb.
Qed.
End Safe.
