(* ===== verification/Transport.v ===== *)
(** * Transport: from a session's queue to the peer's handlers

    The composition of [OutQueue] and [Stream]: messages are put to the
    queue of a session on one node, the buffers of its writes go over the
    network in blocks of any size, and the input processor of the session at
    the other end reads them.  What that session does with a message is not
    part of it: the consumer of the processor records each one, and never
    fails; and only messages are put whose text the other end reads back.
    The specification is a channel that may lose messages it still
    holds, and delivers the rest in order, each once. *)
From S2P Require Import Prelude Effects AccuLine Priority PTree UConfig Addr Demo Msg.
From S2P Require Import InputProcessor Stream Session OutQueue.

(** ** The specification *)

Record lossy (A : Type) := mkLossy {
  y_accepted : list A;
  y_delivered : list A;
  y_between : list A;
}.
Arguments mkLossy {A}.
Arguments y_accepted {A}.
Arguments y_delivered {A}.
Arguments y_between {A}.

Inductive lossy_step {A} : relation (lossy A) :=
  | lossy_accept x a d b : lossy_step (mkLossy a d b) (mkLossy (a ++ [x]) d (b ++ [x]))
  | lossy_lose x a d b1 b2 : lossy_step (mkLossy a d (b1 ++ x :: b2)) (mkLossy a d (b1 ++ b2))
  | lossy_deliver x a d b : lossy_step (mkLossy a d (x :: b)) (mkLossy a (d ++ [x]) b).

Definition lossy_init {A} : lossy A := mkLossy [] [] [].

(** ** The program: a session, the network and an input processor *)

(** A connection with what was put to it, as its reader takes it, and what
    its reader, the [InputProcessor] of the other end, has handed on. *)
Record link (T : Type) := mkLink {
  k_put : list (Msg T);
  k_now : Z;
  k_sender : session T;
  k_wire : string;                             (* sent and not yet arrived *)
  k_reader : InputProcessor T;
  k_log : list (Msg T);
  k_results : list (outcome bool);             (* of processNewInput *)
}.
Arguments mkLink {T}.
Arguments k_put {T}.
Arguments k_now {T}.
Arguments k_sender {T}.
Arguments k_wire {T}.
Arguments k_reader {T}.
Arguments k_log {T}.
Arguments k_results {T}.

(** The consumer appends to the log. *)
Definition deliver {T} (m : Msg T) : M (list (Msg T)) unit := modify (fun log => log ++ [m]).

(** A farewell has been started.  [sendByeAndClose] gives the socket the
    buffer of a string that is destroyed when it returns: which bytes the
    peer gets, and what follows them, is not defined. *)
Definition farewell {T} (s : session T) : bool :=
  existsb (fun op => match op with ABye _ => true | _ => false end) (m_pending s).

Section Link.
Context {T : Type}.
Variables (PA PB : Platform T).   (* the sender's and the reader's platform *)
Variable self : sid.              (* the reader's session *)

(** The text is one that the reader takes as the message [r]. *)
Definition readable (text : string) (r : Msg T) : Prop :=
  exists m, transmits (PL := PB) self m text r.

(** The bytes of the writes that have been started. *)
Definition sent (s s' : session T) : string := wire (started s s').

Inductive link_step : relation (link T) :=
  | link_clock puts now now' s bytes ip log rs :
      (now <= now')%Z ->
      link_step (mkLink puts now s bytes ip log rs) (mkLink puts now' s bytes ip log rs)
  | link_put puts now s bytes ip log rs msg raw r s' :
      farewell s = false -> charvec (PL := PA) msg = Ok raw -> readable raw r ->
      putOutQueue (PL := PA) now msg s = (Ok tt, s') ->
      link_step (mkLink puts now s bytes ip log rs)
        (mkLink (puts ++ [r]) now s' (bytes +:+ sent s s') ip log rs)
  | link_take puts now s bytes ip log rs oq reads s' :
      farewell s = false -> Forall2 (fun q => readable (m_rawmsg q)) oq reads ->
      takeOverMessages now (s, oq) = (Ok tt, (s', [])) ->
      link_step (mkLink puts now s bytes ip log rs)
        (mkLink (puts ++ reads) now s' (bytes +:+ sent s s') ip log rs)
  | link_written puts now s bytes ip log rs buf slots s' :
      farewell s = false -> AWrite buf ∈ m_pending s ->
      write_handler (PL := PA) now buf false s = (Ok slots, s') ->
      link_step (mkLink puts now s bytes ip log rs)
        (mkLink puts now s' (bytes +:+ sent s s') ip log rs)
  | link_close puts now s bytes ip log rs reason s' :
      farewell s = false -> gracefullClose (PL := PA) reason s = (Ok tt, s') ->
      link_step (mkLink puts now s bytes ip log rs)
        (mkLink puts now s' (bytes +:+ sent s s') ip log rs)
  | link_arrives puts now s block bytes ip log rs o ip' log' :
      processNewInput (PL := PB) deliver self block (ip, log) = (o, (ip', log')) ->
      link_step (mkLink puts now s (block +:+ bytes) ip log rs)
        (mkLink puts now s bytes ip' log' (rs ++ [o])).

Definition link_init (now : Z) (s : session T) : link T :=
  mkLink [] now s EmptyString IP_init [] [].
End Link.

(** ** Lemmas *)

Section Lossy_lemmas.
Context {A : Type}.
Implicit Types (a d b : list A).

Lemma lossy_deliver_all x a d b :
  rtc lossy_step (mkLossy a d (x ++ b)) (mkLossy a (d ++ x) b).
Proof.
  revert d; induction x as [|y x IH]; intros d; [by rewrite app_nil_r|].
  eapply rtc_l; [apply lossy_deliver|]. specialize (IH (d ++ [y])).
  by rewrite <-app_assoc in IH.
Qed.

(** The specification keeps the order and never delivers twice. *)
Lemma lossy_in_order (y : lossy A) :
  rtc lossy_step lossy_init y -> y_delivered y ++ y_between y `sublist_of` y_accepted y.
Proof.
  apply (rtc_ind_r (fun y => y_delivered y ++ y_between y `sublist_of` y_accepted y));
    [apply sublist_nil_l|].
  intros ? ? _ [x a d b|x a d b1 b2|x a d b]; cbn [y_accepted y_delivered y_between]; intros H.
  - rewrite app_assoc. by apply sublist_app.
  - etrans; [|exact H]. apply sublist_app; [done|]. apply sublist_app; [done|].
    by apply sublist_cons.
  - by rewrite <-app_assoc.
Qed.
End Lossy_lemmas.

(** A step of the queue of texts is one of the channel of the things that
    the texts are read as; an emission is not seen. *)
Section Fifo_lossy.
Context {A : Type} (R : string -> A -> Prop).
Implicit Types (f : fifo).

Lemma fifo_accepted_mono f f' : rtc fifo_step f f' -> f_accepted f `prefix_of` f_accepted f'.
Proof.
  induction 1 as [f|f1 f2 f3 Hs _ IH]; [done|]. etrans; [|exact IH].
  destruct Hs; simpl; [by exists [x]|done|done].
Qed.

Lemma Forall2_prefix_take l1 l2 k :
  l1 `prefix_of` l2 -> Forall2 R l2 k -> Forall2 R l1 (take (length l1) k).
Proof.
  intros [l ->] H. apply Forall2_app_inv_l in H as (k1 & k2 & H1 & _ & ->).
  by rewrite (Forall2_length _ _ _ H1), take_app_length.
Qed.

Lemma fifo_lossy f f' ra d k re rw :
  rtc fifo_step f f' -> Forall2 R (f_accepted f') ra ->
  Forall2 R (f_emitted f) re -> Forall2 R (f_waiting f) rw -> k <= length re ->
  exists re' rw', re `prefix_of` re' /\
    Forall2 R (f_emitted f') re' /\ Forall2 R (f_waiting f') rw' /\
    rtc lossy_step (mkLossy (take (length (f_accepted f)) ra) d (drop k re ++ rw))
      (mkLossy ra d (drop k re' ++ rw')).
Proof.
  intros Hr Ha. revert re rw. induction Hr as [f|f1 f2 f3 Hs Hr IH]; intros re rw He Hw Hk.
  { exists re, rw. split_and!; try done. apply Forall2_length in Ha.
    by rewrite take_ge by lia. }
  specialize (IH Ha). pose proof (fifo_accepted_mono _ _ Hr) as Hmono.
  destruct Hs as [x a e w|x a e w|x a e w]; cbn [f_accepted f_emitted f_waiting] in *.
  - pose proof (Forall2_prefix_take _ _ _ Hmono Ha) as Hra. rewrite length_app in Hra. simpl in Hra.
    rewrite Nat.add_1_r in Hra.
    apply Forall2_app_inv_l in Hra as (k1 & k2 & H1 & H2 & Heq).
    apply Forall2_cons_inv_l in H2 as (rx & ? & Hx & ->%Forall2_nil_inv_l & ->).
    destruct (IH re (rw ++ [rx])) as (re' & rw' & Hp & He' & Hw' & Hl);
      [done|by apply Forall2_app; [|constructor]|done|].
    exists re', rw'. split_and!; try done. eapply rtc_l; [|exact Hl].
    rewrite length_app. simpl. rewrite Nat.add_1_r, Heq.
    assert (take (length a) ra = k1) as ->.
    { rewrite <-(take_app_length k1 [rx]), <-(Forall2_length _ _ _ H1), <-Heq, take_take.
      f_equal. lia. }
    rewrite app_assoc. apply lossy_accept.
  - apply Forall2_cons_inv_l in Hw as (rx & rw1 & Hx & Hw & ->).
    destruct (IH (re ++ [rx]) rw1) as (re' & rw' & Hp & He' & Hw' & Hl);
      [by apply Forall2_app; [|constructor]|done|rewrite length_app; simpl; lia|].
    exists re', rw'. split_and!; try done; [by etrans; [apply prefix_app_r|exact Hp]|].
    by rewrite drop_app_le, <-app_assoc in Hl by done.
  - apply Forall2_cons_inv_l in Hw as (rx & rw1 & Hx & Hw & ->).
    destruct (IH re rw1) as (re' & rw' & Hp & He' & Hw' & Hl); [done..|].
    exists re', rw'. split_and!; try done. eapply rtc_l; [apply lossy_lose|exact Hl].
Qed.
End Fifo_lossy.

Section Link_lemmas.
Context {T : Type} {PA PB : Platform T} {self : sid}.
Implicit Types (s : session T) (puts log : list (Msg T)).
Abbreviation readable := (readable PB self).
Abbreviation process_blocks := (process_blocks (PL := PB) deliver self).

Lemma deliver_all rs log : for_each rs deliver log = (Ok tt, log ++ rs).
Proof.
  revert log; induction rs as [|r rs IH]; intros log; [by rewrite app_nil_r|].
  cbn [for_each]. unfold bind, deliver at 1, modify. rewrite IH. by rewrite <-app_assoc.
Qed.

Lemma process_blocks_snoc bs b st st' :
  process_blocks bs st = (Ok true, st') ->
  process_blocks (bs ++ [b]) st =
    match processNewInput (PL := PB) deliver self b st' with
    | (Ok continue, st2) => (Ok continue, st2)
    | x => x
    end.
Proof.
  revert st; induction bs as [|b' bs IH]; intros st H; cbn [app InputProcessor.process_blocks] in *.
  - injection H as <-. unfold bind. by destruct (processNewInput _ _ _ _) as [[[]|e| |] st2].
  - unfold bind in *. destruct (processNewInput _ _ _ st) as [[[]|e| |] st2]; try done. by apply IH.
Qed.

Lemma readable_transmits texts rs :
  Forall2 readable texts rs -> exists ms, Forall3 (transmits (PL := PB) self) ms texts rs.
Proof.
  induction 1 as [|t r texts rs [m Hm] _ [ms IH]]; [exists []|exists (m :: ms)]; by constructor.
Qed.

(** What the connection is: all that has been started is in the blocks that
    have arrived or on the wire; what the reader has handed on comes first,
    then what is on its way, then what waits at the sender. *)
Record link_ok (l : link T) (between : list (Msg T)) : Prop := {
  lo_front : front_write (k_sender l);
  lo_put : exists raws, Forall2 readable raws (k_put l);
  lo_sent : exists outs rest rwait blocks,
    Forall2 readable outs (k_log l ++ rest) /\
    Forall2 readable (waiting (k_sender l)) rwait /\ between = rest ++ rwait /\
    wire blocks +:+ k_wire l = wire outs /\
    process_blocks blocks (IP_init, []) = (Ok true, (k_reader l, k_log l));
  lo_results : Forall (fun o => o = Ok true) (k_results l);
}.

(** The sender moves. *)
Lemma link_sender puts now s bytes ip log rs P rP s' between :
  (front_write s -> simulated P s s') -> Forall2 readable P rP ->
  link_ok (mkLink puts now s bytes ip log rs) between ->
  exists between',
    link_ok (mkLink (puts ++ rP) now s' (bytes +:+ sent s s') ip log rs) between' /\
    rtc lossy_step (mkLossy puts log between) (mkLossy (puts ++ rP) log between').
Proof.
  intros Hsim HP [Hf (raws & Hraws) (outs & rest & rwait & blocks & Ho & Hw & -> & Hb & Hp) Hr].
  simpl in *. destruct (Hsim Hf) as [Hf' Hrun]. specialize (Hrun raws outs).
  destruct (fifo_lossy readable _ _ (puts ++ rP) log (length log) (log ++ rest) rwait Hrun)
    as (re & rw & [sfx ->] & Ho' & Hw' & Hl); simpl in *; try done.
  { by apply Forall2_app. }
  { rewrite length_app. lia. }
  rewrite (Forall2_length _ _ _ Hraws), take_app_length, <-!app_assoc, !drop_app_length in Hl.
  exists ((rest ++ sfx) ++ rw). split; [|exact Hl].
  split; simpl; [done|by exists (raws ++ P); apply Forall2_app| |done].
  exists (outs ++ started s s'), (rest ++ sfx), rw, blocks.
  rewrite app_assoc. split_and!; try done.
  rewrite wire_app, <-Hb. unfold sent. by rewrite str_app_assoc.
Qed.

Lemma link_sender_silent puts now s bytes ip log rs s' between :
  (front_write s -> simulated [] s s') -> link_ok (mkLink puts now s bytes ip log rs) between ->
  exists between', link_ok (mkLink puts now s' (bytes +:+ sent s s') ip log rs) between' /\
    rtc lossy_step (mkLossy puts log between) (mkLossy puts log between').
Proof.
  intros Hsim Hok.
  pose proof (link_sender _ _ _ _ _ _ _ [] [] _ _ Hsim ltac:(constructor) Hok) as H.
  by rewrite app_nil_r in H.
Qed.

(** A block arrives. *)
Lemma link_reader puts now s block bytes ip log rs o ip' log' between :
  processNewInput (PL := PB) deliver self block (ip, log) = (o, (ip', log')) ->
  link_ok (mkLink puts now s (block +:+ bytes) ip log rs) between ->
  exists between',
    link_ok (mkLink puts now s bytes ip' log' (rs ++ [o])) between' /\
    rtc lossy_step (mkLossy puts log between) (mkLossy puts log' between').
Proof.
  intros Hn [Hf Hraws (outs & rest & rwait & blocks & Ho & Hw & -> & Hb & Hp) Hr]. simpl in *.
  destruct (readable_transmits _ _ Ho) as [ms Hms].
  assert (wire (blocks ++ [block]) +:+ bytes = wire outs) as Hb'.
  { rewrite wire_app, <-Hb. simpl. by rewrite str_app_nil_r, !str_app_assoc. }
  destruct (blocks_read_prefix deliver self ms outs (log ++ rest) _ _ [] _ Hms Hb' (deliver_all _ _))
    as (k & w1 & ip1 & tail & Hk & Hp' & _ & _).
  rewrite deliver_all in Hk. injection Hk as <-.
  rewrite (process_blocks_snoc _ _ _ _ Hp), Hn in Hp'.
  destruct o as [c|e| |]; try done. injection Hp' as -> -> ->.
  assert (log `prefix_of` take k (log ++ rest)) as [d Hd].
  { pose proof (processNewInput_preserves (PL := PB) (fun l => log `prefix_of` l) deliver self
      block ltac:(intros m l Hl; by apply prefix_app_r) (ip, log)) as Hpre.
    rewrite Hn in Hpre. by apply Hpre. }
  rewrite Hd. assert (rest = d ++ drop k (log ++ rest)) as Hrest.
  { apply (app_inv_head log). rewrite app_assoc, <-Hd. by rewrite take_drop. }
  exists (drop k (log ++ rest) ++ rwait). split.
  - split; simpl; [done|done| |apply Forall_app; by repeat constructor].
    exists outs, (drop k (log ++ rest)), rwait, (blocks ++ [block]).
    rewrite <-app_assoc, <-Hrest. split_and!; try done.
    by rewrite (process_blocks_snoc _ _ _ _ Hp), Hn, Hd.
  - rewrite Hrest at 1. rewrite <-app_assoc. apply lossy_deliver_all.
Qed.

Lemma link_step_ok (l l' : link T) between :
  link_step PA PB self l l' -> link_ok l between ->
  exists between', link_ok l' between' /\
    rtc lossy_step (mkLossy (k_put l) (k_log l) between) (mkLossy (k_put l') (k_log l') between').
Proof.
  intros [puts now now' s bytes ip log rs Hn|puts now s bytes ip log rs msg raw r s' _ Hraw Hr Hput
    |puts now s bytes ip log rs oq reads s' _ Hoq Ht|puts now s bytes ip log rs buf slots s' _ Hin Hw
    |puts now s bytes ip log rs reason s' _ Hc|puts now s block bytes ip log rs o ip' log' Ha] Hok;
    simpl.
  - exists between. split; [|done]. by destruct Hok as [? ? ? ?]; split.
  - eapply link_sender; [|by apply Forall2_cons|exact Hok]. intros Hf. exact (simulated_put now msg raw s s' Hf Hraw Hput).
  - refine (link_sender _ _ _ _ _ _ _ (m_rawmsg <$> oq) _ _ _ _ _ Hok).
    + intros Hf. exact (simulated_take now oq s s' Hf Ht).
    + by apply Forall2_fmap_l.
  - refine (link_sender_silent _ _ _ _ _ _ _ _ _ _ Hok). intros Hf.
    exact (simulated_written now buf slots s s' Hf Hin Hw).
  - refine (link_sender_silent _ _ _ _ _ _ _ _ _ _ Hok). intros Hf.
    exact (simulated_close reason s s' Hf Hc).
  - by eapply link_reader.
Qed.

Lemma link_reachable_ok now s0 (l : link T) :
  m_outQueue s0 = [] -> writes s0 = [] -> rtc (link_step PA PB self) (link_init now s0) l ->
  exists between, link_ok l between /\
    rtc lossy_step lossy_init (mkLossy (k_put l) (k_log l) between).
Proof.
  intros Hq Hw. revert l.
  apply (rtc_ind_r (fun l => exists between, link_ok l between /\
    rtc lossy_step lossy_init (mkLossy (k_put l) (k_log l) between))).
  - exists []. split; [|done]. split; simpl; [by left|by exists []| |constructor].
    exists [], [], [], []. unfold waiting. rewrite Hw, decide_True, Hq by done. by repeat split.
  - intros l1 l2 _ Hs (between & Hok & Hr).
    destruct (link_step_ok _ _ _ Hs Hok) as (between' & Hok' & Hr').
    exists between'. split; [done|]. by etrans.
Qed.

(** When the wire is empty the reader has all that was started. *)
Lemma wire_empty outs rest log blocks st :
  Forall2 readable outs (log ++ rest) -> wire blocks = wire outs ->
  process_blocks blocks (IP_init, []) = (Ok true, (st, log)) -> rest = [].
Proof.
  intros Ho Hb Hp. destruct (readable_transmits _ _ Ho) as [ms Hms].
  destruct (blocks_read_prefix deliver self ms outs (log ++ rest) blocks EmptyString [] _ Hms
    ltac:(by rewrite str_app_nil_r) (deliver_all _ _)) as (k & w1 & ip & tail & Hk & Hp' & Ht & Hc).
  rewrite deliver_all in Hk. injection Hk as <-. rewrite Hp in Hp'. injection Hp' as _ Hlog.
  pose proof (Forall2_length _ _ _ Ho) as Hlen.
  destruct Hc as [(-> & _)|(t & c & q & Hk & ->)].
  - rewrite take_ge in Hlog by lia. apply (app_inv_head log). by rewrite app_nil_r.
  - exfalso. rewrite Hb in Ht. rewrite <-(take_drop_middle outs k _ Hk) in Ht at 1.
    rewrite wire_app in Ht. apply (f_equal String.length) in Ht.
    cbn [wire foldr] in Ht. rewrite !str_length_app in Ht. simpl in Ht. lia.
Qed.
End Link_lemmas.

(** ** Properties *)

Section Transport_props.
Context {T : Type} (PA PB : Platform T) (self : sid).

(** C6: The output side of a session and the input processor at the other
    end of its connection, whose consumer here records the messages and
    never fails, refine a channel that may lose a message it still holds and
    delivers the rest in order.  Messages whose text the other end reads
    back (see Stream.transmits: one-line texts, no body key) are put, queues
    of such texts taken over, writes complete, closings are asked for, until
    a farewell is started, interleaved in any way with the arrival of the
    bytes in any blocks.  Then every block is accepted and there is a run of
    the channel with the same accepted and delivered messages; so what is
    delivered is a subsequence of what was put.  What the sender has started
    is never lost: once no byte is on its way, only what waits in the
    sender's queue is undelivered. *)
Theorem link_refines_lossy_channel now s0 (l : link T) :
  m_outQueue s0 = [] -> writes s0 = [] ->
  rtc (link_step PA PB self) (link_init now s0) l ->
  Forall (fun o => o = Ok true) (k_results l) /\
  exists flying waits,
    Forall2 (readable PB self) (waiting (k_sender l)) waits /\
    rtc lossy_step lossy_init (mkLossy (k_put l) (k_log l) (flying ++ waits)) /\
    k_log l ++ flying ++ waits `sublist_of` k_put l /\
    (k_wire l = EmptyString -> flying = []).
Proof.
  intros Hq Hw Hr. destruct (link_reachable_ok _ _ _ Hq Hw Hr) as (between & Hok & Hrun).
  destruct Hok as [_ _ (outs & flying & waits & blocks & Ho & Hwt & -> & Hb & Hp) Hres].
  split; [done|]. exists flying, waits. split_and!; [done|done| |].
  - exact (lossy_in_order _ Hrun).
  - intros He. rewrite He, str_app_nil_r in Hb. by eapply wire_empty.
Qed.
End Transport_props.

(** ** Witnesses *)

Section Transport_witnesses.
#[local] Instance tw_liver : Platform tree := demo "liver" "userver".
Definition tw_pingutv : Platform tree := demo "pingutv" "userver".
Definition tw_raw : string := st_text (charvec st_one).
Definition tw_read : Msg tree :=
  Msg_raw (PL := tw_pingutv) (m_header st_one) (demo_line ping_body) (Some 1%positive).
Definition tw_put : session tree := (putOutQueue 0 st_one ds).2.

(** A message is put, and its text arrives in two blocks. *)
Lemma link_refines_lossy_channel_witness :
  exists l, rtc (link_step tw_liver tw_pingutv 1%positive) (link_init 0 ds) l /\
    k_log l = [tw_read] /\ k_wire l = EmptyString /\
    rtc lossy_step lossy_init (mkLossy [tw_read] [tw_read] []).
Proof.
  assert (readable tw_pingutv 1%positive tw_raw tw_read) as Hrd.
  { exists st_one. apply (by_str _ st_one _ (demo_line (m_header st_one))); vm_compute; reflexivity. }
  eexists. assert (forall P Q : Prop, P -> (P -> Q) -> P /\ Q) as Hand by tauto.
  apply Hand.
  - eapply rtc_l.
    { apply (link_put tw_liver tw_pingutv 1%positive [] 0 ds EmptyString IP_init [] [] st_one
        tw_raw tw_read tw_put); [reflexivity|vm_compute; reflexivity|exact Hrd|vm_compute; reflexivity]. }
    eapply rtc_l.
    { replace (EmptyString +:+ sent ds tw_put) with (str_take 30 tw_raw +:+ str_drop 30 tw_raw)
        by (vm_compute; reflexivity).
      eapply link_arrives. vm_compute. reflexivity. }
    apply rtc_once. rewrite <-(str_app_nil_r (str_drop 30 tw_raw)).
    eapply link_arrives. vm_compute. reflexivity.
  - intros Hr. split; [vm_compute; reflexivity|]. split; [reflexivity|].
    destruct (link_refines_lossy_channel tw_liver tw_pingutv 1%positive 0 ds _ eq_refl eq_refl Hr)
      as (_ & flying & waits & Hw & Hrun & _ & He).
    rewrite (He eq_refl) in Hrun. vm_compute in Hw. apply Forall2_nil_inv_l in Hw. subst waits.
    exact Hrun.
Defined.
End Transport_witnesses.
