(* ===== verification/Dump.v ===== *)
(** * Dump: printing a buffer to the log (src/uzel/dump.h) *)
From S2P Require Import Prelude Effects.

(** The loop of [dump_chars::print] from index [ii] on. *)
Fixpoint dump_loop (maxsize ii : nat) (data : string) : string :=
  match data with
  | EmptyString => "]"
  | String ch data' =>
      if (maxsize - 3 <=? ii)%nat then "...]"
      else (if decide (ch = NL) then "\n" else str1 ch) +:+ dump_loop maxsize (S ii) data'
  end.

Definition dump_print (maxsize : nat) (data : string) : outcome string :=
  if (maxsize <? 5)%nat then Throw (runtime_error "maxsize must be greater than 5")
  else Ok ("[" +:+ dump_loop maxsize 0 data).

Definition dump (data : string) : outcome string := dump_print 200 data.

(** Line feeds written as two characters. *)
Fixpoint escape_nl (s : string) : string :=
  match s with
  | EmptyString => EmptyString
  | String c s' => (if decide (c = NL) then "\n" else str1 c) +:+ escape_nl s'
  end.

(** ** Lemmas *)

Lemma dump_loop_no_nl maxsize ii data : str_in NL (dump_loop maxsize ii data) = false.
Proof.
  revert ii; induction data as [|c data IH]; intros ii; cbn [dump_loop]; [done|].
  destruct (_ <=? _)%nat; [done|]. rewrite str_in_app, IH, orb_false_r.
  case_decide as Hc; [done|]. simpl. by rewrite bool_decide_eq_false_2.
Qed.

Lemma dump_loop_length maxsize ii data :
  ii <= maxsize - 3 ->
  String.length (dump_loop maxsize ii data) <= 2 * (maxsize - 3 - ii) + 4.
Proof.
  revert ii; induction data as [|c data IH]; intros ii Hi; cbn [dump_loop]; [simpl; lia|].
  destruct (Nat.leb_spec (maxsize - 3) ii); [simpl; lia|].
  rewrite str_length_app. specialize (IH (S ii) ltac:(lia)).
  assert (String.length (if decide (c = NL) then "\n" else str1 c) <= 2)
    by (case_decide; simpl; lia). lia.
Qed.

Lemma dump_loop_short maxsize ii data :
  String.length data + ii <= maxsize - 3 ->
  dump_loop maxsize ii data = escape_nl data +:+ "]".
Proof.
  revert ii; induction data as [|c data IH]; intros ii Hl; cbn [dump_loop escape_nl]; [done|].
  simpl in Hl. destruct (Nat.leb_spec (maxsize - 3) ii); [lia|].
  by rewrite IH, str_app_assoc by lia.
Qed.

(** A dump of a buffer with a limit of at least five is one line of less
    than twice the limit, and the whole buffer in brackets with its line
    feeds escaped when it is short enough. *)
Lemma dump_bounded maxsize data :
  5 <= maxsize ->
  exists out, dump_print maxsize data = Ok out /\ str_in NL out = false /\
    String.length out < 2 * maxsize /\
    (String.length data <= maxsize - 3 -> out = "[" +:+ escape_nl data +:+ "]").
Proof.
  intros Hm. unfold dump_print. destruct (Nat.ltb_spec maxsize 5); [lia|].
  eexists. split; [done|]. split; [|split].
  - rewrite str_in_app, dump_loop_no_nl. done.
  - rewrite str_length_app. pose proof (dump_loop_length maxsize 0 data ltac:(lia)). simpl; lia.
  - intros Hl. rewrite dump_loop_short by lia. done.
Qed.

Lemma dump_bounded_witness : dump_print 5 (String NL (str1 NL)) = Ok "[\n\n]".
Proof.
  destruct (dump_bounded 5 (String NL (str1 NL))) as (out & E & _ & _ & H); [lia|].
  rewrite E, H by (simpl; lia). reflexivity.
Defined.
