(* ===== verification/Remote.v ===== *)
(** * Remote: the logical channel to a remote node
    (app/userver/remote.h, app/userver/remote.cpp)

    The channel holds the sessions with the node by role: high priority, low
    priority, control, or waiting for the peer's decision.  The node with the
    greater name (the "boss") decides and announces the role in a "priority"
    message.  Sessions are shared objects: they live in the [store], and the
    channel refers to them by identity. *)
From S2P Require Import Prelude Effects AccuLine BetterEnum Priority PTree UConfig.
From S2P Require Import Addr Demo Msg InputProcessor Session.

Abbreviation store T := (gmap sid (session T)).

(** A method called on a session; a dangling identity is undefined behaviour. *)
Definition on_session {T A} (id : sid) (m : M (session T) A) : M (store T) A := fun st =>
  match st !! id with
  | None => (Undefined, st)
  | Some s => let '(o, s') := m s in (o, <[id := s']> st)
  end.

Record remote_t := mkRemote {
  m_node : string;
  m_sessionWaitForRemote : gset sid;
  m_sessionH : option sid;
  m_sessionL : option sid;
  m_sessionC : option sid;
  m_outHighQueue : list QueuedMsg;
  m_outLowQueue : list QueuedMsg;
}.

Definition remote_init (node : string) : remote_t := mkRemote node ∅ None None None [] [].

Definition set_wait (w : gset sid) (r : remote_t) : remote_t :=
  mkRemote (m_node r) w (m_sessionH r) (m_sessionL r) (m_sessionC r)
    (m_outHighQueue r) (m_outLowQueue r).
Definition set_H (h : option sid) (r : remote_t) : remote_t :=
  mkRemote (m_node r) (m_sessionWaitForRemote r) h (m_sessionL r) (m_sessionC r)
    (m_outHighQueue r) (m_outLowQueue r).
Definition set_L (l : option sid) (r : remote_t) : remote_t :=
  mkRemote (m_node r) (m_sessionWaitForRemote r) (m_sessionH r) l (m_sessionC r)
    (m_outHighQueue r) (m_outLowQueue r).
Definition set_C (c : option sid) (r : remote_t) : remote_t :=
  mkRemote (m_node r) (m_sessionWaitForRemote r) (m_sessionH r) (m_sessionL r) c
    (m_outHighQueue r) (m_outLowQueue r).
Definition set_outHigh (q : list QueuedMsg) (r : remote_t) : remote_t :=
  mkRemote (m_node r) (m_sessionWaitForRemote r) (m_sessionH r) (m_sessionL r) (m_sessionC r)
    q (m_outLowQueue r).
Definition set_outLow (q : list QueuedMsg) (r : remote_t) : remote_t :=
  mkRemote (m_node r) (m_sessionWaitForRemote r) (m_sessionH r) (m_sessionL r) (m_sessionC r)
    (m_outHighQueue r) q.

(** [m_sessionH && m_sessionL] *)
Definition remote_connected (r : remote_t) : bool :=
  bool_decide (is_Some (m_sessionH r)) && bool_decide (is_Some (m_sessionL r)).

Definition clear_if (id : sid) (role : option sid) : option sid :=
  if decide (role = Some id) then None else role.

Definition remote_onSessionClosed (id : sid) (r : remote_t) : remote_t :=
  mkRemote (m_node r) (m_sessionWaitForRemote r ∖ {[ id ]})
    (clear_if id (m_sessionH r)) (clear_if id (m_sessionL r)) (clear_if id (m_sessionC r))
    (m_outHighQueue r) (m_outLowQueue r).

Section Remote.
Context {T : Type} {PL : Platform T}.
Abbreviation rstate := (remote_t * store T)%type.

Definition on_store {A} (m : M (store T) A) : M rstate A :=
  zoom snd (fun st s => (s.1, st)) m.
Definition on_remote (f : remote_t -> remote_t) : M rstate unit :=
  modify (fun s => (f s.1, s.2)).

(** The "priority" announcement. *)
Definition priority_msg (p : Priority) : Msg T :=
  Msg_out Addr_default "priority"
    (pt_add "priority" (default EmptyString (put_value p)) pt_empty).

(** [ss->takeOverMessages(queue)] on one of the channel's own queues. *)
Definition take_queue (now : Z) (id : sid) (get : remote_t -> list QueuedMsg)
    (set : list QueuedMsg -> remote_t -> remote_t) : M rstate unit := fun s =>
  match s.2 !! id with
  | None => (Undefined, s)
  | Some ss =>
      let '(o, (ss', q)) := takeOverMessages now (ss, get s.1) in
      (o, (set q s.1, <[id := ss']> s.2))
  end.

Definition direction_of (id : option sid) (st : store T) : option Direction :=
  id ≫= fun i => m_direction <$> st !! i.

(** No control session yet, both others incoming, this one outgoing. *)
Definition control_wanted (st : store T) (ss : sid) (r : remote_t) : bool :=
  bool_decide (m_sessionC r = None) &&
  bool_decide (direction_of (m_sessionH r) st = Some incoming) &&
  bool_decide (direction_of (m_sessionL r) st = Some incoming) &&
  bool_decide (direction_of (Some ss) st = Some outgoing).

(** The decision of the boss: the role of a new session. *)
Definition assign_role (now : Z) (ss : sid) : M rstate unit :=
  r <- gets fst ;;
  st <- gets snd ;;
  if bool_decide (m_sessionH r = None) then
    on_remote (set_H (Some ss)) ;;
    on_store (on_session ss (putOutQueue now (priority_msg high))) ;;
    take_queue now ss m_outHighQueue set_outHigh
  else if bool_decide (m_sessionL r = None) then
    on_remote (set_L (Some ss)) ;;
    on_store (on_session ss (putOutQueue now (priority_msg low))) ;;
    take_queue now ss m_outLowQueue set_outLow
  else if control_wanted st ss r then
    on_remote (set_C (Some ss)) ;;
    on_store (on_session ss (putOutQueue now (priority_msg control)))
  else
    on_store (on_session ss (gracefullClose "duplicated connection")).

Definition addSession (now : Z) (ss : sid) : M rstate unit :=
  node <- gets (fun s => m_node s.1) ;;
  on_store (on_session ss (modify (connect_closed (SlotRemote node)))) ;;
  peer <- on_store (on_session ss peerNode) ;;
  if str_lt nodeName peer then
    (* he is the boss *)
    on_remote (fun r => set_wait ({[ ss ]} ∪ m_sessionWaitForRemote r) r)
  else assign_role now ss.

(** [if(sessionToClose) sessionToClose->gracefullClose(...)] *)
Definition close_overtaken (old : option sid) : M rstate unit :=
  match old with
  | Some id => on_store (on_session id (gracefullClose "overtaken by new connection"))
  | None => ret tt
  end.

(** The message is part of the state: [pbody] fills its cache. *)
Definition remote_handlePriorityMsg : M (rstate * Msg T) unit :=
  let on_r {A} (m : M rstate A) : M (rstate * Msg T) A :=
    zoom fst (fun r s => (r, s.2)) m in
  msg <- gets snd ;;
  st <- gets (fun s => s.1.2) ;;
  match m_origin msg ≫= fun id => (fun _ => id) <$> st !! id with
  | Some ss =>
      on_r (on_remote (fun r => set_wait (m_sessionWaitForRemote r ∖ {[ ss ]}) r)) ;;
      r <- gets (fun s => s.1.1) ;;
      if bool_decide (m_sessionH r = Some ss) || bool_decide (m_sessionL r = Some ss)
      then ret tt
      else
        body <- zoom snd (fun m s => (s.1, m)) pbody ;;
        let prio := default undefined (pt_get ["priority"] body ≫= get_value) in
        match prio with
        | low =>
            let sessionToClose := m_sessionL r in
            on_r (on_remote (set_L (Some ss)) ;; close_overtaken sessionToClose)
        | high =>
            let sessionToClose := m_sessionH r in
            on_r (on_remote (set_H (Some ss)) ;; close_overtaken sessionToClose)
        | control =>
            let sessionToClose := m_sessionC r in
            on_r (on_remote (set_C (Some ss)) ;; close_overtaken sessionToClose)
        | undefined =>
            on_r (on_store (on_session ss
                    (gracefullClose "got undefined priority from remote")))
        end
  | None => ret tt   (* session is gone *)
  end.

Definition remote_send (now : Z) (msg : Msg T) : M rstate unit :=
  r <- gets fst ;;
  if negb (remote_connected r) then
    qm <- lift (QueuedMsg_of now msg) ;;
    on_remote (fun r => set_outHigh (m_outHighQueue r ++ [qm]) r)
  else
    match m_sessionH r with
    | Some id => on_store (on_session id (putOutQueue now msg))
    | None => ub
    end.
End Remote.

(** The node a session has authenticated as. *)
Definition peer_of {T} (st : store T) (ss : sid) : option string :=
  (fun m => m_nodename (m_from m)) <$> (st !! ss ≫= m_msg1).

(** The roles of a channel, and all the sessions it holds. *)
Definition roles (r : remote_t) : option sid * option sid * option sid :=
  (m_sessionH r, m_sessionL r, m_sessionC r).
Definition held (r : remote_t) : gset sid :=
  m_sessionWaitForRemote r ∪ option_to_set (m_sessionH r) ∪ option_to_set (m_sessionL r) ∪
  option_to_set (m_sessionC r).

(** No session plays two roles, and no session with a role is waiting. *)
Definition remote_wf (r : remote_t) : Prop :=
  (forall ss, m_sessionH r = Some ss ->
     m_sessionL r <> Some ss /\ m_sessionC r <> Some ss /\ ss ∉ m_sessionWaitForRemote r) /\
  (forall ss, m_sessionL r = Some ss ->
     m_sessionC r <> Some ss /\ ss ∉ m_sessionWaitForRemote r) /\
  (forall ss, m_sessionC r = Some ss -> ss ∉ m_sessionWaitForRemote r).

(** The roles after the boss has been given the session [ss]: the first free
    one of high, low, and, when it is the only outgoing one, control. *)
Definition roles_with {T} (st : store T) (ss : sid) (r : remote_t)
    : option sid * option sid * option sid :=
  match m_sessionH r, m_sessionL r, m_sessionC r with
  | None, l, c => (Some ss, l, c)
  | Some h, None, c => (Some h, Some ss, c)
  | Some h, Some l, None =>
      if decide (m_direction <$> st !! h = Some incoming /\
                 m_direction <$> st !! l = Some incoming /\
                 m_direction <$> st !! ss = Some outgoing)
      then (Some h, Some l, Some ss) else roles r
  | Some _, Some _, Some _ => roles r
  end.

(** Everything that happens to a channel, however it ends. *)
Inductive rstep {T} {PL : Platform T} : relation (remote_t * store T) :=
  | r_add now ss s : rstep s (addSession now ss s).2
  | r_priority msg s : rstep s (remote_handlePriorityMsg (s, msg)).2.1
  | r_send now msg s : rstep s (remote_send now msg s).2
  | r_closed id s : rstep s (remote_onSessionClosed id s.1, s.2).

(** ** Lemmas *)

Section Remote_lemmas.
Context {T : Type} {PL : Platform T}.
Implicit Types (r : remote_t) (st : store T).

(** Properties of the channel alone. *)
Lemma preserves_on_store {A} (P : remote_t -> Prop) (m : M (store T) A) :
  preserves (fun s => P s.1) (on_store m).
Proof. intros [r st] Hs. unfold on_store, zoom. by destruct (m _). Qed.

Lemma preserves_on_remote (P : remote_t -> Prop) f :
  (forall r, P r -> P (f r)) -> preserves (fun s : remote_t * store T => P s.1) (on_remote f).
Proof. intros Hf [r st] Hs. by apply Hf. Qed.

Lemma preserves_take_queue (P : remote_t -> Prop) now id get set :
  (forall r q, P r -> P (set q r)) ->
  preserves (fun s => P s.1) (take_queue (T := T) now id get set).
Proof.
  intros Hset [r st] Hs. unfold take_queue. simpl.
  destruct (st !! id); [|done]. destruct (takeOverMessages _ _) as [o [ss' q]]. by apply Hset.
Qed.

Lemma preserves_close_overtaken (P : remote_t -> Prop) old :
  preserves (fun s => P s.1) (close_overtaken (T := T) old).
Proof. destruct old; [apply preserves_on_store|apply preserves_ret]. Qed.
End Remote_lemmas.

#[export] Hint Resolve preserves_on_store preserves_take_queue preserves_on_remote
  preserves_close_overtaken : preserve.

Section Remote_lemmas2.
Context {T : Type} {PL : Platform T}.
Implicit Types (r : remote_t) (st : store T).

(** [addSession] up to the decision: the slot is connected, the peer known. *)
Definition st_slot (node : string) (ss : sid) st : store T :=
  match st !! ss with
  | Some s => <[ss := connect_closed (SlotRemote node) s]> st
  | None => st
  end.

Lemma addSession_eq now ss r st :
  addSession now ss (r, st) =
  match st !! ss with
  | None => (Undefined, (r, st))
  | Some s =>
      match peer_of st ss with
      | None => (Throw (logic_error "called peerNode() on non-authenticated socket"),
                 (r, st_slot (m_node r) ss st))
      | Some peer =>
          if str_lt nodeName peer
          then (Ok tt, (set_wait ({[ ss ]} ∪ m_sessionWaitForRemote r) r,
                        st_slot (m_node r) ss st))
          else assign_role now ss (r, st_slot (m_node r) ss st)
      end
  end.
Proof.
  unfold addSession, st_slot, peer_of. unfold bind at 1, gets at 1. simpl.
  unfold on_store, zoom, on_session. unfold bind at 1. simpl.
  destruct (st !! ss) as [s|] eqn:Hs; [|done]. simpl.
  unfold bind at 1. simpl. rewrite lookup_insert_eq.
  unfold peerNode, msg1_or_throw, bind at 1 2, gets at 1. simpl.
  destruct (m_msg1 s) as [m|] eqn:Hm; simpl; rewrite insert_insert_eq.
  - replace (connect_closed (SlotRemote (m_node r)) s)
      with (connect_closed (SlotRemote (m_node r)) s) by done.
    by destruct (str_lt nodeName (m_nodename (m_from m))).
  - done.
Qed.

Lemma on_session_ok {A} id (m : M (session T) A) st s :
  st !! id = Some s ->
  on_session id m st = ((m s).1, <[id := (m s).2]> st).
Proof. intros Hs. unfold on_session. rewrite Hs. by destruct (m s). Qed.

Lemma on_remote_bind {A} f (k : unit -> M (remote_t * store T) A) s :
  bind (on_remote f) k s = k tt (f s.1, s.2).
Proof. done. Qed.

(** What stays true of the channel through [assign_role]. *)
Lemma assign_role_inv (P : remote_t -> Prop) now ss r st :
  (m_sessionH r = None -> P (set_H (Some ss) r)) ->
  (m_sessionH r <> None -> m_sessionL r = None -> P (set_L (Some ss) r)) ->
  (m_sessionH r <> None -> m_sessionL r <> None -> control_wanted st ss r = true ->
     P (set_C (Some ss) r)) ->
  (m_sessionH r <> None -> m_sessionL r <> None -> control_wanted st ss r = false -> P r) ->
  (m_sessionH r = None -> forall r' q, P r' -> P (set_outHigh q r')) ->
  (forall r' q, P r' -> P (set_outLow q r')) ->
  P (assign_role now ss (r, st)).2.1.
Proof.
  intros PH PL' PC PR PhQ PlQ. unfold assign_role, bind at 1 2, gets. simpl.
  case_bool_decide as HH; [|case_bool_decide as HL; [|destruct (control_wanted _ _ _) eqn:HC]].
  - rewrite on_remote_bind.
    apply (preserves_bind (fun s : remote_t * store T => P s.1)); simpl; auto.
    + apply preserves_on_store.
    + intros _. apply preserves_take_queue; auto.
  - rewrite on_remote_bind.
    apply (preserves_bind (fun s : remote_t * store T => P s.1)); simpl; auto.
    + apply preserves_on_store.
    + intros _. apply preserves_take_queue; auto.
  - rewrite on_remote_bind. apply (preserves_on_store P). by apply PC.
  - apply (preserves_on_store P). auto.
Qed.
End Remote_lemmas2.

Lemma not_held ss r :
  ss ∉ held r <->
  ss ∉ m_sessionWaitForRemote r /\ m_sessionH r <> Some ss /\ m_sessionL r <> Some ss /\
  m_sessionC r <> Some ss.
Proof. unfold held. set_solver. Qed.

Lemma clear_if_Some id role ss : clear_if id role = Some ss <-> role = Some ss /\ ss <> id.
Proof. unfold clear_if. case_decide; naive_solver. Qed.

(** [remote_wf] of a channel one field of which has been set. *)
Ltac roles_solver :=
  unfold remote_wf in *; rewrite ?not_held in *; simpl;
  repeat (setoid_rewrite clear_if_Some); set_unfold; naive_solver.

Section Remote_props.
Context {T : Type} {PL : Platform T}.
Implicit Types (r : remote_t) (st : store T).

Lemma direction_of_st_slot id node ss st :
  direction_of id (st_slot node ss st) = direction_of id st.
Proof.
  unfold direction_of, st_slot. destruct id as [i|]; [|done]. simpl.
  destruct (st !! ss) as [s|] eqn:Hs; [|done].
  destruct (decide (i = ss)) as [->|Hi].
  - by rewrite lookup_insert_eq, Hs.
  - by rewrite lookup_insert_ne.
Qed.

Lemma control_wanted_roles st node ss r h l :
  m_sessionH r = Some h -> m_sessionL r = Some l ->
  roles_with st ss r =
  if control_wanted (st_slot node ss st) ss r then (Some h, Some l, Some ss) else roles r.
Proof.
  intros HH HL. unfold roles_with, control_wanted. rewrite !direction_of_st_slot, HH, HL.
  unfold direction_of. simpl.
  destruct (m_sessionC r) eqn:HC; [done|]. simpl.
  repeat case_bool_decide; case_decide; simpl; naive_solver.
Qed.

Lemma close_overtaken_remote old (s : remote_t * store T) :
  (close_overtaken old s).2.1 = s.1.
Proof. by apply (preserves_close_overtaken (fun x => x = s.1) old s). Qed.

(** What a priority message from a live session does to the channel. *)
Definition unwait (ss : sid) (r : remote_t) : remote_t :=
  set_wait (m_sessionWaitForRemote r ∖ {[ ss ]}) r.

Definition relabel (p : Priority) (ss : sid) (r : remote_t) : remote_t :=
  match p with
  | high => set_H (Some ss) r
  | low => set_L (Some ss) r
  | control => set_C (Some ss) r
  | undefined => r
  end.

Lemma handlePriority_live msg ss s r st :
  m_origin msg = Some ss -> st !! ss = Some s ->
  (remote_handlePriorityMsg (r, st, msg)).2.1.1 =
  if bool_decide (m_sessionH r = Some ss) || bool_decide (m_sessionL r = Some ss)
  then unwait ss r
  else match (pbody msg).1 with
       | Ok body => relabel (default undefined (pt_get ["priority"] body ≫= get_value)) ss
                      (unwait ss r)
       | _ => unwait ss r
       end.
Proof.
  intros Ho Hs. unfold remote_handlePriorityMsg.
  unfold bind at 1 2, gets at 1 2. cbn [fst snd]. rewrite Ho. simpl. rewrite Hs. simpl.
  unfold zoom, on_remote, bind, modify, gets. simpl.
  destruct (_ || _); [done|]. simpl.
  destruct (pbody msg) as [[body|e| |] msg']; [|done..]. simpl.
  destruct (default _ _); simpl.
  all: match goal with
    | |- context [close_overtaken ?o ?s] =>
        pose proof (close_overtaken_remote o s) as Hc; by destruct (close_overtaken o s)
    | |- context [on_store ?m ?s] =>
        pose proof (preserves_on_store (fun x => x = s.1) m s eq_refl) as Hc;
        by destruct (on_store m s)
    end.
Qed.

(** An announcement whose body cannot be read: the session is taken off the
    waiting ones before the body is parsed, so the channel forgets it, while
    it stays open and is not asked to close. *)
Lemma handlePriority_unreadable msg ss s r st e :
  m_origin msg = Some ss -> st !! ss = Some s -> (pbody msg).1 = Throw e ->
  m_sessionH r <> Some ss -> m_sessionL r <> Some ss -> m_sessionC r <> Some ss ->
  remote_handlePriorityMsg (r, st, msg) = (Throw e, ((unwait ss r, st), (pbody msg).2)) /\
  ss ∉ held (unwait ss r).
Proof.
  intros Ho Hs Hb HH HL HC. split.
  - unfold remote_handlePriorityMsg.
    unfold bind at 1 2, gets at 1 2. cbn [fst snd]. rewrite Ho. simpl. rewrite Hs. simpl.
    unfold zoom, on_remote, bind, modify, gets. simpl.
    rewrite !bool_decide_eq_false_2 by done. simpl.
    destruct (pbody msg) as [o msg']. simpl in *. by subst o.
  - unfold held. simpl. rewrite !not_elem_of_union, !elem_of_option_to_set. set_solver.
Qed.

Lemma handlePriority_gone msg r st :
  (m_origin msg ≫= fun ss => st !! ss) = None ->
  (remote_handlePriorityMsg (r, st, msg)).2.1.1 = r.
Proof.
  intros Hg. unfold remote_handlePriorityMsg.
  unfold bind at 1 2, gets at 1 2. cbn [fst snd].
  destruct (m_origin msg) as [ss|]; [|done]. simpl in *. by rewrite Hg.
Qed.

Lemma addSession_boss_roles now ss peer r st :
  peer_of st ss = Some peer -> str_lt nodeName peer = false ->
  let r' := (addSession now ss (r, st)).2.1 in
  roles r' = roles_with st ss r /\
  m_sessionWaitForRemote r' = m_sessionWaitForRemote r.
Proof.
  intros Hp Hlt r'. subst r'. rewrite addSession_eq, Hp, Hlt.
  destruct (st !! ss) as [s|] eqn:Hs; [|by unfold peer_of in Hp; rewrite Hs in Hp].
  split.
  - apply (assign_role_inv (fun x => roles x = roles_with st ss r)); try done.
    + intros HH. unfold roles_with. by rewrite HH.
    + intros HH HL. unfold roles, roles_with. simpl. rewrite HL. by destruct (m_sessionH r).
    + intros [h HH]%not_eq_None_Some [l HL]%not_eq_None_Some HC.
      erewrite control_wanted_roles, HC by done. unfold roles; simpl. congruence.
    + intros [h HH]%not_eq_None_Some [l HL]%not_eq_None_Some HC.
      erewrite control_wanted_roles, HC by done. unfold roles; simpl. congruence.
  - by apply (assign_role_inv
      (fun x => m_sessionWaitForRemote x = m_sessionWaitForRemote r)).
Qed.

Lemma relabel_wf p ss r :
  remote_wf r -> m_sessionH r <> Some ss -> m_sessionL r <> Some ss ->
  m_sessionC r <> Some ss -> remote_wf (relabel p ss (unwait ss r)).
Proof. destruct p; roles_solver. Qed.

Lemma unwait_wf ss r : remote_wf r -> remote_wf (unwait ss r).
Proof. roles_solver. Qed.

Lemma preserves_remote_send (P : remote_t -> Prop) now msg :
  (forall r qm, P r -> P (set_outHigh (m_outHighQueue r ++ [qm]) r)) ->
  preserves (fun s => P s.1) (remote_send (T := T) now msg).
Proof.
  intros HP. unfold remote_send. apply preserves_bind; [apply preserves_gets|intros r].
  destruct (negb _).
  - apply preserves_bind; [apply preserves_lift|intros qm].
    apply preserves_on_remote. auto.
  - destruct (m_sessionH r); auto with preserve.
Qed.

(** C17: No session has two roles in a channel and none that has a role also
    waits: kept by addSession of a session the channel does not hold yet, by
    remote::send, by onSessionClosed and by handlePriorityMsg of a message
    that did not arrive on the control session, whatever the outcome of the
    call. *)
Theorem remote_wf_preserved (s : remote_t * store T) :
  remote_wf s.1 ->
  (forall now ss, ss ∉ held s.1 -> remote_wf (addSession now ss s).2.1) /\
  (forall msg, (forall ss, m_origin msg = Some ss -> m_sessionC s.1 <> Some ss) ->
     remote_wf (remote_handlePriorityMsg (s, msg)).2.1.1) /\
  (forall now msg, remote_wf (remote_send now msg s).2.1) /\
  (forall id, remote_wf (remote_onSessionClosed id s.1)).
Proof.
  destruct s as [r st]. simpl. intros Hwf. split_and!.
  - intros now ss Hfresh. rewrite addSession_eq.
    destruct (st !! ss); [|done]. destruct (peer_of st ss); [|done].
    destruct (str_lt _ _); [roles_solver|].
    apply assign_role_inv; try done; roles_solver.
  - intros msg Hctl.
    destruct (m_origin msg ≫= (st !!.)) as [s|] eqn:Hs; [|by rewrite handlePriority_gone].
    apply bind_Some in Hs as (ss & Ho & Hs). specialize (Hctl ss Ho).
    erewrite handlePriority_live by done.
    repeat case_bool_decide; simpl; try by apply unwait_wf.
    destruct (pbody msg).1; try by apply unwait_wf. by apply relabel_wf.
  - intros now msg. by apply (preserves_remote_send remote_wf now msg).
  - intros id. roles_solver.
Qed.

(** A high or low priority message that arrives on the control session of a
    channel gives that session the second role and leaves it the control
    session: the guard of handlePriorityMsg tests only the other two roles,
    so the invariant is lost. *)
Lemma control_session_relabelled msg ss s prio r st body :
  m_origin msg = Some ss -> st !! ss = Some s -> m_sessionC r = Some ss ->
  m_sessionH r <> Some ss -> m_sessionL r <> Some ss ->
  (pbody msg).1 = Ok body -> pt_get ["priority"] body ≫= get_value = Some prio ->
  prio = high \/ prio = low ->
  let r' := (remote_handlePriorityMsg (r, st, msg)).2.1.1 in
  m_sessionC r' = Some ss /\
  (if decide (prio = high) then m_sessionH r' else m_sessionL r') = Some ss /\
  ~ remote_wf r'.
Proof.
  intros Ho Hs HC HH HL Hb Hp Hpr. cbv zeta. erewrite handlePriority_live by done.
  rewrite Hb, Hp, !bool_decide_eq_false_2 by done.
  destruct Hpr as [-> | ->]; simpl; (split; [done|]); (split; [done|]);
    intros (H1 & H2 & _); naive_solver.
Qed.

Lemma waits_addSession now ss r st peer :
  peer_of st ss = Some peer -> str_lt nodeName peer = true ->
  addSession now ss (r, st) =
  (Ok tt, (set_wait ({[ ss ]} ∪ m_sessionWaitForRemote r) r, st_slot (m_node r) ss st)).
Proof.
  intros Hp Hlt. rewrite addSession_eq, Hp, Hlt. unfold peer_of in Hp.
  by destruct (st !! ss).
Qed.

(** onSessionClosed makes the channel forget exactly the closed session,
    and keeps its queues. *)
Lemma onSessionClosed_spec id r :
  held (remote_onSessionClosed id r) = held r ∖ {[ id ]} /\
  (m_outHighQueue (remote_onSessionClosed id r), m_outLowQueue (remote_onSessionClosed id r))
    = (m_outHighQueue r, m_outLowQueue r) /\
  (remote_connected (remote_onSessionClosed id r) = true <->
     remote_connected r = true /\ m_sessionH r <> Some id /\ m_sessionL r <> Some id).
Proof.
  split; [|split; [done|]].
  - unfold held, remote_onSessionClosed. simpl. apply set_eq. intros x.
    rewrite !elem_of_difference, !elem_of_union, !elem_of_option_to_set, !clear_if_Some.
    set_solver.
  - unfold remote_connected, remote_onSessionClosed, clear_if. simpl.
    destruct (m_sessionH r) as [h|], (m_sessionL r) as [l|];
      repeat case_decide; simpl; naive_solver.
Qed.

(** remote::send queues on the high priority session of a connected
    channel, else in the channel. *)
Lemma remote_send_spec now msg r st :
  (remote_connected r = false ->
     forall qm, QueuedMsg_of now msg = Ok qm ->
     remote_send now msg (r, st) = (Ok tt, (set_outHigh (m_outHighQueue r ++ [qm]) r, st))) /\
  (remote_connected r = true ->
     exists h, m_sessionH r = Some h /\
       forall s, st !! h = Some s ->
       remote_send now msg (r, st) =
         ((putOutQueue now msg s).1, (r, <[h := (putOutQueue now msg s).2]> st))).
Proof.
  unfold remote_send. unfold bind at 1 3, gets. simpl. split.
  - intros Hc qm Hq. rewrite Hc. simpl. unfold bind, lift. by rewrite Hq.
  - unfold remote_connected. destruct (m_sessionH r) as [h|] eqn:HH; [|done].
    intros Hc. rewrite Hc. simpl. exists h. split; [done|]. intros s Hs.
    unfold on_store, zoom. simpl. by rewrite (on_session_ok _ _ _ _ Hs).
Qed.

(** The messages a channel keeps for a disconnected node are never dropped
    or reordered and leave it in one way only: the boss side giving the high
    priority role to a session.  In particular the side that is not the boss
    never sends them. *)
Lemma high_queue_waits_for_boss (s s' : remote_t * store T) :
  rstep s s' ->
  m_outHighQueue s.1 `prefix_of` m_outHighQueue s'.1 \/
  exists now ss peer, s' = (addSession now ss s).2 /\ peer_of s.2 ss = Some peer /\
    str_lt nodeName peer = false /\ m_sessionH s.1 = None.
Proof.
  intros Hstep. destruct Hstep as [now ss [r st]|msg [r st]|now msg [r st]|id [r st]]; simpl.
  - rewrite addSession_eq. destruct (st !! ss) eqn:Hs; [|by left].
    destruct (peer_of st ss) as [p|] eqn:Hp; [|by left].
    destruct (str_lt nodeName p) eqn:Hlt; [by left|].
    destruct (m_sessionH r) eqn:HH.
    + left. by apply (assign_role_inv (fun x => _ `prefix_of` m_outHighQueue x)); try done;
        rewrite HH.
    + right. exists now, ss, p. split; [|done].
      by rewrite addSession_eq, Hs, Hp, Hlt.
  - left. destruct (m_origin msg ≫= (st !!.)) as [s|] eqn:Hs; [|by rewrite handlePriority_gone].
    apply bind_Some in Hs as (ss & Ho & Hs). erewrite handlePriority_live by done.
    destruct (_ || _); [done|]. destruct (pbody msg).1; [|done..]. by destruct (default _ _).
  - left. apply (preserves_remote_send (fun x => m_outHighQueue r `prefix_of` m_outHighQueue x));
      [|done]. intros x qm Hx. by apply prefix_app_r.
  - by left.
Qed.

Lemma take_queue_ok now ss get set r st s :
  st !! ss = Some s -> m_outQueue s <> [] -> Forall (fun m => m_dt m <> service) (get r) ->
  take_queue now ss get set (r, st) =
  (Ok tt, (set [] r, <[ss := set_outQueue (m_outQueue s ++ get r) s]> st)).
Proof.
  intros Hs Hq Hf. unfold take_queue. simpl. rewrite Hs.
  by rewrite takeOverMessages_busy.
Qed.

Lemma take_queue_diverges now ss get set r st s :
  st !! ss = Some s -> Exists (fun m => m_dt m = service) (get r) ->
  (take_queue now ss get set (r, st)).1 = Diverges.
Proof.
  intros Hs Hf. unfold take_queue. simpl. rewrite Hs.
  pose proof (takeOverMessages_stuck now s (get r) Hf) as Hd.
  destruct (takeOverMessages _ _) as [o [s' q]]. simpl in Hd. by subst.
Qed.

Lemma on_store_ok {A} id (m : M (session T) A) r st s :
  st !! id = Some s ->
  on_store (on_session id m) (r, st) = ((m s).1, (r, <[id := (m s).2]> st)).
Proof. intros Hs. unfold on_store, zoom. simpl. by rewrite (on_session_ok _ _ _ _ Hs). Qed.

Lemma assign_role_H now ss r st :
  m_sessionH r = None ->
  assign_role now ss (r, st) =
  bind (on_store (on_session ss (putOutQueue now (priority_msg high))))
    (fun _ => take_queue now ss m_outHighQueue set_outHigh) (set_H (Some ss) r, st).
Proof.
  intros HH. unfold assign_role. unfold bind at 1 2, gets. simpl.
  by rewrite (bool_decide_eq_true_2 _ HH).
Qed.

(** C20: When the boss gives a session the high priority role, the
    announcement for the peer and, behind it, every message the channel
    kept, in order, are appended to the output queue of the session, the
    channel's queue is empty and the channel is told when the session
    closes; whether they are then written is the session's business, whose
    queue may stall (Session.stalled_forever).  If a service message is
    among the kept ones the call never returns. *)
Theorem boss_flushes_high_queue now ss s m raw r st :
  st !! ss = Some s -> m_msg1 s = Some m ->
  str_lt nodeName (m_nodename (m_from m)) = false ->
  m_sessionH r = None -> charvec (priority_msg high) = Ok raw ->
  (Forall (fun m => m_dt m <> service) (m_outHighQueue r) ->
   exists s',
     addSession now ss (r, st) =
       (Ok tt, (set_outHigh [] (set_H (Some ss) r), <[ss := s']> st)) /\
     m_outQueue s' = m_outQueue s ++
       mkQueuedMsg raw (destType (priority_msg high)) now :: m_outHighQueue r /\
     s_closed s' = s_closed s ++ [SlotRemote (m_node r)]) /\
  (Exists (fun m => m_dt m = service) (m_outHighQueue r) ->
     (addSession now ss (r, st)).1 = Diverges).
Proof.
  intros Hs Hm Hlt HH Hraw. rewrite addSession_eq, Hs.
  unfold peer_of, st_slot. rewrite Hs. simpl. rewrite Hm. simpl. rewrite Hlt.
  rewrite assign_role_H by done. pose proof (putOutQueue_ok now _ (connect_closed
    (SlotRemote (m_node r)) s) _ Hraw) as Hput. cbv zeta in Hput.
  unfold bind. rewrite (on_store_ok _ _ _ _ _ (lookup_insert_eq _ _ _)), Hput.
  cbn [fst snd]. rewrite insert_insert_eq.
  split; intros Hq.
  - erewrite take_queue_ok; [|apply lookup_insert_eq| |exact Hq].
    + eexists. rewrite insert_insert_eq. split; [done|].
      unfold outQueueEmpty. simpl. case_bool_decide as Hn; simpl.
      * by rewrite Hn.
      * by rewrite <-app_assoc.
    + unfold outQueueEmpty. case_bool_decide; simpl; [done|]. by destruct (m_outQueue s).
  - eapply take_queue_diverges; [apply lookup_insert_eq|exact Hq].
Qed.
End Remote_props.

(** The two sides of a connection, each with its own identity. *)
Section Two_nodes.
Context {T : Type} (PLa PLb : Platform T).

(** C7: When the two ends of a connection, on nodes with different names,
    both hand it to their channel for the other node, exactly one of them
    makes the session wait and leaves its roles alone, and the other one
    takes it and gives it the first free role of high, low and (when it is
    the only outgoing one) control: the two sides never both wait and never
    both decide. *)
Theorem boss_exclusive nowa nowb ssa ssb ra rb (sta stb : store T) :
  nodeName (PL := PLa) <> nodeName (PL := PLb) ->
  peer_of sta ssa = Some (nodeName (PL := PLb)) ->
  peer_of stb ssb = Some (nodeName (PL := PLa)) ->
  ssa ∉ m_sessionWaitForRemote ra -> ssb ∉ m_sessionWaitForRemote rb ->
  let ra' := (addSession (PL := PLa) nowa ssa (ra, sta)).2.1 in
  let rb' := (addSession (PL := PLb) nowb ssb (rb, stb)).2.1 in
  (ssa ∈ m_sessionWaitForRemote ra' /\ roles ra' = roles ra /\
   ssb ∉ m_sessionWaitForRemote rb' /\ roles rb' = roles_with stb ssb rb) \/
  (ssb ∈ m_sessionWaitForRemote rb' /\ roles rb' = roles rb /\
   ssa ∉ m_sessionWaitForRemote ra' /\ roles ra' = roles_with sta ssa ra).
Proof.
  intros Hne Ha Hb Hwa Hwb ra' rb'. subst ra' rb'.
  pose proof (str_lt_total _ _ Hne) as Hlt.
  destruct (str_lt (nodeName (PL := PLa)) (nodeName (PL := PLb))) eqn:Hab.
  - left. symmetry in Hlt. apply negb_true_iff in Hlt.
    erewrite (waits_addSession (PL := PLa)) by done. simpl.
    destruct (addSession_boss_roles (PL := PLb) nowb ssb _ rb stb Hb Hlt) as [Hr Hw].
    rewrite Hw. set_solver.
  - right. symmetry in Hlt. apply negb_false_iff in Hlt.
    erewrite (waits_addSession (PL := PLb)) by done. simpl.
    destruct (addSession_boss_roles (PL := PLa) nowa ssa _ ra sta Ha Hab) as [Hr Hw].
    rewrite Hw. set_solver.
Qed.
End Two_nodes.

(** ** Witnesses *)

Section Remote_witnesses.
#[local] Instance rw_liver : Platform tree := demo "liver" "userver".
Definition rw_pingutv : Platform tree := demo "pingutv" "userver".

(** A session that has authenticated as the daemon of [node]. *)
Definition rw_session (node : string) (d : Direction) : session tree :=
  set_msg1 (Some (Msg_out (PL := demo node "userver") Addr_default "auth" pt_empty))
    (session_init d "10.0.0.2" EmptyString).

Definition rw_prio (ss : sid) (p : string) : Msg tree :=
  Msg_parsed (PL := rw_liver) (pt_put ["cname"] "priority" pt_empty)
    (pt_add "priority" p pt_empty) (Some ss).

Definition rw_store (node : string) : store tree := <[1%positive := rw_session node incoming]> ∅.

Definition rw_raw : string :=
  match charvec (PL := rw_pingutv) (priority_msg (PL := rw_pingutv) high)
  with Ok raw => raw | _ => EmptyString end.

Lemma boss_exclusive_witness :
  roles (addSession (PL := rw_pingutv) 0 1%positive
           (remote_init "liver", rw_store "liver")).2.1 = (Some 1%positive, None, None).
Proof.
  destruct (boss_exclusive rw_liver rw_pingutv 0 0 1%positive 1%positive (remote_init "pingutv")
    (remote_init "liver") (rw_store "pingutv") (rw_store "liver")) as [H|H].
  - vm_compute. discriminate.
  - vm_compute. reflexivity.
  - vm_compute. reflexivity.
  - apply not_elem_of_empty.
  - apply not_elem_of_empty.
  - exact (proj2 (proj2 (proj2 H))).
  - exfalso. destruct H as (_ & _ & _ & H). vm_compute in H. discriminate.
Defined.

Lemma remote_wf_preserved_witness :
  remote_wf (addSession (PL := rw_pingutv) 0 1%positive
               (remote_init "liver", rw_store "liver")).2.1.
Proof.
  apply (remote_wf_preserved (PL := rw_pingutv) (remote_init "liver", rw_store "liver")).
  - split_and!; intros ss; discriminate.
  - apply not_held. split_and!; try discriminate; apply not_elem_of_empty.
Defined.

Definition rw_control : remote_t := set_C (Some 1%positive) (remote_init "pingutv").

Lemma control_session_relabelled_witness :
  ~ remote_wf (remote_handlePriorityMsg
      (rw_control, rw_store "pingutv", rw_prio 1%positive "10")).2.1.1.
Proof.
  eapply (control_session_relabelled (rw_prio 1%positive "10") 1%positive (rw_session "pingutv" incoming) high
    rw_control (rw_store "pingutv")); try reflexivity; try discriminate.
  left. reflexivity.
Defined.

Lemma high_queue_waits_for_boss_witness :
  let q := [mkQueuedMsg "m" remote 0] in
  q `prefix_of` m_outHighQueue
    (addSession 0 1%positive (set_outHigh q (remote_init "pingutv"), rw_store "pingutv")).2.1.
Proof.
  intros q.
  destruct (high_queue_waits_for_boss
    (set_outHigh q (remote_init "pingutv"), rw_store "pingutv")
    (addSession 0 1%positive (set_outHigh q (remote_init "pingutv"), rw_store "pingutv")).2)
    as [H|(now & ss & peer & He & Hp & Hlt & _)].
  - apply r_add.
  - exact H.
  - exfalso. unfold peer_of in Hp. simpl in Hp.
    destruct (decide (ss = 1%positive)) as [->|Hss].
    + injection Hp as <-. vm_compute in Hlt. discriminate.
    + unfold rw_store in Hp. rewrite lookup_insert_ne in Hp by congruence. discriminate.
Defined.

Lemma boss_flushes_high_queue_witness :
  (addSession (PL := rw_pingutv) 0 1%positive
     (set_outHigh [mkQueuedMsg "m" service 0] (remote_init "liver"), rw_store "liver")).1
  = Diverges.
Proof.
  apply (boss_flushes_high_queue (PL := rw_pingutv) 0 1%positive (rw_session "liver" incoming)
    (Msg_out (PL := demo "liver" "userver") Addr_default "auth" pt_empty) rw_raw
    (set_outHigh [mkQueuedMsg "m" service 0] (remote_init "liver")) (rw_store "liver"));
    try reflexivity; try (vm_compute; reflexivity).
  apply Exists_cons_hd. reflexivity.
Defined.
End Remote_witnesses.
