(* ===== verification/ChannelSafe.v ===== *)
(** * ChannelSafe: the methods of a channel do not run into undefined behaviour

    A channel is safe to use while the sessions it holds exist and are
    authenticated.  [chan_sound] is that, together with what its methods keep
    of every session. *)
From S2P Require Import Prelude Effects BetterEnum Priority AccuLine PTree UConfig.
From S2P Require Import Addr Demo Msg InputProcessor Session OutQueue SessionSafe Remote.

Section Stores.
Context {T : Type} {PL : Platform T}.
Implicit Types (s : session T) (st : store T).

(** The session exists and is authenticated. *)
Definition admitted st (id : sid) : Prop := exists s, st !! id = Some s /\ is_Some (m_msg1 s).

(** The session exists and is not being connected. *)
Definition open_session st (id : sid) : Prop :=
  exists s, st !! id = Some s /\ AConnect ∉ m_pending s.

Definition store_sound (N : closed_slot -> Prop) st : Prop :=
  forall id s, st !! id = Some s -> sess_sound N s.

(** The same sessions, each as it was or further on. *)
Definition st_grows st st' : Prop :=
  forall id, option_relation sess_grows (fun _ => False) (fun _ => False) (st !! id) (st' !! id).

#[export] Instance st_grows_preorder : PreOrder st_grows.
Proof.
  split.
  - intros st id. destruct (st !! id); simpl; [reflexivity|done].
  - intros st1 st2 st3 H1 H2 id. specialize (H1 id). specialize (H2 id).
    destruct (st1 !! id), (st2 !! id), (st3 !! id); simpl in *; try done. by etrans.
Qed.

Lemma st_grows_Some st st' id s :
  st_grows st st' -> st !! id = Some s -> exists s', st' !! id = Some s' /\ sess_grows s s'.
Proof.
  intros Hg Hs. specialize (Hg id). rewrite Hs in Hg. destruct (st' !! id) as [s'|]; [by exists s'|done].
Qed.

Lemma st_grows_inv st st' id s' :
  st_grows st st' -> st' !! id = Some s' -> exists s, st !! id = Some s /\ sess_grows s s'.
Proof.
  intros Hg Hs. specialize (Hg id). rewrite Hs in Hg. destruct (st !! id) as [s|]; [by exists s|done].
Qed.

Lemma st_grows_insert st id s s' :
  st !! id = Some s -> sess_grows s s' -> st_grows st (<[id := s']> st).
Proof.
  intros Hs Hg i. destruct (decide (i = id)) as [->|Hi].
  - by rewrite lookup_insert_eq, Hs.
  - rewrite lookup_insert_ne by done. destruct (st !! i); simpl; [reflexivity|done].
Qed.

Lemma admitted_grows st st' id : st_grows st st' -> admitted st id -> admitted st' id.
Proof.
  intros Hg (s & Hs & [m Hm]). destruct (st_grows_Some _ _ _ _ Hg Hs) as (s' & Hs' & G).
  exists s'. split; [done|]. exists m. by apply (sg_msg1 _ _ G).
Qed.

Lemma open_grows st st' id : st_grows st st' -> open_session st id -> open_session st' id.
Proof.
  intros Hg (s & Hs & Hc). destruct (st_grows_Some _ _ _ _ Hg Hs) as (s' & Hs' & G).
  exists s'. split; [done|]. by apply (sg_connect _ _ G).
Qed.

Lemma admitted_open N st id : store_sound N st -> admitted st id -> open_session st id.
Proof.
  intros Hst (s & Hs & Hm). exists s. split; [done|]. intros Hc.
  destruct (so_connect _ _ (Hst _ _ Hs) Hc) as (_ & _ & Hn). rewrite Hn in Hm. by destruct Hm.
Qed.

Lemma store_sound_insert N st id s :
  store_sound N st -> sess_sound N s -> store_sound N (<[id := s]> st).
Proof.
  intros Hst Hs i s'. destruct (decide (i = id)) as [->|Hi].
  - rewrite lookup_insert_eq. by intros [= <-].
  - rewrite lookup_insert_ne by done. apply Hst.
Qed.
End Stores.

(** ** The channel of [node], since the sessions were [st0] *)

Section Channels.
Context {T : Type} {PL : Platform T}.
Variables (N : closed_slot -> Prop) (node : string) (st0 : store T).
Implicit Types (r : remote_t) (st : store T).

(** No service message is kept: [takeOverMessages] gets to the end. *)
Definition movable r : Prop :=
  Forall (fun q => m_dt q <> service) (m_outHighQueue r) /\
  Forall (fun q => m_dt q <> service) (m_outLowQueue r).

Record chan_sound (rs : remote_t * store T) : Prop := {
  cs_node : m_node rs.1 = node;
  cs_held ss : ss ∈ held rs.1 -> admitted rs.2 ss;
  cs_queues : movable rs.1;
  cs_store : store_sound N rs.2;
  cs_grows : st_grows st0 rs.2;
}.

(** One of its sessions, or the one at hand. *)
Lemma on_session_sound {A} id (m : M (session T) A) r st s :
  chan_sound (r, st) -> st !! id = Some s -> method_safe N m s ->
  safe_at False chan_sound (on_store (on_session id m)) (r, st).
Proof.
  intros [Hn Hh Hqu Hst Hg] Hs Hm. unfold safe_at. rewrite (on_store_ok _ _ _ _ _ Hs).
  unfold method_safe, safe_at in Hm.
  assert (forall s', sess_sound N s' /\ sess_grows s s' -> chan_sound (r, <[id := s']> st)) as Hc.
  { intros s' [H1 H2]. pose proof (st_grows_insert _ _ _ _ Hs H2) as Hg'. split; simpl in *.
    - done.
    - intros x Hx. by eapply admitted_grows, Hh.
    - done.
    - by apply store_sound_insert.
    - by etrans. }
  destruct (m s) as [[a|e| |] s']; naive_solver.
Qed.

Lemma put_sound id now msg r st :
  chan_sound (r, st) -> admitted st id ->
  safe_at False chan_sound (on_store (on_session id (putOutQueue now msg))) (r, st).
Proof.
  intros Hc Ha. destruct (admitted_open _ _ _ (cs_store _ Hc) Ha) as (s & Hs & Hp).
  destruct Ha as (s' & Hs' & Hm). simpl in *. rewrite Hs in Hs'. injection Hs' as <-.
  eapply on_session_sound; [done..|]. apply putOutQueue_safe; [by apply (cs_store _ Hc id)|done|by left].
Qed.

Lemma close_sound id reason r st :
  chan_sound (r, st) -> open_session st id ->
  safe_at False chan_sound (on_store (on_session id (gracefullClose reason))) (r, st).
Proof.
  intros Hc (s & Hs & Hp). eapply on_session_sound; [done..|].
  apply gracefullClose_safe; [by apply (cs_store _ Hc id)|done].
Qed.

Lemma on_remote_sound f r st :
  chan_sound (r, st) -> m_node (f r) = m_node r -> (movable r -> movable (f r)) ->
  (forall ss, ss ∈ held (f r) -> ss ∈ held r \/ admitted st ss) -> chan_sound (f r, st).
Proof.
  intros [Hn Hh Hqu Hst Hg] H1 Hm H2. split; simpl in *; [congruence| |by apply Hm|done|done].
  intros ss Hss. by destruct (H2 ss Hss); auto.
Qed.

Lemma role_sound (set : option sid -> remote_t -> remote_t) ss r st :
  chan_sound (r, st) -> admitted st ss ->
  (set = set_H \/ set = set_L \/ set = set_C) -> chan_sound (set (Some ss) r, st).
Proof.
  intros Hc Ha Hset. apply (on_remote_sound (set (Some ss))); [done|by destruct Hset as [->|[->| ->]]..|].
  intros x Hx. assert (x ∈ held r \/ x = ss) as [H| ->]; [|by left|by right].
  revert Hx. unfold held. destruct Hset as [->|[->| ->]]; simpl; set_solver.
Qed.

(** One of the two queues of a channel. *)
Definition channel_queue (get : remote_t -> list QueuedMsg)
    (set : list QueuedMsg -> remote_t -> remote_t) : Prop :=
  get = m_outHighQueue /\ set = set_outHigh \/ get = m_outLowQueue /\ set = set_outLow.

Lemma take_queue_sound now id get set r st :
  chan_sound (r, st) -> admitted st id -> channel_queue get set ->
  safe_at False chan_sound (take_queue now id get set) (r, st).
Proof.
  intros Hc Ha Hset. unfold safe_at, take_queue. destruct Ha as (s & Hs & Hm). simpl in *.
  rewrite Hs. destruct Hc as [Hn Hh [Hq1 Hq2] Hst Hg]. simpl in *.
  destruct (takeOverMessages_safe N now (get r) s (Hst id s Hs) Hm) as [[He _]|(s' & E & H1 & H2)].
  { apply Exists_exists in He as (q & Hin & Hq). exfalso.
    destruct Hset as [[-> ->]|[-> ->]]; rewrite Forall_forall in Hq1, Hq2; [by apply (Hq1 q)|by apply (Hq2 q)]. }
  rewrite E. pose proof (st_grows_insert _ _ _ _ Hs H2) as Hg'. split; simpl.
  - by destruct Hset as [[-> ->]|[-> ->]].
  - intros x Hx. eapply admitted_grows; [done|]. apply Hh.
    by destruct Hset as [[-> ->]|[-> ->]].
  - by destruct Hset as [[-> ->]|[-> ->]]; split.
  - by apply store_sound_insert.
  - by etrans.
Qed.

Lemma assign_role_sound now ss r st :
  chan_sound (r, st) -> admitted st ss -> safe_at False chan_sound (assign_role now ss) (r, st).
Proof.
  intros Hc Ha.
  assert (forall msg r1 get set, chan_sound (r1, st) -> channel_queue get set ->
    safe_at False chan_sound (on_store (on_session ss (putOutQueue now msg)) ;;
      take_queue now ss get set) (r1, st)) as Hpt.
  { intros msg r1 get set H1 H2. apply safe_at_bind; [by apply put_sound|].
    intros [] [r2 st2] E Hc2. apply take_queue_sound; [done| |done].
    unfold on_store, zoom, on_session in E. simpl in E. destruct Ha as (s & Hs & [m Hm]). rewrite Hs in E.
    destruct (putOutQueue now msg s) as [o s'] eqn:E'. injection E as -> <- <-.
    exists s'. rewrite lookup_insert_eq. split; [done|]. exists m.
    rewrite <-Hm. destruct (putOutQueue_inv _ _ _ _ E') as [raw Hraw].
    rewrite (putOutQueue_ok _ _ _ _ Hraw) in E'. injection E' as <-. by destruct (outQueueEmpty s). }
  unfold assign_role. eapply safe_at_ok; [done|]. eapply safe_at_ok; [done|]. simpl.
  repeat case_bool_decide; [..|destruct (control_wanted _ _ _)].
  - eapply safe_at_ok; [done|]. apply Hpt; [apply (role_sound set_H)|left]; auto.
  - eapply safe_at_ok; [done|]. apply Hpt; [apply (role_sound set_L)|right]; auto.
  - eapply safe_at_ok; [done|]. apply put_sound; [|done]. apply (role_sound set_C); auto.
  - apply close_sound; [done|]. by apply (admitted_open N), Ha; apply Hc.
Qed.

Lemma addSession_sound now ss r st :
  N (SlotRemote node) -> chan_sound (r, st) -> admitted st ss -> safe_at False chan_sound (addSession now ss) (r, st).
Proof.
  intros HN Hc Ha. unfold safe_at. rewrite addSession_eq.
  pose proof Ha as (s & Hs & [m Hm]). unfold peer_of. rewrite Hs. simpl. rewrite Hm. simpl.
  assert (N (SlotRemote (m_node r))) as Hn by (pose proof (cs_node _ Hc) as E; simpl in E; by rewrite E).
  destruct (connect_closed_safe N (SlotRemote (m_node r)) s) as [H1 H2]; [by apply (cs_store _ Hc ss)|done|].
  set (st1 := st_slot (m_node r) ss st).
  assert (st1 = <[ss := connect_closed (SlotRemote (m_node r)) s]> st) as Hst1
    by (unfold st1, st_slot; by rewrite Hs).
  pose proof (st_grows_insert _ _ _ _ Hs H2) as Hg. rewrite <-Hst1 in Hg.
  assert (chan_sound (r, st1)) as Hc1.
  { destruct Hc as [Hn' Hh Hqu Hst Hg0]. split; simpl in *; [done| |done| |by etrans].
    - intros x Hx. by eapply admitted_grows, Hh.
    - rewrite Hst1. by apply store_sound_insert. }
  assert (admitted st1 ss) as Ha1 by (by eapply admitted_grows).
  destruct (str_lt _ _); [|by apply assign_role_sound].
  apply (on_remote_sound (fun r => set_wait ({[ ss ]} ∪ m_sessionWaitForRemote r) r)); [done..|].
  intros x Hx. assert (x ∈ held r \/ x = ss) as [H| ->]; [|by left|by right].
  revert Hx. unfold held. simpl. set_solver.
Qed.

Lemma QueuedMsg_of_harmless now (msg : Msg T) :
  match QueuedMsg_of now msg with
  | Ok qm => m_dt qm = destType msg
  | Throw e => foreign e
  | _ => False
  end.
Proof.
  unfold QueuedMsg_of. pose proof (charvec_harmless msg) as Hh. by destruct (charvec msg).
Qed.

Lemma send_sound now msg r st :
  chan_sound (r, st) -> destType msg <> service ->
  safe_at False chan_sound (remote_send now msg) (r, st).
Proof.
  intros Hc Hdt. unfold remote_send. eapply safe_at_ok; [done|]. simpl.
  destruct (remote_connected r) eqn:Hr; simpl.
  - unfold remote_connected in Hr. destruct (m_sessionH r) as [id|] eqn:HH; [|done].
    apply put_sound; [done|]. apply (cs_held _ Hc). unfold held. simpl. rewrite HH. set_solver.
  - unfold safe_at, bind, lift. pose proof (QueuedMsg_of_harmless now msg).
    destruct (QueuedMsg_of now msg) as [qm|e| |]; try done.
    apply (on_remote_sound (fun r => set_outHigh (m_outHighQueue r ++ [qm]) r)); [done|done| |by left].
    intros [H1 H2]. split; [|done]. apply Forall_app; split; [done|]. apply Forall_singleton. congruence.
Qed.

Lemma closed_sound id r st :
  chan_sound (r, st) -> safe_at False chan_sound (on_remote (remote_onSessionClosed id)) (r, st).
Proof.
  intros Hc. apply (on_remote_sound (remote_onSessionClosed id)); [done..|].
  intros x Hx. left. revert Hx. unfold held, remote_onSessionClosed, clear_if. simpl.
  repeat case_decide; set_solver.
Qed.

Lemma overtaken_sound old r st :
  chan_sound (r, st) -> (forall id, old = Some id -> admitted st id) ->
  safe_at False chan_sound (close_overtaken old) (r, st).
Proof.
  intros Hc Ho. destruct old as [id|]; [|exact Hc]. apply close_sound; [done|].
  by apply (admitted_open N), Ho; [apply Hc|].
Qed.

(** The session is given the announced role, the one that had it is closed. *)
Lemma relabel_sound set get ss r st :
  chan_sound (r, st) -> admitted st ss ->
  (set = set_H /\ get = m_sessionH \/ set = set_L /\ get = m_sessionL \/
   set = set_C /\ get = m_sessionC) ->
  safe_at False chan_sound (on_remote (set (Some ss)) ;; close_overtaken (get r)) (r, st).
Proof.
  intros Hc Ha Hset. eapply safe_at_ok; [done|]. apply overtaken_sound.
  - apply role_sound; [done|done|]. naive_solver.
  - intros id Hid. apply (cs_held _ Hc). unfold held. simpl.
    destruct Hset as [[-> ->]|[[-> ->]|[-> ->]]]; rewrite Hid; set_solver.
Qed.

Lemma with_msg_sound (msg : Msg T) (m : M (remote_t * store T) unit) r st :
  safe_at False chan_sound m (r, st) ->
  safe_at False (fun s : remote_t * store T * Msg T => chan_sound s.1)
    (zoom fst (fun rs (s : remote_t * store T * Msg T) => (rs, s.2)) m) ((r, st), msg).
Proof. intros Hm. unfold safe_at, zoom in *. simpl. by destruct (m (r, st)) as [[]?]. Qed.

Lemma pbody_harmless (msg : Msg T) : harmless (pbody msg).1.
Proof. unfold pbody. destruct (m_body msg); [by destruct (read_json _)|done]. Qed.

(** A message from an authenticated session. *)
Lemma priority_sound msg r st :
  chan_sound (r, st) -> (forall ss, m_origin msg = Some ss -> admitted st ss) ->
  safe_at False (fun s => chan_sound s.1) remote_handlePriorityMsg ((r, st), msg).
Proof.
  intros Hc Hor. unfold remote_handlePriorityMsg.
  eapply safe_at_ok; [done|]. eapply safe_at_ok; [done|]. cbn [fst snd].
  destruct (m_origin msg) as [ss|] eqn:Ho; [|exact Hc]. cbn [mbind option_bind].
  pose proof (Hor ss eq_refl) as Ha. pose proof Ha as (s & Hs & _). rewrite Hs. simpl.
  set (r1 := unwait ss r).
  assert (chan_sound (r1, st)) as Hc1.
  { apply (on_remote_sound (unwait ss)); [done..|]. intros x Hx. left.
    revert Hx. unfold held, unwait. simpl. set_solver. }
  eapply (safe_at_ok _ _ _ _ _ tt (r1, st, msg)); [done|]. eapply safe_at_ok; [done|]. cbn [fst snd].
  destruct (_ || _); [exact Hc1|].
  unfold safe_at at 1, bind at 1, zoom at 1. simpl. pose proof (pbody_harmless msg) as Hpb.
  destruct (pbody msg) as [[body|e| |] msg']; try done. simpl.
  destruct (default _ _); apply (with_msg_sound msg').
  - apply close_sound; [done|]. by apply (admitted_open N), Ha; apply Hc.
  - apply (relabel_sound set_L m_sessionL ss r1); auto.
  - apply (relabel_sound set_H m_sessionH ss r1); auto.
  - apply (relabel_sound set_C m_sessionC ss r1); auto.
Qed.
End Channels.
