(* ===== verification/Outgoing.v ===== *)
(** * OutgoingManager: which hosts to connect to, and when
    (src/uzel/OutgoingManager.h, src/uzel/OutgoingManager.cpp)

    The manager keeps the status of every host of the configuration.  A timer
    tick resolves the hosts that are due; a resolved host gets the sessions it
    lacks.  The server that owns the sessions is the class [OutHost], with its
    laws in [OutHostLaws].  The timer is what boost::asio documents: [m_wait]
    is the deadline of the pending wait, [m_fired] counts the handlers queued
    because their wait has expired; changing the deadline cancels the pending
    wait, whose handler then runs with an error and does nothing.  Times are
    nanoseconds of [std::chrono::steady_clock]. *)
From S2P Require Import Prelude Effects BetterEnum Priority AccuLine PTree UConfig.
From S2P Require Import Addr Demo Msg InputProcessor Session.

Definition RefreshHostStatus_sec : Z := 15.
Definition DelayReconnect_sec : Z := 30.
Definition size_t (v : Z) : Z := (v mod 18446744073709551616)%Z.

Record RemoteHostToConnect := mkHost {
  h_service : string;              (* m_service *)
  h_addr : option ip_address;      (* m_addr *)
  m_status : HostStatus;
  m_statusChangeTS : Z;
  h_wanted : Z;                    (* m_wantedConnections, unsigned *)
}.

(** The constructor; the host name is the key in [m_connectTo]. *)
Definition RemoteHostToConnect_init (now : Z) (service : string) (wanted : Z)
    : RemoteHostToConnect := mkHost service None initial now wanted.

Definition setStatus (now : Z) (hs : HostStatus) (h : RemoteHostToConnect)
    : RemoteHostToConnect := mkHost (h_service h) (h_addr h) hs now (h_wanted h).
Definition setAddr (a : ip_address) (h : RemoteHostToConnect) : RemoteHostToConnect :=
  mkHost (h_service h) (Some a) (m_status h) (m_statusChangeTS h) (h_wanted h).

Record OutgoingManager := mkOut {
  m_connectTo : gmap string RemoteHostToConnect;
  m_port : Z;
  m_wantedConnections : Z;
  m_wait : option Z;           (* m_timer: deadline of the pending async_wait *)
  m_fired : nat;               (* handlers of expired waits, queued *)
  m_posted : nat;              (* lambdas of poke() posted on m_strand *)
  m_resolves : list string;    (* async_resolve in flight, by host name *)
}.

(** The constructor. *)
Definition OutgoingManager_init (port wanted : Z) : OutgoingManager :=
  mkOut ∅ port wanted None 0 0 [].

Definition set_connectTo c o := mkOut c (m_port o) (m_wantedConnections o) (m_wait o)
  (m_fired o) (m_posted o) (m_resolves o).
Definition set_wait_until w o := mkOut (m_connectTo o) (m_port o) (m_wantedConnections o) w
  (m_fired o) (m_posted o) (m_resolves o).
Definition set_fired n o := mkOut (m_connectTo o) (m_port o) (m_wantedConnections o) (m_wait o)
  n (m_posted o) (m_resolves o).
Definition set_posted n o := mkOut (m_connectTo o) (m_port o) (m_wantedConnections o) (m_wait o)
  (m_fired o) n (m_resolves o).
Definition set_resolves l o := mkOut (m_connectTo o) (m_port o) (m_wantedConnections o)
  (m_wait o) (m_fired o) (m_posted o) l.

(** A method called through the shared pointer [rh]. *)
Definition on_host (hname : string) (f : RemoteHostToConnect -> RemoteHostToConnect)
    (o : OutgoingManager) : OutgoingManager :=
  set_connectTo (alter f hname (m_connectTo o)) o.

Section Outgoing.
Context {T : Type} {PL : Platform T}.

(** [startConnecting(hname)]; [emplace] keeps an entry that is there. *)
Definition add_host (now : Z) (hname : string) (o : OutgoingManager) : OutgoingManager :=
  if isLocalNode hname then o
  else
    match m_connectTo o !! hname with
    | Some _ => o
    | None =>
        set_connectTo (<[hname := RemoteHostToConnect_init now (dec_string (m_port o))
                                    (m_wantedConnections o)]> (m_connectTo o)) o
    end.

Definition startResolving (now : Z) (hname : string) (o : OutgoingManager)
    : OutgoingManager :=
  let o := on_host hname (setStatus now resolving) o in
  set_resolves (m_resolves o ++ [hname]) o.

(** The [switch] of [startConnecting()] for one host. *)
Definition due (now : Z) (h : RemoteHostToConnect) : bool :=
  match m_status h with
  | initial => true
  | connection_error | resolving_error | closed =>
      (DelayReconnect_sec <? Z.quot (now - m_statusChangeTS h) 1000000000)%Z
  | connecting | resolving | connected => false
  end.

(** [for(auto && hit : m_connectTo)] *)
Definition startConnecting (now : Z) (o : OutgoingManager) : OutgoingManager :=
  foldl (fun o hit => if due now hit.2 then startResolving now hit.1 o else o) o
    (map_to_list (m_connectTo o)).

(** [expires_after] cancels the pending wait; [async_wait] starts one. *)
Definition scheduleNext (now secs : Z) (o : OutgoingManager) : OutgoingManager :=
  set_wait_until (Some (now + seconds secs)%Z) o.

Definition start_manager (now : Z) (o : OutgoingManager) : OutgoingManager :=
  scheduleNext now 0 o.

Definition poke (o : OutgoingManager) : OutgoingManager := set_posted (S (m_posted o)) o.

(** The posted lambda: [expires_after] alone. *)
Definition poke_handler (o : OutgoingManager) : OutgoingManager := set_wait_until None o.

(** The handler of the wait. *)
Definition tick (now : Z) (o : OutgoingManager) : OutgoingManager :=
  scheduleNext now RefreshHostStatus_sec (startConnecting now o).

(** The lambda connected to [s_closed] of an outgoing session. *)
Definition host_closed (now : Z) (hname : string) (o : OutgoingManager) : OutgoingManager :=
  poke (on_host hname (setStatus now closed) o).

(** What [connectResolved] finds out from the sessions with the address. *)
Inductive verdict := Connected | WaitForAuth | Create (sessionsToCreate : Z).

(** The loop over the sessions: [None] is the early return. *)
Fixpoint scan_sessions (connectedFn : string -> option bool) (l : list (session T))
    (sessions unauthsessions : Z) : option (Z * Z) :=
  match l with
  | [] => Some (sessions, unauthsessions)
  | sit :: l' =>
      if decide (m_direction sit = outgoing) then
        let sessions := size_t (sessions + 1) in
        match m_msg1 sit with
        | None => scan_sessions connectedFn l' sessions (size_t (unauthsessions + 1))
        | Some m =>
            match connectedFn (m_nodename (m_from m)) with
            | Some true => None
            | _ => scan_sessions connectedFn l' sessions unauthsessions
            end
        end
      else scan_sessions connectedFn l' sessions unauthsessions
  end.

Definition judge (connectedFn : string -> option bool) (wanted : Z)
    (found : list (session T)) : verdict :=
  match found with
  | [] => Create (size_t wanted)
  | _ =>
      match scan_sessions connectedFn found 0 0 with
      | None => Connected
      | Some (sessions, unauthsessions) =>
          if (wanted <=? sessions)%Z then
            if (0 <? unauthsessions)%Z then WaitForAuth else Create 1
          else Create (size_t (wanted - sessions))
      end
  end.
End Outgoing.

(** The owner of the sessions, as the manager sees it. *)
Class OutHost (T W : Type) := {
  out_get : W -> OutgoingManager;
  out_set : OutgoingManager -> W -> W;
  out_now : W -> Z;
  out_store : W -> gmap sid (session T);
  (** the sessions of [m_ipToSession] with the address, in iteration order *)
  out_found : ip_address -> W -> list (session T);
  out_connectedFn : W -> string -> option bool;
  (** [std::make_shared<session>(...)] *)
  out_make_session : Direction -> ip_address -> string -> M W sid;
  (** the slot of [s_sessionCreated] *)
  out_sessionCreated : sid -> M W unit;
  out_on_session : sid -> M (session T) unit -> M W unit;
}.

Section ConnectResolved.
Context {T W : Type} {PL : Platform T} {OH : OutHost T W}.

Definition on_out (f : Z -> OutgoingManager -> OutgoingManager) : M W unit :=
  modify (fun w => out_set (f (out_now w) (out_get w)) w).

(** The body of [while(sessionsToCreate != 0)]. *)
Definition create_session (addr : ip_address) (hname : string) : M W unit :=
  unauth <- out_make_session outgoing addr hname ;;
  out_sessionCreated unauth ;;
  out_on_session unauth (modify (connect_closed (SlotHost hname))) ;;
  out_on_session unauth startConnection.

Fixpoint create_sessions (n : nat) (addr : ip_address) (hname : string) : M W unit :=
  match n with
  | O => ret tt
  | S n' => create_session addr hname ;; create_sessions n' addr hname
  end.

(** [rezit]: the address of the first endpoint, [None] when [ec] is set. *)
Definition connectResolved (rezit : option ip_address) (hname : string) : M W unit :=
  match rezit with
  | None =>
      on_out (fun now => on_host hname (setStatus now resolving_error)) ;;
      on_out (fun _ => poke)
  | Some addr =>
      on_out (fun _ => on_host hname (setAddr addr)) ;;
      rh <- gets (fun w => m_connectTo (out_get w) !! hname) ;;
      match rh with
      | None => ub
      | Some rh =>
          found <- gets (out_found addr) ;;
          fn <- gets out_connectedFn ;;
          match judge fn (h_wanted rh) found with
          | Connected =>
              when (negb (bool_decide (m_status rh = connected)))
                (on_out (fun now => on_host hname (setStatus now connected)))
          | WaitForAuth =>
              when (negb (bool_decide (m_status rh = connecting)))
                (on_out (fun now => on_host hname (setStatus now connecting)))
          | Create sessionsToCreate =>
              on_out (fun now => on_host hname (setStatus now connecting)) ;;
              create_sessions (Z.to_nat sessionsToCreate) addr hname ;;
              on_out (fun now => on_host hname (setStatus now connecting))
          end
      end
  end.
End ConnectResolved.

(** The events of the timer and its strand. *)
Inductive timer_step {T} {PL : Platform T} (now : Z) : relation OutgoingManager :=
  | tm_expire d o :
      m_wait o = Some d -> (d <= now)%Z ->
      timer_step now o (set_fired (S (m_fired o)) (set_wait_until None o))
  | tm_fired n o : m_fired o = S n -> timer_step now o (tick now (set_fired n o))
  | tm_poked n o : m_posted o = S n -> timer_step now o (poke_handler (set_posted n o)).

(** The life of the manager between [start()] and the end of the program. *)
Inductive om_step {T} {PL : Platform T} : relation (Z * OutgoingManager) :=
  | om_clock now now' o : (now <= now')%Z -> om_step (now, o) (now', o)
  | om_timer now o o' : timer_step now o o' -> om_step (now, o) (now, o')
  | om_poke now o : om_step (now, o) (now, poke o)
  | om_closed now hname o : om_step (now, o) (now, host_closed now hname o)
  | om_status now hname hs o :
      om_step (now, o) (now, on_host hname (setStatus now hs) o)
  | om_resolved now l1 hname l2 o :
      m_resolves o = l1 ++ hname :: l2 -> om_step (now, o) (now, set_resolves (l1 ++ l2) o)
  | om_add now hname o : om_step (now, o) (now, add_host now hname o).

(** What the manager relies on; the server's instance is in the file of the
    server. *)
Class OutHostLaws (T W : Type) {OH : OutHost T W} := {
  out_get_set o w : out_get (out_set o w) = o;
  out_now_set o w : out_now (out_set o w) = out_now w;
  out_store_set o w : out_store (out_set o w) = out_store w;
  out_found_set addr o w : out_found addr (out_set o w) = out_found addr w;
  out_connectedFn_set o w : out_connectedFn (out_set o w) = out_connectedFn w;
  out_make_ok d a h w : exists id w',
    out_make_session d a h w = (Ok id, w') /\ out_store w !! id = None /\
    out_store w' = <[id := session_init d a h]> (out_store w) /\
    out_get w' = out_get w /\ out_now w' = out_now w;
  out_created_ok id s w : out_store w !! id = Some s ->
    exists w', out_sessionCreated id w = (Ok tt, w') /\
      out_store w' = <[id := connect_auth (connect_closed SlotServer s)]> (out_store w) /\
      out_get w' = out_get w /\ out_now w' = out_now w;
  out_on_ok id m s w : out_store w !! id = Some s ->
    exists w', out_on_session id m w = ((m s).1, w') /\
      out_store w' = <[id := (m s).2]> (out_store w) /\
      out_get w' = out_get w /\ out_now w' = out_now w;
}.

(** ** Lemmas *)

Section Judge.
Context {T : Type} {PL : Platform T}.
Variable connectedFn : string -> option bool.
Implicit Types (l : list (session T)) (s : session T).

Definition is_outgoing s : bool := bool_decide (m_direction s = outgoing).
Definition is_unauth s : bool :=
  is_outgoing s && match m_msg1 s with None => true | Some _ => false end.

(** An outgoing session authenticated with a node that is connected. *)
Definition settles s : bool :=
  is_outgoing s &&
  match m_msg1 s with
  | None => false
  | Some m => bool_decide (connectedFn (m_nodename (m_from m)) = Some true)
  end.

Definition count (P : session T -> bool) l : Z := Z.of_nat (length (filter P l)).

Lemma count_cons P s l : count P (s :: l) = ((if P s then 1 else 0) + count P l)%Z.
Proof. unfold count. rewrite filter_cons. destruct (P s); simpl; lia. Qed.

Lemma count_bound P l : (0 <= count P l <= Z.of_nat (length l))%Z.
Proof. unfold count. pose proof (length_filter P l). lia. Qed.

Lemma size_t_small v : (0 <= v < 18446744073709551616)%Z -> size_t v = v.
Proof. apply Z.mod_small. Qed.

Lemma scan_sessions_eq l a b :
  (0 <= b <= a)%Z -> (a + Z.of_nat (length l) < 18446744073709551616)%Z ->
  scan_sessions connectedFn l a b =
  if existsb settles l then None
  else Some (a + count is_outgoing l, b + count is_unauth l)%Z.
Proof.
  revert a b; induction l as [|s l IH]; intros a b Hb Ha; cbn [scan_sessions existsb length] in *.
  { unfold count. simpl. by rewrite !Z.add_0_r. }
  rewrite !count_cons.
  assert (is_outgoing s = bool_decide (m_direction s = outgoing)) as Ho by done.
  assert (is_unauth s = is_outgoing s && negb (bool_decide (is_Some (m_msg1 s)))) as Hu
    by (unfold is_unauth; destruct (m_msg1 s); done).
  rewrite Hu. unfold settles at 1. rewrite Ho.
  destruct (decide (m_direction s = outgoing)) as [Hd|Hd].
  - rewrite (bool_decide_eq_true_2 _ Hd), (size_t_small (a + 1)) by lia. simpl.
    destruct (m_msg1 s) as [m|]; simpl.
    + destruct (decide (connectedFn (m_nodename (m_from m)) = Some true)) as [Hf|Hf];
        [by rewrite Hf|].
      rewrite (bool_decide_eq_false_2 _ Hf). simpl.
      trans (scan_sessions connectedFn l (a + 1) b); [by destruct (connectedFn _) as [[]|]|].
      rewrite IH by lia. destruct (existsb _ _); [done|]. by rewrite <-Z.add_assoc.
    + rewrite (size_t_small (b + 1)), IH by lia. destruct (existsb _ _); [done|].
      by rewrite <-!Z.add_assoc.
  - rewrite (bool_decide_eq_false_2 _ Hd). simpl.
    rewrite IH by lia. by destruct (existsb _ _).
Qed.
End Judge.

Section Manager_lemmas.
Context {T : Type} {PL : Platform T}.
Implicit Types (o : OutgoingManager) (l : list (string * RemoteHostToConnect)).

(** The status change of one tick. *)
Definition refresh (now : Z) (h : RemoteHostToConnect) : RemoteHostToConnect :=
  if due now h then setStatus now resolving h else h.

(** The names of the hosts that are due. *)
Definition due_hosts (now : Z) (hosts : list (string * RemoteHostToConnect)) : list string :=
  omap (fun hit => if due now hit.2 then Some hit.1 else None) hosts.

Lemma startConnecting_loop now l o :
  NoDup l.*1 -> (forall hit, hit ∈ l -> m_connectTo o !! hit.1 = Some hit.2) ->
  let o' := foldl (fun o hit => if due now hit.2 then startResolving now hit.1 o else o) o l in
  o' = set_resolves (m_resolves o ++ due_hosts now l)
         (set_connectTo (m_connectTo o') o) /\
  forall h, m_connectTo o' !! h =
    if decide (h ∈ l.*1) then refresh now <$> m_connectTo o !! h else m_connectTo o !! h.
Proof.
  revert o; induction l as [|[h rh] l IH]; intros o Hnd Hl.
  { simpl. rewrite app_nil_r. by destruct o. }
  rewrite fmap_cons in Hnd. apply NoDup_cons in Hnd as [Hh Hnd]. simpl in Hh.
  assert (m_connectTo o !! h = Some rh) as Hrh by (apply (Hl (h, rh)); by left).
  cbn [foldl fst snd due_hosts omap list_omap].
  destruct (due now rh) eqn:Hd; simpl.
  - destruct (IH (startResolving now h o) Hnd) as [He Hlk].
    { intros hit Hin. simpl. rewrite lookup_alter_ne; [apply Hl; by right|].
      intros ->. apply Hh. by apply list_elem_of_fmap_2. }
    rewrite He at 1. simpl. rewrite <-app_assoc. split; [done|].
    intros k. rewrite Hlk. simpl. destruct (decide (k = h)) as [->|Hk].
    + rewrite decide_False, decide_True by (set_solver || done).
      rewrite lookup_alter_eq, Hrh. simpl. unfold refresh. by rewrite Hd.
    + rewrite lookup_alter_ne by done. by repeat case_decide; set_solver.
  - destruct (IH o Hnd) as [He Hlk].
    { intros hit Hin. apply Hl. by right. }
    split; [exact He|]. intros k. rewrite Hlk.
    destruct (decide (k = h)) as [->|Hk]; [|by repeat case_decide; set_solver].
    rewrite decide_False, decide_True by (set_solver || done).
    rewrite Hrh. simpl. unfold refresh. by rewrite Hd.
Qed.

Lemma startConnecting_eq now o :
  startConnecting now o =
  set_resolves (m_resolves o ++ due_hosts now (map_to_list (m_connectTo o)))
    (set_connectTo (refresh now <$> m_connectTo o) o).
Proof.
  pose proof (startConnecting_loop now (map_to_list (m_connectTo o)) o) as [He Hlk].
  - apply NoDup_fst_map_to_list.
  - intros [h rh] Hin. by apply elem_of_map_to_list.
  - unfold startConnecting. rewrite He at 1. do 2 f_equal.
    apply map_eq. intros h. rewrite Hlk, lookup_fmap. case_decide as Hin; [done|].
    destruct (m_connectTo o !! h) as [rh|] eqn:Hrh; [|done].
    destruct Hin. apply list_elem_of_fmap. exists (h, rh). split; [done|].
    by apply elem_of_map_to_list.
Qed.

Lemma due_delay now h :
  (0 <= now - m_statusChangeTS h)%Z ->
  due now h = true <->
  m_status h = initial \/
  ((m_status h = connection_error \/ m_status h = resolving_error \/ m_status h = closed) /\
   (31 * 1000000000 <= now - m_statusChangeTS h)%Z).
Proof.
  intros Hts. unfold due, DelayReconnect_sec.
  rewrite Z.quot_div_nonneg by lia.
  assert (30 < (now - m_statusChangeTS h) / 1000000000 <->
          31 * 1000000000 <= now - m_statusChangeTS h)%Z as Hq.
  { pose proof (Z.div_mod (now - m_statusChangeTS h) 1000000000).
    pose proof (Z.mod_pos_bound (now - m_statusChangeTS h) 1000000000). lia. }
  destruct (m_status h); rewrite ?Z.ltb_lt, ?Hq; intuition discriminate.
Qed.
End Manager_lemmas.

Section Outgoing_props.
Context {T : Type} {PL : Platform T}.
Implicit Types (o : OutgoingManager).

(** C19: What connectResolved decides from the sessions with the address:
    all wanted sessions when there is none; nothing when one outgoing
    session is authenticated with a connected node; the missing outgoing
    ones when there are too few; waiting while some outgoing one is not
    authenticated; else one more.  The unsigned subtraction never wraps: at
    most the wanted number (or one) of sessions is created.  The comment in
    the function says otherwise of the last cases (two sessions; with one
    wanted connection, stop at one authenticated session): a finding. *)
Theorem judge_spec connectedFn wanted (found : list (session T)) :
  (0 <= wanted < 4294967296)%Z -> (Z.of_nat (length found) < 18446744073709551616)%Z ->
  let sessions := count is_outgoing found in
  judge connectedFn wanted found =
    (if decide (found = []) then Create wanted
     else if existsb (settles connectedFn) found then Connected
     else if decide (sessions < wanted)%Z then Create (wanted - sessions)
     else if decide (0 < count is_unauth found)%Z then WaitForAuth else Create 1) /\
  (forall n, judge connectedFn wanted found = Create n -> (0 <= n <= Z.max 1 wanted)%Z).
Proof.
  intros Hw Hl sessions.
  assert (judge connectedFn wanted found =
    (if decide (found = []) then Create wanted
     else if existsb (settles connectedFn) found then Connected
     else if decide (sessions < wanted)%Z then Create (wanted - sessions)
     else if decide (0 < count is_unauth found)%Z then WaitForAuth else Create 1)) as Hj.
  { unfold judge. destruct found as [|s l]; [by rewrite size_t_small by lia|].
    rewrite scan_sessions_eq by (done || lia). rewrite decide_False by done.
    destruct (existsb _ _); [done|]. rewrite !Z.add_0_l. fold sessions.
    pose proof (count_bound is_outgoing (s :: l)).
    case_decide.
    - destruct (Z.leb_spec wanted sessions); [lia|]. by rewrite size_t_small by lia.
    - destruct (Z.leb_spec wanted sessions); [|lia].
      case_decide; destruct (Z.ltb_spec 0 (count is_unauth (s :: l))); (done || lia). }
  split; [exact Hj|]. rewrite Hj. intros n.
  pose proof (count_bound is_outgoing found). fold sessions in H.
  repeat case_match; intros [= <-]; lia.
Qed.

(** The verdict does not depend on the order in which the unordered set of
    sessions is traversed. *)
Lemma judge_order_independent connectedFn wanted (found found' : list (session T)) :
  found ≡ₚ found' -> (Z.of_nat (length found) < 18446744073709551616)%Z ->
  judge connectedFn wanted found = judge connectedFn wanted found'.
Proof.
  intros Hp Hl. pose proof (Permutation_length Hp) as Hlen.
  assert (forall P : session T -> bool, count P found = count P found') as Hc.
  { intros P. unfold count. f_equal. apply Permutation_length.
    by apply filter_Permutation. }
  assert (existsb (settles connectedFn) found = existsb (settles connectedFn) found') as He.
  { apply eq_iff_eq_true. rewrite !existsb_exists. by setoid_rewrite Hp. }
  unfold judge. destruct found as [|s l], found' as [|s' l']; try done.
  by rewrite !scan_sessions_eq, He, !Hc by (done || simpl in *; lia).
Qed.

(** C30: A tick starts resolving exactly the hosts that are due, once each,
    leaves the others alone and arms the timer fifteen seconds ahead; a host
    is due when it has never been tried, or when it failed or was closed and
    more than thirty whole seconds have passed. *)
Theorem tick_spec now o :
  let o' := tick now o in
  (forall h, m_connectTo o' !! h = refresh now <$> m_connectTo o !! h) /\
  m_resolves o' =
    m_resolves o ++ due_hosts now (map_to_list (m_connectTo o)) /\
  m_wait o' = Some (now + seconds 15)%Z /\
  (forall rh, (0 <= now - m_statusChangeTS rh)%Z ->
     refresh now rh =
     if decide (m_status rh = initial \/
                (m_status rh ∈ [connection_error; resolving_error; closed] /\
                 (seconds 31 <= now - m_statusChangeTS rh)%Z))
     then setStatus now resolving rh else rh).
Proof.
  intros o'. subst o'. unfold tick. rewrite startConnecting_eq. simpl.
  split_and!; try done.
  - intros h. by rewrite lookup_fmap.
  - intros rh Hts. unfold refresh. pose proof (due_delay now rh Hts) as Hd.
    assert (m_status rh ∈ [connection_error; resolving_error; closed] <->
      m_status rh = connection_error \/ m_status rh = resolving_error \/
      m_status rh = closed) as Hin by set_solver.
    unfold seconds. case_decide as Hc; rewrite Hin in Hc; destruct (due now rh); naive_solver.
Qed.

(** The manager will not tick again. *)
Definition asleep o : Prop := m_wait o = None /\ m_fired o = 0.

Lemma asleep_step now o now' o' :
  asleep o -> om_step (now, o) (now', o') ->
  asleep o' /\ m_resolves o' ⊆+ m_resolves o.
Proof.
  intros [Hw Hf] Hstep. inversion Hstep; subst;
    try match goal with H : timer_step _ _ _ |- _ => inversion H; subst end;
    simpl in *; try congruence;
    try (unfold add_host; repeat case_match); split; try done.
  match goal with H : m_resolves _ = _ |- _ => rewrite H end.
  apply submseteq_app; [done|]. by constructor.
Qed.

(** C31: Once the handler posted by poke has run with no expired wait
    queued, the manager never ticks again, whatever happens later: no host
    is ever resolved again. *)
Theorem poke_stops_ticks now n o st :
  m_posted o = S n -> m_fired o = 0 ->
  rtc om_step (now, poke_handler (set_posted n o)) st ->
  asleep st.2 /\ m_resolves st.2 ⊆+ m_resolves o.
Proof.
  intros _ Hf. revert st.
  apply (rtc_ind_r (fun st => asleep st.2 /\ m_resolves st.2 ⊆+ m_resolves o)); [done|].
  intros [n1 o1] [n2 o2] _ Hstep [Ha Hr].
  destruct (asleep_step _ _ _ _ Ha Hstep) as [Ha' Hr']. split; [done|]. by etrans.
Qed.

(** The timer: a tick is pending unless a posted poke has cancelled it. *)
Definition armed o : Prop := m_wait o <> None \/ m_fired o <> 0.

(** The timer stays armed until a posted poke runs. *)
Lemma armed_until_poked now o now' o' :
  armed o -> om_step (now, o) (now', o') ->
  armed o' \/
  (exists n d, m_posted o = S n /\ m_wait o = Some d /\ m_fired o = 0 /\
     o' = poke_handler (set_posted n o)).
Proof.
  intros Ha Hstep. inversion Hstep; subst; try (by left);
    try match goal with H : timer_step _ _ _ |- _ => inversion H; subst end.
  - left. by right.
  - left. by left.
  - destruct (m_wait o) as [d|] eqn:Hw.
    + destruct (m_fired o) as [|k] eqn:Hf; [right; by exists n, d|].
      left. right. simpl. by rewrite Hf.
    + left. destruct Ha as [Ha|Ha]; [by destruct Ha|]. by right.
  - left. unfold add_host. by repeat case_match.
Qed.
End Outgoing_props.

Section ConnectResolved_props.
Context {T W : Type} {PL : Platform T} {OH : OutHost T W} {OHL : OutHostLaws T W}.
Implicit Types (w : W).

(** An outgoing session as the manager leaves it. *)
Definition outgoing_session (addr : ip_address) (hname : string) : session T :=
  set_pending [AConnect]
    (connect_closed (SlotHost hname)
      (connect_auth (connect_closed SlotServer (session_init outgoing addr hname)))).

Lemma create_session_ok addr hname w : exists id w',
  create_session addr hname w = (Ok tt, w') /\ out_store w !! id = None /\
  out_store w' = <[id := outgoing_session addr hname]> (out_store w) /\
  out_get w' = out_get w /\ out_now w' = out_now w.
Proof.
  destruct (out_make_ok outgoing addr hname w) as (id & w1 & E1 & Hn & S1 & G1 & N1).
  destruct (out_created_ok id (session_init outgoing addr hname) w1)
    as (w2 & E2 & S2 & G2 & N2); [rewrite S1; apply lookup_insert_eq|].
  destruct (out_on_ok id (modify (connect_closed (SlotHost hname)))
    (connect_auth (connect_closed SlotServer (session_init outgoing addr hname))) w2)
    as (w3 & E3 & S3 & G3 & N3); [rewrite S2; apply lookup_insert_eq|].
  destruct (out_on_ok id startConnection (connect_closed (SlotHost hname)
    (connect_auth (connect_closed SlotServer (session_init outgoing addr hname)))) w3)
    as (w4 & E4 & S4 & G4 & N4); [rewrite S3; apply lookup_insert_eq|].
  exists id, w4. unfold create_session.
  rewrite (bind_ok _ _ _ _ _ E1), (bind_ok _ _ _ _ _ E2), (bind_ok _ _ _ _ _ E3), E4.
  split; [done|]. split; [done|].
  rewrite S4, S3, S2, S1, !insert_insert_eq. split; [done|]. split; congruence.
Qed.

(** The new sessions, and nothing else. *)
Definition created (n : nat) (addr : ip_address) (hname : string)
    (st st' : gmap sid (session T)) : Prop :=
  exists ids, length ids = n /\ NoDup ids /\ Forall (fun id => st !! id = None) ids /\
    forall id, st' !! id =
      if decide (id ∈ ids) then Some (outgoing_session addr hname) else st !! id.

Lemma create_sessions_ok n addr hname w : exists w',
  create_sessions n addr hname w = (Ok tt, w') /\
  created n addr hname (out_store w) (out_store w') /\
  out_get w' = out_get w /\ out_now w' = out_now w.
Proof.
  revert w; induction n as [|n IH]; intros w; simpl.
  { exists w. split; [done|]. split; [|done]. exists []. repeat split; constructor. }
  destruct (create_session_ok addr hname w) as (id & w1 & E1 & Hn & S1 & G1 & N1).
  destruct (IH w1) as (w2 & E2 & (ids & Hlen & Hnd & Hf & Hst) & G2 & N2).
  exists w2. rewrite (bind_ok _ _ _ _ _ E1). split; [done|]. split; [|split; congruence].
  rewrite S1 in Hf, Hst. rewrite Forall_forall in Hf.
  assert (id ∉ ids) as Hid.
  { intros Hin. specialize (Hf id Hin). by rewrite lookup_insert_eq in Hf. }
  exists (id :: ids). split; [simpl; congruence|]. split; [by constructor|]. split.
  - constructor; [done|]. apply Forall_forall. intros j Hj. specialize (Hf j Hj).
    rewrite lookup_insert_ne in Hf; [done|]. by intros ->.
  - intros j. rewrite Hst. destruct (decide (j = id)) as [->|Hj].
    + rewrite decide_False, decide_True by set_solver. by rewrite lookup_insert_eq.
    + rewrite lookup_insert_ne by done. by repeat case_decide; set_solver.
Qed.
Lemma on_out_ok f w : on_out f w = (Ok tt, out_set (f (out_now w) (out_get w)) w).
Proof. done. Qed.

Lemma on_host_twice h f g o :
  on_host h f (on_host h g o) = on_host h (fun x => f (g x)) o.
Proof.
  unfold on_host, set_connectTo. simpl. f_equal. apply map_eq. intros k.
  destruct (decide (k = h)) as [->|Hk].
  - rewrite !lookup_alter_eq. by destruct (m_connectTo o !! h).
  - by rewrite !lookup_alter_ne.
Qed.

Lemma on_host_ext h f g o rh :
  m_connectTo o !! h = Some rh -> f rh = g rh -> on_host h f o = on_host h g o.
Proof.
  intros Hrh Hfg. unfold on_host. f_equal. apply map_eq. intros k.
  destruct (decide (k = h)) as [->|Hk]; [|by rewrite !lookup_alter_ne].
  rewrite !lookup_alter_eq, Hrh. simpl. by rewrite Hfg.
Qed.

(** [if(rh->status() != hs) { rh->setStatus(hs); }] after [setAddr]. *)
Lemma settle_ok hs w1 w addr hname rh :
  m_connectTo (out_get w) !! hname = Some rh ->
  out_get w1 = on_host hname (setAddr addr) (out_get w) ->
  out_store w1 = out_store w ->
  exists w' rh',
    when (negb (bool_decide (m_status rh = hs)))
      (on_out (fun now => on_host hname (setStatus now hs))) w1 = (Ok tt, w') /\
    out_get w' = on_host hname (fun _ => rh') (out_get w) /\
    m_status rh' = hs /\ h_addr rh' = Some addr /\
    (m_status rh' = m_status rh -> m_statusChangeTS rh' = m_statusChangeTS rh) /\
    created 0 addr hname (out_store w) (out_store w').
Proof.
  intros Hrh G1 S1. case_bool_decide as Hs; simpl.
  - exists w1, (setAddr addr rh). split; [done|]. rewrite G1, S1.
    split; [by eapply on_host_ext|]. repeat split; try done.
    exists []. repeat split; constructor.
  - exists (out_set (on_host hname (setStatus (out_now w1) hs) (out_get w1)) w1),
      (setStatus (out_now w1) hs (setAddr addr rh)).
    rewrite on_out_ok, out_get_set, out_store_set, G1, S1, on_host_twice.
    split; [done|]. split; [by eapply on_host_ext|]. repeat split; try done.
    exists []. repeat split; constructor.
Qed.

(** C18: When the address of a configured host has been resolved,
    connectResolved succeeds: it creates exactly the number of outgoing
    sessions that the verdict on the existing sessions asks for, each new,
    connecting and with the slots of the manager, sets the host's address
    and its status to connected or connecting, keeps the time stamp when the
    status does not change and no session is created, and touches no other
    host and no other session. *)
Theorem connectResolved_spec addr hname rh w :
  m_connectTo (out_get w) !! hname = Some rh ->
  let v := judge (out_connectedFn w) (h_wanted rh) (out_found addr w) in
  exists w' rh',
    connectResolved (Some addr) hname w = (Ok tt, w') /\
    out_get w' = on_host hname (fun _ => rh') (out_get w) /\
    m_status rh' = match v with Connected => connected | _ => connecting end /\
    h_addr rh' = Some addr /\
    (m_status rh' = m_status rh -> (forall n, v <> Create n) ->
       m_statusChangeTS rh' = m_statusChangeTS rh) /\
    created (match v with Create n => Z.to_nat n | _ => 0 end) addr hname
      (out_store w) (out_store w').
Proof.
  intros Hrh v. unfold connectResolved, bind at 1. rewrite on_out_ok.
  set (w1 := out_set _ w). unfold bind at 1, gets at 1. simpl.
  assert (out_get w1 = on_host hname (setAddr addr) (out_get w)) as G1 by apply out_get_set.
  assert (out_now w1 = out_now w) as N1 by apply out_now_set.
  assert (out_store w1 = out_store w) as S1 by apply out_store_set.
  rewrite G1. simpl. rewrite lookup_alter_eq, Hrh. simpl.
  unfold bind at 1 2, gets. simpl.
  assert (judge (out_connectedFn w1) (h_wanted rh) (out_found addr w1) = v) as ->.
  { subst v w1. by rewrite out_connectedFn_set, out_found_set. }
  destruct v as [| |n].
  - destruct (settle_ok connected w1 w addr hname rh) as (w' & rh' & H); try done.
    exists w', rh'. tauto.
  - destruct (settle_ok connecting w1 w addr hname rh) as (w' & rh' & H); try done.
    exists w', rh'. tauto.
  - unfold bind at 1. rewrite on_out_ok. set (w2 := out_set _ w1).
    destruct (create_sessions_ok (Z.to_nat n) addr hname w2) as (w3 & E3 & C3 & G3 & N3).
    rewrite (bind_ok _ _ _ _ _ E3), on_out_ok. subst w2.
    rewrite out_store_set, S1 in C3. rewrite out_get_set in G3.
    exists (out_set (on_host hname (setStatus (out_now w3) connecting) (out_get w3)) w3),
      (setStatus (out_now w3) connecting (setAddr addr rh)).
    rewrite out_get_set, out_store_set, G3, G1, !on_host_twice.
    split; [done|]. split; [by eapply on_host_ext|]. repeat split; try done.
    intros _ Hn. by destruct (Hn n).
Qed.

(** A failed resolution only sets the status of the host. *)
Lemma connectResolved_error hname w :
  exists w',
    connectResolved None hname w = (Ok tt, w') /\
    out_get w' = poke (on_host hname (setStatus (out_now w) resolving_error) (out_get w)) /\
    out_store w' = out_store w.
Proof.
  unfold connectResolved, bind. rewrite !on_out_ok. eexists. split; [done|].
  by rewrite !out_get_set, !out_store_set.
Qed.
End ConnectResolved_props.

(** ** Witnesses *)

Section Outgoing_witnesses.
#[local] Instance ow_liver : Platform tree := demo "liver" "userver".

(** A waiting session, and one that has authenticated as pingutv. *)
Definition ow_unauth : session tree := session_init outgoing "10.0.0.2" "pingutv".
Definition ow_auth : session tree :=
  set_msg1 (Some (Msg_out (PL := demo "pingutv" "userver") Addr_default "auth" pt_empty))
    ow_unauth.
Definition ow_fn (b : bool) (node : string) : option bool :=
  if bool_decide (node = "pingutv") then Some b else None.

Lemma judge_spec_witness :
  judge (ow_fn false) 2 [ow_auth; ow_unauth] = WaitForAuth.
Proof. apply (judge_spec (ow_fn false) 2 [ow_auth; ow_unauth]); [lia|simpl; lia]. Defined.

Lemma judge_order_independent_witness :
  judge (ow_fn true) 2 [ow_unauth; ow_auth] = judge (ow_fn true) 2 [ow_auth; ow_unauth].
Proof. apply judge_order_independent; [apply perm_swap|simpl; lia]. Defined.

Definition ow_out : OutgoingManager :=
  poke (start_manager 0 (add_host 0 "pingutv" (OutgoingManager_init 32300 2))).

Lemma poke_stops_ticks_witness : asleep (poke_handler (set_posted 0 ow_out)).
Proof.
  apply (poke_stops_ticks 0 0 ow_out (0%Z, poke_handler (set_posted 0 ow_out)));
    [reflexivity|reflexivity|apply rtc_refl].
Defined.

Lemma armed_until_poked_witness : armed (poke ow_out).
Proof.
  destruct (armed_until_poked 0 ow_out 0 (poke ow_out)) as [H|(n & d & _ & _ & _ & H)].
  - left. discriminate.
  - apply om_poke.
  - exact H.
  - exfalso. apply (f_equal m_wait) in H. discriminate.
Defined.
End Outgoing_witnesses.
