(* ===== verification/NetServer.v ===== *)
(** * NetServer: the message server (app/userver/netserver.h,
    app/userver/netserver.cpp, main.cpp; session::dispatchMsg and the
    completion handler of session::do_read of src/uzel/session.cpp)

    The state of the whole process: every session object by identity, the
    maps of the server, the outgoing manager, the dispatcher.  Objects are
    shared by identity and a closed session keeps its state, as in the code,
    where its slots hold it.  [sv_turn] is the event loop: one completion
    handler at a time, run by the single thread of main(), which throws what
    the handler has left pending when it has returned ([run_one]). *)
From S2P Require Import Prelude Effects BetterEnum Priority AccuLine PTree UConfig.
From S2P Require Import Addr Demo Msg InputProcessor Dispatcher Session Remote.
From S2P Require Import Outgoing.

Definition MaxConnectionsWithAddr : nat := 10.

(** The handlers the constructor registers. *)
Inductive named_handler := HPriority.
Inductive any_handler := HAny.

Record server (T : Type) := mkServer {
  sv_now : Z;                                          (* steady_clock *)
  sv_store : store T;                                  (* the session objects *)
  m_ipToSession : gmap ip_address (gset sid);
  m_locals : gmap string sid;
  m_nodeToSession : gmap string remote_t;
  m_outman : OutgoingManager;
  sv_dispatcher : MsgDispatcher T named_handler any_handler;
  m_acceptor : nat;                                    (* async_accept in flight *)
  sv_raised : option exn;                              (* pending on the event loop's thread *)
}.
Arguments mkServer {T}.
Arguments sv_now {T}.
Arguments sv_store {T}.
Arguments m_ipToSession {T}.
Arguments m_locals {T}.
Arguments m_nodeToSession {T}.
Arguments m_outman {T}.
Arguments sv_dispatcher {T}.
Arguments m_acceptor {T}.
Arguments sv_raised {T}.

Section Setters.
Context {T : Type}.
Implicit Types (w : server T).
Definition set_now v w := mkServer v (sv_store w) (m_ipToSession w) (m_locals w)
  (m_nodeToSession w) (m_outman w) (sv_dispatcher w) (m_acceptor w) (sv_raised w).
Definition set_store v w := mkServer (sv_now w) v (m_ipToSession w) (m_locals w)
  (m_nodeToSession w) (m_outman w) (sv_dispatcher w) (m_acceptor w) (sv_raised w).
Definition set_ips v w := mkServer (sv_now w) (sv_store w) v (m_locals w)
  (m_nodeToSession w) (m_outman w) (sv_dispatcher w) (m_acceptor w) (sv_raised w).
Definition set_locals v w := mkServer (sv_now w) (sv_store w) (m_ipToSession w) v
  (m_nodeToSession w) (m_outman w) (sv_dispatcher w) (m_acceptor w) (sv_raised w).
Definition set_nodes v w := mkServer (sv_now w) (sv_store w) (m_ipToSession w) (m_locals w)
  v (m_outman w) (sv_dispatcher w) (m_acceptor w) (sv_raised w).
Definition set_outman v w := mkServer (sv_now w) (sv_store w) (m_ipToSession w) (m_locals w)
  (m_nodeToSession w) v (sv_dispatcher w) (m_acceptor w) (sv_raised w).
Definition set_dispatcher v w := mkServer (sv_now w) (sv_store w) (m_ipToSession w) (m_locals w)
  (m_nodeToSession w) (m_outman w) v (m_acceptor w) (sv_raised w).
Definition set_acceptor v w := mkServer (sv_now w) (sv_store w) (m_ipToSession w) (m_locals w)
  (m_nodeToSession w) (m_outman w) (sv_dispatcher w) v (sv_raised w).
Definition set_pending_exn v w := mkServer (sv_now w) (sv_store w) (m_ipToSession w) (m_locals w)
  (m_nodeToSession w) (m_outman w) (sv_dispatcher w) (m_acceptor w) v.
End Setters.

#[export] Instance server_thread {T} : Thread (server T) := {
  raised := sv_raised;
  set_raised := set_pending_exn;
}.

Section NetServer.
Context {T : Type} {PL : Platform T}.
Abbreviation W := (server T).

(** A method of a session, and of the channel to a known node. *)
Definition sess {A} (ss : sid) (m : M (session T) A) : M W A :=
  zoom sv_store set_store (on_session ss m).

Definition on_node {A} (node : string) (m : M (remote_t * store T) A) : M W A := fun w =>
  match m_nodeToSession w !! node with
  | None => (Undefined, w)
  | Some r =>
      let '(o, (r', st')) := m (r, sv_store w) in
      (o, set_nodes (<[node := r']> (m_nodeToSession w)) (set_store st' w))
  end.

Definition put (ss : sid) (msg : Msg T) : M W unit :=
  now <- gets sv_now ;;
  sess ss (putOutQueue now msg).

(** The callback given to the outgoing manager. *)
Definition connectedFn (w : W) (node : string) : option bool :=
  remote_connected <$> m_nodeToSession w !! node.

Definition handlePriorityMsg : M (W * Msg T) unit := fun s =>
  let '(w, msg) := s in
  let node := m_nodename (m_from msg) in
  match m_nodeToSession w !! node with
  | None => (Ok tt, s)
  | Some r =>
      let '(o, ((r', st'), msg')) := remote_handlePriorityMsg ((r, sv_store w), msg) in
      (o, (set_nodes (<[node := r']> (m_nodeToSession w)) (set_store st' w), msg'))
  end.

Definition handleServiceMsg (msg : Msg T) : M W unit := ret tt.

Definition handleLocalMsg (msg : Msg T) : M W unit :=
  lit <- gets (fun w => m_locals w !! m_appname (m_dest msg)) ;;
  match lit with
  | Some ss => put ss msg
  | None => ret tt
  end.

Definition handleLocalBroadcastMsg (msg : Msg T) : M W unit :=
  locals <- gets (fun w => (map_to_list (m_locals w)).*2) ;;
  for_each locals (fun ss => put ss msg).

Definition send_to (node : string) (msg : Msg T) : M W unit :=
  now <- gets sv_now ;;
  on_node node (remote_send now msg).

Definition handleBroadcastMsg (msg : Msg T) : M W unit :=
  nodes <- gets (fun w => (map_to_list (m_nodeToSession w)).*1) ;;
  for_each nodes (fun node => send_to node msg).

Definition route (target : string) : option string := Some target.

Definition findAddRemote (node : string) : M W unit :=
  modify (fun w =>
    match m_nodeToSession w !! node with
    | None => set_nodes (<[node := remote_init node]> (m_nodeToSession w)) w
    | Some _ => w
    end).

Definition handleRemoteMsg (msg : Msg T) : M W unit :=
  match route (m_nodename (m_dest msg)) with
  | None => ret tt
  | Some viaNode =>
      findAddRemote viaNode ;;
      send_to viaNode msg
  end.

Definition handleAny (msg : Msg T) : M W unit :=
  match m_destType msg with
  | service => handleServiceMsg msg
  | local => handleLocalMsg msg
  | remote => handleRemoteMsg msg
  | localbroadcast => handleLocalBroadcastMsg msg
  | broadcast => handleBroadcastMsg msg
  end.

(** The meaning of the registered handlers. *)
Definition run_named (h : named_handler) : M (W * Msg T) unit :=
  match h with HPriority => handlePriorityMsg end.
Definition run_any (h : any_handler) : M (W * Msg T) unit :=
  match h with
  | HAny => msg <- gets snd ;; zoom fst (fun w s => (w, s.2)) (handleAny msg)
  end.

Definition addAuthSessionToRemote (rnode : string) (ss : sid) : M W unit :=
  findAddRemote rnode ;;
  now <- gets sv_now ;;
  on_node rnode (addSession now ss).

(** [ss->takeOverMessages( *old)]; a session that takes over its own queue
    never empties it. *)
Definition take_over (ss old : sid) : M W unit := fun w =>
  match sv_store w !! ss, sv_store w !! old with
  | Some s, Some o =>
      if decide (ss = old) then
        (if outQueueEmpty s then (Ok tt, w) else (Diverges, w))
      else
        let '(r, (s', q)) := takeOverMessages (sv_now w) (s, m_outQueue o) in
        (r, set_store (<[ss := s']> (<[old := set_outQueue q o]> (sv_store w))) w)
  | _, _ => (Undefined, w)
  end.

Definition auth (ss : sid) : M W unit :=
  isLocal <- sess ss peerIsLocal ;;
  if isLocal : bool then
    app <- sess ss peerApp ;;
    ssIt <- gets (fun w => m_locals w !! app) ;;
    match ssIt with
    | Some old => take_over ss old
    | None => ret tt
    end ;;
    modify (fun w => set_locals (<[app := ss]> (m_locals w)) w)
  else
    rnode <- sess ss peerNode ;;
    addAuthSessionToRemote rnode ss.

(** session::dispatchMsg; on the thread of the event loop the strand runs
    the dispatch at once. *)
Definition dispatchMsg (ss : sid) (msg : Msg T) : M W unit :=
  authed <- sess ss (gets authenticated) ;;
  if negb authed then
    ok <- sess ss (authenticate msg) ;;
    if negb ok then sess ss (gracefullClose "authentication failed")
    else
      slot <- sess ss (gets s_auth) ;;
      when slot (auth ss)
  else dispatch sv_dispatcher set_dispatcher run_named run_any true msg.

Definition onSessionCreated (newSession : sid) : M W unit :=
  ip <- sess newSession (gets m_remoteIp) ;;
  modify (fun w => set_ips
    (<[ip := {[ newSession ]} ∪ default ∅ (m_ipToSession w !! ip)]> (m_ipToSession w)) w) ;;
  sess newSession (modify (fun s => connect_auth (connect_closed SlotServer s))).

Definition onSessionClosed (ss : sid) : M W unit :=
  ip <- sess ss (gets m_remoteIp) ;;
  modify (fun w => set_ips
    (<[ip := default ∅ (m_ipToSession w !! ip) ∖ {[ ss ]}]> (m_ipToSession w)) w).

(** [std::make_shared<session>]: a new identity. *)
Definition make_session (d : Direction) (ip : ip_address) (hname : string) : M W sid := fun w =>
  let id := fresh (dom (sv_store w)) in
  (Ok id, set_store (<[id := session_init d ip hname]> (sv_store w)) w).

Definition do_accept : M W unit := modify (fun w => set_acceptor (S (m_acceptor w)) w).

(** The completion handler of [do_accept]: [None] when [ec] is set, otherwise
    the socket, of which only the address of its peer is used.  When the peer
    is gone already, remote_endpoint() throws. *)
Definition accept_handler (socket : option (option ip_address)) : M W unit :=
  modify (fun w => set_acceptor (pred (m_acceptor w)) w) ;;
  match socket with
  | None => ret tt
  | Some remote_endpoint =>
      raddr <- lift (of_option system_error remote_endpoint) ;;
      unauth <- make_session incoming raddr EmptyString ;;
      onSessionCreated unauth ;;
      n <- gets (fun w => size (default ∅ (m_ipToSession w !! raddr))) ;;
      if (MaxConnectionsWithAddr <? n)%nat then
        sess unauth (gracefullClose "connection refused: too many connections")
      else
        now <- gets sv_now ;;
        sess unauth (Session.start now)
  end ;;
  do_accept.

(** The emission of [s_closed]. *)
Definition run_slot (ss : sid) (slot : closed_slot) : M W unit :=
  match slot with
  | SlotServer => onSessionClosed ss
  | SlotRemote node => on_node node (on_remote (remote_onSessionClosed ss))
  | SlotHost hname =>
      modify (fun w => set_outman (host_closed (sv_now w) hname (m_outman w)) w)
  end.

Definition emit (ss : sid) (m : M (session T) (list closed_slot)) : M W unit :=
  slots <- sess ss m ;;
  for_each slots (run_slot ss).

(** [m_processor.processNewInput(data, *self)] *)
Definition get_processor (ss : sid) (w : W) : InputProcessor T * W :=
  (default IP_init (m_processor <$> sv_store w !! ss), w).
Definition put_processor (ss : sid) (v : InputProcessor T * W) (w : W) : W :=
  set_store (alter (set_processor v.1) ss (sv_store v.2)) v.2.
Definition process_input (ss : sid) (input : string) : M W bool :=
  zoom (get_processor ss) (put_processor ss) (processNewInput (dispatchMsg ss) ss input).

(** The completion handler of [do_read]: [None] when [ec] is set. *)
Definition read_handler (ss : sid) (data : option string) : M W unit :=
  sess ss (complete ARead) ;;
  match data with
  | None => emit ss stop
  | Some input =>
      ok <- process_input ss input ;;
      if negb ok then emit ss stop else sess ss do_read
  end.

Definition on_outman (f : Z -> OutgoingManager -> OutgoingManager) : M W unit :=
  modify (fun w => set_outman (f (sv_now w) (m_outman w)) w).

(** The constructor; [inline]: the strand runs functions at once.  main calls
    it before the loop runs, where the strand queues them ([inline = false])
    and the identifier of the first registration is not initialised. *)
Definition NetServer_ctor (inline : bool) : M W unit :=
  zoom sv_dispatcher set_dispatcher (registerHandler inline "priority" HPriority) ;;
  zoom sv_dispatcher set_dispatcher (registerAnyPost inline HAny) ;;
  do_accept ;;
  to_connect_to <- lift remotes ;;
  for_each to_connect_to (fun rhost => on_outman (fun now => add_host now rhost)) ;;
  on_outman start_manager.
End NetServer.

Definition server_init {T} (now port : Z) : server T :=
  mkServer now ∅ ∅ ∅ ∅ (OutgoingManager_init port 2) MsgDispatcher_init 0 None.

(** What the outgoing manager sees of the server. *)
#[export] Instance server_OutHost {T} {PL : Platform T} : OutHost T (server T) := {
  out_get := m_outman;
  out_set := set_outman;
  out_now := sv_now;
  out_store := sv_store;
  out_found addr w := omap (sv_store w !!.) (elements (default ∅ (m_ipToSession w !! addr)));
  out_connectedFn := connectedFn;
  out_make_session := make_session;
  out_sessionCreated := onSessionCreated;
  out_on_session := sess;
}.

(** One turn of the event loop: a completion handler, and what it ends with. *)
Inductive sv_turn {T} {PL : Platform T} : server T -> outcome unit * server T -> Prop :=
  | sv_clock now w : (sv_now w <= now)%Z -> sv_turn w (Ok tt, set_now now w)
  | sv_accept socket w :
      m_acceptor w <> 0 -> sv_turn w (run_one (accept_handler socket) w)
  | sv_connected ss s ec w :
      sv_store w !! ss = Some s -> AConnect ∈ m_pending s ->
      sv_turn w (run_one (emit ss (connectHandler (sv_now w) ec)) w)
  | sv_read ss s data w :
      sv_store w !! ss = Some s -> ARead ∈ m_pending s ->
      sv_turn w (run_one (read_handler ss data) w)
  | sv_written ss s buf ec w :
      sv_store w !! ss = Some s -> AWrite buf ∈ m_pending s ->
      sv_turn w (run_one (emit ss (write_handler (sv_now w) buf ec)) w)
  | sv_bye ss s buf w :
      sv_store w !! ss = Some s -> ABye buf ∈ m_pending s ->
      sv_turn w (run_one (emit ss (bye_handler buf)) w)
  | sv_resolved rezit hname l1 l2 w :
      m_resolves (m_outman w) = l1 ++ hname :: l2 ->
      sv_turn w (run_one (connectResolved rezit hname)
        (set_outman (set_resolves (l1 ++ l2) (m_outman w)) w))
  | sv_timer w o : timer_step (sv_now w) (m_outman w) o -> sv_turn w (Ok tt, set_outman o w).

(** A turn after which the loop goes on. *)
Definition sv_step {T} {PL : Platform T} : relation (server T) := fun w w' =>
  sv_turn w (Ok tt, w').

(** ** Where a message goes *)

(** The session a message to the node leaves by. *)
Definition line (r : remote_t) : option sid :=
  if remote_connected r then m_sessionH r else None.

Section Routing_spec.
Context {T : Type} {PL : Platform T}.
Implicit Types (w : server T) (msg : Msg T).

(** The sessions that get the message. *)
Definition receives w msg (ss : sid) : Prop :=
  match m_destType msg with
  | service => False
  | local => m_locals w !! m_appname (m_dest msg) = Some ss
  | localbroadcast => exists app, m_locals w !! app = Some ss
  | remote => (m_nodeToSession w !! m_nodename (m_dest msg)) ≫= line = Some ss
  | broadcast => exists node, (m_nodeToSession w !! node) ≫= line = Some ss
  end.

(** The nodes whose channel keeps the message until it is connected. *)
Definition keeps w msg (node : string) : Prop :=
  match m_destType msg with
  | remote => node = m_nodename (m_dest msg) /\
              (remote_connected <$> m_nodeToSession w !! node) <> Some true
  | broadcast => (remote_connected <$> m_nodeToSession w !! node) = Some false
  | _ => False
  end.

(** No dangling session, and one session per application and per node. *)
Definition routable w : Prop :=
  (forall app ss, m_locals w !! app = Some ss -> is_Some (sv_store w !! ss)) /\
  (forall node r ss, m_nodeToSession w !! node = Some r -> m_sessionH r = Some ss ->
     is_Some (sv_store w !! ss)) /\
  (forall app1 app2 ss, m_locals w !! app1 = Some ss -> m_locals w !! app2 = Some ss ->
     app1 = app2) /\
  (forall node1 node2 ss, (m_nodeToSession w !! node1) ≫= line = Some ss ->
     (m_nodeToSession w !! node2) ≫= line = Some ss -> node1 = node2).
End Routing_spec.

Section Routing_lemmas.
Context {T : Type} {PL : Platform T}.
Implicit Types (w : server T) (msg : Msg T) (st : store T).

Lemma sess_ok {A} ss (m : M (session T) A) w s :
  sv_store w !! ss = Some s ->
  sess ss m w = ((m s).1, set_store (<[ss := (m s).2]> (sv_store w)) w).
Proof. intros Hs. unfold sess, zoom. by rewrite (on_session_ok _ _ _ _ Hs). Qed.

Variable msg : Msg T.
Variable raw : string.
Hypothesis Hraw : charvec msg = Ok raw.

(** The queue entry, and a session after [putOutQueue]. *)
Definition entry (now : Z) : QueuedMsg := mkQueuedMsg raw (destType msg) now.
Definition after_put (now : Z) (s : session T) : session T := (putOutQueue now msg s).2.
Definition after_send (now : Z) (r : remote_t) : remote_t :=
  if remote_connected r then r else set_outHigh (m_outHighQueue r ++ [entry now]) r.

Lemma put_ok ss w s :
  sv_store w !! ss = Some s ->
  put ss msg w = (Ok tt, set_store (<[ss := after_put (sv_now w) s]> (sv_store w)) w).
Proof.
  intros Hs. unfold put, bind, gets. rewrite (sess_ok _ _ _ _ Hs).
  unfold after_put. by rewrite (putOutQueue_ok _ _ _ _ Hraw).
Qed.

Lemma put_all (l : list sid) w :
  NoDup l -> Forall (fun ss => is_Some (sv_store w !! ss)) l ->
  exists st, for_each l (fun ss => put ss msg) w = (Ok tt, set_store st w) /\
    forall ss, st !! ss =
      if decide (ss ∈ l) then after_put (sv_now w) <$> sv_store w !! ss
      else sv_store w !! ss.
Proof.
  revert w; induction l as [|ss l IH]; intros w Hnd Hal.
  { exists (sv_store w). split; [by destruct w|done]. }
  apply NoDup_cons in Hnd as [Hss Hnd]. apply Forall_cons in Hal as [[s Hs] Hal].
  cbn [for_each]. rewrite (bind_ok _ _ _ _ _ (put_ok ss w s Hs)).
  set (w1 := set_store _ w).
  destruct (IH w1 Hnd) as (st & Hst & Hlk).
  { eapply Forall_impl; [exact Hal|]. intros x [sx Hx]. simpl.
    destruct (decide (x = ss)) as [->|Hx']; [by rewrite lookup_insert_eq|].
    by rewrite lookup_insert_ne. }
  exists st. rewrite Hst. split; [done|]. intros x. rewrite Hlk. simpl.
  destruct (decide (x = ss)) as [->|Hx].
  - rewrite decide_False, decide_True by set_solver. by rewrite lookup_insert_eq, Hs.
  - rewrite lookup_insert_ne by done. by repeat case_decide; set_solver.
Qed.

Lemma send_to_ok node w r :
  m_nodeToSession w !! node = Some r ->
  (forall ss, m_sessionH r = Some ss -> is_Some (sv_store w !! ss)) ->
  exists st,
    send_to node msg w = (Ok tt,
      set_nodes (<[node := after_send (sv_now w) r]> (m_nodeToSession w)) (set_store st w)) /\
    forall ss, st !! ss =
      if decide (line r = Some ss) then after_put (sv_now w) <$> sv_store w !! ss
      else sv_store w !! ss.
Proof.
  intros Hr Hal. unfold send_to, bind, gets, on_node. rewrite Hr.
  unfold remote_send, bind, gets, line, after_send. simpl.
  destruct (remote_connected r) eqn:Hc; simpl.
  - unfold remote_connected in Hc. destruct (m_sessionH r) as [h|] eqn:HH; [|done].
    destruct (Hal h eq_refl) as [s Hs].
    rewrite (on_store_ok _ _ _ _ _ Hs), (putOutQueue_ok _ _ _ _ Hraw).
    eexists. split; [done|]. intros ss.
    destruct (decide (ss = h)) as [->|Hss].
    + rewrite lookup_insert_eq, decide_True, Hs by done. simpl. unfold after_put.
      by rewrite (putOutQueue_ok _ _ _ _ Hraw).
    + by rewrite lookup_insert_ne, decide_False by congruence.
  - unfold lift, QueuedMsg_of. rewrite Hraw. simpl. exists (sv_store w). split; [done|].
    done.
Qed.

Definition lines (l : list string) w : list sid :=
  omap (fun node => (m_nodeToSession w !! node) ≫= line) l.

Lemma elem_of_lines l w ss :
  ss ∈ lines l w <-> exists node, node ∈ l /\ (m_nodeToSession w !! node) ≫= line = Some ss.
Proof. unfold lines. by rewrite list_elem_of_omap. Qed.

Lemma line_H r ss : line r = Some ss -> m_sessionH r = Some ss.
Proof. unfold line. by destruct (remote_connected r). Qed.

Lemma NoDup_lines l w :
  NoDup l ->
  (forall n1 n2 ss, (m_nodeToSession w !! n1) ≫= line = Some ss ->
     (m_nodeToSession w !! n2) ≫= line = Some ss -> n1 = n2) ->
  NoDup (lines l w).
Proof.
  intros Hnd Hinj. induction Hnd as [|n l Hn Hnd IH]; [constructor|].
  unfold lines. cbn [omap list_omap]. destruct (_ ≫= line) as [ss|] eqn:Hss; [|exact IH].
  constructor; [|exact IH]. intros (n' & Hn' & Hss')%elem_of_lines.
  by rewrite (Hinj _ _ _ Hss Hss') in Hn.
Qed.

Lemma after_send_line now r : line (after_send now r) = line r.
Proof. unfold after_send. by destruct (remote_connected r) eqn:Hc. Qed.

Lemma lines_ext l w w' :
  (forall node, node ∈ l -> m_nodeToSession w !! node = m_nodeToSession w' !! node) ->
  lines l w = lines l w'.
Proof.
  intros He. unfold lines. induction l as [|n l IH]; [done|]. simpl.
  rewrite He by (by left). assert (forall node, node ∈ l ->
    m_nodeToSession w !! node = m_nodeToSession w' !! node) as He'
    by (intros node Hn; apply He; by right).
  specialize (IH He'). destruct (_ ≫= line); [f_equal|]; exact IH.
Qed.

Lemma send_all (l : list string) w :
  NoDup l -> NoDup (lines l w) ->
  (forall node, node ∈ l -> is_Some (m_nodeToSession w !! node)) ->
  (forall node r ss, m_nodeToSession w !! node = Some r -> m_sessionH r = Some ss ->
     is_Some (sv_store w !! ss)) ->
  exists nodes st,
    for_each l (fun node => send_to node msg) w = (Ok tt, set_nodes nodes (set_store st w)) /\
    (forall ss, st !! ss =
      if decide (ss ∈ lines l w) then after_put (sv_now w) <$> sv_store w !! ss
      else sv_store w !! ss) /\
    (forall node, nodes !! node =
      if decide (node ∈ l) then after_send (sv_now w) <$> m_nodeToSession w !! node
      else m_nodeToSession w !! node).
Proof.
  revert w; induction l as [|node l IH]; intros w Hnd Hli Hkn Hal.
  { exists (m_nodeToSession w), (sv_store w). split; [by destruct w|done]. }
  apply NoDup_cons in Hnd as [Hnode Hnd].
  destruct (Hkn node ltac:(by left)) as [r Hr].
  destruct (send_to_ok node w r Hr) as (st1 & E1 & Hst1); [intros ss HH; by eapply Hal|].
  cbn [for_each]. rewrite (bind_ok _ _ _ _ _ E1).
  set (w1 := set_nodes _ _).
  assert (forall n, n ∈ l -> m_nodeToSession w1 !! n = m_nodeToSession w !! n) as Hn1.
  { intros n Hn. simpl. rewrite lookup_insert_ne; [done|]. by intros ->. }
  assert (lines l w1 = lines l w) as Hl1 by (by apply lines_ext).
  assert (lines (node :: l) w = option_list (line r) ++ lines l w) as Hl.
  { unfold lines. simpl. rewrite Hr. simpl. by destruct (line r). }
  rewrite Hl in Hli. apply NoDup_app in Hli as (_ & Hdis & Hli).
  destruct (IH w1) as (nodes & st & E2 & Hst & Hno).
  - done.
  - by rewrite Hl1.
  - intros n Hn. rewrite Hn1 by done. apply Hkn. by right.
  - intros n r' ss Hr' HH. simpl in *. rewrite Hst1.
    assert (is_Some (sv_store w !! ss)) as [s ->].
    { destruct (decide (n = node)) as [->|Hne].
      - rewrite lookup_insert_eq in Hr'. injection Hr' as <-. eapply (Hal node r); [done|].
        revert HH. unfold after_send. by destruct (remote_connected r).
      - rewrite lookup_insert_ne in Hr' by done. by eapply Hal. }
    case_decide; by eexists.
  - exists nodes, st. rewrite E2. split; [done|]. rewrite Hl1 in Hst. split.
    + intros ss. rewrite Hst, Hl.
      change (sv_now w1) with (sv_now w). change (sv_store w1) with st1. rewrite Hst1.
      destruct (decide (line r = Some ss)) as [Hlr|Hlr].
      * assert (ss ∈ option_list (line r)) as Hin by (rewrite Hlr; by left).
        rewrite decide_False by (by apply Hdis).
        rewrite decide_True by set_solver. done.
      * assert (ss ∉ option_list (line r)) as Hin.
        { destruct (line r); simpl; set_solver. }
        repeat case_decide; set_solver.
    + intros n. rewrite Hno. simpl. destruct (decide (n = node)) as [->|Hne].
      * rewrite decide_False, decide_True by set_solver.
        by rewrite lookup_insert_eq, Hr.
      * rewrite lookup_insert_ne by done. repeat case_decide; set_solver.
Qed.
End Routing_lemmas.

Section Routing_props.
Context {T : Type} {PL : Platform T}.
Implicit Types (w : server T) (msg : Msg T).

(** The effect of a handler on the sessions and on the channels: [got] get
    the message, [kept] keep it, nothing else changes. *)
Definition delivers raw msg w (got : sid -> Prop) (kept : string -> Prop)
    (st : store T) (nodes : gmap string remote_t) : Prop :=
  (forall ss, got ss -> st !! ss = after_put msg (sv_now w) <$> sv_store w !! ss) /\
  (forall ss, ~ got ss -> st !! ss = sv_store w !! ss) /\
  (forall node, kept node -> nodes !! node =
     let r := default (remote_init node) (m_nodeToSession w !! node) in
     Some (set_outHigh (m_outHighQueue r ++ [entry msg raw (sv_now w)]) r)) /\
  (forall node, ~ kept node -> nodes !! node = m_nodeToSession w !! node).

Lemma delivers_none raw msg w :
  delivers raw msg w (fun _ => False) (fun _ => False) (sv_store w) (m_nodeToSession w).
Proof. by split_and!. Qed.

Lemma local_delivers raw msg w :
  charvec msg = Ok raw -> routable w ->
  exists st, handleLocalMsg msg w = (Ok tt, set_store st w) /\
    delivers raw msg w (fun ss => m_locals w !! m_appname (m_dest msg) = Some ss)
      (fun _ => False) st (m_nodeToSession w).
Proof.
  intros Hraw (Hloc & _). unfold handleLocalMsg, bind, gets.
  destruct (m_locals w !! _) as [ss|] eqn:Hl.
  - destruct (Hloc _ _ Hl) as [s Hs]. rewrite (put_ok _ _ Hraw _ _ _ Hs).
    eexists. split; [done|]. split_and!; try done.
    + intros ss' [= <-]. by rewrite lookup_insert_eq, Hs.
    + intros ss' Hne. rewrite lookup_insert_ne; [done|]. by intros ->.
  - exists (sv_store w). split; [by destruct w|]. by split_and!.
Qed.

Lemma localbroadcast_delivers raw msg w :
  charvec msg = Ok raw -> routable w ->
  exists st, handleLocalBroadcastMsg msg w = (Ok tt, set_store st w) /\
    delivers raw msg w (fun ss => exists app, m_locals w !! app = Some ss)
      (fun _ => False) st (m_nodeToSession w).
Proof.
  intros Hraw (Hloc & _ & Hinj & _). unfold handleLocalBroadcastMsg, bind, gets.
  assert (forall ss, ss ∈ (map_to_list (m_locals w)).*2 <->
            exists app, m_locals w !! app = Some ss) as Hin.
  { intros ss. rewrite list_elem_of_fmap. split.
    - intros ([app s] & -> & Hin%elem_of_map_to_list). by eexists.
    - intros [app Ha]. exists (app, ss). by rewrite elem_of_map_to_list. }
  destruct (put_all msg raw Hraw (map_to_list (m_locals w)).*2 w) as (st & Hst & Hlk).
  - apply NoDup_fmap_2_strong; [|apply NoDup_map_to_list].
    intros [a1 s1] [a2 s2] H1%elem_of_map_to_list H2%elem_of_map_to_list. simpl.
    intros <-. f_equal. by eapply Hinj.
  - apply Forall_forall. intros ss [app Ha]%Hin. by eapply Hloc.
  - exists st. split; [done|]. split_and!; try done; intros ss Hss; rewrite Hlk.
    + by rewrite decide_True by (by apply Hin).
    + rewrite decide_False; [done|]. by rewrite Hin.
Qed.

Lemma line_bind w node ss :
  (m_nodeToSession w !! node) ≫= line = Some ss ->
  exists r, m_nodeToSession w !! node = Some r /\ line r = Some ss.
Proof. by intros (r & ? & ?)%bind_Some; exists r. Qed.

Lemma broadcast_delivers raw msg w :
  charvec msg = Ok raw -> routable w ->
  exists st nodes, handleBroadcastMsg msg w = (Ok tt, set_nodes nodes (set_store st w)) /\
    delivers raw msg w (fun ss => exists node, (m_nodeToSession w !! node) ≫= line = Some ss)
      (fun node => (remote_connected <$> m_nodeToSession w !! node) = Some false) st nodes.
Proof.
  intros Hraw (_ & Hno & _ & Hinj). unfold handleBroadcastMsg, bind, gets.
  set (l := (map_to_list (m_nodeToSession w)).*1).
  assert (forall node, node ∈ l <-> is_Some (m_nodeToSession w !! node)) as Hin.
  { intros node. unfold l. rewrite list_elem_of_fmap. split.
    - intros ([n r] & -> & Hin%elem_of_map_to_list). by eexists.
    - intros [r Hr]. exists (node, r). by rewrite elem_of_map_to_list. }
  assert (forall ss, ss ∈ lines l w <->
    exists node, (m_nodeToSession w !! node) ≫= line = Some ss) as Hlines.
  { intros ss. rewrite elem_of_lines. split; [naive_solver|]. intros [node Hn].
    exists node. split; [|done]. apply Hin. apply line_bind in Hn as (r & -> & _). by eexists. }
  destruct (send_all msg raw Hraw l w) as (nodes & st & E & Hst & Hnodes).
  - apply NoDup_fst_map_to_list.
  - apply NoDup_lines; [apply NoDup_fst_map_to_list|]. intros n1 n2 ss. apply Hinj.
  - intros node. by rewrite Hin.
  - exact Hno.
  - exists st, nodes. split; [done|]. split_and!.
    + intros ss Hss. rewrite Hst. by rewrite decide_True by (by apply Hlines).
    + intros ss Hss. rewrite Hst. rewrite decide_False; [done|]. by rewrite Hlines.
    + intros node Hn. rewrite Hnodes. apply fmap_Some in Hn as (r & Hr & Hc).
      rewrite decide_True by (by apply Hin; eexists). rewrite Hr. simpl.
      unfold after_send. by rewrite <-Hc.
    + intros node Hn. rewrite Hnodes. case_decide as Hd; [|done].
      apply Hin in Hd as [r Hr]. rewrite Hr in *. simpl in *. unfold after_send.
      by destruct (remote_connected r).
Qed.

Lemma findAddRemote_lookup node w :
  exists ns, findAddRemote node w = (Ok tt, set_nodes ns w) /\
    ns !! node = Some (default (remote_init node) (m_nodeToSession w !! node)) /\
    forall n, n <> node -> ns !! n = m_nodeToSession w !! n.
Proof.
  unfold findAddRemote, modify. destruct (m_nodeToSession w !! node) as [r|] eqn:Hr.
  - exists (m_nodeToSession w). split; [by destruct w|]. by rewrite Hr.
  - eexists. split; [done|].
    split; [apply lookup_insert_eq|]. intros n Hn. by rewrite lookup_insert_ne.
Qed.

Lemma remote_delivers raw msg w :
  charvec msg = Ok raw -> routable w ->
  exists st nodes, handleRemoteMsg msg w = (Ok tt, set_nodes nodes (set_store st w)) /\
    delivers raw msg w
      (fun ss => (m_nodeToSession w !! m_nodename (m_dest msg)) ≫= line = Some ss)
      (fun node => node = m_nodename (m_dest msg) /\
         (remote_connected <$> m_nodeToSession w !! node) <> Some true) st nodes.
Proof.
  intros Hraw (_ & Hno & _). unfold handleRemoteMsg, route.
  set (node := m_nodename (m_dest msg)).
  destruct (findAddRemote_lookup node w) as (ns & E1 & Hr & Hne).
  rewrite (bind_ok _ _ _ _ _ E1).
  set (r := default (remote_init node) (m_nodeToSession w !! node)) in *.
  destruct (send_to_ok msg raw Hraw node (set_nodes ns w) r Hr) as (st & E2 & Hst).
  { intros ss HH. simpl. unfold r in HH.
    destruct (m_nodeToSession w !! node) as [r'|] eqn:Hr'; [by eapply Hno|done]. }
  assert (line r = (m_nodeToSession w !! node) ≫= line) as Hli.
  { unfold r. by destruct (m_nodeToSession w !! node). }
  assert (remote_connected r = true <->
          (remote_connected <$> m_nodeToSession w !! node) = Some true) as Hco.
  { unfold r. destruct (m_nodeToSession w !! node); simpl; [split; congruence|split; discriminate]. }
  simpl in Hst.
  exists st, (<[node := after_send msg raw (sv_now w) r]> ns).
  split; [rewrite E2; done|]. split_and!.
  - intros ss Hss. rewrite Hst, decide_True; [done|]. by rewrite Hli.
  - intros ss Hss. rewrite Hst, decide_False; [done|]. by rewrite Hli.
  - intros n [-> Hc]. rewrite lookup_insert_eq. fold r. unfold after_send.
    destruct (remote_connected r); [|done]. by destruct Hc; apply Hco.
  - intros n Hk. destruct (decide (n = node)) as [->|Hn].
    + rewrite lookup_insert_eq. unfold after_send.
      destruct (m_nodeToSession w !! node) as [r'|] eqn:Hr'; [|by destruct Hk].
      simpl in *. subst r. destruct (remote_connected r') eqn:Hc; [done|].
      destruct Hk. split; [done|]. simpl. congruence.
    + rewrite lookup_insert_ne by done. by apply Hne.
Qed.

(** C3: handleAny, of a message that can be written as JSON, on a server
    whose maps refer to existing sessions and use a session for one
    application or node only: a message to a local application is queued on
    that application's session, a local broadcast on every local
    application's, a message for a node on the high priority session of that
    node's channel when the channel is connected, and otherwise on the
    channel's own queue (the channel being made if there was none); a
    broadcast goes to every channel and to no local application, also back
    to the node it came from; a service message goes nowhere.  Nothing else
    changes and no handler throws. *)
Theorem routing_spec raw msg w :
  charvec msg = Ok raw -> routable w ->
  exists st nodes,
    handleAny msg w = (Ok tt, set_nodes nodes (set_store st w)) /\
    delivers raw msg w (receives w msg) (keeps w msg) st nodes.
Proof.
  intros Hraw Hw. unfold handleAny, delivers, receives, keeps.
  destruct (m_destType msg).
  - exists (sv_store w), (m_nodeToSession w). split; [by destruct w|apply delivers_none].
  - destruct (local_delivers raw msg w Hraw Hw) as (st & E & Hd).
    exists st, (m_nodeToSession w). split; [rewrite E; by destruct w|exact Hd].
  - exact (remote_delivers raw msg w Hraw Hw).
  - exact (broadcast_delivers raw msg w Hraw Hw).
  - destruct (localbroadcast_delivers raw msg w Hraw Hw) as (st & E & Hd).
    exists st, (m_nodeToSession w). split; [rewrite E; by destruct w|exact Hd].
Qed.
End Routing_props.

(** ** The server owns the sessions of the outgoing manager *)

Section Server_OutHost.
Context {T : Type} {PL : Platform T}.
Implicit Types (w : server T).

(** A session as the server first sees it. *)
Definition new_session (d : Direction) (ip : ip_address) (hname : string) : session T :=
  connect_auth (connect_closed SlotServer (session_init d ip hname)).

Definition listed (ip : ip_address) (ss : sid) w : server T :=
  set_ips (<[ip := {[ ss ]} ∪ default ∅ (m_ipToSession w !! ip)]> (m_ipToSession w)) w.

Lemma onSessionCreated_eq ss s w :
  sv_store w !! ss = Some s ->
  onSessionCreated ss w =
  (Ok tt, set_store (<[ss := connect_auth (connect_closed SlotServer s)]> (sv_store w))
            (listed (m_remoteIp s) ss w)).
Proof.
  intros Hs. unfold onSessionCreated, bind. rewrite (sess_ok _ _ _ _ Hs). simpl.
  unfold modify, sess, zoom, on_session. simpl. rewrite lookup_insert_eq. simpl.
  by rewrite insert_insert_eq.
Qed.

#[export] Instance server_OutHostLaws : OutHostLaws T (server T).
Proof.
  split; try done.
  - intros d a h w. do 2 eexists. split; [done|]. simpl. split_and!; try done.
    apply not_elem_of_dom, is_fresh.
  - intros id s w Hs. simpl. rewrite (onSessionCreated_eq _ _ _ Hs). by eexists.
  - intros id m s w Hs. simpl. rewrite (sess_ok _ _ _ _ Hs). by eexists.
Qed.
End Server_OutHost.
