(* ===== verification/Events.v ===== *)
(** * Events: the turns of the server, one by one

    [sv_turn] says what turns there are; here a turn is data, with the
    condition under which it may come and the completion handler it runs. *)
From S2P Require Import Prelude Effects BetterEnum Priority AccuLine PTree UConfig.
From S2P Require Import Addr Demo Msg InputProcessor Dispatcher Session Remote.
From S2P Require Import Outgoing NetServer.

Inductive event :=
  | EvClock (now : Z)
  | EvAccept (socket : option (option ip_address))
  | EvConnected (ss : sid) (ec : bool)
  | EvRead (ss : sid) (data : option string)
  | EvWritten (ss : sid) (buf : string) (ec : bool)
  | EvBye (ss : sid) (buf : string)
  | EvResolved (rezit : option ip_address) (hname : string) (l1 l2 : list string)
  | EvTimer (o : OutgoingManager).

Section Events.
Context {T : Type} {PL : Platform T}.
Implicit Types (w : server T).

Definition in_progress (op : async_op) (ss : sid) w : Prop :=
  exists s, sv_store w !! ss = Some s /\ op ∈ m_pending s.

(** The event may come. *)
Definition ready (ev : event) w : Prop :=
  match ev with
  | EvClock now => (sv_now w <= now)%Z
  | EvAccept _ => m_acceptor w <> 0
  | EvConnected ss _ => in_progress AConnect ss w
  | EvRead ss _ => in_progress ARead ss w
  | EvWritten ss buf _ => in_progress (AWrite buf) ss w
  | EvBye ss buf => in_progress (ABye buf) ss w
  | EvResolved _ hname l1 l2 => m_resolves (m_outman w) = l1 ++ hname :: l2
  | EvTimer o => timer_step (sv_now w) (m_outman w) o
  end.

(** Its completion handler, run by the event loop. *)
Definition handle (ev : event) : M (server T) unit := fun w =>
  match ev with
  | EvClock now => (Ok tt, set_now now w)
  | EvAccept socket => run_one (accept_handler socket) w
  | EvConnected ss ec => run_one (emit ss (connectHandler (sv_now w) ec)) w
  | EvRead ss data => run_one (read_handler ss data) w
  | EvWritten ss buf ec => run_one (emit ss (write_handler (sv_now w) buf ec)) w
  | EvBye ss buf => run_one (emit ss (bye_handler buf)) w
  | EvResolved rezit hname l1 l2 =>
      run_one (connectResolved rezit hname) (set_outman (set_resolves (l1 ++ l2) (m_outman w)) w)
  | EvTimer o => (Ok tt, set_outman o w)
  end.

(** The turns of the server are its events. *)
Lemma sv_turn_event w res : sv_turn w res <-> exists ev, ready ev w /\ res = handle ev w.
Proof.
  split.
  - intros [now w' H|socket w' H|ss s ec w' Hs H|ss s data w' Hs H|ss s buf ec w' Hs H
      |ss s buf w' Hs H|rezit hname l1 l2 w' H|w' o H].
    + by exists (EvClock now).
    + by exists (EvAccept socket).
    + exists (EvConnected ss ec). split; [by exists s|done].
    + exists (EvRead ss data). split; [by exists s|done].
    + exists (EvWritten ss buf ec). split; [by exists s|done].
    + exists (EvBye ss buf). split; [by exists s|done].
    + by exists (EvResolved rezit hname l1 l2).
    + by exists (EvTimer o).
  - intros (ev & H & ->). destruct ev; simpl in H; try (destruct H as (s & Hs & H)).
    all: by econstructor.
Qed.

Lemma event_step ev w w' : ready ev w -> handle ev w = (Ok tt, w') -> sv_step w w'.
Proof. intros H E. apply sv_turn_event. by exists ev. Qed.

(** ** Runs that can be computed *)

Definition in_progress_b (op : async_op) (ss : sid) w : bool :=
  match sv_store w !! ss with Some s => bool_decide (op ∈ m_pending s) | None => false end.

(** [ready], but for the timer. *)
Definition ready_b (ev : event) w : bool :=
  match ev with
  | EvClock now => (sv_now w <=? now)%Z
  | EvAccept _ => negb (m_acceptor w =? 0)
  | EvConnected ss _ => in_progress_b AConnect ss w
  | EvRead ss _ => in_progress_b ARead ss w
  | EvWritten ss buf _ => in_progress_b (AWrite buf) ss w
  | EvBye ss buf => in_progress_b (ABye buf) ss w
  | EvResolved _ hname l1 l2 => bool_decide (m_resolves (m_outman w) = l1 ++ hname :: l2)
  | EvTimer _ => false
  end.

(** The state after the events, if each may come and its handler returns. *)
Fixpoint play (evs : list event) w : option (server T) :=
  match evs with
  | [] => Some w
  | ev :: evs' =>
      if ready_b ev w then
        match handle ev w with
        | (Ok _, w') => play evs' w'
        | _ => None
        end
      else None
  end.

Lemma in_progress_b_sound op ss w : in_progress_b op ss w = true -> in_progress op ss w.
Proof.
  unfold in_progress_b, in_progress. destruct (sv_store w !! ss) as [s|]; [|done].
  intros H%bool_decide_eq_true. by exists s.
Qed.

Lemma ready_b_sound ev w : ready_b ev w = true -> ready ev w.
Proof.
  destruct ev; simpl; intros H; try by apply in_progress_b_sound.
  - by apply Z.leb_le.
  - by apply negb_true_iff, Nat.eqb_neq in H.
  - by apply bool_decide_eq_true in H.
  - done.
Qed.

Lemma play_reaches evs w w' : play evs w = Some w' -> rtc sv_step w w'.
Proof.
  revert w; induction evs as [|ev evs IH]; intros w; cbn [play]; [by intros [= ->]|].
  destruct (ready_b ev w) eqn:Hr; [|done].
  destruct (handle ev w) as [[[]|e| |] w1] eqn:E; try done. intros Hp.
  eapply rtc_l; [|by apply IH]. eapply event_step; [|exact E]. by apply ready_b_sound.
Qed.
End Events.
