(* ===== verification/ServerWf.v ===== *)
(** * ServerWf: the invariant of the message server

    [server_wf] ties the maps of the server to the session objects: the
    connection table lists exactly the sessions that have not been stopped,
    the local table and the channels refer to sessions that exist, every
    session has the slots the server relies on.  It is kept by every turn of
    the event loop ([sv_step]). *)
From S2P Require Import Prelude Effects BetterEnum Priority AccuLine PTree UConfig.
From S2P Require Import Addr Demo Msg InputProcessor Dispatcher Session Remote.
From S2P Require Import Outgoing NetServer.

(** A slot that refers to a channel refers to a known one. *)
Definition slot_ok (N : string -> Prop) (slot : closed_slot) : Prop :=
  match slot with SlotRemote node => N node | _ => True end.

(** What no operation on a session but [stop], [authenticate] and the
    constructor changes; slots are only added. *)
Record sess_le {T} (N : string -> Prop) (s s' : session T) : Prop := {
  le_ip : m_remoteIp s' = m_remoteIp s;
  le_direction : m_direction s' = m_direction s;
  le_stopped : m_stopped s' = m_stopped s;
  le_auth : s_auth s' = s_auth s;
  le_closed : exists extra, s_closed s' = s_closed s ++ extra /\ Forall (slot_ok N) extra;
  le_msg1 : m_msg1 s' = m_msg1 s;
}.

Definition st_le {T} (N : string -> Prop) (st st' : store T) : Prop :=
  forall id, option_relation (sess_le N) (fun _ => False) (fun _ => False)
               (st !! id) (st' !! id).

(** [X]: the sessions that are stopped and whose slots have not yet run, and
    those whose first message is being handled. *)
Record wf_except {T} {PL : Platform T} (X : gset sid) (w : server T) : Prop := {
  wf_ips ip ss :
    ss ∈ default ∅ (m_ipToSession w !! ip) <->
    exists s, sv_store w !! ss = Some s /\ m_remoteIp s = ip /\
      (m_stopped s = false \/ ss ∈ X);
  wf_locals app ss : m_locals w !! app = Some ss ->
    exists s m, sv_store w !! ss = Some s /\ m_msg1 s = Some m /\
      m_appname (m_from m) = app /\ fromLocal m = true;
  wf_nodes node r : m_nodeToSession w !! node = Some r ->
    m_node r = node /\ forall ss, ss ∈ held r -> is_Some (sv_store w !! ss);
  wf_slots ss s : sv_store w !! ss = Some s ->
    SlotServer ∈ s_closed s /\ s_auth s = true /\
    Forall (slot_ok (fun node => is_Some (m_nodeToSession w !! node))) (s_closed s);
  wf_peers ss s m : sv_store w !! ss = Some s -> m_msg1 s = Some m ->
    m_stopped s = false -> ss ∉ X -> fromLocal m = false ->
    is_Some (m_nodeToSession w !! m_nodename (m_from m));
}.

Abbreviation server_wf := (wf_except ∅).

Section Order.
Context {T : Type} {PL : Platform T}.
Implicit Types (s : session T) (st : store T) (N : string -> Prop).

#[export] Instance sess_le_preorder N : PreOrder (sess_le (T := T) N).
Proof.
  split.
  - intros s. split; try done. exists []. rewrite app_nil_r. by split.
  - intros s1 s2 s3 [? ? ? ? (e1 & H1 & F1) M1] [? ? ? ? (e2 & H2 & F2) M2].
    split; try congruence.
    exists (e1 ++ e2). rewrite H2, H1, app_assoc, Forall_app. by split.
Qed.

#[export] Instance st_le_preorder N : PreOrder (st_le (T := T) N).
Proof.
  split.
  - intros st id. destruct (st !! id); simpl; [reflexivity|done].
  - intros st1 st2 st3 H1 H2 id. specialize (H1 id). specialize (H2 id).
    destruct (st1 !! id), (st2 !! id), (st3 !! id); simpl in *; try done.
    by etrans.
Qed.

Lemma st_le_Some N st st' id s :
  st_le N st st' -> st !! id = Some s -> exists s', st' !! id = Some s' /\ sess_le N s s'.
Proof.
  intros Hle Hs. specialize (Hle id). rewrite Hs in Hle.
  destruct (st' !! id) as [s'|]; [by exists s'|done].
Qed.

Lemma st_le_inv N st st' id s' :
  st_le N st st' -> st' !! id = Some s' -> exists s, st !! id = Some s /\ sess_le N s s'.
Proof.
  intros Hle Hs. specialize (Hle id). rewrite Hs in Hle.
  destruct (st !! id) as [s|]; [by exists s|done].
Qed.

Lemma st_le_insert N st id s s' :
  st !! id = Some s -> sess_le N s s' -> st_le N st (<[id := s']> st).
Proof.
  intros Hs Hle i. destruct (decide (i = id)) as [->|Hi].
  - by rewrite lookup_insert_eq, Hs.
  - rewrite lookup_insert_ne by done. destruct (st !! i); simpl; [reflexivity|done].
Qed.

(** An operation on a session, that only moves upwards. *)
Definition quiet {A} (m : M (session T) A) : Prop :=
  forall N s, sess_le N s (m s).2.

Lemma quiet_modify f : (forall N s, sess_le N s (f s)) -> quiet (modify f).
Proof. intros Hf N s. apply Hf. Qed.

Lemma quiet_of {A} (m : M (session T) A) :
  (forall N s0, preserves (sess_le N s0) m) -> quiet m.
Proof. intros Hm N s. by apply Hm. Qed.

Lemma quiet_preserves {A} N s0 (m : M (session T) A) :
  quiet m -> preserves (sess_le N s0) m.
Proof. intros Hm s Hs. etrans; [exact Hs|apply Hm]. Qed.
End Order.

#[export] Hint Resolve quiet_preserves : preserve.

Ltac quiet_step :=
  intros N s; split; try done; (exists []; rewrite app_nil_r; by split).

Section Quiet.
Context {T : Type} {PL : Platform T}.
Implicit Types (s : session T).

Lemma quiet_outQueue (f : session T -> list QueuedMsg) :
  quiet (modify (fun s => set_outQueue (f s) s)).
Proof. apply quiet_modify. quiet_step. Qed.
Lemma quiet_closing reason : quiet (modify (set_closing (T := T) reason)).
Proof. apply quiet_modify. quiet_step. Qed.
Lemma quiet_async op : quiet (async (T := T) op).
Proof. apply quiet_modify. quiet_step. Qed.
Lemma quiet_complete op : quiet (complete (T := T) op).
Proof. apply quiet_modify. quiet_step. Qed.

#[local] Hint Resolve quiet_outQueue quiet_closing quiet_async quiet_complete : preserve.
#[local] Hint Extern 1 (preserves _ (modify (set_outQueue ?q))) =>
  apply quiet_preserves, (quiet_outQueue (fun _ => q)) : preserve.

Lemma quiet_sendByeAndClose : quiet (sendByeAndClose (T := T)).
Proof. apply quiet_of. intros N s0. unfold sendByeAndClose. auto 10 with preserve. Qed.
#[local] Hint Resolve quiet_sendByeAndClose : preserve.

Lemma quiet_gracefullClose reason : quiet (gracefullClose (T := T) reason).
Proof. apply quiet_of. intros N s0. unfold gracefullClose. auto 10 with preserve. Qed.

Lemma quiet_deleteOld now : quiet (deleteOld (T := T) now).
Proof.
  apply quiet_of. intros N s0. unfold deleteOld.
  apply preserves_bind; [auto with preserve|intros q]. destruct (drop_old now q).
  auto 10 with preserve.
Qed.
#[local] Hint Resolve quiet_deleteOld : preserve.

Lemma quiet_do_write now : quiet (do_write (T := T) now).
Proof. apply quiet_of. intros N s0. unfold do_write. auto 10 with preserve. Qed.
#[local] Hint Resolve quiet_do_write : preserve.

Lemma quiet_putOutQueue now msg : quiet (putOutQueue (T := T) now msg).
Proof. apply quiet_of. intros N s0. unfold putOutQueue. auto 10 with preserve. Qed.
#[local] Hint Resolve quiet_putOutQueue : preserve.

Lemma quiet_start now : quiet (Session.start (T := T) now).
Proof. apply quiet_of. intros N s0. unfold Session.start, do_read. auto 10 with preserve. Qed.
End Quiet.

#[export] Hint Resolve quiet_gracefullClose quiet_putOutQueue quiet_start quiet_async
  quiet_complete quiet_do_write quiet_sendByeAndClose quiet_deleteOld : preserve.

(** ** The channels *)

Section Channels.
Context {T : Type} {PL : Platform T}.
Variables (N : string -> Prop) (st0 : store T) (n0 : string).
Hypothesis Hn0 : N n0.

(** The channel of node [n0] since the sessions were [st0]. *)
Definition chan (s : remote_t * store T) : Prop :=
  m_node s.1 = n0 /\ st_le N st0 s.2 /\ forall ss, ss ∈ held s.1 -> is_Some (st0 !! ss).

Lemma st_le_is_Some st id : st_le N st0 st -> is_Some (st !! id) <-> is_Some (st0 !! id).
Proof.
  intros Hle. specialize (Hle id). by destruct (st0 !! id), (st !! id).
Qed.

Lemma chan_on_session {A} id (m : M (session T) A) :
  quiet m -> preserves chan (on_store (on_session id m)).
Proof.
  intros Hm [r st] (Hn & Hle & Hh). unfold on_store, zoom, on_session. simpl.
  destruct (st !! id) as [s|] eqn:Hs; [|by split_and!].
  pose proof (Hm N s) as Hq. destruct (m s) as [o s']. split_and!; try done. simpl.
  etrans; [exact Hle|]. by eapply st_le_insert.
Qed.

Lemma chan_on_remote f :
  (forall r, m_node (f r) = m_node r) ->
  (forall r ss, ss ∈ held (f r) -> ss ∈ held r \/ is_Some (st0 !! ss)) ->
  preserves chan (on_remote f).
Proof.
  intros Hn Hh [r st] (H1 & H2 & H3). split_and!; simpl; [by rewrite Hn|done|].
  intros ss Hss. destruct (Hh _ _ Hss); auto.
Qed.

Lemma takeOver_loop_le s0 fuel count :
  preserves (fun s => sess_le N s0 s.1) (takeOver_loop (T := T) fuel count).
Proof.
  revert count; induction fuel as [|fuel IH]; intros count; [apply preserves_diverge|].
  cbn [takeOver_loop]. apply preserves_bind; [apply preserves_gets|intros [|m q]].
  { apply preserves_ret. }
  case_decide; [apply IH|]. apply preserves_bind; [|intros _; apply IH].
  apply preserves_modify. intros [s q'] Hs. simpl in *.
  etrans; [exact Hs|]. apply (quiet_outQueue (fun s => m_outQueue s ++ [m]) N s).
Qed.

Lemma takeOverMessages_le s0 now :
  preserves (fun s => sess_le N s0 s.1) (takeOverMessages (T := T) now).
Proof.
  unfold takeOverMessages. apply preserves_bind; [apply preserves_gets|intros wasEmpty].
  apply preserves_bind; [apply preserves_gets|intros n].
  apply preserves_bind; [apply takeOver_loop_le|intros count]. apply preserves_when.
  apply (preserves_zoom _ (sess_le N s0)); auto with preserve.
Qed.

Lemma chan_take_queue now id get set :
  (forall r q, m_node (set q r) = m_node r /\ held (set q r) = held r) ->
  preserves chan (take_queue now id get set).
Proof.
  intros Hset [r st] (Hn & Hle & Hh). unfold take_queue. simpl.
  destruct (st !! id) as [s|] eqn:Hs; [|by split_and!].
  pose proof (takeOverMessages_le s now (s, get r)) as Hq. simpl in Hq.
  destruct (takeOverMessages _ _) as [o [s' q]]. destruct (Hset r q) as [Hn' Hh'].
  split_and!; simpl; [by rewrite Hn'| |by rewrite Hh'].
  etrans; [exact Hle|]. eapply st_le_insert; [done|]. by apply Hq.
Qed.

Lemma chan_remote_send now msg : preserves chan (remote_send (T := T) now msg).
Proof.
  unfold remote_send. apply preserves_bind; [apply preserves_gets|intros r].
  apply preserves_if.
  - apply preserves_bind; [apply preserves_lift|intros qm].
    apply chan_on_remote; [done|]. intros r' ss Hss. by left.
  - destruct (m_sessionH r); [|apply preserves_ub].
    apply chan_on_session. apply quiet_putOutQueue.
Qed.

Lemma chan_onSessionClosed id : preserves chan (on_remote (remote_onSessionClosed id)).
Proof.
  apply chan_on_remote; [done|]. intros r ss Hss. left. revert Hss.
  unfold held, remote_onSessionClosed, clear_if. simpl. repeat case_decide; set_solver.
Qed.

Lemma chan_role (set : option sid -> remote_t -> remote_t) ss :
  is_Some (st0 !! ss) ->
  (forall r, m_node (set (Some ss) r) = m_node r) ->
  (forall r x, x ∈ held (set (Some ss) r) -> x ∈ held r \/ x = ss) ->
  preserves chan (on_remote (set (Some ss))).
Proof.
  intros Hss Hn Hh. apply chan_on_remote; [done|]. intros r x Hx.
  destruct (Hh r x Hx) as [H| ->]; [by left|by right].
Qed.

Lemma held_set_H ss r x : x ∈ held (set_H (Some ss) r) -> x ∈ held r \/ x = ss.
Proof. unfold held. simpl. set_solver. Qed.
Lemma held_set_L ss r x : x ∈ held (set_L (Some ss) r) -> x ∈ held r \/ x = ss.
Proof. unfold held. simpl. set_solver. Qed.
Lemma held_set_C ss r x : x ∈ held (set_C (Some ss) r) -> x ∈ held r \/ x = ss.
Proof. unfold held. simpl. set_solver. Qed.

Lemma chan_assign_role now ss :
  is_Some (st0 !! ss) -> preserves chan (assign_role (T := T) now ss).
Proof.
  intros Hss. unfold assign_role.
  apply preserves_bind; [apply preserves_gets|intros r].
  apply preserves_bind; [apply preserves_gets|intros st].
  repeat apply preserves_if; try (apply chan_on_session, quiet_gracefullClose).
  1-3: apply preserves_bind; [apply chan_role; auto using held_set_H, held_set_L, held_set_C|].
  1-2: intros _; apply preserves_bind; [apply chan_on_session, quiet_putOutQueue|].
  1-2: intros _; by apply chan_take_queue.
  intros _. apply chan_on_session, quiet_putOutQueue.
Qed.

Lemma chan_addSession now ss : preserves chan (addSession (T := T) now ss).
Proof.
  intros [r st] (Hn & Hle & Hh). simpl in *. rewrite addSession_eq.
  destruct (st !! ss) as [s|] eqn:Hs; [|by split_and!].
  assert (is_Some (st0 !! ss)) as Hss0 by (apply (st_le_is_Some st ss Hle); by eexists).
  assert (chan (r, st_slot (m_node r) ss st)) as Hc.
  { split_and!; try done. simpl. unfold st_slot. rewrite Hs. etrans; [exact Hle|].
    eapply st_le_insert; [done|]. split; try done. eexists. split; [done|].
    apply Forall_singleton. simpl. by rewrite Hn. }
  destruct (peer_of st ss) as [peer|]; [|exact Hc].
  destruct (str_lt nodeName peer); [|by apply chan_assign_role].
  destruct Hc as (H1 & H2 & H3). split_and!; try done. simpl in *.
  intros x Hx. unfold held in Hx. simpl in Hx.
  destruct (decide (x = ss)) as [->|Hne]; [done|]. apply Hh. unfold held. set_solver.
Qed.

Lemma chan_close_overtaken old : preserves chan (close_overtaken (T := T) old).
Proof.
  destruct old; [|apply preserves_ret]. apply chan_on_session, quiet_gracefullClose.
Qed.

Lemma chan_handlePriority :
  preserves (fun s => chan s.1) (remote_handlePriorityMsg (T := T)).
Proof.
  intros [[r st] msg] Hc. unfold remote_handlePriorityMsg.
  unfold bind at 1 2, gets at 1 2. cbn [fst snd].
  destruct (m_origin msg) as [ss|]; [|done]. simpl.
  destruct (st !! ss) as [s|] eqn:Hs; [|done]. simpl.
  assert (is_Some (st0 !! ss)) as Hss.
  { apply (st_le_is_Some st ss); [apply Hc|by eexists]. }
  assert (forall A (m : M (remote_t * store T) A), preserves chan m ->
    preserves (fun s : remote_t * store T * Msg T => chan s.1) (zoom fst (fun r s => (r, s.2)) m)) as Hz.
  { intros A m Hm. by apply (preserves_zoom _ chan). }
  revert Hc. generalize (r, st, msg). clear r st msg Hs. intros w Hc.
  match goal with |- chan ((?m w).2).1 =>
    apply (fun H : preserves (fun s : remote_t * store T * Msg T => chan s.1) m => H w Hc) end.
  apply preserves_bind; [apply Hz, chan_on_remote; [done|]|intros _].
  { intros r x Hx. left. revert Hx. unfold held. simpl. set_solver. }
  apply preserves_bind; [apply preserves_gets|intros r].
  apply preserves_if; [apply preserves_ret|].
  apply preserves_bind; [|intros body].
  { intros [[r1 st1] m1] H1. unfold zoom. simpl. by destruct (pbody m1). }
  destruct (default _ _); apply Hz.
  - apply chan_on_session, quiet_gracefullClose.
  - apply preserves_bind; [apply chan_role; auto using held_set_L|intros _].
    apply chan_close_overtaken.
  - apply preserves_bind; [apply chan_role; auto using held_set_H|intros _].
    apply chan_close_overtaken.
  - apply preserves_bind; [apply chan_role; auto using held_set_C|intros _].
    apply chan_close_overtaken.
Qed.
End Channels.

(** ** The server between [stop]s *)

Section Server.
Context {T : Type} {PL : Platform T}.
Implicit Types (w : server T) (X : gset sid).

Definition known w (node : string) : Prop := is_Some (m_nodeToSession w !! node).

Lemma Forall_slot_mono (N N' : string -> Prop) l :
  (forall node, N node -> N' node) -> Forall (slot_ok N) l -> Forall (slot_ok N') l.
Proof. intros HN Hl. eapply Forall_impl; [exact Hl|]. intros []; simpl; auto. Qed.

(** The sessions move upwards, the rest stays. *)
Lemma wf_store X w st :
  wf_except X w -> st_le (known w) (sv_store w) st -> wf_except X (set_store st w).
Proof.
  intros [Hips Hloc Hno Hsl Hpe] Hle. split; simpl.
  - intros ip ss. rewrite Hips. split.
    + intros (s & Hs & Hip & Hst). destruct (st_le_Some _ _ _ _ _ Hle Hs) as (s' & Hs' & L).
      exists s'. rewrite (le_ip _ _ _ L), (le_stopped _ _ _ L). done.
    + intros (s' & Hs' & Hip & Hst). destruct (st_le_inv _ _ _ _ _ Hle Hs') as (s & Hs & L).
      exists s. rewrite <-(le_ip _ _ _ L), <-(le_stopped _ _ _ L). done.
  - intros app ss Ha. destruct (Hloc app ss Ha) as (s & m & Hs & Hm & H).
    destruct (st_le_Some _ _ _ _ _ Hle Hs) as (s' & Hs' & L).
    exists s', m. split; [done|]. split; [by rewrite (le_msg1 _ _ _ L)|done].
  - intros node r Hr. destruct (Hno node r Hr) as [Hn Hh]. split; [done|].
    intros ss Hss. apply (st_le_is_Some _ _ _ _ Hle). by apply Hh.
  - intros ss s' Hs'. destruct (st_le_inv _ _ _ _ _ Hle Hs') as (s & Hs & L).
    destruct (Hsl ss s Hs) as (H1 & H2 & H3).
    destruct (le_closed _ _ _ L) as (e & He & Fe).
    rewrite He, (le_auth _ _ _ L). split_and!; [set_solver|done|].
    apply Forall_app. split; [exact H3|exact Fe].
  - intros ss s' m Hs'. destruct (st_le_inv _ _ _ _ _ Hle Hs') as (s & Hs & L).
    rewrite (le_msg1 _ _ _ L), (le_stopped _ _ _ L). by apply Hpe.
Qed.

Lemma wf_sess {A} X ss (m : M (session T) A) :
  quiet m -> preserves (wf_except X) (sess ss m).
Proof.
  intros Hm w Hw. unfold sess, zoom, on_session.
  destruct (sv_store w !! ss) as [s|] eqn:Hs.
  - pose proof (Hm (known w) s) as L. destruct (m s) as [o s']. simpl.
    apply wf_store; [done|]. by eapply st_le_insert.
  - simpl. apply wf_store; [done|reflexivity].
Qed.

Lemma wf_on_node {A} X node (m : M (remote_t * store T) A) :
  (forall N st0, N node -> preserves (chan N st0 node) m) ->
  preserves (wf_except X) (on_node node m).
Proof.
  intros Hm w Hw. unfold on_node.
  destruct (m_nodeToSession w !! node) as [r|] eqn:Hr; [|done].
  destruct (wf_nodes _ _ Hw node r Hr) as [Hn Hh].
  pose proof (Hm (known w) (sv_store w) ltac:(by eexists) (r, sv_store w)) as Hc.
  destruct Hc as (Hn' & Hle & Hh'); [by split_and!|].
  destruct (m (r, sv_store w)) as [o [r' st']]. simpl in *.
  assert (forall n, known w n <-> is_Some (<[node := r']> (m_nodeToSession w) !! n)) as Hk.
  { intros n. unfold known. destruct (decide (n = node)) as [->|Hne].
    - rewrite lookup_insert_eq, Hr. split; by eexists.
    - by rewrite lookup_insert_ne. }
  destruct (wf_store X w st' Hw Hle) as [Hips Hloc Hno Hsl Hpe]. split; simpl in *.
  - exact Hips.
  - exact Hloc.
  - intros n r0. destruct (decide (n = node)) as [->|Hne].
    + rewrite lookup_insert_eq. intros [= <-]. split; [done|].
      intros ss Hss. apply (st_le_is_Some _ _ _ _ Hle). by apply Hh'.
    + rewrite lookup_insert_ne by done. apply Hno.
  - intros ss s Hs. destruct (Hsl ss s Hs) as (H1 & H2 & H3). split_and!; try done.
    eapply Forall_slot_mono; [|exact H3]. intros n. apply Hk.
  - intros ss s m0 Hs Hm0 H1 H2 H3. by apply Hk, (Hpe ss s m0).
Qed.

Lemma wf_put X ss msg : preserves (wf_except X) (put ss msg).
Proof.
  unfold put. apply preserves_bind; [apply preserves_gets|intros now].
  apply wf_sess, quiet_putOutQueue.
Qed.

Lemma wf_send_to X node msg : preserves (wf_except X) (send_to node msg).
Proof.
  unfold send_to. apply preserves_bind; [apply preserves_gets|intros now].
  apply wf_on_node. intros N st0 Hn. apply chan_remote_send.
Qed.

Lemma wf_findAddRemote X node : preserves (wf_except X) (findAddRemote (T := T) node).
Proof.
  intros w Hw. unfold findAddRemote, modify. simpl.
  destruct (m_nodeToSession w !! node) as [r|] eqn:Hr; [done|].
  assert (forall n, known w n -> is_Some (<[node := remote_init node]> (m_nodeToSession w) !! n))
    as Hk by (intros n Hn; apply lookup_insert_is_Some'; by right).
  destruct Hw as [Hips Hloc Hno Hsl Hpe]. split; simpl; try done.
  - intros n r. destruct (decide (n = node)) as [->|Hne].
    + rewrite lookup_insert_eq. intros [= <-]. split; [done|].
      intros ss Hss. unfold held in Hss. simpl in Hss. set_solver.
    + rewrite lookup_insert_ne by done. apply Hno.
  - intros ss s Hs. destruct (Hsl ss s Hs) as (H1 & H2 & H3). split_and!; try done.
    eapply Forall_slot_mono; [|exact H3]. exact Hk.
  - intros ss s m Hs Hm H1 H2 H3. by apply Hk, (Hpe ss s m).
Qed.

#[local] Hint Resolve wf_put wf_send_to wf_findAddRemote : preserve.

Lemma wf_handleAny X msg : preserves (wf_except X) (handleAny msg).
Proof.
  unfold handleAny. destruct (m_destType msg).
  - apply preserves_ret.
  - unfold handleLocalMsg. auto with preserve.
  - unfold handleRemoteMsg. destruct (route _); auto with preserve.
  - unfold handleBroadcastMsg. apply preserves_bind; [auto with preserve|intros l].
    apply preserves_for_each. auto with preserve.
  - unfold handleLocalBroadcastMsg. apply preserves_bind; [auto with preserve|intros l].
    apply preserves_for_each. auto with preserve.
Qed.

Lemma wf_handlePriorityMsg X :
  preserves (fun s => wf_except X s.1) (handlePriorityMsg (T := T)).
Proof.
  intros [w msg] Hw. unfold handlePriorityMsg. cbn [fst] in Hw.
  set (node := m_nodename (m_from msg)).
  pose proof (wf_on_node X node (fun s =>
    let '(o, s') := remote_handlePriorityMsg (s, msg) in (o, s'.1))) as Hp.
  assert (forall N st0, N node -> preserves (chan N st0 node) (fun s =>
    let '(o, s') := remote_handlePriorityMsg (s, msg) in (o, s'.1))) as Hc.
  { intros N st0 Hn s Hs.
    pose proof (chan_handlePriority N st0 node Hn (s, msg) Hs) as Hres.
    by destruct (remote_handlePriorityMsg (s, msg)) as [o s']. }
  specialize (Hp Hc w Hw). unfold on_node in Hp.
  destruct (m_nodeToSession w !! node) as [r|]; [|done].
  by destruct (remote_handlePriorityMsg _) as [o [[r' st'] msg']].
Qed.
End Server.

#[export] Hint Resolve wf_put wf_send_to wf_findAddRemote wf_handleAny : preserve.

(** ** Reading *)

Section Reading.
Context {T : Type} {PL : Platform T}.
Implicit Types (w : server T) (X : gset sid).

Lemma set_store_same w : set_store (sv_store w) w = w.
Proof. by destruct w. Qed.

(** A session method that only reads. *)
Lemma sess_read {A} ss (m : M (session T) A) w s o :
  sv_store w !! ss = Some s -> m s = (o, s) -> sess ss m w = (o, w).
Proof.
  intros Hs Hm. rewrite (sess_ok _ _ _ _ Hs), Hm. simpl.
  by rewrite insert_id, set_store_same.
Qed.

Lemma sess_missing {A} ss (m : M (session T) A) w :
  sv_store w !! ss = None -> sess ss m w = (Undefined, w).
Proof.
  intros Hs. unfold sess, zoom, on_session. rewrite Hs. by rewrite set_store_same.
Qed.

Lemma wf_take_over X ss old : preserves (wf_except X) (take_over (T := T) ss old).
Proof.
  intros w Hw. unfold take_over. destruct (sv_store w !! ss) as [s|] eqn:Hs; [|done].
  destruct (sv_store w !! old) as [o|] eqn:Ho; [|done].
  destruct (decide (ss = old)) as [|Hne]; [by destruct (outQueueEmpty s)|].
  pose proof (takeOverMessages_le (known w) s (sv_now w) (s, m_outQueue o)) as L.
  destruct (takeOverMessages _ _) as [r [s' q]]. simpl in L. apply wf_store; [done|].
  trans (<[old := set_outQueue q o]> (sv_store w)).
  - eapply st_le_insert; [done|]. apply (quiet_outQueue (fun _ => q) (known w) o).
  - eapply st_le_insert; [by rewrite lookup_insert_ne|]. by apply L.
Qed.

Lemma wf_locals_insert X w app ss s m :
  wf_except X w -> sv_store w !! ss = Some s -> m_msg1 s = Some m ->
  m_appname (m_from m) = app -> fromLocal m = true ->
  wf_except X (set_locals (<[app := ss]> (m_locals w)) w).
Proof.
  intros [Hips Hloc Hno Hsl Hpe] Hs Hm Ha Hl. split; simpl; try done.
  intros a x. destruct (decide (a = app)) as [->|Hne].
  - rewrite lookup_insert_eq. intros [= <-]. by exists s, m.
  - rewrite lookup_insert_ne by done. apply Hloc.
Qed.

Lemma wf_addAuthSessionToRemote X node ss :
  preserves (wf_except X) (addAuthSessionToRemote (T := T) node ss).
Proof.
  unfold addAuthSessionToRemote. apply preserves_bind; [apply wf_findAddRemote|intros _].
  apply preserves_bind; [apply preserves_gets|intros now].
  apply wf_on_node. intros N st0 Hn. by apply chan_addSession.
Qed.

(** The invariant, and what the session [ss] said first. *)
Definition wf_said X ss (m : Msg T) w : Prop :=
  wf_except X w /\ exists s, sv_store w !! ss = Some s /\ m_msg1 s = Some m.

Lemma said_take_over X ss m old : preserves (wf_said X ss m) (take_over ss old).
Proof.
  intros w [Hw (s & Hs & Hm)]. split; [by apply wf_take_over|].
  unfold take_over. rewrite Hs. destruct (sv_store w !! old) as [o|] eqn:Ho; [|by exists s].
  destruct (decide (ss = old)) as [|Hne]; [destruct (outQueueEmpty s); by exists s|].
  pose proof (takeOverMessages_le (known w) s (sv_now w) (s, m_outQueue o)) as L.
  destruct (takeOverMessages _ _) as [r [s' q]]. simpl in *. exists s'.
  rewrite lookup_insert_eq. split; [done|]. by rewrite (le_msg1 _ _ _ (L ltac:(reflexivity))).
Qed.

(** What [auth] does for a session of another node. *)
Lemma auth_remote ss w s m :
  sv_store w !! ss = Some s -> m_msg1 s = Some m -> fromLocal m = false ->
  auth ss w = addAuthSessionToRemote (m_nodename (m_from m)) ss w.
Proof.
  intros Hs Hm Hl. unfold auth, bind at 1.
  rewrite (sess_read _ _ _ _ (Ok (fromLocal m)) Hs), Hl
    by (unfold peerIsLocal, msg1_or_throw; run_m; by rewrite Hm).
  unfold bind at 1. by rewrite (sess_read _ _ _ _ (Ok (m_nodename (m_from m))) Hs)
    by (unfold peerNode, msg1_or_throw; run_m; by rewrite Hm).
Qed.

Lemma wf_auth X ss : preserves (wf_except X) (auth (T := T) ss).
Proof.
  intros w Hw. destruct (sv_store w !! ss) as [s|] eqn:Hs;
    [|unfold auth, bind at 1; by rewrite sess_missing].
  destruct (m_msg1 s) as [m|] eqn:Hm.
  - destruct (fromLocal m) eqn:Hl;
      [|rewrite (auth_remote _ _ _ _ Hs Hm Hl); by apply wf_addAuthSessionToRemote].
    unfold auth, bind at 1. rewrite (sess_read _ _ _ _ (Ok (fromLocal m)) Hs), Hl
      by (unfold peerIsLocal, msg1_or_throw; run_m; by rewrite Hm).
    unfold bind at 1. rewrite (sess_read _ _ _ _ (Ok (m_appname (m_from m))) Hs)
      by (unfold peerApp, msg1_or_throw; run_m; by rewrite Hm).
    apply (fun H : preserves (wf_said X ss m) _ => proj1 (H w (conj Hw (ex_intro _ s (conj Hs Hm))))).
    apply preserves_bind; [apply preserves_gets|intros ssIt].
    apply preserves_bind; [destruct ssIt; [apply said_take_over|apply preserves_ret]|].
    intros _. apply preserves_modify. intros w' [Hw' (s' & Hs' & Hm')].
    split; [by eapply wf_locals_insert|by exists s'].
  - unfold auth, bind at 1. rewrite (sess_read _ _ _ _ (Throw (logic_error
      "called peerIsLocal() on non-authenticated socket")) Hs); [done|].
    unfold peerIsLocal, msg1_or_throw. run_m. by rewrite Hm.
Qed.

(** A first message is taken or refused. *)
Lemma authenticate_result msg s :
  authenticate (T := T) msg s = (Ok false, s) \/
  authenticate msg s = (Ok true, set_msg1 (Some msg) s).
Proof.
  unfold authenticate, bind, modify, ret.
  repeat match goal with |- context [if ?b then _ else _] => destruct b end; auto.
Qed.

(** A session is exempt while its first message is handled. *)
Lemma wf_first_message X w ss s m :
  wf_except X w -> sv_store w !! ss = Some s -> m_msg1 s = None ->
  wf_except (if m_stopped s then X else {[ ss ]} ∪ X)
    (set_store (<[ss := set_msg1 (Some m) s]> (sv_store w)) w).
Proof.
  intros [Hips Hloc Hno Hsl Hpe] Hs Hm. set (s' := set_msg1 (Some m) s). split; simpl.
  - intros ip x. rewrite Hips. destruct (decide (x = ss)) as [->|Hx].
    + rewrite lookup_insert_eq. split.
      * intros (s0 & Hs0 & Hip & Hst). rewrite Hs in Hs0. injection Hs0 as <-. exists s'.
        split_and!; try done. simpl. destruct (m_stopped s); [|by left]. by destruct Hst; [|right].
      * intros (s0 & [= <-] & Hip & Hst). exists s. split_and!; try done.
        simpl in Hst. destruct (m_stopped s); [by destruct Hst; [|right]|by left].
    + rewrite lookup_insert_ne by done. by destruct (m_stopped s); set_solver.
  - intros app x Ha. destruct (Hloc app x Ha) as (s0 & m0 & H1 & H2 & H3).
    exists s0, m0. rewrite lookup_insert_ne; [done|]. intros ->. congruence.
  - intros node r Hr. destruct (Hno node r Hr) as [H1 H2]. split; [done|].
    intros x Hx. apply lookup_insert_is_Some'. right. by apply H2.
  - intros x s0. destruct (decide (x = ss)) as [->|Hx].
    + rewrite lookup_insert_eq. intros [= <-]. by apply (Hsl ss s).
    + rewrite lookup_insert_ne by done. apply Hsl.
  - intros x s0 m0. destruct (decide (x = ss)) as [->|Hx].
    + rewrite lookup_insert_eq. intros [= <-]. simpl. intros _ ->. set_solver.
    + rewrite lookup_insert_ne by done. intros H1 H2 H3 H4. apply (Hpe x s0); try done.
      destruct (m_stopped s); set_solver.
Qed.

(** It is no longer when its node has a channel. *)
Lemma wf_admitted X w ss s m :
  wf_except ({[ ss ]} ∪ X) w -> sv_store w !! ss = Some s -> m_stopped s = false ->
  m_msg1 s = Some m -> fromLocal m = true \/ known w (m_nodename (m_from m)) ->
  wf_except X w.
Proof.
  intros [Hips Hloc Hno Hsl Hpe] Hs Hst Hm Hk. split; try done.
  - intros ip x. rewrite Hips. split; intros (s0 & Hs0 & Hip & H0); exists s0;
      (split_and!; [done|done|]); destruct (decide (x = ss)) as [->|Hx]; set_solver.
  - intros x s0 m0 Hs0 Hm0 H1 H2 H3. destruct (decide (x = ss)) as [->|Hx].
    + rewrite Hs in Hs0. injection Hs0 as <-. rewrite Hm in Hm0. injection Hm0 as <-.
      by destruct Hk as [Hk|Hk]; [congruence|].
    + apply (Hpe x s0); try done. set_solver.
Qed.

Lemma known_findAddRemote w node : known (findAddRemote (T := T) node w).2 node.
Proof.
  unfold findAddRemote, modify, known. simpl.
  destruct (m_nodeToSession w !! node) eqn:Hr; simpl; rewrite ?Hr, ?lookup_insert_eq; by eexists.
Qed.

(** After [auth] the session belongs to an application or to a channel. *)
Lemma auth_admits X ss w s m :
  wf_except ({[ ss ]} ∪ X) w -> sv_store w !! ss = Some s -> m_stopped s = false ->
  m_msg1 s = Some m -> wf_except X (auth ss w).2.
Proof.
  intros Hw Hs Hst Hm. destruct (fromLocal m) eqn:Hl.
  - apply wf_auth. eapply wf_admitted; [done..|by left].
  - rewrite (auth_remote _ _ _ _ Hs Hm Hl). set (node := m_nodename (m_from m)).
    pose proof (wf_findAddRemote _ node w Hw) as Hw2.
    pose proof (known_findAddRemote w node) as Hk.
    assert (sv_store (findAddRemote (T := T) node w).2 = sv_store w) as Hst2.
    { unfold findAddRemote, modify. simpl. by destruct (_ !! node). }
    assert (findAddRemote (T := T) node w = (Ok tt, (findAddRemote (T := T) node w).2)) as E by done.
    unfold addAuthSessionToRemote. rewrite (bind_ok _ _ _ _ _ E). unfold bind, gets.
    apply wf_on_node; [intros N st0 Hn; by apply chan_addSession|].
    eapply wf_admitted; [exact Hw2|by rewrite Hst2|done|done|by right].
Qed.
End Reading.

Section Processing.
Context {T : Type} {PL : Platform T}.
Implicit Types (w : server T) (X : gset sid).

Lemma wf_set_dispatcher X w d : wf_except X w -> wf_except X (set_dispatcher d w).
Proof. by intros [? ? ? ? ?]. Qed.

Lemma wf_set_outman X w o : wf_except X w -> wf_except X (set_outman o w).
Proof. by intros [? ? ? ? ?]. Qed.

Lemma wf_dispatch X inline msg :
  preserves (wf_except X)
    (dispatch (T := T) sv_dispatcher set_dispatcher run_named run_any inline msg).
Proof.
  apply dispatch_preserves; [intros d w; apply wf_set_dispatcher|by intros v w [? ? ? ? ?]|intros []|intros []].
  - apply wf_handlePriorityMsg.
  - apply preserves_bind; [apply preserves_gets|intros m'].
    apply (preserves_zoom _ (wf_except X)); auto using wf_handleAny.
Qed.

Lemma wf_dispatchMsg X ss msg : preserves (wf_except X) (dispatchMsg (T := T) ss msg).
Proof.
  intros w Hw. unfold dispatchMsg, bind at 1.
  destruct (sv_store w !! ss) as [s|] eqn:Hs; [|by rewrite sess_missing].
  rewrite (sess_read _ _ _ _ (Ok (authenticated s)) Hs) by done.
  unfold authenticated. case_bool_decide as Ha; simpl; [by apply wf_dispatch|].
  assert (m_msg1 s = None) as Hm by (destruct (m_msg1 s); [by destruct Ha|done]).
  destruct (authenticate_result msg s) as [E|E]; unfold bind at 1.
  - rewrite (sess_read _ _ _ _ _ Hs E). simpl. by apply wf_sess; [apply quiet_gracefullClose|].
  - rewrite (sess_ok _ _ _ _ Hs), E. simpl.
    pose proof (wf_first_message X w ss s msg Hw Hs Hm) as Hw1.
    set (s1 := set_msg1 (Some msg) s) in *. set (w1 := set_store _ w) in *.
    assert (sv_store w1 !! ss = Some s1) as Hs1 by apply lookup_insert_eq.
    unfold bind. rewrite (sess_read _ _ _ _ (Ok (s_auth s1)) Hs1) by done.
    destruct (wf_slots _ _ Hw ss s Hs) as (_ & Hau & _).
    assert (s_auth s1 = true) as -> by exact Hau. simpl.
    destruct (m_stopped s) eqn:Hst; [by apply wf_auth|]. by eapply auth_admits.
Qed.

Lemma wf_process_input X ss input : preserves (wf_except X) (process_input (T := T) ss input).
Proof.
  unfold process_input. apply (preserves_zoom _ (fun s => wf_except X s.2)).
  - apply processNewInput_preserves. intros msg. apply wf_dispatchMsg.
  - done.
  - intros w [ip w'] _ Hw'. unfold put_processor. simpl in *. apply wf_store; [done|].
    intros id. destruct (decide (id = ss)) as [->|Hne].
    + rewrite lookup_alter_eq. destruct (sv_store w' !! ss); simpl; [|done].
      split; try done. exists []. rewrite app_nil_r. by split.
    + rewrite lookup_alter_ne by done. destruct (sv_store w' !! id); simpl; [reflexivity|done].
Qed.
End Processing.

(** ** Sessions come and go *)

Section Lifecycle.
Context {T : Type} {PL : Platform T}.
Implicit Types (w : server T) (X : gset sid).

(** A completion handler either goes on, or stops the session and returns
    its slots. *)
Definition closing (m : M (session T) (list closed_slot)) : Prop :=
  forall s slots s', m s = (Ok slots, s') ->
    (slots = [] /\ forall N, sess_le N s s') \/
    (m_stopped s = false /\ slots = s_closed s /\
     exists s1, (forall N, sess_le N s s1) /\ s_closed s1 = s_closed s /\
       s' = set_stopped s1).

Lemma closing_quiet (m : M (session T) (list closed_slot)) :
  quiet m -> (forall s slots s', m s = (Ok slots, s') -> slots = []) -> closing m.
Proof.
  intros Hq Hm s slots s' E. left. split; [by eapply Hm|]. intros N.
  specialize (Hq N s). by rewrite E in Hq.
Qed.

Lemma closing_stop : closing (stop (T := T)).
Proof.
  intros s slots s'. unfold stop, shutdown. run_m.
  destruct (m_stopped s) eqn:Hs; simpl.
  - intros [= <- <-]. left. split; [done|]. intros N. reflexivity.
  - rewrite Hs. simpl. intros [= <- <-]. right. split; [done|]. split; [done|].
    exists s. split; [intros N; reflexivity|]. by destruct s.
Qed.

Lemma closing_complete op (m : M (session T) (list closed_slot)) :
  closing m -> closing (complete op ;; m).
Proof.
  intros Hm s slots s'. unfold bind, complete, modify. intros E.
  set (s0 := set_pending _ s) in E.
  assert (forall N, sess_le N s s0) as L0.
  { intros N. apply (quiet_complete op N s). }
  destruct (Hm _ _ _ E) as [[-> L]|(Hst & -> & s1 & L & Hc & ->)].
  - left. split; [done|]. intros N. etrans; [apply L0|apply L].
  - right. split; [exact Hst|]. split; [done|]. exists s1. split; [|done].
    intros N. etrans; [apply L0|apply L].
Qed.

Lemma closing_if (b : bool) (m n : M (session T) (list closed_slot)) :
  closing m -> closing n -> closing (if b then m else n).
Proof. by destruct b. Qed.

(** A quiet part that returns no slots. *)
Lemma closing_then_nil (m : M (session T) unit) : quiet m -> closing (m ;; ret []).
Proof.
  intros Hm. apply closing_quiet.
  - apply quiet_of. intros N s0. auto with preserve.
  - intros s slots s'. unfold bind. by destruct (m s) as [[]?]; intros [= <- _].
Qed.

Lemma closing_write now buf ec : closing (write_handler (T := T) now buf ec).
Proof.
  apply closing_complete, closing_if; [apply closing_stop|]. apply closing_quiet.
  - apply quiet_of. intros N s0. apply preserves_bind; [apply preserves_gets|].
    intros [|m q]; [apply preserves_ub|]. apply preserves_bind; [|auto 10 with preserve].
    apply quiet_preserves, (quiet_outQueue (fun _ => q)).
  - intros s slots s'. unfold bind at 1, gets at 1. destruct (m_outQueue s); [done|].
    unfold bind. destruct (modify _ _) as [[]?]; try done.
    destruct (deleteOld _ _) as [[]?]; try done. simpl.
    destruct (when _ _ _) as [[]?]; try done. by intros [= <- _].
Qed.

Lemma closing_bye buf : closing (bye_handler (T := T) buf).
Proof. apply closing_complete, closing_stop. Qed.

Lemma closing_connect now ec : closing (connectHandler (T := T) now ec).
Proof.
  apply closing_complete, closing_if; [apply closing_stop|].
  apply closing_then_nil, quiet_start.
Qed.

(** The slots of a stopped session run. *)
Definition wf_stopped X ss w : Prop :=
  wf_except X w /\ exists s, sv_store w !! ss = Some s /\ m_stopped s = true.

Lemma wf_onSessionClosed X ss w w' :
  wf_stopped X ss w -> onSessionClosed ss w = (Ok tt, w') -> wf_stopped (X ∖ {[ ss ]}) ss w'.
Proof.
  intros [Hw (s & Hs & Hst)]. unfold onSessionClosed, bind at 1.
  rewrite (sess_read _ _ _ _ (Ok (m_remoteIp s)) Hs) by done. unfold modify.
  intros [= <-]. split; [|by exists s].
  destruct Hw as [Hips Hloc Hno Hsl Hpe]. split; simpl; try done.
  2: { intros x s0 m Hs0 Hm H1 H2 H3. apply (Hpe x s0); try done. intros Hx. apply H2.
       apply elem_of_difference. split; [done|]. intros ->%elem_of_singleton. congruence. }
  intros ip x. destruct (decide (ip = m_remoteIp s)) as [->|Hip].
  - rewrite lookup_insert_eq. simpl. rewrite elem_of_difference, Hips. split.
    + intros [(s' & Hs' & Hip & Hx) Hne]. exists s'. set_solver.
    + intros (s' & Hs' & Hip & Hx). split; [exists s'; set_solver|].
      intros ->%elem_of_singleton. rewrite Hs in Hs'. injection Hs' as <-.
      destruct Hx as [Hx|Hx]; [congruence|set_solver].
  - rewrite lookup_insert_ne, Hips by done. split.
    + intros (s' & Hs' & Hip' & Hx). exists s'. split; [done|]. split; [done|].
      destruct Hx as [Hx|Hx]; [by left|right].
      apply elem_of_difference. split; [done|]. intros ->%elem_of_singleton. congruence.
    + intros (s' & Hs' & Hip' & Hx). exists s'. set_solver.
Qed.

Lemma wf_run_slot X ss slot w w' :
  wf_stopped X ss w -> run_slot ss slot w = (Ok tt, w') ->
  wf_stopped (if decide (slot = SlotServer) then X ∖ {[ ss ]} else X) ss w'.
Proof.
  intros Hw. destruct slot as [|node|hname]; cbn [run_slot].
  - rewrite decide_True by done. by apply wf_onSessionClosed.
  - rewrite decide_False by done. destruct Hw as [Hw Hs]. intros E. split.
    + pose proof (wf_on_node X node (on_remote (T := T) (remote_onSessionClosed ss))
        ltac:(intros N st0 Hn; by apply chan_onSessionClosed) w Hw) as Hp.
      by rewrite E in Hp.
    + revert E. unfold on_node. destruct (m_nodeToSession w !! node); [|done].
      unfold on_remote, modify. by intros [= <-].
  - rewrite decide_False by done. destruct Hw as [Hw Hs]. intros [= <-].
    split; [by apply wf_set_outman|done].
Qed.

Lemma wf_run_slots X ss slots w w' :
  wf_stopped X ss w -> for_each slots (run_slot ss) w = (Ok tt, w') ->
  wf_stopped (if decide (SlotServer ∈ slots) then X ∖ {[ ss ]} else X) ss w'.
Proof.
  revert X w; induction slots as [|slot l IH]; intros X w Hw; cbn [for_each].
  { intros [= <-]. by rewrite decide_False by set_solver. }
  unfold bind. destruct (run_slot ss slot w) as [[[]|e| |] w1] eqn:E; try done.
  intros E2. pose proof (IH _ _ (wf_run_slot _ _ _ _ _ Hw E) E2) as Hw'. revert Hw'.
  destruct (decide (slot = SlotServer)) as [->|Hne].
  - rewrite (decide_True (P := SlotServer ∈ SlotServer :: l)) by (by left).
    assert (X ∖ {[ss]} ∖ {[ss]} = X ∖ {[ss]}) as -> by set_solver. by case_decide.
  - by repeat case_decide; set_solver.
Qed.

Lemma wf_emit ss m w w' :
  closing m -> server_wf w -> emit ss m w = (Ok tt, w') -> server_wf w'.
Proof.
  intros Hm Hw. unfold emit, bind.
  destruct (sv_store w !! ss) as [s|] eqn:Hs; [|by rewrite sess_missing].
  rewrite (sess_ok _ _ _ _ Hs). destruct (m s) as [[slots|e| |] s'] eqn:E; try done.
  simpl. destruct (Hm _ _ _ E) as [[-> L]|(Hst & -> & s1 & L & Hc & ->)].
  - intros [= <-]. apply wf_store; [done|]. by eapply st_le_insert.
  - intros Hf.
    assert (server_wf (set_store (<[ss := s1]> (sv_store w)) w)) as Hw1.
    { apply wf_store; [done|]. by eapply st_le_insert. }
    assert (wf_stopped {[ss]} ss (set_store (<[ss := set_stopped s1]> (sv_store w)) w)) as Hw2.
    { split; [|exists (set_stopped s1); simpl; by rewrite lookup_insert_eq].
      destruct Hw1 as [Hips Hloc Hno Hsl Hpe]. split; simpl in *.
      - intros ip x. rewrite Hips. destruct (decide (x = ss)) as [->|Hne].
        + rewrite !lookup_insert_eq. split.
          * intros (s0 & [= <-] & Hip & _). exists (set_stopped s1). set_solver.
          * intros (s0 & [= <-] & Hip & _). exists s1. split; [done|]. split; [exact Hip|].
            left. by rewrite (le_stopped _ _ _ (L (known w))).
        + rewrite !lookup_insert_ne by done.
          split; intros (s0 & H1 & H2 & H3); exists s0; set_solver.
      - intros app x Ha. destruct (Hloc app x Ha) as (s0 & m0 & H1 & H2 & H3).
        destruct (decide (x = ss)) as [->|Hne].
        + rewrite lookup_insert_eq in *. injection H1 as <-.
          by exists (set_stopped s1), m0.
        + rewrite lookup_insert_ne in * by done. by exists s0, m0.
      - intros node r Hr. destruct (Hno node r Hr) as [H1 H2]. split; [done|].
        intros x Hx. specialize (H2 x Hx). destruct (decide (x = ss)) as [->|Hne].
        + rewrite lookup_insert_eq. by eexists.
        + by rewrite lookup_insert_ne in * by done.
      - intros x s0. destruct (decide (x = ss)) as [->|Hne].
        + rewrite lookup_insert_eq. intros [= <-]. simpl.
          apply (Hsl ss s1). by rewrite lookup_insert_eq.
        + rewrite lookup_insert_ne by done. intros Hx. apply (Hsl x s0).
          by rewrite lookup_insert_ne.
      - intros x s0 m0 Hx Hm0 H1 H2 H3. assert (x <> ss) as Hne by set_solver.
        rewrite lookup_insert_ne in Hx by done.
        apply (Hpe x s0 m0); [by rewrite lookup_insert_ne|done|done|set_solver|done]. }
    destruct (wf_slots _ _ Hw ss s Hs) as (Hin & _ & _).
    pose proof (wf_run_slots _ _ _ _ _ Hw2 Hf) as [Hw3 _]. revert Hw3.
    rewrite decide_True by done. by rewrite difference_diag_L.
Qed.
End Lifecycle.

Section Creation.
Context {T : Type} {PL : Platform T}.
Implicit Types (w : server T).

Lemma wf_created d ip hname w :
  server_wf w ->
  exists id w1 w2,
    make_session d ip hname w = (Ok id, w1) /\ onSessionCreated id w1 = (Ok tt, w2) /\
    server_wf w2 /\ sv_store w2 !! id = Some (new_session d ip hname).
Proof.
  intros [Hips Hloc Hno Hsl Hpe]. unfold make_session.
  set (id := fresh (dom (sv_store w))).
  assert (sv_store w !! id = None) as Hf by apply not_elem_of_dom, is_fresh.
  do 3 eexists. split; [done|].
  erewrite onSessionCreated_eq by apply lookup_insert_eq.
  split; [done|]. simpl. rewrite insert_insert_eq. split; [|apply lookup_insert_eq].
  assert (forall x s, sv_store w !! x = Some s -> x <> id) as Hne.
  { intros x s Hx ->. congruence. }
  split; simpl.
  - intros ip' x. destruct (decide (x = id)) as [->|Hx].
    + rewrite lookup_insert_eq. destruct (decide (ip' = ip)) as [->|Hip].
      * rewrite lookup_insert_eq. simpl. split; [|set_solver].
        intros _. eexists. split; [done|]. simpl. set_solver.
      * rewrite lookup_insert_ne, Hips by done. split.
        -- intros (s & Hs & _). congruence.
        -- intros (s & [= <-] & <- & _). done.
    + rewrite (lookup_insert_ne (sv_store w)) by done. rewrite <-Hips.
      destruct (decide (ip' = ip)) as [->|Hip].
      * rewrite lookup_insert_eq. simpl. set_solver.
      * by rewrite lookup_insert_ne.
  - intros app x Ha. destruct (Hloc app x Ha) as (s & m & Hs & Hm).
    exists s, m. rewrite lookup_insert_ne; [done|]. intros <-. by eapply Hne.
  - intros node r Hr. destruct (Hno node r Hr) as [Hn Hh]. split; [done|].
    intros x Hx. destruct (Hh x Hx) as [s Hs]. exists s.
    rewrite lookup_insert_ne; [done|]. intros <-. by eapply Hne.
  - intros x s. destruct (decide (x = id)) as [->|Hx].
    + rewrite lookup_insert_eq. intros [= <-]. simpl. split; [by left|]. split; [done|].
      by apply Forall_singleton.
    + rewrite lookup_insert_ne by done. apply Hsl.
  - intros x s m. destruct (decide (x = id)) as [->|Hx].
    + rewrite lookup_insert_eq. by intros [= <-].
    + rewrite lookup_insert_ne by done. apply Hpe.
Qed.

Lemma wf_acceptor X n w : wf_except X w -> wf_except X (set_acceptor n w).
Proof. by intros [? ? ? ? ?]. Qed.

Lemma wf_accept_handler socket : preserves server_wf (accept_handler (T := T) socket).
Proof.
  unfold accept_handler. apply preserves_bind.
  { apply preserves_modify. intros w. apply wf_acceptor. }
  intros _. apply preserves_bind; [|intros _; apply preserves_modify; intros w; apply wf_acceptor].
  destruct socket as [peer|]; [|apply preserves_ret].
  apply preserves_bind; [apply preserves_lift|intros raddr w Hw].
  destruct (wf_created incoming raddr EmptyString w Hw) as (id & w1 & w2 & E1 & E2 & Hw2 & Hs).
  rewrite (bind_ok _ _ _ _ _ E1), (bind_ok _ _ _ _ _ E2). unfold bind at 1, gets at 1.
  destruct (_ <? _)%nat; [by apply wf_sess; [apply quiet_gracefullClose|]|].
  unfold bind, gets. by apply wf_sess; [apply quiet_start|].
Qed.

Lemma wf_create_session addr hname : preserves server_wf (create_session addr hname).
Proof.
  intros w Hw. unfold create_session. simpl.
  destruct (wf_created outgoing addr hname w Hw) as (id & w1 & w2 & E1 & E2 & Hw2 & Hs).
  rewrite (bind_ok _ _ _ _ _ E1), (bind_ok _ _ _ _ _ E2). revert w2 E2 Hw2 Hs.
  intros w2 _ Hw2 _.
  match goal with |- wf_except _ ((?m _).2) =>
    apply (fun H : preserves server_wf m => H w2 Hw2) end.
  apply preserves_bind; [|intros _; apply wf_sess, quiet_async].
  apply wf_sess, quiet_modify. intros N s. split; try done.
  exists [SlotHost hname]. split; [done|]. by apply Forall_singleton.
Qed.

Lemma wf_on_out f : preserves server_wf (on_out (W := server T) f).
Proof. apply preserves_modify. intros w. apply wf_set_outman. Qed.

Lemma wf_connectResolved rezit hname :
  preserves server_wf (connectResolved (W := server T) rezit hname).
Proof.
  unfold connectResolved. destruct rezit as [addr|];
    [|apply preserves_bind; [apply wf_on_out|intros _; apply wf_on_out]].
  apply preserves_bind; [apply wf_on_out|intros _].
  apply preserves_bind; [apply preserves_gets|intros [rh|]]; [|apply preserves_ub].
  apply preserves_bind; [apply preserves_gets|intros found].
  apply preserves_bind; [apply preserves_gets|intros fn].
  destruct (judge _ _ _) as [| |n].
  - apply preserves_when, wf_on_out.
  - apply preserves_when, wf_on_out.
  - apply preserves_bind; [apply wf_on_out|intros _].
    apply preserves_bind; [|intros _; apply wf_on_out].
    induction (Z.to_nat n) as [|k IH]; [apply preserves_ret|].
    apply preserves_bind; [apply wf_create_session|intros _; exact IH].
Qed.

Lemma wf_read_handler ss data w w' :
  server_wf w -> read_handler ss data w = (Ok tt, w') -> server_wf w'.
Proof.
  intros Hw. unfold read_handler, bind at 1.
  destruct (sess ss (complete ARead) w) as [[[]|e| |] w1] eqn:E1; try done.
  assert (server_wf w1) as Hw1.
  { pose proof (wf_sess ∅ ss _ (quiet_complete ARead) w Hw) as H. by rewrite E1 in H. }
  destruct data as [input|]; [|by apply wf_emit; [apply closing_stop|]].
  unfold bind. pose proof (wf_process_input ∅ ss input w1 Hw1) as Hp.
  destruct (process_input ss input w1) as [[ok|e| |] w2]; try done. simpl in Hp.
  destruct ok; simpl; [|by apply wf_emit; [apply closing_stop|]].
  intros E. pose proof (wf_sess ∅ ss _ (quiet_async ARead) w2 Hp) as H.
  unfold do_read in E. by rewrite E in H.
Qed.

Lemma wf_step w w' : server_wf w -> sv_step w w' -> server_wf w'.
Proof.
  intros Hw Hstep. unfold sv_step in Hstep. remember (Ok tt, w') as res eqn:E.
  destruct Hstep as [now w Hn|socket w _|ss s ec w Hs _|ss s data w Hs _|ss s buf ec w Hs _
    |ss s buf w Hs _|rezit hname l1 l2 w Hr|w o _];
    try (apply run_one_inv in E as [E _]).
  - injection E as <-. by destruct Hw.
  - pose proof (wf_accept_handler socket w Hw) as H. by rewrite E in H.
  - by eapply wf_emit; [apply closing_connect| |exact E].
  - by eapply wf_read_handler.
  - by eapply wf_emit; [apply closing_write| |exact E].
  - by eapply wf_emit; [apply closing_bye| |exact E].
  - pose proof (wf_connectResolved rezit hname
      (set_outman (set_resolves (l1 ++ l2) (m_outman w)) w)) as H.
    rewrite E in H. apply H. by apply wf_set_outman.
  - injection E as <-. by apply wf_set_outman.
Qed.

Lemma wf_init now port : server_wf (server_init (T := T) now port).
Proof.
  split; simpl.
  - intros ip ss. rewrite lookup_empty. simpl. split; [set_solver|].
    intros (s & Hs & _). by rewrite lookup_empty in Hs.
  - intros app ss. by rewrite lookup_empty.
  - intros node r. by rewrite lookup_empty.
  - intros ss s. by rewrite lookup_empty.
  - intros ss s m. by rewrite lookup_empty.
Qed.

Lemma wf_ctor inline : preserves server_wf (NetServer_ctor (T := T) inline).
Proof.
  assert (forall A (m : M _ A), preserves server_wf
    (zoom (W := server T) sv_dispatcher set_dispatcher m)) as Hd.
  { intros A m. apply (preserves_zoom _ (fun _ => True)); auto using wf_set_dispatcher.
    intros d. auto. }
  unfold NetServer_ctor. apply preserves_bind; [apply Hd|intros _].
  apply preserves_bind; [apply Hd|intros _].
  apply preserves_bind; [apply preserves_modify; intros w; apply wf_acceptor|intros _].
  apply preserves_bind; [apply preserves_lift|intros l].
  apply preserves_bind; [|intros _; apply preserves_modify; intros w; apply wf_set_outman].
  apply preserves_for_each. intros h _. apply preserves_modify. intros w. apply wf_set_outman.
Qed.

Lemma reachable_wf now port w0 w :
  NetServer_ctor true (server_init now port) = (Ok tt, w0) -> rtc sv_step w0 w -> server_wf w.
Proof.
  intros E Hr. assert (server_wf w0) as Hw0.
  { pose proof (wf_ctor true _ (wf_init now port)) as H. by rewrite E in H. }
  revert w Hr. apply (rtc_ind_r server_wf); [done|]. intros w1 w2 _ Hs Hw. by eapply wf_step.
Qed.

(** C1: From the constructed server, the constructor's registrations having
    run at once, whatever completion handlers the event loop runs, in
    whatever order and whatever their operations' outcome, as long as none
    of them ends the process, the invariant holds: the connection table
    lists exactly the sessions with that address that have not been stopped,
    the local table refers to existing sessions authenticated as that
    application of this node, every channel is filed under its own node and
    refers to existing sessions only, the node of a session that another
    server has authenticated on and that has not been stopped has a channel,
    and every session still has its authentication slot, its server slot and
    only slots of known channels. *)
Theorem server_reachable_wf now port w0 w :
  NetServer_ctor true (server_init now port) = (Ok tt, w0) -> rtc sv_step w0 w ->
  wf_except ∅ w.
Proof. apply reachable_wf. Qed.
End Creation.
