(* ===== verification/ServerProps.v ===== *)
(** * ServerProps: what the server does with connections and messages

    End-to-end behaviour of the handlers of [NetServer] on a server that
    satisfies the invariant [server_wf]. *)
From S2P Require Import Prelude Effects BetterEnum Priority AccuLine PTree UConfig.
From S2P Require Import Addr Demo Msg InputProcessor Dispatcher Session Remote.
From S2P Require Import Outgoing NetServer ServerWf.

Section Accepting.
Context {T : Type} {PL : Platform T}.
Implicit Types (w : server T).

(** The sessions with an address that have not been stopped. *)
Definition live (ip : ip_address) w : store T :=
  filter (fun ks => m_remoteIp ks.2 = ip /\ m_stopped ks.2 = false) (sv_store w).

Lemma live_listed ip w :
  server_wf w -> default ∅ (m_ipToSession w !! ip) = dom (live ip w).
Proof.
  intros Hw. apply set_eq. intros ss. rewrite (wf_ips _ _ Hw), elem_of_dom. unfold live.
  split.
  - intros (s & Hs & Hip & Hst). exists s. apply map_lookup_filter_Some. set_solver.
  - intros [s [Hs [Hip Hst]]%map_lookup_filter_Some]. exists s. tauto.
Qed.

(** What the comment in OutgoingManager::connectResolved says never happens:
    a session of the connection table that is authenticated, and no channel
    for its node.  It does not, for a session of another node. *)
Lemma listed_session_has_channel ip ss w s m :
  server_wf w -> ss ∈ default ∅ (m_ipToSession w !! ip) -> sv_store w !! ss = Some s ->
  m_msg1 s = Some m -> fromLocal m = false -> is_Some (connectedFn w (m_nodename (m_from m))).
Proof.
  intros Hw (s' & Hs' & _ & Hst)%(wf_ips _ _ Hw) Hs Hm Hl. rewrite Hs in Hs'. injection Hs' as <-.
  destruct Hst as [Hst|Hst]; [|set_solver].
  destruct (wf_peers _ _ Hw ss s m) as [r Hr]; [done..|set_solver|done|].
  unfold connectedFn. rewrite Hr. by eexists.
Qed.

Definition bye_msg (reason : string) : Msg T :=
  Msg_out Addr_default "bye" (pt_add "bye" reason pt_empty).
Definition auth_msg : Msg T := Msg_out Addr_default "auth" (pt_add "pid" getpid pt_empty).

(** The state in which the new session is judged. *)
Definition accepted (id : sid) (ip : ip_address) (s : session T) w : server T :=
  set_store (<[id := s]> (sv_store w)) (listed ip id w).

Definition greet (many : bool) (now : Z) : M (session T) unit :=
  if many then gracefullClose "connection refused: too many connections"
  else Session.start now.

Lemma accept_eq ip w s1 :
  server_wf w ->
  let id := fresh (dom (sv_store w)) in
  greet (10 <? S (size (live ip w)))%nat (sv_now w) (new_session incoming ip EmptyString)
    = (Ok tt, s1) ->
  sv_store w !! id = None /\
  accept_handler (Some (Some ip)) w =
    (Ok tt, set_acceptor (S (pred (m_acceptor w))) (accepted id ip s1 w)).
Proof.
  intros Hw id Hg. assert (sv_store w !! id = None) as Hf by apply not_elem_of_dom, is_fresh.
  split; [done|]. unfold accept_handler. unfold bind at 1, modify at 1.
  set (w0 := set_acceptor (pred _) w).
  assert (make_session incoming ip EmptyString w0 = (Ok id,
    set_store (<[id := session_init incoming ip EmptyString]> (sv_store w)) w0)) as E1 by done.
  unfold bind at 1, bind at 1, lift at 1. cbn [of_option].
  rewrite (bind_ok _ _ _ _ _ E1). unfold bind at 1.
  erewrite onSessionCreated_eq by apply lookup_insert_eq. simpl.
  rewrite insert_insert_eq. unfold bind at 1, gets at 1. simpl.
  rewrite lookup_insert_eq. simpl.
  assert (size ({[id]} ∪ default ∅ (m_ipToSession w !! ip)) = S (size (live ip w))) as ->.
  { rewrite <-size_dom, <-live_listed by done. rewrite size_union, size_singleton; [done|].
    intros x ->%elem_of_singleton (s & Hs & _)%(wf_ips _ _ Hw). congruence. }
  unfold greet in Hg. unfold MaxConnectionsWithAddr.
  destruct (10 <? S (size (live ip w)))%nat;
    [|unfold bind at 1, gets at 1; simpl]; erewrite sess_ok by apply lookup_insert_eq;
    unfold new_session in Hg; rewrite Hg; simpl; by rewrite insert_insert_eq.
Qed.

Lemma live_accepted id ip s w n :
  sv_store w !! id = None -> m_remoteIp s = ip -> m_stopped s = false ->
  size (live ip (set_acceptor n (accepted id ip s w))) = S (size (live ip w)).
Proof.
  intros Hf Hip Hst. unfold live. simpl. rewrite map_filter_insert_True by done.
  apply map_size_insert_None. apply map_lookup_filter_None. by left.
Qed.

(** C11: On a well-formed server whose service messages can be written:
    accepting a connection whose peer is still there makes one new session,
    lists it under its address and accepts again; if fewer than ten sessions
    with the address are open the session is greeted with the service
    message of the process and reads; otherwise its close flag is set, it
    gets only the message that refuses the connection and never reads.  A
    failed accept only accepts again.  When the peer is gone already,
    remote_endpoint throws: no session is made, the accept is not renewed,
    and the turn of the event loop throws. *)
Theorem accept_limit ip w bye raw :
  server_wf w ->
  (move_tostr (bye_msg "connection refused: too many connections")).1 = Ok bye ->
  charvec auth_msg = Ok raw ->
  (accept_handler None w = (Ok tt, set_acceptor (S (pred (m_acceptor w))) w)) /\
  (accept_handler (Some None) w = (Throw system_error, set_acceptor (pred (m_acceptor w)) w)) /\
  (m_acceptor w <> 0 -> sv_turn w (Throw system_error, set_acceptor (pred (m_acceptor w)) w)) /\
  exists id w' s,
    accept_handler (Some (Some ip)) w = (Ok tt, w') /\
    sv_store w !! id = None /\ sv_store w' = <[id := s]> (sv_store w) /\
    size (live ip w') = S (size (live ip w)) /\
    m_acceptor w' = S (pred (m_acceptor w)) /\
    if (size (live ip w) <? 10)%nat then
      m_closeFlag s = false /\ m_pending s = [AWrite raw; ARead] /\
      m_outQueue s = [mkQueuedMsg raw (destType auth_msg) (sv_now w)]
    else
      m_closeFlag s = true /\ m_pending s = [ABye bye] /\ m_outQueue s = [].
Proof.
  intros Hw Hbye Hraw. split; [done|]. split; [done|].
  split; [intros Ha; exact (sv_accept (Some None) w Ha)|].
  set (id := fresh (dom (sv_store w))). destruct (size (live ip w) <? 10)%nat eqn:Hn.
  - apply Nat.ltb_lt in Hn.
    edestruct (accept_eq ip w) as [Hf E]; [done| |].
    + unfold greet. destruct (Nat.ltb_spec 10 (S (size (live ip w)))); [lia|].
      unfold Session.start, bind. rewrite (putOutQueue_ok _ _ _ _ Hraw). reflexivity.
    + do 3 eexists. split; [exact E|]. split; [exact Hf|]. split; [done|].
      split; [by apply live_accepted|]. by split_and!.
  - apply Nat.ltb_ge in Hn.
    edestruct (accept_eq ip w) as [Hf E]; [done| |].
    + unfold greet. destruct (Nat.ltb_spec 10 (S (size (live ip w)))); [|lia].
      unfold gracefullClose, sendByeAndClose, async. run_m. unfold bye_msg in Hbye.
      rewrite Hbye. reflexivity.
    + do 3 eexists. split; [exact E|]. split; [exact Hf|]. split; [done|].
      split; [by apply live_accepted|]. by split_and!.
Qed.
End Accepting.

Section Messages.
Context {T : Type} {PL : Platform T}.
Implicit Types (w : server T) (msg : Msg T).

(** The channel of a node after a priority message that names it. *)
Lemma handlePriority_node w msg node r :
  m_nodename (m_from msg) = node -> m_nodeToSession w !! node = Some r ->
  m_nodeToSession (handlePriorityMsg (w, msg)).2.1 !! node =
    Some (remote_handlePriorityMsg (r, sv_store w, msg)).2.1.1.
Proof.
  intros Hf Hr. unfold handlePriorityMsg. rewrite Hf, Hr.
  destruct (remote_handlePriorityMsg _) as [o [[r' st'] msg']]. simpl. apply lookup_insert_eq.
Qed.

(** The session the messages for a node leave by. *)
Definition next_hop (node : string) w : option sid := m_nodeToSession w !! node ≫= line.

(** What a session's peer said it is. *)
Definition said (ss : sid) (v : option (Msg T)) (st : store T) : Prop := st !! ss ≫= m_msg1 = v.

Lemma said_close ss v id reason :
  preserves (said ss v) (on_session id (gracefullClose reason)).
Proof.
  intros st Hst. unfold on_session, said in *. destruct (st !! id) as [s|] eqn:Hs; [|done].
  pose proof (le_msg1 _ _ _ (quiet_gracefullClose reason (fun _ => True) s)) as Hm.
  destruct (gracefullClose reason s) as [o s']. simpl in *.
  destruct (decide (ss = id)) as [->|Hne].
  - rewrite lookup_insert_eq. rewrite Hs in Hst. simpl in *. by rewrite Hm.
  - by rewrite lookup_insert_ne.
Qed.

Lemma said_priority ss v :
  preserves (fun s : (remote_t * store T) * Msg T => said ss v s.1.2) remote_handlePriorityMsg.
Proof.
  assert (forall A (m : M (remote_t * store T) A), preserves (fun s => said ss v s.2) m ->
    preserves (fun s : (remote_t * store T) * Msg T => said ss v s.1.2)
      (zoom fst (fun r s => (r, s.2)) m)) as Hon.
  { intros A m Hm. by apply (preserves_zoom _ (fun s => said ss v s.2)). }
  assert (forall id reason, preserves (fun s : remote_t * store T => said ss v s.2)
    (on_store (on_session id (gracefullClose reason)))) as Hcl.
  { intros id reason [r st] Hst. pose proof (said_close ss v id reason st Hst) as H.
    unfold on_store, zoom. simpl. by destruct (on_session _ _ _). }
  assert (forall f old, preserves (fun s : remote_t * store T => said ss v s.2)
    (on_remote f ;; close_overtaken old)) as Hset.
  { intros f old. apply preserves_bind; [by intros [r st] Hst|intros _].
    destruct old; [apply Hcl|apply preserves_ret]. }
  unfold remote_handlePriorityMsg. apply preserves_bind; [apply preserves_gets|intros msg].
  apply preserves_bind; [apply preserves_gets|intros st].
  destruct (_ ≫= _) as [id|]; [|apply preserves_ret].
  apply preserves_bind; [by apply Hon; intros [r st'] Hst|intros _].
  apply preserves_bind; [apply preserves_gets|intros r]. apply preserves_if; [apply preserves_ret|].
  apply preserves_bind; [|intros body; destruct (default _ _); apply Hon; auto].
  intros [s m] Hst. unfold zoom. simpl. by destruct (pbody m).
Qed.

(** C32: A priority message of the role high that names another node, with a
    channel, than the one its session has authenticated as, and whose
    session has neither the high nor the low role there, is obeyed: the
    session becomes the high priority session of the channel of the node
    named, although its peer is another one, and once the channel also has a
    low priority session the messages for that node leave by it. *)
Theorem priority_not_checked_against_peer w msg ss s m node r body :
  m_origin msg = Some ss -> sv_store w !! ss = Some s -> m_msg1 s = Some m ->
  m_nodename (m_from msg) = node -> m_nodename (m_from m) <> node ->
  m_nodeToSession w !! node = Some r ->
  m_sessionH r <> Some ss -> m_sessionL r <> Some ss ->
  (pbody msg).1 = Ok body -> pt_get ["priority"] body ≫= get_value = Some high ->
  let w' := (handlePriorityMsg (w, msg)).2.1 in
  m_sessionH <$> m_nodeToSession w' !! node = Some (Some ss) /\
  (exists peer, peer_of (sv_store w') ss = Some peer /\ peer <> node) /\
  (is_Some (m_sessionL r) -> next_hop node w' = Some ss).
Proof.
  intros Ho Hs Hm Hf Hne Hr HH HL Hb Hp w'. unfold next_hop, w'.
  assert (said ss (Some m) (sv_store (handlePriorityMsg (w, msg)).2.1)) as Hsaid.
  { unfold handlePriorityMsg. rewrite Hf, Hr.
    pose proof (said_priority ss (Some m) (r, sv_store w, msg)) as H.
    destruct (remote_handlePriorityMsg _) as [o [[r' st'] msg']]. apply H.
    unfold said. simpl. by rewrite Hs. }
  rewrite (handlePriority_node _ _ _ _ Hf Hr). simpl.
  erewrite handlePriority_live by done. rewrite Hb, Hp, !bool_decide_eq_false_2 by done.
  simpl. split; [done|]. split; [|intros [l Hl]; unfold line, remote_connected; simpl; by rewrite Hl].
  exists (m_nodename (m_from m)). split; [|done]. unfold peer_of. by rewrite Hsaid.
Qed.

(** The dispatcher as the constructor leaves it. *)
Definition server_dispatcher : MsgDispatcher T named_handler any_handler :=
  (bind (registerHandler true "priority" HPriority)
     (fun _ => registerAnyPost true HAny) MsgDispatcher_init).2.

(** What a handler that runs in a [try] block shows to its caller. *)
Definition logged {W} (r : outcome unit * W) : outcome unit * W :=
  match r with (Throw _, w) => (Ok tt, w) | _ => r end.

(** An authenticated session's messages go to [handleAny]. *)
Lemma authenticated_message_is_routed w ss s m cn msg :
  sv_dispatcher w = server_dispatcher -> sv_store w !! ss = Some s -> m_msg1 s = Some m ->
  cname msg = Ok cn -> toMe msg = false \/ cn <> "priority" ->
  dispatchMsg ss msg w = logged (handleAny msg w).
Proof.
  intros Hd Hs Hm Hcn Hto. unfold dispatchMsg, bind at 1.
  rewrite (sess_read _ _ _ _ (Ok true) Hs)
    by (unfold gets, authenticated; by rewrite Hm). simpl.
  unfold dispatch, bind at 1, zoom at 1. rewrite Hd. simpl.
  assert (set_dispatcher server_dispatcher w = w) as -> by (rewrite <-Hd; by destruct w).
  unfold captured, with_msg, dispatch_job, bind at 1, gets at 1. simpl.
  unfold bind at 1, lift. rewrite Hcn.
  assert (forall k : M (server T * Msg T) unit, bind (when (toMe msg)
    (per <- gets (fun s : server T * Msg T => m_handlers (sv_dispatcher s.1) !! cn) ;;
     for_each (default [] per) (fun kv => guarded (run_named kv.2)))) (fun _ => k) (w, msg)
    = k (w, msg)) as Hper.
  { intros k. destruct Hto as [->|Hne]; [done|].
    unfold bind, when. destruct (toMe msg); [|done]. simpl. rewrite Hd. simpl.
    by rewrite lookup_insert_ne by done. }
  rewrite Hper. unfold bind at 1, gets at 1. simpl. rewrite Hd. simpl.
  unfold bind, guarded, catch_all. unfold run_any, bind, gets, zoom. simpl.
  by destruct (handleAny msg w) as [[[]|e| |] w'].
Qed.
End Messages.

(** ** From the bytes of one session to the queue of another *)

Section Relay.
Context {T : Type} {PL : Platform T}.
Implicit Types (w : server T).

Lemma process_input_fresh ss s w input :
  sv_store w !! ss = Some s -> m_processor s = IP_init ->
  let ref := run_lines (dispatchMsg ss) ss (split_lines EmptyString input).1 (None, w) in
  exists ip, process_input ss input w =
    (ref.1, set_store (alter (set_processor ip) ss (sv_store ref.2.2)) ref.2.2).
Proof.
  intros Hs Hp ref. unfold process_input, zoom, get_processor. rewrite Hs. simpl. rewrite Hp.
  destruct (process_fresh (dispatchMsg ss) ss input w) as [Ho Hw].
  destruct (processNewInput (dispatchMsg ss) ss input (IP_init, w)) as [o [ip w']].
  simpl in Ho, Hw. exists ip. fold ref in Ho, Hw. rewrite <-Ho, <-Hw. done.
Qed.

Lemma two_lines h b :
  str_in NL h = false -> str_in NL b = false ->
  split_lines EmptyString (h +:+ String NL (b +:+ String NL EmptyString)) = ([h; b], EmptyString).
Proof. intros Hh Hb. by rewrite !split_lines_line0. Qed.

(** From bytes to bytes: when the server reads, on an authenticated session,
    a header line and a body line of a message for a local application, the
    handler succeeds and the target application's session has the message at
    the end of its output queue, with the body unchanged and the header as
    it is written back; the write is started if the queue was empty. *)
Lemma relay_to_local_app w ss s m t target h hdr b cn out :
  sv_dispatcher w = server_dispatcher ->
  sv_store w !! ss = Some s -> m_msg1 s = Some m -> m_processor s = IP_init ->
  str_in NL h = false -> str_in NL b = false ->
  read_json h = Some hdr -> pt_find "body" hdr = None ->
  pt_get ["cname"] hdr = Some cn -> cn <> "priority" ->
  m_destType (Msg_raw hdr b (Some ss)) = local ->
  m_locals w !! m_appname (m_dest (Msg_raw hdr b (Some ss))) = Some t ->
  sv_store w !! t = Some target -> t <> ss -> write_json hdr = Some out ->
  exists w' target',
    read_handler ss (Some (h +:+ String NL (b +:+ String NL EmptyString))) w = (Ok tt, w') /\
    sv_store w' !! t = Some target' /\
    m_outQueue target' = m_outQueue target ++
      [mkQueuedMsg (out +:+ b +:+ str1 NL) local (sv_now w)] /\
    (m_outQueue target = [] ->
       m_pending target' = m_pending target ++ [AWrite (out +:+ b +:+ str1 NL)]).
Proof.
  intros Hd Hs Hm Hp Hnh Hnb Hr Hfb Hcn Hne Hdt Hloc Ht Htne Hout.
  set (msg := Msg_raw hdr b (Some ss)) in *.
  set (raw := out +:+ b +:+ str1 NL).
  assert (charvec msg = Ok raw) as Hraw.
  { unfold charvec, str, msg, Msg_raw. rewrite updateDest_body, updateDest_header.
    simpl. by rewrite Hout. }
  assert (m_header msg = hdr) as Hh by (unfold msg, Msg_raw; by rewrite updateDest_header).
  set (w1 := set_store (<[ss := (complete ARead s).2]> (sv_store w)) w).
  assert (sess ss (complete ARead) w = (Ok tt, w1)) as E1 by (by rewrite (sess_ok _ _ _ _ Hs)).
  set (w2 := set_store (<[t := after_put msg (sv_now w) target]> (sv_store w1)) w1).
  assert (dispatchMsg ss msg w1 = (Ok tt, w2)) as E2.
  { erewrite (authenticated_message_is_routed w1 ss _ m cn); [|exact Hd|apply lookup_insert_eq
      |exact Hm|unfold cname; by rewrite Hh, Hcn|by right].
    unfold handleAny. rewrite Hdt. unfold handleLocalMsg, bind, gets.
    change (m_locals w1) with (m_locals w). rewrite Hloc.
    rewrite (put_ok msg raw Hraw t w1 target); [done|]. simpl. by rewrite lookup_insert_ne. }
  destruct (process_input_fresh ss (complete ARead s).2 w1
    (h +:+ String NL (b +:+ String NL EmptyString))) as [ip E3];
    [apply lookup_insert_eq|exact Hp|].
  rewrite two_lines in E3 by done. cbn [fst] in E3.
  rewrite run_lines_cons, (on_line_header _ _ _ _ _ Hr Hfb), run_lines_cons, on_line_body in E3.
  fold msg in E3. rewrite E2 in E3. cbn [InputProcessor.run_lines fst snd ret] in E3.
  set (w3 := set_store _ w2) in E3.
  exists (sess ss do_read w3).2, (after_put msg (sv_now w) target).
  assert (sv_store w3 !! t = Some (after_put msg (sv_now w) target)) as Ht3.
  { simpl. rewrite lookup_alter_ne by done. apply lookup_insert_eq. }
  assert (exists s3, sv_store w3 !! ss = Some s3) as [s3 Hs3].
  { simpl. rewrite lookup_alter_eq, lookup_insert_ne, lookup_insert_eq by done. by eexists. }
  split; [|split].
  - unfold read_handler. rewrite (bind_ok _ _ _ _ _ E1), (bind_ok _ _ _ _ _ E3). simpl.
    by rewrite (sess_ok _ _ _ _ Hs3).
  - rewrite (sess_ok _ _ _ _ Hs3). simpl. by rewrite lookup_insert_ne.
  - unfold after_put. rewrite (putOutQueue_ok _ _ _ _ Hraw). unfold destType, outQueueEmpty.
    rewrite Hdt. simpl. case_bool_decide as Hq; simpl; [by rewrite Hq|done].
Qed.
End Relay.

(** ** An application that connects again *)

Section Reconnect.
Context {T : Type} {PL : Platform T}.
Implicit Types (w : server T).

Lemma authenticate_local_app msg s :
  appName = "userver" -> m_nodename (m_from msg) = nodeName -> nodeName <> EmptyString ->
  m_appname (m_from msg) <> EmptyString -> m_appname (m_from msg) <> "userver" ->
  authenticate msg s = (Ok true, set_msg1 (Some msg) s).
Proof.
  intros Ha Hn Hne Hae Hau. unfold authenticate, isLocalNode. rewrite Hn, !str_empty_decide.
  rewrite (bool_decide_eq_false_2 _ Hae), (bool_decide_eq_false_2 _ Hne).
  rewrite (bool_decide_eq_true_2 _ Ha), (bool_decide_eq_true_2 (nodeName = nodeName)) by done.
  by rewrite (bool_decide_eq_false_2 _ Hau).
Qed.

(** The session [ss] in the place of the session [old]: filed under the
    application, with the queue of the old one behind its own. *)
Definition replaced (app : string) (ss : sid) (s : session T) (old : sid) (o : session T) w
    : server T :=
  set_locals (<[app := ss]> (m_locals w)) (set_store
    (<[ss := set_outQueue (m_outQueue s ++ m_outQueue o) s]>
       (<[old := set_outQueue [] o]> (sv_store w))) w).

(** The authentication of a local application whose old session is known. *)
Lemma dispatchMsg_reconnects w ss s old app msg :
  sv_store w !! ss = Some s -> m_msg1 s = None -> s_auth s = true ->
  appName = "userver" -> nodeName <> EmptyString -> app <> EmptyString -> app <> "userver" ->
  m_from msg = mkAddr app nodeName -> m_locals w !! app = Some old ->
  dispatchMsg ss msg w = bind (take_over ss old)
    (fun _ => modify (fun w => set_locals (<[app := ss]> (m_locals w)) w))
    (set_store (<[ss := set_msg1 (Some msg) s]> (sv_store w)) w).
Proof.
  intros Hs Hm Hau Happ Hnn Hae Hne Hfrom Hloc.
  set (s1 := set_msg1 (Some msg) s).
  set (w1 := set_store (<[ss := s1]> (sv_store w)) w).
  assert (sv_store w1 !! ss = Some s1) as Hs1 by apply lookup_insert_eq.
  unfold dispatchMsg, bind at 1. rewrite (sess_read _ _ _ _ (Ok false) Hs)
    by (unfold gets, authenticated; by rewrite Hm). simpl.
  unfold bind at 1. rewrite (sess_ok _ _ _ _ Hs), authenticate_local_app by (rewrite ?Hfrom; done).
  cbn [fst snd negb]. fold s1 w1.
  unfold bind at 1. rewrite (sess_read _ _ _ _ (Ok true) Hs1) by (unfold gets; by rewrite <-Hau).
  simpl. unfold auth, bind at 1. rewrite (sess_read _ _ _ _ (Ok true) Hs1).
  2:{ unfold peerIsLocal, msg1_or_throw. run_m. unfold fromLocal, isLocalNode. rewrite Hfrom.
      simpl. by rewrite bool_decide_eq_true_2. }
  unfold bind at 1. rewrite (sess_read _ _ _ _ (Ok app) Hs1).
  2:{ unfold peerApp, msg1_or_throw. run_m. by rewrite Hfrom. }
  unfold bind at 1, gets at 1. change (m_locals w1) with (m_locals w). by rewrite Hloc.
Qed.

(** C14: When a local application authenticates on a new session that still
    has messages of its own to write, while the server holds an old one, the
    new session takes the old one's place and its queue, in order, behind
    its own: no queued message is lost, and the old session is left empty.
    If a service message is among the queued ones the handler never returns:
    the server hangs. *)
Theorem local_reconnect_spec w ss s old o app msg :
  sv_store w !! ss = Some s -> m_msg1 s = None -> s_auth s = true -> m_outQueue s <> [] ->
  appName = "userver" -> nodeName <> EmptyString -> app <> EmptyString -> app <> "userver" ->
  m_from msg = mkAddr app nodeName ->
  m_locals w !! app = Some old -> sv_store w !! old = Some o -> ss <> old ->
  (Forall (fun q => m_dt q <> service) (m_outQueue o) ->
   dispatchMsg ss msg w =
     (Ok tt, replaced app ss (set_msg1 (Some msg) s) old o w)) /\
  (Exists (fun q => m_dt q = service) (m_outQueue o) ->
   (dispatchMsg ss msg w).1 = Diverges).
Proof.
  intros Hs Hm Hau Hq Happ Hnn Hae Hne Hfrom Hloc Ho Hso.
  rewrite (dispatchMsg_reconnects w ss s old app) by done.
  unfold bind, take_over. simpl.
  rewrite lookup_insert_eq, lookup_insert_ne, Ho, decide_False by done. split; intros Hoq.
  - rewrite takeOverMessages_busy by done. unfold modify, replaced. simpl. f_equal.
    rewrite (insert_insert_ne (sv_store w)) by done. by rewrite insert_insert_eq.
  - pose proof (takeOverMessages_stuck (sv_now w) (set_msg1 (Some msg) s) _ Hoq) as Hd.
    destruct (takeOverMessages _ _) as [r [s' q]]. simpl in Hd. by subst.
Qed.

(** The write of the front message [q] of the session is in flight. *)
Definition writing (q : QueuedMsg) (s : session T) : Prop :=
  head (m_outQueue s) = Some q /\ AWrite (m_rawmsg q) ∈ m_pending s.

End Reconnect.

(** ** Witnesses *)

Section Server_witnesses.
#[local] Instance sw_liver : Platform tree := demo "liver" "userver".

Definition sw_init : server tree := (NetServer_ctor true (server_init 0 32300)).2.
Definition sw_accepted : server tree := (accept_handler (Some (Some "10.0.0.2")) sw_init).2.

Lemma sw_ctor_ok : NetServer_ctor true (server_init 0 32300) = (Ok tt, sw_init).
Proof. vm_compute. reflexivity. Qed.

Lemma sw_accepted_step : sv_step sw_init sw_accepted.
Proof.
  unfold sv_step.
  assert (run_one (accept_handler (Some (Some "10.0.0.2"))) sw_init = (Ok tt, sw_accepted)) as <-
    by (vm_compute; reflexivity).
  apply sv_accept. vm_compute. discriminate.
Qed.

Lemma server_reachable_wf_witness : server_wf sw_accepted.
Proof.
  apply (server_reachable_wf 0 32300 sw_init sw_accepted); [apply sw_ctor_ok|].
  apply rtc_once, sw_accepted_step.
Defined.

Lemma sw_init_wf : server_wf sw_init.
Proof.
  pose proof (wf_ctor true _ (wf_init (T := tree) 0 32300)) as H. by rewrite sw_ctor_ok in H.
Qed.

Definition sw_text (o : outcome string) : string :=
  match o with Ok s => s | _ => EmptyString end.

Lemma accept_limit_witness :
  (exists id w' s, accept_handler (Some (Some "10.0.0.2")) sw_init = (Ok tt, w') /\
    sv_store w' = <[id := s]> (sv_store sw_init) /\ m_closeFlag s = false) /\
  sv_turn sw_init (Throw system_error, set_acceptor 0 sw_init).
Proof.
  destruct (accept_limit "10.0.0.2" sw_init
    (sw_text (move_tostr (bye_msg "connection refused: too many connections")).1)
    (sw_text (charvec auth_msg))) as (_ & _ & Hth & id & w' & s & E & _ & Hst & _ & _ & H).
  - apply sw_init_wf.
  - vm_compute. reflexivity.
  - vm_compute. reflexivity.
  - split; [|by apply Hth; vm_compute].
    exists id, w', s. split; [exact E|]. split; [exact Hst|]. exact (proj1 H).
Defined.

(** Two applications, and the daemon of pingutv. *)
Definition sw_app (node app : string) : session tree :=
  set_msg1 (Some (Msg_out (PL := demo node app) Addr_default "auth" pt_empty))
    (new_session incoming "127.0.0.1" EmptyString).
Definition sw_two : server tree :=
  set_nodes {["pingutv" := set_L (Some 3%positive) (remote_init "pingutv")]}
    (set_locals {["uecho" := 2%positive]}
      (set_store (<[1%positive := sw_app "liver" "usender"]>
        (<[2%positive := sw_app "liver" "uecho"]>
          {[3%positive := sw_app "pingutv" "userver"]})) sw_init)).

Definition sw_header : tree :=
  pt_put ["cname"] "ping" (pt_put ["to"; "n"] "liver" (pt_put ["to"; "a"] "uecho" pt_empty)).
Definition sw_body : string := "{}".

Lemma relay_to_local_app_witness :
  exists w' target',
    read_handler 1%positive
      (Some (demo_line sw_header +:+ String NL (sw_body +:+ String NL EmptyString))) sw_two
      = (Ok tt, w') /\
    sv_store w' !! 2%positive = Some target' /\
    m_outQueue target' =
      [mkQueuedMsg (demo_line sw_header +:+ str1 NL +:+ sw_body +:+ str1 NL) local 0].
Proof.
  destruct (relay_to_local_app sw_two 1%positive (sw_app "liver" "usender")
    (Msg_out (PL := demo "liver" "usender") Addr_default "auth" pt_empty) 2%positive
    (sw_app "liver" "uecho") (demo_line sw_header) sw_header sw_body "ping"
    (demo_line sw_header +:+ str1 NL)) as (w' & target' & E & Ht & Hq & _);
    try (vm_compute; reflexivity).
  - discriminate.
  - discriminate.
  - exists w', target'. split; [exact E|]. split; [exact Ht|]. exact Hq.
Defined.

Definition sw_priority : Msg tree :=
  Msg_parsed (pt_put ["from"; "n"] "pingutv" (pt_put ["cname"] "priority" pt_empty))
    (pt_add "priority" "10" pt_empty) (Some 1%positive).

Lemma priority_not_checked_against_peer_witness :
  next_hop "pingutv" (handlePriorityMsg (sw_two, sw_priority)).2.1 = Some 1%positive.
Proof.
  destruct (priority_not_checked_against_peer sw_two sw_priority 1%positive
    (sw_app "liver" "usender")
    (Msg_out (PL := demo "liver" "usender") Addr_default "auth" pt_empty) "pingutv"
    (set_L (Some 3%positive) (remote_init "pingutv"))
    (pt_add "priority" "10" pt_empty)) as (_ & _ & Hl);
    [try (vm_compute; reflexivity); try (vm_compute; discriminate) ..|].
  apply Hl. by eexists.
Defined.

Definition sw_new : session tree :=
  set_outQueue [mkQueuedMsg "auth" service 0] (new_session incoming "127.0.0.1" EmptyString).
Definition sw_again : server tree :=
  set_locals {["uecho" := 2%positive]}
    (set_store (<[1%positive := sw_new]>
      {[2%positive := set_outQueue [mkQueuedMsg "auth" service 0] (sw_app "liver" "uecho")]})
      sw_init).

Lemma local_reconnect_spec_witness :
  (dispatchMsg 1%positive (Msg_out (PL := demo "liver" "uecho") Addr_default "auth" pt_empty)
     sw_again).1 = Diverges.
Proof.
  apply (local_reconnect_spec sw_again 1%positive sw_new 2%positive
    (set_outQueue [mkQueuedMsg "auth" service 0] (sw_app "liver" "uecho")) "uecho");
    try reflexivity; try discriminate.
  apply Exists_cons_hd. reflexivity.
Defined.

Definition sw_queued : QueuedMsg := mkQueuedMsg "ping" local 0.
Definition sw_writing : server tree :=
  set_locals {["uecho" := 2%positive]}
    (set_store (<[1%positive := sw_new]>
      {[2%positive := set_pending [AWrite "ping"]
          (set_outQueue [sw_queued] (sw_app "liver" "uecho"))]}) sw_init).


Lemma sw_two_routable : routable sw_two.
Proof.
  unfold sw_two. split_and!; simpl.
  - intros app ss [<- <-]%lookup_singleton_Some. by eexists.
  - intros node r ss [<- <-]%lookup_singleton_Some. done.
  - intros app1 app2 ss [<- _]%lookup_singleton_Some [<- _]%lookup_singleton_Some. done.
  - intros n1 n2 ss (r & [<- <-]%lookup_singleton_Some & Hl)%bind_Some. done.
Qed.

Definition sw_msg : Msg tree := Msg_raw sw_header sw_body (Some 1%positive).

Lemma routing_spec_witness :
  exists st nodes, handleAny sw_msg sw_two = (Ok tt, set_nodes nodes (set_store st sw_two)) /\
    m_outQueue <$> st !! 2%positive =
      Some [mkQueuedMsg (sw_text (charvec sw_msg)) local 0].
Proof.
  destruct (routing_spec (sw_text (charvec sw_msg)) sw_msg sw_two)
    as (st & nodes & E & Hgot & _).
  - vm_compute. reflexivity.
  - apply sw_two_routable.
  - exists st, nodes. split; [exact E|]. rewrite Hgot; vm_compute; reflexivity.
Defined.

Lemma connectResolved_spec_witness :
  exists w' rh', connectResolved (Some "10.0.0.9") "pingutv" sw_init = (Ok tt, w') /\
    m_status rh' = connecting /\
    created 2 "10.0.0.9" "pingutv" (sv_store sw_init) (sv_store w').
Proof.
  destruct (connectResolved_spec (W := server tree) "10.0.0.9" "pingutv"
    (RemoteHostToConnect_init 0 "32300" 2) sw_init) as (w' & rh' & E & _ & Hst & _ & _ & Hc).
  - vm_compute. reflexivity.
  - exists w', rh'. split; [exact E|]. split; [exact Hst|exact Hc].
Defined.
End Server_witnesses.
