(* ===== verification/ServerFrame.v ===== *)
(** * ServerFrame: what the handlers of the server leave alone

    A property of the server that is kept by the few operations that touch
    its tables is kept by every completion handler, whatever the handler ends
    with.  The class lists these operations; the lemmas go through the
    handlers once for all such properties. *)
From S2P Require Import Prelude Effects BetterEnum Priority AccuLine PTree UConfig.
From S2P Require Import Addr Demo Msg InputProcessor Dispatcher Session Remote.
From S2P Require Import Outgoing NetServer.

Class ServerFrame {T} {PL : Platform T} (I : server T -> Prop) : Prop := {
  sf_store v w : I w -> I (set_store v w);
  sf_ips v w : I w -> I (set_ips v w);
  sf_locals v w : I w -> I (set_locals v w);
  sf_outman v w : I w -> I (set_outman v w);
  sf_raised v w : I w -> I (set_pending_exn v w);
  sf_find node : preserves I (findAddRemote node);
  sf_send node msg : preserves I (send_to node msg);
  sf_priority : preserves (fun s => I s.1) handlePriorityMsg;
  sf_add ss rnode w : I w -> peer_of (sv_store w) ss = Some rnode ->
    I (addAuthSessionToRemote rnode ss w).2;
  sf_closed node ss : preserves I (on_node node (on_remote (remote_onSessionClosed ss)));
}.

Section Frame.
Context {T : Type} {PL : Platform T} {I : server T -> Prop} {F : ServerFrame I}.
Implicit Types (w : server T).

Lemma frame_sess {A} ss (m : M (session T) A) : preserves I (sess ss m).
Proof. intros w Hw. unfold sess, zoom. destruct (on_session _ _ _). by apply sf_store. Qed.

Lemma frame_put ss msg : preserves I (put ss msg).
Proof. unfold put. auto using frame_sess with preserve. Qed.

Lemma frame_find node : preserves I (findAddRemote node).
Proof. apply sf_find. Qed.
Lemma frame_send_to node msg : preserves I (send_to node msg).
Proof. apply sf_send. Qed.
Lemma frame_closed node ss : preserves I (on_node node (on_remote (remote_onSessionClosed ss))).
Proof. apply sf_closed. Qed.
#[local] Hint Resolve frame_sess frame_put frame_find frame_send_to frame_closed : preserve.

Lemma frame_handleAny msg : preserves I (handleAny msg).
Proof.
  unfold handleAny. destruct (m_destType msg).
  - apply preserves_ret.
  - unfold handleLocalMsg. auto with preserve.
  - unfold handleRemoteMsg. destruct (route _); auto with preserve.
  - unfold handleBroadcastMsg. apply preserves_bind; [auto with preserve|intros l].
    apply preserves_for_each. auto with preserve.
  - unfold handleLocalBroadcastMsg. apply preserves_bind; [auto with preserve|intros l].
    apply preserves_for_each. auto with preserve.
Qed.

Lemma frame_take_over ss old : preserves I (take_over (T := T) ss old).
Proof.
  intros w Hw. unfold take_over. destruct (sv_store w !! ss), (sv_store w !! old); try done.
  case_decide; [by destruct (outQueueEmpty _)|].
  destruct (takeOverMessages _ _) as [r [s' q]]. by apply sf_store.
Qed.
#[local] Hint Resolve frame_take_over : preserve.

Lemma peerNode_peer_of ss w rnode w' :
  sess ss peerNode w = (Ok rnode, w') -> peer_of (sv_store w') ss = Some rnode.
Proof.
  unfold sess, zoom, on_session, peer_of. destruct (sv_store w !! ss) as [s|]; [|done].
  unfold peerNode, msg1_or_throw. run_m. destruct (m_msg1 s) as [m|] eqn:Hm; simpl; [|done].
  intros [= <- <-]. simpl. rewrite lookup_insert_eq. simpl. by rewrite Hm.
Qed.

Lemma frame_auth ss : preserves I (auth (T := T) ss).
Proof.
  unfold auth. apply preserves_bind; [auto with preserve|intros b].
  apply preserves_if.
  - apply preserves_bind; [auto with preserve|intros app].
    apply preserves_bind; [auto with preserve|intros ssIt].
    apply preserves_bind; [destruct ssIt; auto with preserve|intros _].
    apply preserves_modify. intros w. apply sf_locals.
  - intros w Hw. unfold bind. pose proof (frame_sess ss peerNode w Hw) as Hw1.
    destruct (sess ss peerNode w) as [[rnode|e| |] w1] eqn:E; try done.
    apply sf_add; [done|]. by eapply peerNode_peer_of.
Qed.

Lemma frame_dispatchMsg ss msg : preserves I (dispatchMsg (T := T) ss msg).
Proof.
  unfold dispatchMsg. apply preserves_bind; [auto with preserve|intros authed].
  apply preserves_if.
  - apply preserves_bind; [auto with preserve|intros ok].
    apply preserves_if; [auto with preserve|].
    apply preserves_bind; [auto with preserve|intros slot]. apply preserves_when, frame_auth.
  - apply dispatch_inline_preserves; [by destruct w|intros v w; apply sf_raised|intros []|intros []].
    + apply sf_priority.
    + apply preserves_bind; [apply preserves_gets|intros m'].
      apply (preserves_zoom _ I); auto using frame_handleAny.
Qed.

Lemma frame_process_input ss input : preserves I (process_input (T := T) ss input).
Proof.
  unfold process_input. apply (preserves_zoom _ (fun s => I s.2)); [|done|intros w v _ Hv; by apply sf_store].
  apply processNewInput_preserves. intros msg. apply frame_dispatchMsg.
Qed.

Lemma frame_run_slot ss slot : preserves I (run_slot (T := T) ss slot).
Proof.
  destruct slot; cbn [run_slot];
    [|auto with preserve|apply preserves_modify; intros w; apply sf_outman].
  unfold onSessionClosed. apply preserves_bind; [auto with preserve|intros ip].
  apply preserves_modify. intros w. apply sf_ips.
Qed.

Lemma frame_emit ss m : preserves I (emit (T := T) ss m).
Proof.
  unfold emit. apply preserves_bind; [auto with preserve|intros slots].
  apply preserves_for_each. auto using frame_run_slot.
Qed.
#[local] Hint Resolve frame_emit frame_process_input : preserve.

Lemma frame_read_handler ss data : preserves I (read_handler (T := T) ss data).
Proof.
  unfold read_handler. apply preserves_bind; [auto with preserve|intros _].
  destruct data; [|auto with preserve]. apply preserves_bind; [auto with preserve|intros ok].
  apply preserves_if; auto with preserve.
Qed.

Lemma frame_onSessionCreated ss : preserves I (onSessionCreated (T := T) ss).
Proof.
  unfold onSessionCreated. apply preserves_bind; [auto with preserve|intros ip].
  apply preserves_bind; [apply preserves_modify; intros w; apply sf_ips|auto with preserve].
Qed.

Lemma frame_on_out f : preserves I (on_out (W := server T) f).
Proof. apply preserves_modify. intros w. apply sf_outman. Qed.
#[local] Hint Resolve frame_onSessionCreated frame_on_out : preserve.

Lemma frame_create_session addr hname :
  preserves I (create_session (W := server T) addr hname).
Proof.
  unfold create_session. apply preserves_bind; [intros w Hw; by apply sf_store|intros id].
  apply preserves_bind; [apply frame_onSessionCreated|intros _].
  apply preserves_bind; [apply frame_sess|intros _; apply frame_sess].
Qed.

Lemma frame_connectResolved rezit hname :
  preserves I (connectResolved (W := server T) rezit hname).
Proof.
  unfold connectResolved. destruct rezit as [addr|]; [|auto with preserve].
  apply preserves_bind; [auto with preserve|intros _].
  apply preserves_bind; [apply preserves_gets|intros [rh|]]; [|apply preserves_ub].
  apply preserves_bind; [apply preserves_gets|intros found].
  apply preserves_bind; [apply preserves_gets|intros fn].
  destruct (judge _ _ _) as [| |n]; [auto with preserve..|].
  apply preserves_bind; [auto with preserve|intros _].
  apply preserves_bind; [|auto with preserve].
  induction (Z.to_nat n) as [|k IH]; [apply preserves_ret|].
  apply preserves_bind; [apply frame_create_session|intros _; exact IH].
Qed.

(** A turn of the event loop keeps what its handler keeps. *)
Lemma frame_run_one m : preserves I m -> preserves I (run_one m).
Proof. intros Hm. apply preserves_run_one; [done|]. intros v w. apply sf_raised. Qed.
End Frame.
