(* ===== verification/ServerMain.v ===== *)
(** * ServerMain: the process of the message server (app/userver/main.cpp)

    [main] constructs the server and runs the event loop until no work is
    left or an exception leaves a completion handler.  [loop_inv] is what
    keeps the loop alive and the messages routed: one accept is always in
    flight, and the two handlers the constructor registered stay. *)
From S2P Require Import Prelude Effects BetterEnum Priority AccuLine PTree UConfig.
From S2P Require Import Addr Demo Msg InputProcessor Dispatcher Session Remote.
From S2P Require Import Outgoing NetServer ServerWf ServerProps ServerFrame.

Definition generic_errorcode : Z := 200.
Definition server_port : Z := 32300.

Section Main.
Context {T : Type} {PL : Platform T}.

(** What [io_context::run] waits for: an operation in flight, a wait that is
    pending or has expired, a function posted on a strand. *)
Definition has_work (w : server T) : bool :=
  (0 <? m_acceptor w)%nat
  || existsb (fun ks => negb (bool_decide (m_pending ks.2 = []))) (map_to_list (sv_store w))
  || bool_decide (is_Some (m_wait (m_outman w)))
  || (0 <? m_fired (m_outman w))%nat
  || (0 <? m_posted (m_outman w))%nat
  || negb (bool_decide (m_resolves (m_outman w) = []))
  || bool_decide (0 < length (m_strand (sv_dispatcher w))).

(** [main] returns the code; [inline]: the dispatcher's strand runs the
    registrations of the constructor at once. *)
Inductive main_returns (inline : bool) (now : Z) : Z -> Prop :=
  | main_ctor_throws e w :
      NetServer_ctor inline (server_init (T := T) now server_port) = (Throw e, w) ->
      main_returns inline now generic_errorcode
  | main_handler_throws e w0 w w' :
      NetServer_ctor inline (server_init now server_port) = (Ok tt, w0) ->
      rtc sv_step w0 w -> sv_turn w (Throw e, w') ->
      main_returns inline now generic_errorcode
  | main_done w0 w :
      NetServer_ctor inline (server_init now server_port) = (Ok tt, w0) ->
      rtc sv_step w0 w -> has_work w = false ->
      main_returns inline now 0.
End Main.

(** ** What no handler touches *)

Section Touch.
Context {T : Type} {PL : Platform T}.
Implicit Types (w : server T).

Definition frame (d : MsgDispatcher T named_handler any_handler) (a : nat) w : Prop :=
  sv_dispatcher w = d /\ m_acceptor w = a.

#[export] Instance frame_frame d a : ServerFrame (frame d a).
Proof.
  split; try (by intros).
  - intros node w Hw. unfold findAddRemote, modify. simpl. by destruct (_ !! node).
  - intros node msg w Hw. unfold send_to, bind, gets, on_node. simpl.
    destruct (_ !! node); [|done]. by destruct (remote_send _ _ _) as [o [r' st']].
  - intros [w msg] Hw. unfold handlePriorityMsg. destruct (_ !! _); [|done].
    by destruct (remote_handlePriorityMsg _) as [o [[r' st'] msg']].
  - intros ss rnode w Hw _. unfold addAuthSessionToRemote, findAddRemote, bind, modify, gets, on_node.
    simpl. destruct (m_nodeToSession w !! rnode) eqn:Hr; simpl; rewrite ?Hr, ?lookup_insert_eq;
      by destruct (addSession _ _ _) as [o [r' st']].
  - intros node ss w Hw. unfold on_node. by destruct (_ !! node).
Qed.

Lemma frame_ctor_rest d a (l : list string) :
  preserves (frame d a) (for_each l (fun rhost => on_outman (fun now => add_host now rhost)) ;;
    on_outman (T := T) start_manager).
Proof.
  apply preserves_bind; [|intros _; by apply preserves_modify].
  apply preserves_for_each. intros h _. by apply preserves_modify.
Qed.
End Touch.

Section Loop.
Context {T : Type} {PL : Platform T}.
Implicit Types (w : server T).

(** The handlers of the constructor, and one accept in flight. *)
Definition loop_inv w : Prop := frame server_dispatcher 1 w.

Lemma loop_accept socket w w' :
  loop_inv w -> accept_handler (T := T) socket w = (Ok tt, w') -> loop_inv w'.
Proof.
  intros [Hd Ha]. unfold accept_handler. unfold bind at 1, modify at 1.
  assert (frame server_dispatcher 0 (set_acceptor (pred (m_acceptor w)) w)) as H0
    by (split; [done|simpl; by rewrite Ha]).
  unfold bind at 1.
  match goal with |- context [match ?m ?w0 with _ => _ end] =>
    assert (preserves (frame server_dispatcher 0) m) as Hm; [|pose proof (Hm w0 H0) as H1;
      destruct (m w0) as [[[]|e| |] w1]; try done] end.
  { destruct socket as [peer|]; [|apply preserves_ret].
    apply preserves_bind; [apply preserves_lift|intros raddr].
    apply preserves_bind; [by intros w0 Hw0|intros id].
    apply preserves_bind; [apply frame_onSessionCreated|intros _].
    apply preserves_bind; [apply preserves_gets|intros n].
    apply preserves_if; [apply frame_sess|].
    apply preserves_bind; [apply preserves_gets|intros now; apply frame_sess]. }
  intros [= <-]. destruct H1 as [H1 H2]. simpl in H1, H2. split; [exact H1|]. simpl. by rewrite H2.
Qed.

Lemma loop_step w w' : loop_inv w -> sv_step w w' -> loop_inv w'.
Proof.
  intros Hw Hstep. unfold sv_step in Hstep. remember (Ok tt, w') as res eqn:E.
  destruct Hstep as [now w Hn|socket w _|ss s ec w Hs _|ss s data w Hs _|ss s buf ec w Hs _
    |ss s buf w Hs _|rezit hname l1 l2 w Hr|w o _]; [by injection E as <-
    |by apply run_one_inv in E as [E _]; eapply loop_accept|..];
    try (by injection E as <-); apply run_one_inv in E as [E _];
    change w' with (Ok tt, w').2; rewrite <-E.
  1,3,4: by apply frame_emit.
  - by apply frame_read_handler.
  - by apply frame_connectResolved.
Qed.

Lemma loop_ctor now port w :
  NetServer_ctor true (server_init (T := T) now port) = (Ok tt, w) -> loop_inv w.
Proof.
  intros E. unfold NetServer_ctor in E. unfold bind at 1, zoom at 1 in E. simpl in E.
  unfold bind at 1, zoom at 1 in E. simpl in E. unfold bind at 1, do_accept, modify at 1 in E.
  unfold bind at 1, lift in E. destruct remotes as [l|e| |]; try done.
  change w with (Ok tt, w).2. rewrite <-E. by apply frame_ctor_rest.
Qed.

Lemma loop_reachable now port w0 w :
  NetServer_ctor true (server_init now port) = (Ok tt, w0) -> rtc sv_step w0 w -> loop_inv w.
Proof.
  intros E%loop_ctor Hr. revert w Hr.
  apply (rtc_ind_r loop_inv); [done|]. intros w1 w2 _ Hs Hw. by eapply loop_step.
Qed.

(** Between two turns nothing is pending on the loop's thread. *)
Lemma calm_reachable now port w0 w :
  NetServer_ctor (T := T) true (server_init now port) = (Ok tt, w0) -> rtc sv_step w0 w ->
  sv_raised w = None.
Proof.
  intros E Hr. assert (sv_raised w0 = None) as H0.
  { assert (preserves (fun x : server T => sv_raised x = None) (NetServer_ctor true)) as H;
      [|pose proof (H (server_init now port) eq_refl) as Hc; by rewrite E in Hc].
    assert (forall A (m : M _ A), preserves (fun x : server T => sv_raised x = None)
      (zoom (W := server T) sv_dispatcher set_dispatcher m)) as Hd.
    { intros A m. by apply (preserves_zoom _ (fun _ => True)). }
    unfold NetServer_ctor. apply preserves_bind; [apply Hd|intros _].
    apply preserves_bind; [apply Hd|intros _].
    apply preserves_bind; [by apply preserves_modify|intros _].
    apply preserves_bind; [apply preserves_lift|intros l].
    apply preserves_bind; [|intros _; by apply preserves_modify].
    apply preserves_for_each. intros h _. by apply preserves_modify. }
  revert w Hr. apply (rtc_ind_r (fun x => sv_raised x = None)); [done|].
  intros w1 w2 _ Hs Hw. unfold sv_step in Hs. remember (Ok tt, w2) as res eqn:Er.
  destruct Hs; try (by apply run_one_inv in Er as [_ Er]); by injection Er as <-.
Qed.

Lemma ctor_outside_loop now port :
  (NetServer_ctor false (server_init (T := T) now port)).1 = Undefined.
Proof. reflexivity. Qed.
End Loop.

(** ** How the process ends *)

Section Ending.
Context {T : Type} {PL : Platform T}.
Implicit Types (w : server T).

(** C8: In every state the event loop of the server reaches exactly one
    accept is in flight, the dispatcher holds exactly the two handlers of
    the constructor and the io_context has work; so main never returns 0,
    only the error code, when the constructor or a handler throws.  The loop
    is reached only if the dispatcher's strand ran the registrations at
    once. *)
Theorem server_keeps_accepting inline now w0 w code :
  (NetServer_ctor inline (server_init now server_port) = (Ok tt, w0) -> rtc sv_step w0 w ->
   inline = true /\ m_acceptor w = 1 /\ sv_dispatcher w = server_dispatcher /\
   has_work w = true) /\
  (main_returns (T := T) inline now code -> code = generic_errorcode).
Proof.
  assert (forall w0 w, NetServer_ctor inline (server_init now server_port) = (Ok tt, w0) ->
    rtc sv_step w0 w -> inline = true /\ loop_inv w /\ has_work w = true) as H.
  { intros w1 w2 E Hr. destruct inline; [|by pose proof (ctor_outside_loop now server_port) as H; rewrite E in H].
    destruct (loop_reachable _ _ _ _ E Hr) as [Hd Ha]. split; [done|]. split; [done|].
    unfold has_work. by rewrite Ha. }
  split.
  - intros E Hr. destruct (H _ _ E Hr) as (-> & [Hd Ha] & Hw). by split_and!.
  - intros [e w1 _|e w1 w2 w3 _ _ _|w1 w2 E Hr Hw]; [done..|].
    destruct (H _ _ E Hr) as (_ & _ & Hw'). congruence.
Qed.

(** A header line without a cname and a body line, or one line with both. *)
Inductive nameless_text : string -> Prop :=
  | nameless_two_lines h hdr b :
      str_in NL h = false -> str_in NL b = false -> read_json h = Some hdr ->
      pt_find "body" hdr = None -> pt_get ["cname"] hdr = None ->
      nameless_text (h +:+ String NL (b +:+ String NL EmptyString))
  | nameless_one_line h hdr b :
      str_in NL h = false -> read_json h = Some hdr -> pt_find "body" hdr = Some b ->
      pt_get ["cname"] (pt_erase "body" hdr) = None ->
      nameless_text (h +:+ String NL EmptyString).

Lemma nameless_dispatch w ss s m msg e :
  loop_inv w -> sv_store w !! ss = Some s -> m_msg1 s = Some m -> cname msg = Throw e ->
  dispatchMsg ss msg w = (Ok tt, set_pending_exn (capture e (sv_raised w)) w).
Proof.
  intros [Hd _] Hs Hm Hc. unfold dispatchMsg, bind at 1.
  rewrite (sess_read _ _ _ _ (Ok true) Hs) by (unfold gets, authenticated; by rewrite Hm).
  simpl. rewrite (dispatch_without_cname sv_dispatcher set_dispatcher run_named run_any
    ltac:(by intros []) msg e w); [done|by rewrite Hd|done].
Qed.

Lemma nameless_lines w ss s m text :
  loop_inv w -> sv_store w !! ss = Some s -> m_msg1 s = Some m -> nameless_text text ->
  run_lines (dispatchMsg ss) ss (split_lines EmptyString text).1 (None, w) =
    (Ok true, (None, set_pending_exn (capture (ptree_bad_path "cname") (sv_raised w)) w)).
Proof.
  intros Hw Hs Hm [h hdr b Hh Hb Hj Hf Hc|h hdr b Hh Hj Hf Hc].
  - rewrite two_lines by done. cbn [fst].
    rewrite run_lines_cons, (on_line_header _ _ _ _ _ Hj Hf), run_lines_cons, on_line_body.
    rewrite (nameless_dispatch w ss s m _ (ptree_bad_path "cname")); try done.
    unfold cname, Msg_raw. by rewrite updateDest_header; simpl; rewrite Hc.
  - rewrite split_lines_line0 by done. cbn [fst].
    rewrite run_lines_cons, (on_line_inline _ _ _ _ _ _ Hj Hf).
    rewrite (nameless_dispatch w ss s m _ (ptree_bad_path "cname")); try done.
    unfold cname, Msg_parsed. by rewrite updateDest_header; simpl; rewrite Hc.
Qed.

(** C10: In any state the server reaches, its constructor's registrations
    having run at once, when an authenticated session that is between two
    messages reads a message without a cname, as a header line and a body
    line or as one line with both, dispatch returns, but the executor keeps
    the exception of cname for the thread, which throws it when the read
    handler has returned: the turn throws ptree_bad_path, the exception
    leaves the event loop and main returns the error code 200.  Any
    application or node can end the server. *)
Theorem nameless_message_ends_server now w0 w ss s m text :
  NetServer_ctor true (server_init now server_port) = (Ok tt, w0) -> rtc sv_step w0 w ->
  sv_store w !! ss = Some s -> m_msg1 s = Some m -> m_processor s = IP_init ->
  ARead ∈ m_pending s -> nameless_text text ->
  (run_one (read_handler ss (Some text)) w).1 = Throw (ptree_bad_path "cname") /\
  main_returns (T := T) true now generic_errorcode.
Proof.
  intros E Hr Hs Hm Hp Hpend Htext.
  assert ((run_one (read_handler ss (Some text)) w).1 = Throw (ptree_bad_path "cname")) as Hres.
  { set (w1 := set_store (<[ss := (complete ARead s).2]> (sv_store w)) w).
    assert (sess ss (complete ARead) w = (Ok tt, w1)) as E1 by (by rewrite (sess_ok _ _ _ _ Hs)).
    assert (sv_store w1 !! ss = Some (complete ARead s).2) as Hs1 by apply lookup_insert_eq.
    destruct (process_input_fresh ss (complete ARead s).2 w1 text Hs1 Hp) as [ip E3].
    rewrite (nameless_lines w1 ss (complete ARead s).2 m text) in E3;
      [|exact (loop_reachable _ _ _ _ E Hr)|done|done|done].
    unfold run_one, read_handler. rewrite bind_assoc, (bind_ok _ _ _ _ _ E1).
    rewrite bind_assoc, (bind_ok _ _ _ _ _ E3). cbn [negb].
    unfold bind. erewrite sess_ok by (simpl; rewrite lookup_alter_eq, lookup_insert_eq; done).
    unfold rethrow. simpl. by rewrite (calm_reachable _ _ _ _ E Hr). }
  split; [exact Hres|]. pose proof (sv_read ss s (Some text) w Hs Hpend) as Ht.
  destruct (run_one (read_handler ss _) w) as [o w']. simpl in Hres. subst o.
  by eapply main_handler_throws.
Qed.
End Ending.

(** ** Witnesses *)

Section Main_witnesses.
#[local] Existing Instance sw_liver.

Definition sm_auth : tree :=
  pt_put ["cname"] "auth" (pt_put ["from"; "n"] "liver" (pt_put ["from"; "a"] "uecho" pt_empty)).
Definition sm_two_lines (h : tree) : string :=
  demo_line h +:+ String NL ("{}" +:+ String NL EmptyString).

(** One connection, on which an application has said who it is. *)
Definition sm_id : sid := fresh (dom (sv_store sw_init)).
Definition sm_authed : server tree :=
  (read_handler sm_id (Some (sm_two_lines sm_auth)) sw_accepted).2.
Definition sm_session : session tree :=
  default (session_init incoming EmptyString EmptyString) (sv_store sm_authed !! sm_id).
Definition sm_nameless : tree := pt_put ["to"; "a"] "uecho" pt_empty.

Lemma sm_authed_reachable : rtc sv_step sw_init sm_authed.
Proof.
  eapply rtc_l; [exact sw_accepted_step|]. apply rtc_once. unfold sv_step.
  assert (run_one (read_handler sm_id (Some (sm_two_lines sm_auth))) sw_accepted = (Ok tt, sm_authed)) as <-
    by (vm_compute; reflexivity).
  eapply sv_read; [vm_compute; reflexivity|]. vm_compute. right. left.
Qed.

Lemma server_keeps_accepting_witness : has_work sm_authed = true.
Proof.
  destruct (server_keeps_accepting true 0 sw_init sm_authed 0) as [H _].
  destruct (H sw_ctor_ok sm_authed_reachable) as (_ & _ & _ & Hw). exact Hw.
Defined.

(** The same header in two lines, and in one with its body. *)
Definition sm_one_line : string :=
  demo_line (pt_put_child "body" pt_empty sm_nameless) +:+ String NL EmptyString.

Lemma nameless_message_ends_server_witness :
  (run_one (read_handler sm_id (Some (sm_two_lines sm_nameless))) sm_authed).1 =
    Throw (ptree_bad_path "cname") /\
  (run_one (read_handler sm_id (Some sm_one_line)) sm_authed).1 =
    Throw (ptree_bad_path "cname") /\
  main_returns (T := tree) true 0 200.
Proof.
  assert (forall text, nameless_text text ->
    (run_one (read_handler sm_id (Some text)) sm_authed).1 = Throw (ptree_bad_path "cname") /\
    main_returns (T := tree) true 0 200) as H.
  { intros text Htext. apply (nameless_message_ends_server 0 sw_init sm_authed sm_id sm_session
      (default (Msg_out Addr_default "auth" pt_empty) (m_msg1 sm_session)));
      [vm_compute; reflexivity|exact sm_authed_reachable|vm_compute; reflexivity..| |exact Htext].
    vm_compute. right. left. }
  split; [|split].
  - apply H, (nameless_two_lines _ sm_nameless); vm_compute; reflexivity.
  - apply H, (nameless_one_line _ (pt_put_child "body" pt_empty sm_nameless) pt_empty);
      vm_compute; reflexivity.
  - apply (H (sm_two_lines sm_nameless)), (nameless_two_lines _ sm_nameless); vm_compute; reflexivity.
Defined.
End Main_witnesses.
