(* ===== verification/ServerSafe.v ===== *)
(** * ServerSafe: the event loop and undefined behaviour

    Every handler of the server is safe from every state with the invariant
    [server_safe], but for two: the completion of a write of a session that
    another one has replaced, which runs into undefined behaviour, and the
    acceptance of a connection whose peer is gone, which throws.  [sound] says
    that an operation does not run into undefined behaviour, keeps the
    invariant, and keeps what the code around it has looked up ([grown]);
    the invariant includes what may be pending on the thread of the loop. *)
From S2P Require Import Prelude Effects BetterEnum Priority AccuLine PTree UConfig.
From S2P Require Import Addr Demo Msg InputProcessor Dispatcher Session OutQueue SessionSafe.
From S2P Require Import Remote ChannelSafe Outgoing NetServer Events ServerWf ServerProps.
From S2P Require Import ServerMain.

Section Invariant.
Context {T : Type} {PL : Platform T}.
Implicit Types (D : Prop) (w : server T) (s : session T) (st : store T).

(** The session of an application that is not that of the local table. *)
Definition replaced w (ss : sid) s : Prop :=
  exists m, m_msg1 s = Some m /\ fromLocal m = true /\ forall app, m_locals w !! app <> Some ss.

Record server_safe w : Prop := {
  sf_store : store_sound (slot_ok (known w)) (sv_store w);
  sf_front ss s : sv_store w !! ss = Some s -> front_write s \/ replaced w ss s;
  sf_locals app ss : m_locals w !! app = Some ss ->
    exists s m, sv_store w !! ss = Some s /\ m_msg1 s = Some m /\ fromLocal m = true /\
      m_appname (m_from m) = app;
  sf_nodes node r : m_nodeToSession w !! node = Some r ->
    m_node r = node /\ movable r /\ forall ss, ss ∈ held r -> admitted (sv_store w) ss;
  sf_hosts h : h ∈ m_resolves (m_outman w) -> is_Some (m_connectTo (m_outman w) !! h);
  sf_shared : m_shared (sv_dispatcher w) = true;
  sf_foreign e : sv_raised w = Some e -> foreign e;
}.

Record grown w w' : Prop := {
  gr_exists ss : is_Some (sv_store w !! ss) -> is_Some (sv_store w' !! ss);
  gr_admitted ss : admitted (sv_store w) ss -> admitted (sv_store w') ss;
  gr_open ss : open_session (sv_store w) ss -> open_session (sv_store w') ss;
  gr_known node : known w node -> known w' node;
}.

#[export] Instance grown_preorder : PreOrder grown.
Proof. split; [by split|]. intros w1 w2 w3 [? ? ? ?] [? ? ? ?]. split; auto. Qed.

Definition sound {A} (D : Prop) (m : M (server T) A) w : Prop :=
  safe_at D (fun w' => server_safe w' /\ grown w w') m w.

(** ** The rules *)

Lemma sound_bind {A B} D (m : M (server T) A) (k : A -> M (server T) B) w :
  sound D m w ->
  (forall a w', m w = (Ok a, w') -> server_safe w' -> grown w w' -> sound D (k a) w') ->
  sound D (bind m k) w.
Proof.
  intros Hm Hk. apply safe_at_bind; [exact Hm|]. intros a w' E [H1 H2].
  eapply (safe_at_weaken D); [exact id| |by apply Hk]. intros w2 [H3 H4]. split; [done|by etrans].
Qed.

Lemma sound_ok {A B} D (m : M (server T) A) (k : A -> M (server T) B) a w :
  m w = (Ok a, w) -> sound D (k a) w -> sound D (bind m k) w.
Proof. intros E. by apply safe_at_ok. Qed.

Lemma sound_still {A} D (m : M (server T) A) o w :
  server_safe w -> m w = (o, w) -> harmless o -> sound D m w.
Proof. intros Hw E Ho. unfold sound, safe_at. rewrite E. by destruct o. Qed.

Lemma sound_when D b m w : server_safe w -> sound D m w -> sound D (when b m) w.
Proof. intros Hw Hm. destruct b; [exact Hm|by split]. Qed.

Lemma sound_for_each {A} D (l : list A) f w :
  server_safe w ->
  (forall x w', x ∈ l -> server_safe w' -> grown w w' -> sound D (f x) w') ->
  sound D (for_each l f) w.
Proof.
  revert w; induction l as [|x l IH]; intros w Hw Hf; [by split|]. cbn [for_each].
  apply sound_bind; [by apply Hf; [left| |]|]. intros [] w' _ H1 H2.
  apply IH; [done|]. intros y w2 Hy H3 H4. apply Hf; [by right|done|by etrans].
Qed.

Lemma sound_safe {A} D w0 (m : M (server T) A) w :
  safe D (fun w => server_safe w /\ grown w0 w) m -> server_safe w -> w0 = w -> sound D m w.
Proof. intros Hm Hw ->. by apply Hm. Qed.

(** ** Changes of the state *)

Lemma grown_store w st :
  st_grows (sv_store w) st -> grown w (set_store st w).
Proof.
  intros Hg. split; simpl; try done.
  - intros ss [s Hs]. destruct (st_grows_Some _ _ _ _ Hg Hs) as (s' & -> & _). by eexists.
  - intros ss. by apply admitted_grows.
  - intros ss. by apply open_grows.
Qed.

Lemma replaced_grows w ss s s' : sess_grows s s' -> replaced w ss s -> replaced w ss s'.
Proof. intros G (m & Hm & H). exists m. split; [by apply (sg_msg1 _ _ G)|done]. Qed.

Lemma safe_store w st :
  server_safe w -> store_sound (slot_ok (known w)) st -> st_grows (sv_store w) st ->
  server_safe (set_store st w).
Proof.
  intros [Hst Hf Hl Hn Hh Hsh Hra] Hst' Hg. split; simpl; try done.
  - intros ss s' Hs'. destruct (st_grows_inv _ _ _ _ Hg Hs') as (s & Hs & G).
    destruct (Hf ss s Hs) as [H|H]; [left; by apply (sg_front _ _ G)|right].
    by apply (replaced_grows w ss s).
  - intros app ss Ha. destruct (Hl app ss Ha) as (s & m & Hs & Hm & H).
    destruct (st_grows_Some _ _ _ _ Hg Hs) as (s' & Hs' & G).
    exists s', m. split; [done|]. split; [by apply (sg_msg1 _ _ G)|done].
  - intros node r Hr. destruct (Hn node r Hr) as (H1 & H2 & H3). split_and!; [done..|].
    intros ss Hss. by eapply admitted_grows, H3.
Qed.

Lemma sound_sess {A} D ss (m : M (session T) A) w s :
  server_safe w -> sv_store w !! ss = Some s -> method_safe (slot_ok (known w)) m s ->
  sound D (sess ss m) w.
Proof.
  intros Hw Hs Hm. unfold sound, safe_at. rewrite (sess_ok _ _ _ _ Hs).
  assert (forall s', sess_sound (slot_ok (known w)) s' /\ sess_grows s s' ->
    server_safe (set_store (<[ss := s']> (sv_store w)) w) /\
    grown w (set_store (<[ss := s']> (sv_store w)) w)) as Hk.
  { intros s' [H1 H2]. pose proof (st_grows_insert _ _ _ _ Hs H2) as Hg.
    split; [|by apply grown_store]. apply safe_store; [done| |done].
    apply store_sound_insert; [apply Hw|done]. }
  unfold method_safe, safe_at in Hm. destruct (m s) as [[a|e| |] s']; naive_solver.
Qed.

(** A channel is used. *)
Lemma sound_channel w node r r' st' :
  server_safe w -> m_nodeToSession w !! node = Some r ->
  chan_sound (slot_ok (known w)) node (sv_store w) (r', st') ->
  let w' := set_nodes (<[node := r']> (m_nodeToSession w)) (set_store st' w) in
  server_safe w' /\ grown w w'.
Proof.
  intros Hw Hr [Hn Hh Hqu Hst Hg] w'. simpl in *.
  assert (forall n, known w n <-> known w' n) as Hk.
  { intros n. unfold known. simpl. destruct (decide (n = node)) as [->|Hne].
    - rewrite lookup_insert_eq, Hr. split; by eexists.
    - by rewrite lookup_insert_ne. }
  destruct (safe_store w st' Hw Hst Hg) as [Hst1 Hf1 Hl1 Hn1 Hh1 Hsh1]. split.
  - split; try done.
    + intros id s Hs. destruct (Hst1 id s Hs) as [H1 H2 H3]. split; try done.
      eapply Forall_slot_mono; [|exact H3]. intros n. apply Hk.
    + intros n r0. simpl. destruct (decide (n = node)) as [->|Hne].
      * rewrite lookup_insert_eq. by intros [= <-].
      * rewrite lookup_insert_ne by done. apply Hn1.
  - destruct (grown_store w st' Hg). split; try done. intros n. apply Hk.
Qed.

Lemma chan_sound_of w node r :
  server_safe w -> m_nodeToSession w !! node = Some r ->
  chan_sound (slot_ok (known w)) node (sv_store w) (r, sv_store w).
Proof.
  intros Hw Hr. destruct (sf_nodes _ Hw node r Hr) as (H1 & H2 & H3).
  split; [done|done|done|apply Hw|reflexivity].
Qed.

Lemma sound_on_node {A} D node (m : M (remote_t * store T) A) w :
  server_safe w -> known w node ->
  (forall r, chan_sound (slot_ok (known w)) node (sv_store w) (r, sv_store w) ->
     safe_at False (chan_sound (slot_ok (known w)) node (sv_store w)) m (r, sv_store w)) ->
  sound D (on_node node m) w.
Proof.
  intros Hw [r Hr] Hm. unfold sound, safe_at, on_node. rewrite Hr.
  specialize (Hm r (chan_sound_of w node r Hw Hr)). unfold safe_at in Hm.
  destruct (m (r, sv_store w)) as [[a|e| |] [r' st']]; try done.
  - by eapply sound_channel.
  - destruct Hm as [He Hm]. split; [exact He|]. by eapply sound_channel.
Qed.
End Invariant.

(** ** Messages *)

Section Messages.
Context {T : Type} {PL : Platform T}.
Implicit Types (D : Prop) (w : server T) (s : session T) (msg : Msg T).

Lemma sound_put D ss msg w : server_safe w -> admitted (sv_store w) ss -> sound D (put ss msg) w.
Proof.
  intros Hw Ha. unfold put. eapply sound_ok; [done|].
  destruct (admitted_open _ _ _ (sf_store _ Hw) Ha) as (s & Hs & Hc).
  destruct Ha as (s' & Hs' & Hm). rewrite Hs in Hs'. injection Hs' as <-.
  eapply sound_sess; [done|exact Hs|].
  apply putOutQueue_safe; [by apply (sf_store _ Hw ss)|done|by left].
Qed.

Lemma sound_send_to D node msg w :
  server_safe w -> known w node -> destType msg <> service -> sound D (send_to node msg) w.
Proof.
  intros Hw Hn Hdt. unfold send_to. eapply sound_ok; [done|]. apply sound_on_node; [done..|].
  intros r Hr. by apply send_sound.
Qed.

Lemma sound_findAddRemote D node w :
  server_safe w -> sound D (findAddRemote node) w /\ known (findAddRemote node w).2 node.
Proof.
  intros Hw. split; [|apply known_findAddRemote].
  unfold sound, safe_at, findAddRemote, modify. simpl.
  destruct (m_nodeToSession w !! node) as [r|] eqn:Hr; [by split|].
  assert (forall n, known w n -> is_Some (<[node := remote_init node]> (m_nodeToSession w) !! n))
    as Hk by (intros n Hn; apply lookup_insert_is_Some'; by right).
  split; [|by split].
  destruct Hw as [Hst Hf Hl Hno Hh Hsh]. split; simpl; try done.
  - intros id s Hs. destruct (Hst id s Hs) as [H1 H2 H3]. split; try done.
    eapply Forall_slot_mono; [|exact H3]. exact Hk.
  - intros n r. destruct (decide (n = node)) as [->|Hne].
    + rewrite lookup_insert_eq. intros [= <-]. split_and!; [done|by split|].
      intros ss Hss. unfold held in Hss. simpl in Hss. set_solver.
    + rewrite lookup_insert_ne by done. apply Hno.
Qed.

Lemma local_admitted app ss w :
  server_safe w -> m_locals w !! app = Some ss -> admitted (sv_store w) ss.
Proof.
  intros Hw Ha. destruct (sf_locals _ Hw app ss Ha) as (s & m & Hs & Hm & _).
  exists s. split; [done|by eexists].
Qed.

(** After a channel to the node has been looked up or made. *)
Lemma sound_with_channel {A} D node (m : M (server T) A) w :
  server_safe w -> (forall w', server_safe w' -> grown w w' -> known w' node -> sound D m w') ->
  sound D (findAddRemote node ;; m) w.
Proof.
  intros Hw Hm. destruct (sound_findAddRemote D node w Hw) as [H1 H2].
  apply sound_bind; [done|]. intros [] w' E Hw' Hg. rewrite E in H2. by apply Hm.
Qed.

Lemma sound_handleAny D msg w : server_safe w -> sound D (handleAny msg) w.
Proof.
  intros Hw. unfold handleAny. destruct (m_destType msg) eqn:Hdt.
  - by split.
  - unfold handleLocalMsg. eapply sound_ok; [done|].
    destruct (m_locals w !! _) as [ss|] eqn:Ha; [|by split].
    apply sound_put; [done|]. by eapply local_admitted.
  - unfold handleRemoteMsg. destruct (route _); [|by split].
    apply sound_with_channel; [done|]. intros w' H1 _ H2.
    apply sound_send_to; [done|done|]. unfold destType. by rewrite Hdt.
  - unfold handleBroadcastMsg. eapply sound_ok; [done|]. apply sound_for_each; [done|].
    intros node w' Hn Hw' G. apply sound_send_to; [done| |unfold destType; by rewrite Hdt].
    apply (gr_known _ _ G).
    apply list_elem_of_fmap in Hn as ([n r] & -> & Hn). apply elem_of_map_to_list in Hn. by eexists.
  - unfold handleLocalBroadcastMsg. eapply sound_ok; [done|]. apply sound_for_each; [done|].
    intros ss w' Hn Hw' G. apply sound_put; [done|]. apply (gr_admitted _ _ G).
    apply list_elem_of_fmap in Hn as ([app x] & -> & Hn). apply elem_of_map_to_list in Hn.
    by eapply local_admitted.
Qed.

(** A message from an authenticated session that was there in [w0]. *)
Definition heard w0 (s : server T * Msg T) : Prop :=
  (server_safe s.1 /\ grown w0 s.1) /\
  forall ss, m_origin s.2 = Some ss -> admitted (sv_store w0) ss.

Lemma pbody_origin msg : m_origin (pbody msg).2 = m_origin msg.
Proof. unfold pbody. destruct (m_body msg); [|done]. by destruct (read_json _). Qed.

Lemma handlePriority_origin (o : option sid) :
  preserves (fun s : remote_t * store T * Msg T => m_origin s.2 = o) remote_handlePriorityMsg.
Proof.
  assert (forall A (m : M (remote_t * store T) A),
    preserves (fun s : remote_t * store T * Msg T => m_origin s.2 = o)
      (zoom fst (fun rs (s : remote_t * store T * Msg T) => (rs, s.2)) m)) as Hz.
  { intros A m. by apply (preserves_zoom _ (fun _ => True)). }
  unfold remote_handlePriorityMsg.
  apply preserves_bind; [apply preserves_gets|intros msg].
  apply preserves_bind; [apply preserves_gets|intros st].
  destruct (m_origin msg ≫= _); [|apply preserves_ret].
  apply preserves_bind; [apply Hz|intros _].
  apply preserves_bind; [apply preserves_gets|intros r].
  apply preserves_if; [apply preserves_ret|].
  apply preserves_bind.
  { intros [rs m] Hm. unfold zoom. simpl. pose proof (pbody_origin m) as Hp.
    destruct (pbody m). simpl in *. congruence. }
  intros body. destruct (default _ _); apply Hz.
Qed.

Lemma safe_handlePriorityMsg D w0 : safe D (heard w0) handlePriorityMsg.
Proof.
  intros [w msg] [[Hw Hg] Ho]. unfold safe_at, handlePriorityMsg. simpl in *.
  destruct (m_nodeToSession w !! _) as [r|] eqn:Hr; [|by split].
  pose proof (chan_sound_of w _ r Hw Hr) as Hc.
  pose proof (priority_sound _ _ _ msg _ _ Hc) as Hp.
  pose proof (handlePriority_origin (m_origin msg) ((r, sv_store w), msg) eq_refl) as Hm.
  unfold safe_at in Hp.
  specialize (Hp (fun ss Hss => gr_admitted _ _ Hg ss (Ho ss Hss))).
  assert (forall r' st' msg', m_origin msg' = m_origin msg ->
    chan_sound (slot_ok (known w)) (m_nodename (m_from msg)) (sv_store w) (r', st') ->
    heard w0 (set_nodes (<[m_nodename (m_from msg) := r']> (m_nodeToSession w)) (set_store st' w), msg'))
    as Hk.
  { intros r' st' msg' Hm' Hc'. destruct (sound_channel w _ r r' st' Hw Hr Hc') as [H1 H2].
    split; [split; [done|by etrans]|]. simpl. by rewrite Hm'. }
  destruct (remote_handlePriorityMsg _) as [[a|e| |] [[r' st'] msg']]; simpl in *; naive_solver.
Qed.

Lemma safe_run_any D w0 h : safe D (heard w0) (run_any (T := T) h).
Proof.
  intros [w msg] [[Hw Hg] Ho]. destruct h. unfold run_any. eapply safe_at_ok; [done|].
  unfold safe_at, zoom. simpl. pose proof (sound_handleAny False msg w Hw) as Hs.
  unfold sound, safe_at in Hs. simpl in *.
  assert (forall w', server_safe w' /\ grown w w' -> heard w0 (w', msg)) as Hk.
  { intros w' [H1 H2]. split; [split; [done|by etrans]|done]. }
  destruct (handleAny msg w) as [[a|e| |] w']; naive_solver.
Qed.

Lemma safe_raised e w :
  server_safe w -> foreign e -> server_safe (set_raised (capture e (raised w)) w).
Proof.
  intros [Hst Hf Hl Hn Hh Hsh Hra] He. split; try done. intros e'. unfold capture. simpl.
  destruct (sv_raised w); by intros [= <-].
Qed.

Lemma safe_dispatch D ss msg w :
  server_safe w -> m_origin msg = Some ss -> admitted (sv_store w) ss ->
  sound D (dispatch sv_dispatcher set_dispatcher run_named run_any true msg) w.
Proof.
  intros Hw Ho Ha. unfold dispatch. apply sound_bind.
  { assert (zoom sv_dispatcher set_dispatcher assertShared w =
      ((assertShared (sv_dispatcher w)).1, w)) as E.
    { unfold zoom, assertShared. run_m. destruct (m_shared _); by destruct w. }
    eapply sound_still; [done|exact E|]. unfold assertShared. run_m. by rewrite (sf_shared _ Hw). }
  intros [] w' _ Hw' G.
  assert (safe D (heard w') (dispatch_job sv_dispatcher run_named run_any)) as Hj.
  { assert (forall A (k : A -> M (server T * Msg T) unit) l, (forall x, safe D (heard w') (k x)) ->
      safe D (heard w') (for_each l (fun x => guarded (k x)))) as Hl.
    { intros A k l Hk. apply safe_for_each. intros x _. unfold guarded. auto with safety. }
    unfold dispatch_job. apply safe_bind; [apply safe_gets|intros m].
    apply safe_bind; [by apply safe_lift; unfold cname; destruct (pt_get _ _)|intros cn].
    apply safe_bind; [|intros _].
    - apply safe_when. apply safe_bind; [apply safe_gets|intros per].
      apply (Hl _ (fun kv => run_named kv.2)). intros [n []]. apply safe_handlePriorityMsg.
    - apply safe_bind; [apply safe_gets|intros post].
      apply (Hl _ (fun kv => run_any kv.2)). intros [n h]. apply safe_run_any. }
  assert (heard w' (w', msg)) as Hh.
  { split; [by split|]. simpl. rewrite Ho. intros x [= <-]. by apply (gr_admitted _ _ G). }
  specialize (Hj _ Hh). unfold sound, safe_at, captured, with_msg in *.
  destruct (dispatch_job _ _ _ _) as [[a|e| |] [w2 m2]]; unfold heard in Hj; simpl in Hj; [tauto| |done..].
  destruct Hj as (He & [H1 H2] & _). split; [by apply safe_raised|].
  etrans; [exact H2|by split].
Qed.
End Messages.

(** ** The first message *)

Section Admission.
Context {T : Type} {PL : Platform T}.
Implicit Types (D : Prop) (w : server T) (s : session T) (msg m : Msg T).

Lemma sound_addAuthSessionToRemote D node ss w :
  server_safe w -> admitted (sv_store w) ss -> sound D (addAuthSessionToRemote node ss) w.
Proof.
  intros Hw Ha. unfold addAuthSessionToRemote. apply sound_with_channel; [done|].
  intros w' Hw' G Hk. eapply sound_ok; [done|]. apply sound_on_node; [done..|].
  intros r Hr. apply addSession_sound; [done|done|]. by apply (gr_admitted _ _ G).
Qed.

(** The local table gets a session. *)
Lemma safe_enrolled w (ss : sid) s m :
  server_safe w -> sv_store w !! ss = Some s -> m_msg1 s = Some m -> fromLocal m = true ->
  front_write s ->
  let w' := set_locals (<[m_appname (m_from m) := ss]> (m_locals w)) w in
  server_safe w' /\ grown w w'.
Proof.
  intros [Hst Hf Hl Hn Hh Hsh Hra] Hs Hm Hfl Hfr w'. split; [split|by split]; simpl; try done.
  - intros x sx Hx. destruct (Hf x sx Hx) as [H|(mx & H1 & H2 & H3)]; [by left|].
    destruct (decide (x = ss)) as [->|Hne]; [left; congruence|right].
    exists mx. split_and!; [done|done|]. intros app. simpl.
    destruct (decide (app = m_appname (m_from m))) as [->|Ha].
    + rewrite lookup_insert_eq. congruence.
    + rewrite lookup_insert_ne by done. apply H3.
  - intros app x. destruct (decide (app = m_appname (m_from m))) as [->|Ha].
    + rewrite lookup_insert_eq. intros [= <-]. by exists s, m.
    + rewrite lookup_insert_ne by done. apply Hl.
Qed.

(** The session that was there is replaced, and its queue may go. *)
Lemma enrolled_replaced w (ss o : sid) m :
  server_safe w -> m_locals w !! m_appname (m_from m) = Some o -> ss <> o ->
  exists so, sv_store w !! o = Some so /\
    replaced (set_locals (<[m_appname (m_from m) := ss]> (m_locals w)) w) o so.
Proof.
  intros Hw Ho Hne. destruct (sf_locals _ Hw _ _ Ho) as (so & mo & H1 & H2 & H3 & H4).
  exists so. split; [done|]. exists mo. split_and!; [done|done|]. intros app. simpl.
  destruct (decide (app = m_appname (m_from m))) as [->|Ha].
  - rewrite lookup_insert_eq. congruence.
  - rewrite lookup_insert_ne by done. intros Hx.
    destruct (sf_locals _ Hw _ _ Hx) as (so' & mo' & G1 & G2 & _ & G4). congruence.
Qed.

Lemma safe_emptied w (o : sid) so :
  server_safe w -> sv_store w !! o = Some so -> replaced w o so ->
  let w' := set_store (<[o := set_outQueue [] so]> (sv_store w)) w in
  server_safe w' /\ grown w w'.
Proof.
  intros Hw Hs Hr w'.
  assert (forall x sx, sv_store w !! x = Some sx -> exists sx', sv_store w' !! x = Some sx' /\
    m_msg1 sx' = m_msg1 sx /\ m_pending sx' = m_pending sx) as Hk.
  { intros x sx Hx. simpl. destruct (decide (x = o)) as [->|Hne].
    - rewrite lookup_insert_eq. eexists. rewrite Hs in Hx. by injection Hx as <-.
    - rewrite lookup_insert_ne by done. by exists sx. }
  assert (grown w w') as Hg.
  { split; try done.
    - intros x [sx Hx]. destruct (Hk x sx Hx) as (sx' & -> & _). by eexists.
    - intros x (sx & Hx & Hm). destruct (Hk x sx Hx) as (sx' & Hx' & E & _).
      exists sx'. by rewrite E.
    - intros x (sx & Hx & Hm). destruct (Hk x sx Hx) as (sx' & Hx' & _ & E).
      exists sx'. by rewrite E. }
  split; [|done]. destruct Hw as [Hst Hf Hl Hn Hh Hsh Hra]. split; try done.
  - simpl. apply store_sound_insert; [done|]. destruct (Hst o so Hs) as [H1 H2 H3].
    split; [simpl; intros; lia| |done]. simpl. intros Hc. by destruct (H2 Hc) as (? & ? & ?).
  - intros x sx. simpl. destruct (decide (x = o)) as [->|Hne].
    + rewrite lookup_insert_eq. intros [= <-]. right. exact Hr.
    + rewrite lookup_insert_ne by done. apply Hf.
  - intros app x Hx. destruct (Hl app x Hx) as (s & m & H1 & H2 & H3).
    destruct (Hk x s H1) as (s' & Hs' & E & _). exists s', m. by rewrite E.
  - intros node r Hr'. destruct (Hn node r Hr') as (H1 & H2 & H3). split_and!; [done..|].
    intros x Hx. by apply (gr_admitted _ _ Hg), H3.
Qed.

(** The session of some application has a service message to write. *)
Definition blocked w : Prop :=
  exists app o so, m_locals w !! app = Some o /\ sv_store w !! o = Some so /\
    Exists (fun q => m_dt q = service) (m_outQueue so).

(** The new session of an application, as [auth] admits it. *)
Lemma sound_take_over D w (ss : sid) s m :
  server_safe w -> sv_store w !! ss = Some s -> m_msg1 s = Some m -> fromLocal m = true ->
  front_write s -> (forall app, m_locals w !! app <> Some ss) -> (blocked w -> D) ->
  let app := m_appname (m_from m) in
  sound D (match m_locals w !! app with Some old => take_over ss old | None => ret tt end ;;
         modify (fun w => set_locals (<[app := ss]> (m_locals w)) w)) w.
Proof.
  intros Hw Hs Hm Hl Hf Hno HD app.
  destruct (safe_enrolled w ss s m Hw Hs Hm Hl Hf) as [Hw1 G1].
  destruct (m_locals w !! app) as [o|] eqn:Ho; [|by split].
  assert (ss <> o) as Hne by (intros <-; by apply (Hno app)).
  destruct (enrolled_replaced w ss o m Hw Ho Hne) as (so & Hso & Hr).
  destruct (safe_emptied _ o so Hw1 Hso Hr) as [Hw2 G2]. set (w2 := set_store _ _) in Hw2, G2.
  unfold sound, safe_at, bind, take_over. rewrite Hs, Hso, decide_False by done.
  destruct (takeOverMessages_safe (slot_ok (known w)) (sv_now w) (m_outQueue so) s)
    as [[He Hd]|(s' & E & H1 & H2)]; [by apply (sf_store _ Hw ss)|by eexists| |].
  { destruct (takeOverMessages _ _) as [out [s' q]]. simpl in Hd. subst out.
    apply HD. by exists app, o, so. }
  rewrite E. unfold modify.
  assert (st_grows (<[o := set_outQueue [] so]> (sv_store w))
            (<[ss := s']> (<[o := set_outQueue [] so]> (sv_store w)))) as Hg
    by (eapply st_grows_insert; [by rewrite lookup_insert_ne|done]).
  split.
  - eapply (safe_store _ _ Hw2); [|exact Hg].
    apply store_sound_insert; [apply (sf_store _ Hw2)|done].
  - etrans; [exact G1|]. etrans; [exact G2|]. exact (grown_store w2 _ Hg).
Qed.

Lemma sound_auth D w ss s m :
  server_safe w -> sv_store w !! ss = Some s -> m_msg1 s = Some m -> front_write s ->
  (forall app, m_locals w !! app <> Some ss) -> (blocked w -> D) -> sound D (auth ss) w.
Proof.
  intros Hw Hs Hm Hf Hno HD. destruct (fromLocal m) eqn:Hl.
  - unfold auth.
    eapply (sound_ok _ _ _ (fromLocal m)).
    { apply (sess_read _ _ _ s); [done|]. unfold peerIsLocal, msg1_or_throw. run_m. by rewrite Hm. }
    rewrite Hl. eapply (sound_ok _ _ _ (m_appname (m_from m))).
    { apply (sess_read _ _ _ s); [done|]. unfold peerApp, msg1_or_throw. run_m. by rewrite Hm. }
    eapply sound_ok; [done|]. by apply (sound_take_over D w ss s m).
  - unfold sound, safe_at. rewrite (auth_remote _ _ _ _ Hs Hm Hl).
    apply sound_addAuthSessionToRemote; [done|]. exists s. split; [done|by eexists].
Qed.
End Admission.

(** ** The handlers of the event loop *)

Section Handlers.
Context {T : Type} {PL : Platform T}.
Implicit Types (D : Prop) (w : server T) (s : session T) (msg : Msg T).

Lemma sound_close D ss reason w :
  server_safe w -> open_session (sv_store w) ss -> sound D (sess ss (gracefullClose reason)) w.
Proof.
  intros Hw (s & Hs & Hc). eapply sound_sess; [done|exact Hs|].
  apply gracefullClose_safe; [by apply (sf_store _ Hw ss)|done].
Qed.

(** The session has not been authenticated. *)
Definition unauth w (ss : sid) : Prop := exists s, sv_store w !! ss = Some s /\ m_msg1 s = None.

Lemma admitted_not_unauth w ss : admitted (sv_store w) ss -> ~ unauth w ss.
Proof. intros (s & Hs & [m Hm]) (s' & Hs' & Hm'). congruence. Qed.

(** A session changes, its queue does not. *)
Lemma blocked_still w ss s s' :
  sv_store w !! ss = Some s -> m_outQueue s' = m_outQueue s ->
  blocked (set_store (<[ss := s']> (sv_store w)) w) -> blocked w.
Proof.
  intros Hs Hq (app & o & so & H1 & H2 & H3). exists app, o. simpl in *.
  destruct (decide (o = ss)) as [->|Hne].
  - rewrite lookup_insert_eq in H2. injection H2 as <-. exists s. by rewrite <-Hq.
  - rewrite lookup_insert_ne in H2 by done. by exists so.
Qed.

Lemma gracefullClose_queue reason s : m_outQueue (gracefullClose reason s).2 = m_outQueue s.
Proof.
  unfold gracefullClose, sendByeAndClose, async. run_m. destruct (m_closeFlag s); [done|].
  destruct (outQueueEmpty _); [|done]. run_m. by destruct (move_tostr _).1.
Qed.

(** A session that is still not authenticated has not changed the local
    table or the queue of another session. *)
Definition waits ss w w' : Prop := unauth w' ss -> unauth w ss /\ (blocked w' -> blocked w).

Lemma admitted_waits ss w w' : admitted (sv_store w') ss -> waits ss w w'.
Proof. intros Ha Hu. by destruct (admitted_not_unauth _ _ Ha). Qed.

Lemma sound_dispatchMsg D ss msg w :
  server_safe w -> open_session (sv_store w) ss -> m_origin msg = Some ss ->
  (unauth w ss -> blocked w -> D) ->
  safe_at D (fun w' => (server_safe w' /\ grown w w') /\ waits ss w w') (dispatchMsg ss msg) w.
Proof.
  intros Hw Hop Ho HD. pose proof Hop as (s & Hs & Hc). unfold dispatchMsg.
  eapply safe_at_ok; [by apply (sess_read _ _ _ s (Ok (authenticated s)))|].
  unfold authenticated. case_bool_decide as Ha; simpl.
  { assert (admitted (sv_store w) ss) as Hadm by (by exists s).
    eapply (safe_at_weaken D); [exact id| |by apply (safe_dispatch D ss)].
    intros w' [H G]. split; [by split|]. by apply admitted_waits, (gr_admitted _ _ G). }
  assert (m_msg1 s = None) as Hm by (destruct (m_msg1 s); [by destruct Ha|done]).
  assert (unauth w ss) as Hu by (by exists s).
  destruct (authenticate_result msg s) as [Ea|Ea].
  - eapply safe_at_ok; [by apply (sess_read _ _ _ s (Ok false))|]. simpl.
    apply safe_at_also; [by apply sound_close|]. rewrite (sess_ok _ _ _ _ Hs). intros _.
    split; [done|]. apply (blocked_still w ss s); [done|apply gracefullClose_queue].
  - pose proof (sound_sess D ss (authenticate msg) w s Hw Hs) as H1. unfold sound, safe_at in H1.
    rewrite (sess_ok _ _ _ _ Hs), Ea in H1. simpl in H1.
    destruct H1 as [Hw1 G]; [by apply authenticate_safe; [apply (sf_store _ Hw ss)| |]|].
    eapply safe_at_ok; [by rewrite (sess_ok _ _ _ _ Hs), Ea|]. simpl.
    set (s1 := set_msg1 (Some msg) s) in *. set (w1 := set_store _ w) in *.
    assert (sv_store w1 !! ss = Some s1) as Hs1 by apply lookup_insert_eq.
    eapply safe_at_ok; [by apply (sess_read _ _ _ s1 (Ok (s_auth s1)))|].
    assert (admitted (sv_store w1) ss) as Hadm by (exists s1; split; [done|by eexists]).
    apply (safe_at_weaken D _ (fun w' => server_safe w' /\ grown w1 w')); [exact id| |].
    { intros w' [H G2]. split; [split; [done|by etrans]|]. by apply admitted_waits, (gr_admitted _ _ G2). }
    apply sound_when; [done|]. apply (sound_auth _ w1 ss s1 msg); [done..| | |].
    + destruct (sf_front _ Hw ss s Hs) as [H|(m' & Hm' & _)]; [exact H|congruence].
    + intros app Happ. destruct (sf_locals _ Hw app ss Happ) as (s' & m' & Hs' & Hm' & _).
      rewrite Hs in Hs'. injection Hs' as <-. congruence.
    + intros Hb. apply HD; [done|]. by apply (blocked_still w ss s s1).
Qed.

Lemma safe_put_processor ss ip w :
  server_safe w -> server_safe (put_processor ss (ip, w) w) /\ grown w (put_processor ss (ip, w) w).
Proof.
  intros Hw. unfold put_processor. simpl.
  assert (st_grows (sv_store w) (alter (set_processor ip) ss (sv_store w))) as Hg.
  { intros id. destruct (decide (id = ss)) as [->|Hne].
    - rewrite lookup_alter_eq. destruct (sv_store w !! ss); simpl; [|done]. by split.
    - rewrite lookup_alter_ne by done. destruct (sv_store w !! id); simpl; [reflexivity|done]. }
  split; [|by apply grown_store]. apply safe_store; [done| |done]. intros id s.
  destruct (decide (id = ss)) as [->|Hne].
  - rewrite lookup_alter_eq. destruct (sv_store w !! ss) as [s0|] eqn:Hs0; [|done].
    intros [= <-]. by destruct (sf_store _ Hw ss s0 Hs0).
  - rewrite lookup_alter_ne by done. apply Hw.
Qed.

(** Reading hangs only when a new session of an application takes over from
    one that has a service message to write. *)
Lemma sound_process_input ss input w :
  server_safe w -> open_session (sv_store w) ss ->
  sound (unauth w ss /\ blocked w) (process_input ss input) w.
Proof.
  intros Hw Hop. set (D := unauth w ss /\ blocked w).
  set (I w' := (server_safe w' /\ grown w w') /\ waits ss w w').
  assert (safe D (fun x => I x.2) (processNewInput (dispatchMsg ss) ss input)) as Hp.
  { apply processNewInput_safe. intros msg Ho w' [[Hw' G] Hwt].
    apply (safe_at_weaken D _ (fun w2 => (server_safe w2 /\ grown w' w2) /\ waits ss w' w2)); [exact id| |].
    - intros w2 [[H1 H2] H3]. split; [split; [done|by etrans]|].
      intros Hu. destruct (H3 Hu) as [Hu' Hb]. destruct (Hwt Hu') as [Hu0 Hb']. auto.
    - apply sound_dispatchMsg; [done|by apply (gr_open _ _ G)|done|].
      intros Hu Hb. destruct (Hwt Hu) as [Hu0 Hb']. split; auto. }
  specialize (Hp (get_processor ss w)). unfold sound, safe_at, process_input, zoom in *.
  assert (forall ip w', I w' -> server_safe (put_processor ss (ip, w') w) /\
    grown w (put_processor ss (ip, w') w)) as Hput.
  { intros ip w' [[H1 H2] _]. destruct (safe_put_processor ss ip w' H1) as [H3 H4].
    split; [exact H3|]. etrans; [exact H2|exact H4]. }
  destruct (processNewInput _ _ _ _) as [[b|e| |] [ip w']];
    specialize (Hp ltac:(split; [by split|done])); [by apply Hput| |done|exact Hp].
  destruct Hp as [He Hp]. split; [exact He|by apply Hput].
Qed.

Lemma safe_outman w o :
  server_safe w -> (forall h, h ∈ m_resolves o -> is_Some (m_connectTo o !! h)) ->
  server_safe (set_outman o w) /\ grown w (set_outman o w).
Proof. intros [Hst Hf Hl Hn Hh Hsh Hra] Ho. split; by split. Qed.

Lemma on_host_hosts w hname f h :
  server_safe w -> h ∈ m_resolves (m_outman w) ->
  is_Some (m_connectTo (on_host hname f (m_outman w)) !! h).
Proof.
  intros Hw Hh. simpl. destruct (sf_hosts _ Hw h Hh) as [rh Hrh].
  destruct (decide (h = hname)) as [->|Hne].
  - rewrite lookup_alter_eq, Hrh. by eexists.
  - rewrite lookup_alter_ne by done. by eexists.
Qed.

Lemma sound_run_slot D ss slot w :
  server_safe w -> is_Some (sv_store w !! ss) -> slot_ok (known w) slot ->
  sound D (run_slot ss slot) w.
Proof.
  intros Hw [s Hs] Hsl. destruct slot as [|node|hname]; simpl in *.
  - unfold onSessionClosed. eapply (sound_ok _ _ _ (m_remoteIp s)); [by apply (sess_read _ _ _ s)|].
    destruct Hw. by split.
  - apply sound_on_node; [done..|]. intros r Hr. by apply closed_sound.
  - apply (safe_outman w); [done|]. intros h. by apply on_host_hosts.
Qed.

Lemma sound_emit D ss m w s :
  server_safe w -> sv_store w !! ss = Some s -> handler_safe (slot_ok (known w)) m s ->
  sound D (emit ss m) w.
Proof.
  intros Hw Hs [Hm Hsl]. unfold emit. apply sound_bind; [by eapply sound_sess|].
  intros slots w1 E Hw1 G. rewrite (sess_ok _ _ _ _ Hs) in E.
  destruct (m s) as [o s'] eqn:Em. injection E as -> _.
  specialize (Hsl slots s' eq_refl). rewrite Forall_forall in Hsl.
  apply sound_for_each; [done|]. intros slot w2 Hin Hw2 G2. apply sound_run_slot; [done| |].
  - apply (gr_exists _ _ G2), (gr_exists _ _ G). by eexists.
  - pose proof (Hsl slot Hin) as Hk. destruct slot as [|node|hname]; simpl in *; try done.
    by apply (gr_known _ _ G2), (gr_known _ _ G).
Qed.

Lemma sound_stop D ss w : server_safe w -> is_Some (sv_store w !! ss) -> sound D (emit ss stop) w.
Proof.
  intros Hw [s Hs]. apply (sound_emit _ _ _ _ s); [done|done|].
  apply stop_safe. by apply (sf_store _ Hw ss).
Qed.

Lemma sound_read_handler ss s data w :
  server_safe w -> sv_store w !! ss = Some s -> ARead ∈ m_pending s ->
  sound (is_Some data /\ unauth w ss /\ blocked w) (read_handler ss data) w.
Proof.
  intros Hw Hs Hop. set (D := _ /\ _). pose proof (sf_store _ Hw ss s Hs) as Hss.
  destruct (complete_safe _ _ _ Hss Hop eq_refl) as (H1 & H2 & H3).
  unfold read_handler. apply sound_bind; [by apply (sound_sess _ _ _ _ s)|].
  intros [] w1 E Hw1 G1. rewrite (sess_ok _ _ _ _ Hs) in E. injection E as <-.
  set (s1 := (complete ARead s).2) in *. set (w1 := set_store _ w) in *.
  assert (open_session (sv_store w1) ss) as Hop1.
  { eexists. split; [apply lookup_insert_eq|exact H3]. }
  assert (forall w', open_session (sv_store w') ss -> is_Some (sv_store w' !! ss)) as Hex
    by (intros w' (s' & -> & _); by eexists).
  destruct data as [input|]; [|by apply sound_stop, Hex].
  apply sound_bind.
  { eapply safe_at_weaken; [|exact (fun _ H => H)|by apply (sound_process_input ss input w1)].
    intros [(s' & Hs' & Hm) Hb]. split; [by eexists|]. split.
    - exists s. split; [done|]. rewrite <-Hm. simpl in Hs'. rewrite lookup_insert_eq in Hs'.
      by injection Hs' as <-.
    - by apply (blocked_still w ss s s1). }
  intros ok w2 _ Hw2 G2. pose proof (gr_open _ _ G2 ss Hop1) as Hop2.
  destruct ok; simpl; [|by apply sound_stop, Hex].
  destruct Hop2 as (s2 & Hs2 & Hc2). apply (sound_sess _ _ _ _ s2); [done|done|].
  apply pending_safe; [by apply (sf_store _ Hw2 ss)|done|set_solver|done].
Qed.
End Handlers.

(** ** New sessions *)

Section New.
Context {T : Type} {PL : Platform T}.
Implicit Types (D : Prop) (w : server T) (s : session T).

Lemma safe_new w (id : sid) s :
  server_safe w -> sv_store w !! id = None -> sess_sound (slot_ok (known w)) s -> front_write s ->
  let w' := set_store (<[id := s]> (sv_store w)) w in server_safe w' /\ grown w w'.
Proof.
  intros [Hst Hf Hl Hn Hh Hsh Hra] Hid Hs Hfr w'.
  assert (forall x s0, sv_store w !! x = Some s0 -> sv_store w' !! x = Some s0) as Hk.
  { intros x s0 Hx. simpl. rewrite lookup_insert_ne; [done|]. intros <-. congruence. }
  assert (forall x, admitted (sv_store w) x -> admitted (sv_store w') x) as Hadm
    by (intros x (s0 & Hx & Hm); exists s0; auto).
  split; split; try done.
  - simpl. by apply store_sound_insert.
  - intros x s0. simpl. destruct (decide (x = id)) as [->|Hne].
    + rewrite lookup_insert_eq. intros [= <-]. by left.
    + rewrite lookup_insert_ne by done. apply Hf.
  - intros app x Hx. destruct (Hl app x Hx) as (s0 & m & H1 & H2). exists s0, m. auto.
  - intros node r Hr. destruct (Hn node r Hr) as (H1 & H2 & H3). auto.
  - intros x [s0 Hx]. exists s0. auto.
  - intros x (s0 & Hx & Hc). exists s0. auto.
Qed.

Lemma created_eq d ip hname w :
  let id := fresh (dom (sv_store w)) in
  sv_store w !! id = None /\
  exists w1, make_session d ip hname w = (Ok id, w1) /\
    onSessionCreated id w1 =
    (Ok tt, set_store (<[id := new_session d ip hname]> (sv_store w)) (listed ip id w)).
Proof.
  intros id. split; [apply not_elem_of_dom, is_fresh|].
  eexists. split; [done|]. erewrite onSessionCreated_eq by apply lookup_insert_eq.
  simpl. by rewrite insert_insert_eq.
Qed.

Lemma new_sound N d ip hname : N SlotServer -> sess_sound N (new_session (T := T) d ip hname).
Proof.
  intros HN. split; simpl; [lia| |by apply Forall_singleton]. intros H. by apply elem_of_nil in H.
Qed.

Lemma safe_listed ip (id : sid) w : server_safe w -> server_safe (listed ip id w) /\ grown w (listed ip id w).
Proof. intros [? ? ? ? ? ? ?]. by split. Qed.

Lemma safe_acceptor n w : server_safe w -> server_safe (set_acceptor n w) /\ grown w (set_acceptor n w).
Proof. intros [? ? ? ? ? ? ?]. by split. Qed.

Lemma sound_accept_handler D socket w :
  server_safe w -> socket <> Some None -> sound D (accept_handler socket) w.
Proof.
  intros Hw Hsock. unfold accept_handler. apply sound_bind; [by apply (safe_acceptor _ w)|].
  intros [] w1 _ Hw1 _. apply sound_bind; [|intros [] w2 _ Hw2 _; by apply (safe_acceptor _ w2)].
  destruct socket as [[raddr|]|]; [|done|by split].
  eapply sound_ok; [done|].
  destruct (created_eq incoming raddr EmptyString w1) as (Hid & w3 & Em & Ec). set (id := fresh _) in *.
  destruct (safe_listed raddr id w1 Hw1) as [Hl1 Gl].
  destruct (safe_new (listed raddr id w1) id (new_session incoming raddr EmptyString) Hl1 Hid)
    as [Hw2 G2]; [by apply new_sound|by left|].
  set (w2 := set_store _ _) in Hw2, G2.
  eapply (safe_at_weaken D _ (fun w' => server_safe w' /\ grown w2 w')); [exact (fun H => H)|..].
  { intros w' [H1 H2]. split; [done|]. etrans; [exact Gl|]. by etrans. }
  eapply safe_at_ok; [exact Em|]. eapply safe_at_ok; [exact Ec|]. fold w2.
  assert (sv_store w2 !! id = Some (new_session incoming raddr EmptyString)) as Hs by apply lookup_insert_eq.
  assert (AConnect ∉ m_pending (new_session (T := T) incoming raddr EmptyString)) as Hp.
  { simpl. intros H. by apply elem_of_nil in H. }
  eapply sound_ok; [done|]. destruct (_ <? _)%nat.
  - apply sound_close; [done|]. by eexists.
  - eapply sound_ok; [done|]. apply (sound_sess _ _ _ _ _ Hw2 Hs).
    by apply start_safe; [apply new_sound| |].
Qed.

(** An outgoing session is created and starts to connect. *)
Lemma sound_create_session D addr hname w : server_safe w -> sound D (create_session addr hname) w.
Proof.
  intros Hw. destruct (created_eq outgoing addr hname w) as (Hid & w3 & Em & Ec). set (id := fresh _) in *.
  set (s := set_pending [AConnect]
    (connect_closed (SlotHost hname) (new_session (T := T) outgoing addr hname))).
  destruct (safe_listed addr id w Hw) as [Hl1 Gl].
  destruct (safe_new (listed addr id w) id s Hl1 Hid) as [Hw2 G2]; [|by left|].
  { split; simpl; [lia|done|]. by repeat constructor. }
  assert (create_session addr hname w = (Ok tt, set_store (<[id := s]> (sv_store w)) (listed addr id w)))
    as E2; [|unfold sound, safe_at; rewrite E2; split; [done|by etrans]].
  unfold create_session. simpl. rewrite (bind_ok _ _ _ _ _ Em), (bind_ok _ _ _ _ _ Ec).
  unfold bind. erewrite sess_ok by apply lookup_insert_eq. simpl.
  erewrite sess_ok by apply lookup_insert_eq. simpl. by rewrite !insert_insert_eq.
Qed.
End New.

(** ** The resolver, the timer *)

Section Manager.
Context {T : Type} {PL : Platform T}.
Implicit Types (D : Prop) (w : server T) (o : OutgoingManager).

(** Changes of a host's entry keep the manager's invariant. *)
Lemma sound_on_host D hname (f : Z -> RemoteHostToConnect -> RemoteHostToConnect) w :
  server_safe w -> sound D (on_out (W := server T) (fun now => on_host hname (f now))) w.
Proof. intros Hw. apply (safe_outman w); [done|]. intros h. by apply on_host_hosts. Qed.

Lemma sound_poke D w : server_safe w -> sound D (on_out (W := server T) (fun _ => poke)) w.
Proof. intros Hw. apply (safe_outman w); [done|]. apply (sf_hosts _ Hw). Qed.

Lemma sound_create_sessions D n addr hname w :
  server_safe w -> sound D (create_sessions n addr hname) w.
Proof.
  revert w; induction n as [|n IH]; intros w Hw; [by split|]. cbn [create_sessions].
  apply sound_bind; [by apply sound_create_session|]. intros [] w' _ Hw' _. by apply IH.
Qed.

Lemma sound_connectResolved D rezit hname w :
  server_safe w -> is_Some (m_connectTo (m_outman w) !! hname) ->
  sound D (connectResolved (W := server T) rezit hname) w.
Proof.
  intros Hw Hin. unfold connectResolved. destruct rezit as [addr|].
  2:{ apply sound_bind; [by apply (sound_on_host _ hname (fun now => setStatus now resolving_error))|].
      intros [] w' _ Hw' _. by apply sound_poke. }
  apply sound_bind; [by apply (sound_on_host _ hname (fun _ => setAddr addr))|].
  intros [] w1 [= <-] Hw1 _. eapply sound_ok; [done|]. simpl. rewrite lookup_alter_eq.
  destruct Hin as [rh ->]. simpl.
  eapply sound_ok; [done|]. eapply sound_ok; [done|].
  destruct (judge _ _ _) as [| |n].
  - apply sound_when; [done|]. by apply (sound_on_host _ hname (fun now => setStatus now connected)).
  - apply sound_when; [done|]. by apply (sound_on_host _ hname (fun now => setStatus now connecting)).
  - apply sound_bind; [by apply (sound_on_host _ hname (fun now => setStatus now connecting))|].
    intros [] w2 _ Hw2 _. apply sound_bind; [by apply sound_create_sessions|].
    intros [] w3 _ Hw3 _. by apply (sound_on_host _ hname (fun now => setStatus now connecting)).
Qed.

Lemma due_hosts_in now (m : gmap string RemoteHostToConnect) h :
  h ∈ due_hosts now (map_to_list m) -> is_Some (m !! h).
Proof.
  unfold due_hosts. rewrite list_elem_of_omap. intros ([k rh] & Hk & Hd). simpl in Hd.
  destruct (due now rh); [|done]. injection Hd as <-. apply elem_of_map_to_list in Hk. by eexists.
Qed.

Lemma safe_timer w o :
  server_safe w -> timer_step (sv_now w) (m_outman w) o -> server_safe (set_outman o w).
Proof.
  intros Hw Hs. apply safe_outman; [done|]. pose proof (sf_hosts _ Hw) as Hh.
  destruct Hs as [d o Hd Hle|n o Hf|n o Hp]; try exact Hh.
  intros h. unfold tick. rewrite startConnecting_eq. simpl.
  rewrite lookup_fmap, fmap_is_Some, elem_of_app. intros [H|H]; [by apply Hh|by eapply due_hosts_in].
Qed.
End Manager.

(** ** The turns *)

(** The completion of a write of a session that has been replaced and whose
    queue the new session has taken over. *)
Definition orphaned {T} {PL : Platform T} (ev : event) (w : server T) : Prop :=
  match ev with
  | EvWritten ss _ false =>
      exists s, sv_store w !! ss = Some s /\ m_outQueue s = [] /\ replaced w ss s
  | _ => False
  end.

(** The first message of a session arrives, while the session of some
    application has a service message to write. *)
Definition hanging {T} {PL : Platform T} (ev : event) (w : server T) : Prop :=
  match ev with
  | EvRead ss (Some _) => unauth w ss /\ blocked w
  | _ => False
  end.

Section Turns.
Context {T : Type} {PL : Platform T}.
Implicit Types (w : server T) (ev : event).

(** The event loop runs a sound handler, and throws what it left pending. *)
Lemma safe_turn D m w : sound D m w -> safe_at D server_safe (run_one m) w.
Proof.
  intros Hm. apply safe_at_bind.
  { revert Hm. apply safe_at_weaken; [done|]. by intros w' [? _]. }
  intros [] w' _ Hw. unfold safe_at, rethrow. simpl.
  destruct (sv_raised w') as [e|] eqn:He; [|exact Hw].
  split; [by apply (sf_foreign _ Hw)|by destruct Hw; split].
Qed.

Lemma handle_safe ev w :
  server_safe w -> ready ev w -> ev <> EvAccept (Some None) ->
  safe_at (hanging ev w) server_safe (handle ev) w \/ orphaned ev w.
Proof.
  intros Hw Hr Hev. destruct ev as [now|socket|ss ec|ss data|ss buf ec|ss buf|rezit hname l1 l2|o];
    simpl in Hr; try (destruct Hr as (s & Hs & Hop); pose proof (sf_store _ Hw ss s Hs) as Hss).
  - left. unfold safe_at. simpl. by destruct Hw.
  - left. apply (safe_turn _ (accept_handler socket)), sound_accept_handler; [done|]. intros ->. by apply Hev.
  - left. apply (safe_turn _ (emit ss (connectHandler (sv_now w) ec))), (sound_emit _ _ _ _ s);
      [done|done|]. by apply connectHandler_safe.
  - left. eapply (safe_at_weaken (is_Some data /\ unauth w ss /\ blocked w)); [|exact (fun _ H => H)|].
    + destruct data; [by intros [_ ?]|by intros [[]]].
    + by apply (safe_turn _ (read_handler ss data)), (sound_read_handler _ s).
  - assert (ec = true \/ m_outQueue s <> [] ->
      safe_at False server_safe (handle (EvWritten ss buf ec)) w) as Hok.
    { intros Hok. apply (safe_turn _ (emit ss (write_handler (sv_now w) buf ec))),
        (sound_emit _ _ _ _ s); [done|done|]. by apply write_handler_safe. }
    destruct ec; [left; by apply Hok; left|].
    destruct (decide (m_outQueue s = [])) as [Hq|Hq]; [right|left; by apply Hok; right].
    exists s. split; [done|]. split; [done|]. destruct (sf_front _ Hw ss s Hs) as [Hf|Hf]; [|done].
    by destruct (front_write_queue buf s Hf Hop).
  - left. apply (safe_turn _ (emit ss (bye_handler buf))), (sound_emit _ _ _ _ s); [done|done|].
    by apply bye_handler_safe.
  - left. unfold handle.
    assert (is_Some (m_connectTo (m_outman w) !! hname)) as Hin
      by (apply (sf_hosts _ Hw); rewrite Hr; set_solver).
    apply (safe_turn _ (connectResolved (W := server T) rezit hname)), sound_connectResolved; [|done].
    apply safe_outman; [done|]. intros h Hh. apply (sf_hosts _ Hw). simpl in Hh. rewrite Hr. set_solver.
  - left. by apply (safe_timer w).
Qed.

Lemma orphaned_undefined ev w : orphaned ev w -> (handle ev w).1 = Undefined.
Proof.
  destruct ev as [| | | |ss buf []| | |]; try done. intros (s & Hs & Hq & _).
  unfold handle. apply run_one_undefined. unfold emit, bind. rewrite (sess_ok _ _ _ _ Hs).
  unfold write_handler, complete. run_m. by rewrite Hq.
Qed.

Lemma safe_step w w' : server_safe w -> sv_step w w' -> server_safe w'.
Proof.
  intros Hw Hs. apply sv_turn_event in Hs as (ev & Hr & E).
  destruct (handle_safe ev w Hw Hr) as [H|H]; [by intros ->|..].
  - unfold safe_at in H. by rewrite <-E in H.
  - apply orphaned_undefined in H. by rewrite <-E in H.
Qed.

(** Nothing is there yet. *)
Definition blank w : Prop :=
  sv_store w = ∅ /\ m_locals w = ∅ /\ m_nodeToSession w = ∅ /\ m_resolves (m_outman w) = [] /\
  m_shared (sv_dispatcher w) = true /\ sv_raised w = None.

Lemma blank_safe w : blank w -> server_safe w.
Proof.
  intros (H1 & H2 & H3 & H4 & H5 & H6). split.
  - intros id s. by rewrite H1, lookup_empty.
  - intros id s. by rewrite H1, lookup_empty.
  - intros app ss. by rewrite H2, lookup_empty.
  - intros node r. by rewrite H3, lookup_empty.
  - intros h. rewrite H4. intros H. by apply elem_of_nil in H.
  - done.
  - by rewrite H6.
Qed.

Lemma blank_ctor inline : preserves blank (NetServer_ctor (T := T) inline).
Proof.
  assert (forall A (m : M _ A), preserves (fun d => m_shared d = true) m ->
    preserves blank (zoom (W := server T) sv_dispatcher set_dispatcher m)) as Hd.
  { intros A m Hm. apply (preserves_zoom _ (fun d => m_shared d = true)); [done|..].
    - by intros w (_ & _ & _ & _ & ? & _).
    - by intros w d (? & ? & ? & ? & _ & ?) ?. }
  assert (preserves (fun d : MsgDispatcher T named_handler any_handler => m_shared d = true)
    assertShared) as Ha.
  { unfold assertShared. auto with preserve. }
  assert (preserves (fun d : MsgDispatcher T named_handler any_handler => m_shared d = true)
    (nextIdOnStrand inline)) as Hi.
  { unfold nextIdOnStrand. destruct inline; [|apply preserves_ub].
    apply preserves_bind; [apply preserves_gets|intros id].
    apply preserves_bind; [by apply preserves_modify|intros _; apply preserves_ret]. }
  assert (forall k, (forall id d, m_shared (k id d) = m_shared d) ->
    forall c : Id -> Connection, preserves (fun d : MsgDispatcher T named_handler any_handler => m_shared d = true)
    (assertShared ;; id <- nextIdOnStrand inline ;; modify (k id) ;; ret (c id))) as Hr.
  { intros k Hk c. apply preserves_bind; [exact Ha|intros _]. apply preserves_bind; [exact Hi|intros id].
    apply preserves_bind; [|intros _; apply preserves_ret].
    apply preserves_modify. intros d. by rewrite Hk. }
  unfold NetServer_ctor, registerHandler, registerAnyPost.
  apply preserves_bind; [by apply Hd, Hr|intros _].
  apply preserves_bind; [by apply Hd, Hr|intros _].
  apply preserves_bind; [by apply preserves_modify|intros _].
  apply preserves_bind; [apply preserves_lift|intros l].
  apply preserves_bind; [|intros _; by apply preserves_modify].
  apply preserves_for_each. intros h _. apply preserves_modify.
  intros w (H1 & H2 & H3 & H4 & H5 & H6). split_and!; try done. unfold add_host.
  destruct (isLocalNode h); [done|]. by destruct (_ !! h).
Qed.

Lemma reachable_safe now port w0 w :
  NetServer_ctor true (server_init now port) = (Ok tt, w0) -> rtc sv_step w0 w -> server_safe w.
Proof.
  intros E Hr. assert (server_safe w0) as Hw0.
  { apply blank_safe. pose proof (blank_ctor true (server_init now port)) as H.
    rewrite E in H. by apply H. }
  revert w Hr. apply (rtc_ind_r server_safe); [done|]. intros w1 w2 _ Hs Hw. by eapply safe_step.
Qed.

(** What a turn of the event loop ends with. *)
Lemma handle_outcome ev w :
  server_safe w -> ready ev w ->
  ((handle ev w).1 = Undefined <-> orphaned ev w) /\
  forall e, (handle ev w).1 = Throw e ->
    (e = system_error <-> ev = EvAccept (Some None)) /\ (e = system_error \/ foreign e).
Proof.
  intros Hw Hev. assert (ev = EvAccept (Some None) \/ ev <> EvAccept (Some None)) as [->|Hne].
  { destruct ev as [|[[|]|]| | | | | |]; try (by right); by left. }
  { split; [done|]. intros e [= <-]. split; [done|by left]. }
  pose proof (handle_safe ev w Hw Hev Hne) as Hs. unfold safe_at in Hs.
  pose proof (orphaned_undefined ev w) as Ho. split; [split; [|exact Ho]|].
  - intros Hu. destruct Hs as [Hs|Hs]; [|done].
    destruct (handle ev w) as [o w']. simpl in Hu. by subst.
  - intros e Ht. destruct Hs as [Hs|Hs]; [|rewrite Ho in Ht by done; done].
    destruct (handle ev w) as [o w']. simpl in Ht. subst o. destruct Hs as [Hs _].
    split; [|by right]. split; [by intros ->|done].
Qed.

(** C2: Among the undefined behaviours that the model represents in the
    event loop (a null or dangling session, channel or host is used, the
    null first message is read, the front of an empty queue is taken): in
    every state the server reaches, its constructor's registrations having
    run at once, a turn runs into one exactly when it is that of a
    successful write on the session of a local application which another
    session has replaced and whose queue is empty.  The dangling reference
    of nextIdOnStrand outside the loop and the destroyed buffer of the
    farewell are findings and not counted here.  A turn throws system_error
    exactly when it accepts a connection whose peer is gone; else only the
    error of a message that cannot be written as JSON, or, kept by a
    dispatch, that has no name, or multiple_exceptions when several have
    none; never a std::logic_error, as no method is called on a session that
    is not authenticated when it must be. *)
Theorem undefined_only_when_orphaned now port w0 w ev :
  NetServer_ctor true (server_init now port) = (Ok tt, w0) -> rtc sv_step w0 w -> ready ev w ->
  ((handle ev w).1 = Undefined <-> orphaned ev w) /\
  forall e, (handle ev w).1 = Throw e ->
    (e = system_error <-> ev = EvAccept (Some None)) /\
    (e = system_error \/ e = json_parser_error \/ e = ptree_bad_path "cname" \/
     e = multiple_exceptions).
Proof.
  intros E Hr Hev.
  destruct (handle_outcome ev w (reachable_safe _ _ _ _ E Hr) Hev) as [Hu Ht].
  split; [exact Hu|]. intros e He. destruct (Ht e He) as [Ha [H|H]]; split; auto.
  destruct e; simpl in H; subst; tauto.
Qed.

(** C16: In every state the server reaches, its constructor's registrations
    having run at once, every session has at most one message write in
    flight, and its buffer is that of the message at the front of the
    session's queue, which is therefore still alive: what
    boost::asio::async_write requires.  The exception is the session of a
    local application that another session has replaced, whose queue has
    been taken over. *)
Theorem server_writes_front now port w0 w ss s :
  NetServer_ctor true (server_init now port) = (Ok tt, w0) -> rtc sv_step w0 w ->
  sv_store w !! ss = Some s ->
  writes s = [] \/
  (exists front rest, m_outQueue s = front :: rest /\ writes s = [AWrite (m_rawmsg front)]) \/
  replaced w ss s.
Proof.
  intros E Hr Hs. destruct (sf_front _ (reachable_safe _ _ _ _ E Hr) ss s Hs) as [[H|H]|H]; auto.
Qed.

(** C9: Every completion handler the event loop of the server runs, in every
    state it reaches, its constructor's registrations having run at once,
    ends, unless it reads the first message of a session that is not
    authenticated while the session of some application still has a service
    message to write, its own greeting for instance: then taking over the
    queue may go on for ever. *)
Theorem handlers_end now port w0 w ev :
  NetServer_ctor true (server_init now port) = (Ok tt, w0) -> rtc sv_step w0 w -> ready ev w ->
  ~ hanging ev w -> (handle ev w).1 <> Diverges.
Proof.
  intros E Hr Hev Hh Hd. apply Hh.
  destruct (handle_safe ev w (reachable_safe _ _ _ _ E Hr) Hev) as [H|H]; [by intros ->|..].
  - unfold safe_at in H. destruct (handle ev w) as [o w']. simpl in Hd. by subst.
  - apply orphaned_undefined in H. congruence.
Qed.
End Turns.

(** ** Witnesses *)

Section Safe_witnesses.
#[local] Existing Instance sw_liver.

(** An application connects, says who it is, and sends itself a message. *)
Definition ss_first : sid := fresh (dom (sv_store sw_init)).
Definition ss_write (ss : sid) (w : server tree) : string :=
  match writes (default (session_init incoming EmptyString EmptyString) (sv_store w !! ss)) with
  | [AWrite buf] => buf
  | _ => EmptyString
  end.
Definition ss_greeting : string := ss_write ss_first sw_accepted.
Definition ss_note : tree := pt_put ["cname"] "note" (pt_put ["to"; "a"] "uecho" pt_empty).
Definition ss_run : list event :=
  [EvAccept (Some (Some "10.0.0.2")); EvWritten ss_first ss_greeting false;
   EvRead ss_first (Some (sm_two_lines sm_auth)); EvRead ss_first (Some (sm_two_lines ss_note))].
Definition ss_one : server tree := default sw_init (play ss_run sw_init).

(** It connects again and says who it is. *)
Definition ss_second : sid := fresh (dom (sv_store ss_one)).
Definition ss_again : list event :=
  [EvAccept (Some (Some "10.0.0.2")); EvWritten ss_second ss_greeting false;
   EvRead ss_second (Some (sm_two_lines sm_auth))].
Definition ss_two : server tree := default sw_init (play ss_again ss_one).

(** It does so before its first session has been greeted. *)
Definition ss_early : server tree :=
  default sw_init (play
    [EvAccept (Some (Some "10.0.0.2")); EvRead ss_first (Some (sm_two_lines sm_auth));
     EvAccept (Some (Some "10.0.0.2"))] sw_init).

Lemma ss_one_reachable : rtc sv_step sw_init ss_one.
Proof. apply (play_reaches ss_run). vm_compute. reflexivity. Qed.

Lemma ss_two_reachable : rtc sv_step sw_init ss_two.
Proof. etrans; [exact ss_one_reachable|]. apply (play_reaches ss_again). vm_compute. reflexivity. Qed.

(** The write on the first session completes after the second has taken over. *)
Lemma undefined_only_when_orphaned_witness :
  orphaned (EvWritten ss_first (ss_write ss_first ss_two) false) ss_two.
Proof.
  apply (undefined_only_when_orphaned 0 32300 sw_init ss_two _ sw_ctor_ok ss_two_reachable).
  - apply ready_b_sound. vm_compute. reflexivity.
  - vm_compute. reflexivity.
Defined.

(** The session of the application, when a message to it is being written. *)
Lemma server_writes_front_witness :
  let s := default (session_init incoming EmptyString EmptyString) (sv_store ss_one !! ss_first) in
  exists front rest, m_outQueue s = front :: rest /\ writes s = [AWrite (m_rawmsg front)].
Proof.
  intros s. destruct (server_writes_front 0 32300 sw_init ss_one ss_first s sw_ctor_ok
    ss_one_reachable) as [H|[H|(m & _ & _ & H)]].
  - vm_compute. reflexivity.
  - exfalso. revert H. vm_compute. discriminate.
  - exact H.
  - exfalso. apply (H "uecho"). vm_compute. reflexivity.
Defined.

(** A message on the first session is handled; the one that makes the second
    session take over from an ungreeted one is not. *)
Lemma handlers_end_witness :
  (handle (EvRead ss_first (Some (sm_two_lines ss_note))) ss_one).1 <> Diverges /\
  (handle (EvRead ss_second (Some (sm_two_lines sm_auth))) ss_early).1 = Diverges.
Proof.
  split; [|vm_compute; reflexivity].
  apply (handlers_end 0 32300 sw_init ss_one _ sw_ctor_ok ss_one_reachable).
  - apply ready_b_sound. vm_compute. reflexivity.
  - intros [(s & Hs & Hm) _]. assert (sv_store ss_one !! ss_first ≫= m_msg1 <> None) as H
      by (vm_compute; discriminate).
    rewrite Hs in H. by apply H.
Defined.
End Safe_witnesses.
