(* ===== verification/ServerChannels.v ===== *)
(** * ServerChannels: the channels inside the server

    The server changes its channels only by the operations of [Remote], and
    gives a channel only sessions of its own node: what holds of every step
    of a channel holds of the channels of the whole process.  The messages
    kept for a node that decides on the roles are an instance. *)
From S2P Require Import Prelude Effects BetterEnum Priority AccuLine PTree UConfig.
From S2P Require Import Addr Demo Msg InputProcessor Dispatcher Session Remote.
From S2P Require Import Outgoing NetServer ServerWf ServerProps ServerFrame ServerMain.

(** An operation of a channel, whatever the sessions are. *)
Inductive chan_move {T} {PL : Platform T} : relation remote_t :=
  | cm_add now ss r (st : store T) :
      peer_of st ss = Some (m_node r) -> chan_move r (addSession now ss (r, st)).2.1
  | cm_priority msg r (st : store T) :
      chan_move r (remote_handlePriorityMsg ((r, st), msg)).2.1.1
  | cm_send now msg r (st : store T) : chan_move r (remote_send now msg (r, st)).2.1
  | cm_closed id r : chan_move r (remote_onSessionClosed id r).

Section Channels.
Context {T : Type} {PL : Platform T}.
Implicit Types (w : server T) (r : remote_t).

Lemma handlePriority_keeps (P : remote_t -> Prop) msg r (st : store T) :
  P r -> (forall ss, P (unwait ss r)) -> (forall p ss, P (relabel p ss (unwait ss r))) ->
  P (remote_handlePriorityMsg ((r, st), msg)).2.1.1.
Proof.
  intros Hr Hu Hl. destruct (m_origin msg ≫= (st !!.)) as [s|] eqn:Hs;
    [|by rewrite handlePriority_gone].
  apply bind_Some in Hs as (ss & Ho & Hs). erewrite handlePriority_live by done.
  destruct (_ || _); [done|]. by destruct (pbody msg).1.
Qed.

Lemma chan_move_rstep r r' : chan_move (T := T) r r' ->
  exists st st' : store T, rstep (r, st) (r', st').
Proof.
  intros [now ss x st Hp|msg x st|now msg x st|id x]; [exists st; eexists..|exists ∅, ∅].
  - rewrite <-surjective_pairing. apply r_add.
  - rewrite <-surjective_pairing. apply r_priority.
  - rewrite <-surjective_pairing. apply r_send.
  - apply (r_closed id (x, ∅)).
Qed.

Lemma chan_move_node r r' : chan_move (T := T) r r' -> m_node r' = m_node r.
Proof.
  intros [now ss x st _|msg x st|now msg x st|id x]; [|..|done].
  - rewrite addSession_eq. destruct (st !! ss); [|done]. destruct (peer_of st ss); [|done].
    destruct (str_lt _ _); [done|]. by apply (assign_role_inv (fun y => m_node y = m_node x)).
  - apply (handlePriority_keeps (fun y => m_node y = m_node x)); [done..|by intros []].
  - by apply (preserves_remote_send (fun y => m_node y = m_node x) now msg).
Qed.

(** The node named in a channel decides: what is kept for it stays. *)
Lemma chan_move_queue r r' :
  chan_move (T := T) r r' -> str_lt nodeName (m_node r) = true ->
  m_outHighQueue r `prefix_of` m_outHighQueue r'.
Proof.
  intros [now ss x st Hp|msg x st|now msg x st|id x] Hlt; [|..|done].
  - by rewrite (waits_addSession now ss x st _ Hp Hlt).
  - apply (handlePriority_keeps (fun y => m_outHighQueue x `prefix_of` m_outHighQueue y));
      [done..|by intros []].
  - apply (preserves_remote_send (fun y => m_outHighQueue x `prefix_of` m_outHighQueue y)); [|done].
    intros y qm Hy. by apply prefix_app_r.
Qed.

Lemma chan_moves_queue r r' :
  rtc (chan_move (T := T)) r r' -> str_lt nodeName (m_node r) = true ->
  m_outHighQueue r `prefix_of` m_outHighQueue r'.
Proof.
  induction 1 as [r|r1 r2 r3 Hm _ IH]; [done|]. intros Hlt.
  etrans; [by apply chan_move_queue|]. apply IH. by rewrite (chan_move_node _ _ Hm).
Qed.

(** ** The server moves its channels *)

(** Every channel has come from what it was in [w0], or from a new one. *)
Definition moved w0 w : Prop :=
  (forall node, is_Some (m_nodeToSession w0 !! node) -> is_Some (m_nodeToSession w !! node)) /\
  forall node r, m_nodeToSession w !! node = Some r ->
    m_node r = node /\
    rtc (chan_move (T := T)) (default (remote_init node) (m_nodeToSession w0 !! node)) r.

Lemma moved_same w0 w w' :
  m_nodeToSession w' = m_nodeToSession w -> moved w0 w -> moved w0 w'.
Proof. unfold moved. by intros ->. Qed.

Lemma moved_update w0 w w' node r r' :
  moved w0 w -> m_nodeToSession w !! node = Some r -> chan_move (T := T) r r' ->
  m_nodeToSession w' = <[node := r']> (m_nodeToSession w) -> moved w0 w'.
Proof.
  intros [Hk Hm] Hr Hc Hw. split; intros n; rewrite Hw.
  - intros H%Hk. apply lookup_insert_is_Some'. by right.
  - intros x. destruct (decide (n = node)) as [->|Hn].
    + rewrite lookup_insert_eq. intros [= <-]. destruct (Hm _ _ Hr) as [Hnode Hrtc].
      split; [by rewrite (chan_move_node _ _ Hc)|]. by eapply rtc_r.
    + rewrite lookup_insert_ne by done. apply Hm.
Qed.

Lemma moved_find w0 node w : moved w0 w -> moved w0 (findAddRemote (T := T) node w).2.
Proof.
  intros [Hk Hm]. unfold findAddRemote, modify. simpl.
  destruct (m_nodeToSession w !! node) as [r|] eqn:Hr; [done|]. split; intros n; simpl.
  - intros H%Hk. apply lookup_insert_is_Some'. by right.
  - intros x. destruct (decide (n = node)) as [->|Hn].
    + rewrite lookup_insert_eq. intros [= <-]. split; [done|].
      destruct (m_nodeToSession w0 !! node) as [r0|] eqn:H0; [|done].
      destruct (Hk node) as [y Hy]; [by eexists|congruence].
    + rewrite lookup_insert_ne by done. apply Hm.
Qed.

#[export] Instance moved_frame w0 : ServerFrame (moved w0).
Proof.
  split.
  - intros v w. by apply moved_same.
  - intros v w. by apply moved_same.
  - intros v w. by apply moved_same.
  - intros v w. by apply moved_same.
  - intros v w. by apply moved_same.
  - intros node w. apply moved_find.
  - intros node msg w Hw. unfold send_to, bind, gets, on_node. simpl.
    destruct (m_nodeToSession w !! node) as [r|] eqn:Hr; [|done].
    pose proof (cm_send (sv_now w) msg r (sv_store w)) as Hc.
    destruct (remote_send _ _ _) as [o [r' st']]. by eapply moved_update.
  - intros [w msg] Hw. unfold handlePriorityMsg.
    destruct (m_nodeToSession w !! _) as [r|] eqn:Hr; [|done].
    pose proof (cm_priority msg r (sv_store w)) as Hc.
    destruct (remote_handlePriorityMsg _) as [o [[r' st'] msg']]. by eapply moved_update.
  - intros ss rnode w Hw Hp. unfold addAuthSessionToRemote.
    pose proof (moved_find w0 rnode w Hw) as Hw1.
    assert (sv_store (findAddRemote (T := T) rnode w).2 = sv_store w /\
      is_Some (m_nodeToSession (findAddRemote (T := T) rnode w).2 !! rnode)) as [Hst [r Hr]].
    { unfold findAddRemote, modify. simpl.
      destruct (m_nodeToSession w !! rnode) as [r|] eqn:Hr; [by rewrite Hr|].
      split; [done|]. simpl. by rewrite lookup_insert_eq. }
    assert (findAddRemote (T := T) rnode w = (Ok tt, (findAddRemote (T := T) rnode w).2)) as E by done.
    revert Hw1 Hst Hr E. generalize (findAddRemote (T := T) rnode w).2 as w1. intros w1 Hw1 Hst Hr E.
    rewrite (bind_ok _ _ _ _ _ E). unfold bind, gets, on_node.
    rewrite Hr. assert (peer_of (sv_store w1) ss = Some (m_node r)) as Hpr.
    { rewrite Hst, Hp. f_equal. symmetry. by apply Hw1. }
    pose proof (cm_add (sv_now w1) ss r (sv_store w1) Hpr) as Hc.
    destruct (addSession _ _ _) as [o [r' st']]. by eapply moved_update.
  - intros node ss w Hw. unfold on_node.
    destruct (m_nodeToSession w !! node) as [r|] eqn:Hr; [|done].
    eapply moved_update; [exact Hw|exact Hr|apply (cm_closed ss)|done].
Qed.

Lemma moved_turn w0 w o w' : moved w0 w -> sv_turn w (o, w') -> moved w0 w'.
Proof.
  intros Hw Hstep. remember (o, w') as res eqn:E. change w' with (o, w').2. rewrite <-E.
  destruct Hstep as [now w Hn|socket w _|ss s ec w Hs _|ss s data w Hs _|ss s buf ec w Hs _
    |ss s buf w Hs _|rezit hname l1 l2 w Hr|w om _].
  - by apply moved_same with w.
  - apply frame_run_one; [|done]. unfold accept_handler. apply preserves_bind.
    + apply preserves_modify. intros x. by apply moved_same.
    + intros _. apply preserves_bind; [|intros _; apply preserves_modify; intros x; by apply moved_same].
      destruct socket as [peer|]; [|apply preserves_ret].
      apply preserves_bind; [apply preserves_lift|intros raddr].
      apply preserves_bind; [intros x Hx; by apply moved_same with x|intros id].
      apply preserves_bind; [apply frame_onSessionCreated|intros _].
      apply preserves_bind; [apply preserves_gets|intros n].
      apply preserves_if; [apply frame_sess|].
      apply preserves_bind; [apply preserves_gets|intros t; apply frame_sess].
  - by apply frame_run_one; [apply frame_emit|].
  - by apply frame_run_one; [apply frame_read_handler|].
  - by apply frame_run_one; [apply frame_emit|].
  - by apply frame_run_one; [apply frame_emit|].
  - apply frame_run_one; [apply frame_connectResolved|]. by apply moved_same with w.
  - by apply moved_same with w.
Qed.
End Channels.

(** ** Properties *)

Section Channels_props.
Context {T : Type} {PL : Platform T}.
Implicit Types (w : server T) (r : remote_t).

(** C21: In the running server, its constructor's registrations having run
    at once, every channel stays and changes only by the operations of a
    channel, and a session is added to it only when it has authenticated as
    its node; so what is kept for a node with a greater name than this one,
    which is the side that decides, stays in the channel for ever: whatever
    connections are made later, these messages are never sent, dropped or
    reordered. *)
Theorem kept_messages_never_leave now w0 w w' node r :
  NetServer_ctor true (server_init now server_port) = (Ok tt, w0) ->
  rtc sv_step w0 w -> rtc sv_step w w' -> m_nodeToSession w !! node = Some r ->
  exists r', m_nodeToSession w' !! node = Some r' /\ rtc (chan_move (T := T)) r r' /\
    (str_lt nodeName node = true -> m_outHighQueue r `prefix_of` m_outHighQueue r').
Proof.
  intros E Hr Hr' Hn. pose proof (reachable_wf _ _ _ _ E Hr) as Hwf.
  assert (moved w w') as [Hk Hm].
  { revert w' Hr'. apply (rtc_ind_r (moved w)).
    - split; [done|]. intros n x Hx. rewrite Hx. split; [|done]. by apply (wf_nodes _ _ Hwf).
    - intros w1 w2 _ Hs Hw1. by eapply moved_turn. }
  destruct (Hk node) as [r' Hr2]; [by eexists|].
  destruct (Hm _ _ Hr2) as [_ Hrtc]. rewrite Hn in Hrtc. simpl in Hrtc.
  exists r'. split_and!; [done|done|]. intros Hlt. apply chan_moves_queue; [done|].
  by rewrite (proj1 (wf_nodes _ _ Hwf _ _ Hn)).
Qed.
End Channels_props.

(** ** Witness: a message for pingutv waits in the server of liver *)

Section Channels_witness.
#[local] Instance sc_liver : Platform tree := demo "liver" "userver".

Definition sc_header : tree :=
  pt_put ["cname"] "ping" (pt_put ["to"; "n"] "pingutv" (pt_put ["to"; "a"] "uecho" pt_empty)).
Definition sc_kept : server tree := (read_handler sm_id (Some (sm_two_lines sc_header)) sm_authed).2.
Definition sc_channel : remote_t :=
  default (remote_init EmptyString) (m_nodeToSession sc_kept !! "pingutv").
Definition sc_later : server tree := set_now 1000 sc_kept.

Lemma sc_kept_reachable : rtc sv_step sw_init sc_kept.
Proof.
  eapply rtc_r; [exact sm_authed_reachable|]. unfold sv_step.
  assert (run_one (read_handler sm_id (Some (sm_two_lines sc_header))) sm_authed = (Ok tt, sc_kept)) as <-
    by (vm_compute; reflexivity).
  eapply sv_read; [vm_compute; reflexivity|]. vm_compute. right. left.
Qed.

Lemma kept_messages_never_leave_witness :
  exists r', m_nodeToSession sc_later !! "pingutv" = Some r' /\
    m_outHighQueue sc_channel <> [] /\ m_outHighQueue sc_channel `prefix_of` m_outHighQueue r'.
Proof.
  destruct (kept_messages_never_leave 0 sw_init sc_kept sc_later "pingutv" sc_channel)
    as (r' & Hr & _ & Hq).
  - exact sw_ctor_ok.
  - exact sc_kept_reachable.
  - apply rtc_once. apply sv_clock. vm_compute. discriminate.
  - vm_compute. reflexivity.
  - exists r'. split; [exact Hr|]. split; [vm_compute; discriminate|apply Hq; reflexivity].
Defined.
End Channels_witness.
