(* ===== verification/ConfigFile.v ===== *)
(** * ConfigFile: the configuration object and its file
    (src/uzel/uconfig.h, src/uzel/uconfig.cpp; its first use in the
    constructor of NetServer, app/userver/netserver.cpp)

    [UConfigS::getUConfig] keeps a function-local static that is constructed
    at the first call; its constructor reads uzel.ini and may throw, in which
    case the next call constructs it again.  A [Platform] gives the tree of
    the constructed object; this file shows that this is what the process
    sees, and how it ends when the file cannot be read. *)
From S2P Require Import Prelude Effects BetterEnum Priority AccuLine PTree UConfig.
From S2P Require Import Addr Demo Msg InputProcessor Dispatcher Session Remote.
From S2P Require Import Outgoing NetServer ServerWf ServerProps ServerMain.

(** [ini_parser_error], a [std::runtime_error]. *)
Definition ini_parser_error : exn := runtime_error "uzel.ini: cannot open file".

Section Config.
Context {T : Type}.

(** The constructor; [file] is what [read_ini] makes of the file at that
    time, [None] when it throws. *)
Definition UConfig_ctor (file : option T) : outcome T := of_option ini_parser_error file.

(** [getUConfig]; the state is the static, [None] before it is constructed. *)
Definition getUConfig (file : option T) : M (option T) T :=
  uconfig <- gets id ;;
  match uconfig with
  | Some m_pt => ret m_pt
  | None =>
      m_pt <- lift (UConfig_ctor file) ;;
      modify (fun _ => Some m_pt) ;;
      ret m_pt
  end.

(** Successive calls, with the file as it is at each of them. *)
Fixpoint calls (files : list (option T)) (uconfig : option T) : list (outcome T) :=
  match files with
  | [] => []
  | file :: files' =>
      let '(o, uconfig') := getUConfig file uconfig in o :: calls files' uconfig'
  end.

(** A process whose configuration object holds the tree [m_pt]. *)
Definition with_ini (PL : Platform T) (m_pt : T) : Platform T := {|
  plat_PTree := plat_PTree;
  plat_Json := plat_Json;
  host_name := host_name;
  proc_self_comm := proc_self_comm;
  uzel_ini := m_pt;
  getpid := getpid;
|}.

Section Process.
Variable PL : Platform T.
Abbreviation P := (option T * server T)%type.

Definition on_server {A} (m : M (server T) A) : M P A := zoom snd (fun w s => (s.1, w)) m.
Definition on_config {A} (m : M (option T) A) : M P A := zoom fst (fun c s => (c, s.2)) m.

(** The constructor of NetServer in a process that has not read its
    configuration yet; the uses of the configuration after the first one see
    the object as it is. *)
Definition server_ctor (inline : bool) (file : option T) : M P unit :=
  on_server (zoom sv_dispatcher set_dispatcher (registerHandler inline "priority" HPriority)) ;;
  on_server (zoom sv_dispatcher set_dispatcher (registerAnyPost inline HAny)) ;;
  on_server do_accept ;;
  uconfig <- on_config (getUConfig file) ;;
  to_connect_to <- lift (remotes (PL := with_ini PL uconfig)) ;;
  for_each to_connect_to (fun rhost =>
    on_server (on_outman (fun now => add_host (PL := with_ini PL uconfig) now rhost))) ;;
  on_server (on_outman start_manager).

(** [main] of userver, from the start of the process. *)
Inductive process_returns (inline : bool) (file : option T) (now : Z) : Z -> Prop :=
  | process_ctor_throws e s :
      server_ctor inline file (None, server_init now server_port) = (Throw e, s) ->
      process_returns inline file now generic_errorcode
  | process_handler_throws m_pt e w0 w w' :
      server_ctor inline file (None, server_init now server_port) = (Ok tt, (Some m_pt, w0)) ->
      rtc (sv_step (PL := with_ini PL m_pt)) w0 w ->
      sv_turn (PL := with_ini PL m_pt) w (Throw e, w') ->
      process_returns inline file now generic_errorcode
  | process_done m_pt w0 w :
      server_ctor inline file (None, server_init now server_port) = (Ok tt, (Some m_pt, w0)) ->
      rtc (sv_step (PL := with_ini PL m_pt)) w0 w -> has_work w = false ->
      process_returns inline file now 0.
End Process.
End Config.

(** ** Lemmas *)

Section Config_lemmas.
Context {T : Type}.

(** The first file that could be read. *)
Definition first_read (files : list (option T)) : option T := head (omap id files).

Lemma calls_constructed files (m_pt : T) : calls files (Some m_pt) = replicate (length files) (Ok m_pt).
Proof. induction files as [|f files IH]; [done|]. simpl. by rewrite IH. Qed.

Lemma calls_lookup (files : list (option T)) i :
  i < length files ->
  calls files None !! i = Some (of_option ini_parser_error (first_read (take (S i) files))).
Proof.
  revert i; induction files as [|[m_pt|] files IH]; intros i Hi; simpl in Hi; [lia|..].
  - cbn [calls]. change (getUConfig (Some m_pt) None) with (Ok m_pt, Some m_pt).
    cbn beta iota. rewrite calls_constructed. destruct i as [|i]; [done|].
    change (replicate (length files) (Ok m_pt) !! i = Some (Ok m_pt)).
    by rewrite lookup_replicate_2 by lia.
  - cbn [calls]. change (getUConfig (T := T) None None) with (Throw (A := T) ini_parser_error, @None T).
    cbn beta iota. destruct i as [|i]; [done|]. apply (IH i). lia.
Qed.

Variable PL : Platform T.

Lemma on_server_for_each {A} (l : list A) (f : A -> M (server T) unit) c w :
  for_each l (fun x => on_server (f x)) (c, w) =
  ((for_each l f w).1, (c, (for_each l f w).2)).
Proof.
  revert w; induction l as [|x l IH]; intros w; [done|]. cbn [for_each].
  unfold bind, on_server at 1, zoom. simpl. destruct (f x w) as [[[]|e| |] w']; [|done..]. apply IH.
Qed.

(** With the file read, the constructor is that of [NetServer]. *)
Lemma server_ctor_read (m_pt : T) (now port : Z) :
  server_ctor PL true (Some m_pt) (None, server_init now port) =
  let r := NetServer_ctor (PL := with_ini PL m_pt) true (server_init now port) in
  (r.1, (Some m_pt, r.2)).
Proof.
  set (w := set_acceptor 1 (set_dispatcher server_dispatcher (server_init (T := T) now port))).
  set (hosts := remotes (PL := with_ini PL m_pt)).
  trans (bind (lift hosts) (fun l =>
    for_each l (fun rhost => on_server (on_outman (fun now =>
      add_host (PL := with_ini PL m_pt) now rhost))) ;;
    on_server (on_outman start_manager)) (Some m_pt, w)); [reflexivity|].
  trans (let r := bind (lift hosts) (fun l =>
      for_each l (fun rhost => on_outman (fun now => add_host (PL := with_ini PL m_pt) now rhost)) ;;
      on_outman start_manager) w in (r.1, (Some m_pt, r.2))); [|reflexivity].
  unfold bind at 1 3, lift. destruct hosts as [l|e| |]; [|done..]. cbn zeta.
  unfold bind. rewrite on_server_for_each.
  destruct (for_each l _ w) as [[[]|e| |] w']; done.
Qed.

Lemma server_ctor_unread (now port : Z) :
  server_ctor PL true None (None, server_init now port) =
  (Throw ini_parser_error,
   (None, set_acceptor 1 (set_dispatcher server_dispatcher (server_init (T := T) now port)))).
Proof. reflexivity. Qed.

Lemma server_ctor_no_remotes (m_pt : T) (now port : Z) :
  pt_get ["remotes"; "name"] m_pt = None ->
  (NetServer_ctor (PL := with_ini PL m_pt) true (server_init now port)).1 =
    Throw (ptree_bad_path "remotes.name").
Proof.
  intros Hn. set (w := set_acceptor 1 (set_dispatcher server_dispatcher (server_init (T := T) now port))).
  trans (bind (lift (remotes (PL := with_ini PL m_pt))) (fun l =>
      for_each l (fun rhost => on_outman (fun now => add_host (PL := with_ini PL m_pt) now rhost)) ;;
      on_outman start_manager) w).1; [reflexivity|].
  unfold bind at 1, lift, remotes. simpl. by rewrite Hn.
Qed.
End Config_lemmas.

(** ** Properties *)

Section Config_props.
Context {T : Type} (PL : Platform T).

(** C40: The configuration is read once: every call of getUConfig up to the
    first that can read the file throws, and from then on every call answers
    what was read then, whatever the file becomes.  When the constructor of
    the server cannot read it, or it has no remotes, main returns 200 and
    the event loop is not entered; otherwise main does what it does on a
    platform with that configuration. *)
Theorem configuration_read_once (files : list (option T)) now code :
  (forall i, i < length files ->
     calls files None !! i = Some (of_option ini_parser_error (first_read (take (S i) files)))) /\
  (process_returns PL true None now code <-> code = generic_errorcode) /\
  (forall m_pt, process_returns PL true (Some m_pt) now code <->
     main_returns (PL := with_ini PL m_pt) true now code) /\
  (forall m_pt, pt_get ["remotes"; "name"] m_pt = None ->
     (process_returns PL true (Some m_pt) now code <-> code = generic_errorcode)).
Proof.
  assert (forall m_pt, process_returns PL true (Some m_pt) now code <->
     main_returns (PL := with_ini PL m_pt) true now code) as Hmain.
  { intros m_pt. pose proof (server_ctor_read PL m_pt now server_port) as Hc. cbn zeta in Hc.
    destruct (NetServer_ctor (PL := with_ini PL m_pt) true _) as [o w0] eqn:E. simpl in Hc.
    split.
    - intros [e s Hs|m e w1 w w' Hs Hr Ht|m w1 w Hs Hr Hw]; rewrite Hc in Hs.
      + injection Hs as -> <-. exact (main_ctor_throws _ _ e _ E).
      + injection Hs as -> <- <-. exact (main_handler_throws _ _ e _ _ _ E Hr Ht).
      + injection Hs as -> <- <-. exact (main_done _ _ _ _ E Hr Hw).
    - intros [e w1 Hs|e w1 w w' Hs Hr Ht|w1 w Hs Hr Hw]; rewrite E in Hs; injection Hs as -> ->.
      + exact (process_ctor_throws PL _ _ _ e _ Hc).
      + exact (process_handler_throws PL _ _ _ m_pt e _ _ _ Hc Hr Ht).
      + exact (process_done PL _ _ _ m_pt _ _ Hc Hr Hw). }
  split; [apply calls_lookup|]. split; [|split; [exact Hmain|]].
  - split.
    + intros [e s Hs|m e w1 w w' Hs _ _|m w1 w Hs _ _]; [done|done|].
      by rewrite server_ctor_unread in Hs.
    + intros ->. eapply process_ctor_throws, server_ctor_unread.
  - intros m_pt Hn. rewrite Hmain.
    pose proof (server_ctor_no_remotes PL m_pt now server_port Hn) as Hc. split.
    + intros [e w1 Hs|e w1 w w' Hs _ _|w1 w Hs _ _]; [done|done|]. by rewrite Hs in Hc.
    + intros ->. eapply main_ctor_throws. rewrite <-Hc. apply surjective_pairing.
Qed.
End Config_props.

(** ** Witness: the file appears after the first call *)

Section Config_witness.
#[local] Instance cw_liver : Platform tree := demo "liver" "userver".

Lemma configuration_read_once_witness :
  calls [None; Some (Node "a" []); Some (Node "b" [])] None !! 2 = Some (Ok (Node "a" [])) /\
  process_returns cw_liver true (Some (Node "a" [])) 0 200.
Proof.
  destruct (configuration_read_once cw_liver [None; Some (Node "a" []); Some (Node "b" [])] 0 200)
    as (Hcalls & _ & _ & Hnone).
  split.
  - exact (Hcalls 2 ltac:(simpl; lia)).
  - apply (Hnone (Node "a" [])); reflexivity.
Defined.
End Config_witness.
