(* ===== verification/Network.v ===== *)
(** * Network: messages across two servers

    The composition of the message servers of two nodes: what a local
    application of one node writes to its server, in whatever blocks the
    network delivers it, is queued by the server on the channel of the other
    node, written there, read by the other server in whatever blocks, and
    queued for the application it names.  Both servers run the same code, on
    platforms that share the property trees and differ in the host. *)
From S2P Require Import Prelude Effects BetterEnum Priority AccuLine PTree UConfig.
From S2P Require Import Addr Demo Msg InputProcessor Stream Dispatcher Session Remote.
From S2P Require Import Outgoing NetServer ServerWf ServerProps.

(** The turns in which one session reads, one block each. *)
Definition reads {T} {PL : Platform T} (ss : sid) (blocks : list string) : M (server T) unit :=
  for_each blocks (fun b => run_one (read_handler ss (Some b))).

Section Reads.
Context {T : Type} {PL : Platform T}.
Implicit Types (w : server T) (s : session T) (r : Msg T).
Variable ss : sid.
Abbreviation run_lines := (InputProcessor.run_lines (dispatchMsg ss) ss).

(** A session that has read a part of a text, no message of which was whole. *)
Definition midway (s s1 : session T) (cmd : string) (h : option T) : Prop :=
  exists p, s1 = set_pending p (set_processor (mkIP (mkAccuLine cmd EmptyString) h) s).

Lemma process_midway s w cmd h input :
  sv_store w !! ss = Some s -> m_processor s = mkIP (mkAccuLine cmd EmptyString) h ->
  let ref := run_lines (split_lines cmd input).1 (h, w) in
  exists ip, process_input ss input w =
    (ref.1, set_store (alter (set_processor ip) ss (sv_store ref.2.2)) ref.2.2) /\
    (ref.1 = Ok true -> ip = mkIP (mkAccuLine (split_lines cmd input).2 EmptyString) ref.2.1).
Proof.
  intros Hs Hp ref. unfold process_input, zoom, get_processor. rewrite Hs. simpl. rewrite Hp.
  pose proof (processNewInput_lines (dispatchMsg ss) ss input
    (mkIP (mkAccuLine cmd EmptyString) h) w) as (Ho & Hg & Ha).
  simpl in Ho, Hg, Ha. fold ref in Ho, Hg. unfold get_line_state in Hg.
  destruct (processNewInput _ _ _ _) as [o [ip w']]. simpl in *. exists ip.
  rewrite Ho, <-Hg. split; [done|]. intros Hok.
  destruct ip as [acc hd]. simpl in *. rewrite Ho in Ha. by rewrite (Ha Hok).
Qed.

Lemma read_quiet s w cmd h input h' :
  sv_store w !! ss = Some s -> m_processor s = mkIP (mkAccuLine cmd EmptyString) h ->
  (forall w, run_lines (split_lines cmd input).1 (h, w) = (Ok true, (h', w))) ->
  exists s1, read_handler ss (Some input) w = (Ok tt, set_store (<[ss := s1]> (sv_store w)) w) /\
    midway s s1 (split_lines cmd input).2 h'.
Proof.
  intros Hs Hp Hrun. unfold read_handler. set (w1 := set_store (<[ss := (complete ARead s).2]> (sv_store w)) w).
  assert (sess ss (complete ARead) w = (Ok tt, w1)) as E1 by (by rewrite (sess_ok _ _ _ _ Hs)).
  rewrite (bind_ok _ _ _ _ _ E1).
  destruct (process_midway (complete ARead s).2 w1 cmd h input) as (ip & E & Hip);
    [apply lookup_insert_eq|exact Hp|].
  rewrite Hrun in E, Hip. rewrite (Hip eq_refl) in E. simpl in E.
  rewrite (bind_ok _ _ _ _ _ E). cbn [negb]. eexists.
  erewrite sess_ok by (simpl; rewrite lookup_alter_eq, lookup_insert_eq; done).
  simpl. rewrite alter_insert_eq, !insert_insert_eq. split; [done|]. by eexists.
Qed.

Lemma reads_quiet bs w s :
  sv_raised w = None -> sv_store w !! ss = Some s -> m_processor s = IP_init ->
  (forall bs1 bs2, bs = bs1 ++ bs2 -> exists h, forall w,
     run_lines (split_lines EmptyString (wire bs1)).1 (None, w) = (Ok true, (h, w))) ->
  exists s1 h, reads ss bs w = (Ok tt, set_store (<[ss := s1]> (sv_store w)) w) /\
    midway s s1 (split_lines EmptyString (wire bs)).2 h /\
    forall w, run_lines (split_lines EmptyString (wire bs)).1 (None, w) = (Ok true, (h, w)).
Proof.
  intros Hra Hs Hp. induction bs as [|b bs IH] using rev_ind; intros Hall.
  - exists s, None. split_and!; [|exists (m_pending s); destruct s; simpl in *; by subst|done].
    unfold reads. simpl. rewrite insert_id by done. by destruct w.
  - destruct IH as (s1 & h1 & E1 & Hmid & H1).
    { intros bs1 bs2 ->. apply (Hall bs1 (bs2 ++ [b])). by rewrite app_assoc. }
    destruct (Hall (bs ++ [b]) [] ltac:(by rewrite app_nil_r)) as [h Hh].
    assert (wire (bs ++ [b]) = wire bs +:+ b) as Hw
      by (rewrite wire_app; simpl; by rewrite str_app_nil_r).
    rewrite Hw, split_lines_app in *. cbn [fst snd] in *.
    assert (forall w, run_lines (split_lines (split_lines EmptyString (wire bs)).2 b).1 (h1, w)
      = (Ok true, (h, w))) as H2.
    { intros w'. rewrite <-(Hh w'), run_lines_app. unfold bind. by rewrite H1. }
    destruct Hmid as [p ->].
    set (s1 := set_pending p _) in E1.
    destruct (read_quiet s1 (set_store (<[ss := s1]> (sv_store w)) w)
      (split_lines EmptyString (wire bs)).2 h1 b h) as (s2 & E2 & [p2 ->]);
      [apply lookup_insert_eq|reflexivity|exact H2|].
    eexists _, h. split_and!; [| |exact Hh].
    + unfold reads. rewrite for_each_app. unfold reads in E1. rewrite (bind_ok _ _ _ _ _ E1).
      simpl. rewrite (bind_ok _ _ _ _ _ (run_one_ok (TH := server_thread) _ _ _ E2 Hra)). simpl.
      by rewrite insert_insert_eq.
    + by exists p2.
Qed.

(** The session between two reads of whole texts. *)
Definition reading_again (s : session T) : session T :=
  set_pending (m_pending s ++ [ARead]) (set_processor IP_init s).

(** The read that completes a message, and nothing else. *)
Lemma read_last s w w2 cmd h input :
  sv_store w !! ss = Some s -> m_processor s = mkIP (mkAccuLine cmd EmptyString) h ->
  run_lines (split_lines cmd input).1
    (h, set_store (<[ss := (complete ARead s).2]> (sv_store w)) w) = (Ok true, (None, w2)) ->
  (split_lines cmd input).2 = EmptyString -> is_Some (sv_store w2 !! ss) ->
  read_handler ss (Some input) w = (Ok tt, set_store (alter reading_again ss (sv_store w2)) w2).
Proof.
  intros Hs Hp Hrun Hrest [s2 Hs2]. unfold read_handler.
  set (wc := set_store (<[ss := (complete ARead s).2]> (sv_store w)) w) in *.
  assert (sess ss (complete ARead) w = (Ok tt, wc)) as E1 by (by rewrite (sess_ok _ _ _ _ Hs)).
  rewrite (bind_ok _ _ _ _ _ E1).
  destruct (process_midway (complete ARead s).2 wc cmd h input) as (ip & E & Hip);
    [apply lookup_insert_eq|exact Hp|].
  rewrite Hrun in E, Hip. specialize (Hip eq_refl). simpl in Hip. rewrite Hrest in Hip. subst ip.
  simpl in E. rewrite (bind_ok _ _ _ _ _ E). cbn [negb].
  unfold bind. rewrite (sess_ok ss do_read _ (set_processor IP_init s2))
    by (simpl; by rewrite lookup_alter_eq, Hs2).
  unfold set_store. simpl. unfold ret. do 2 f_equal. apply map_eq. intros i.
  destruct (decide (i = ss)) as [->|Hi].
  - by rewrite lookup_insert_eq, lookup_alter_eq, Hs2.
  - by rewrite lookup_insert_ne, !lookup_alter_ne by done.
Qed.

(** The text of one message read in one block. *)
Lemma read_whole text r ls w w2 s :
  frame (dispatchMsg ss) ss text r ls -> sv_store w !! ss = Some s -> m_processor s = IP_init ->
  dispatchMsg ss r (set_store (<[ss := (complete ARead s).2]> (sv_store w)) w) = (Ok tt, w2) ->
  is_Some (sv_store w2 !! ss) ->
  read_handler ss (Some text) w = (Ok tt, set_store (alter reading_again ss (sv_store w2)) w2).
Proof.
  intros [Htext Hrun _] Hs Hp Hd Hs2.
  pose proof (Htext EmptyString) as Ht. rewrite str_app_nil_r in Ht. simpl in Ht.
  rewrite app_nil_r in Ht. apply (read_last s w w2 EmptyString None text); try done.
  - rewrite Ht. by apply Hrun.
  - by rewrite Ht.
Qed.

(** The text of one message read in blocks: the message is dispatched once,
    in a state that differs by the reading session only. *)
Lemma reads_frame text r ls blocks w s :
  frame (dispatchMsg ss) ss text r ls -> wire blocks = text ->
  blocks <> [] -> Forall (fun b => b <> EmptyString) blocks ->
  sv_raised w = None -> sv_store w !! ss = Some s -> m_processor s = IP_init ->
  exists s1, (exists p ip, s1 = set_pending p (set_processor ip s)) /\
    forall w2, dispatchMsg ss r (set_store (<[ss := s1]> (sv_store w)) w) = (Ok tt, w2) ->
      is_Some (sv_store w2 !! ss) -> sv_raised w2 = None ->
      reads ss blocks w = (Ok tt, set_store (alter reading_again ss (sv_store w2)) w2).
Proof.
  intros [Htext Hrun Hpart] Hw Hne Hbl Hra Hs Hp.
  destruct (exists_last Hne) as (bs & b & ->).
  apply Forall_app in Hbl as [_ Hb%Forall_inv].
  destruct b as [|c q]; [done|]. clear Hne Hb.
  assert (wire (bs ++ [String c q]) = wire bs +:+ String c q) as Hwl
    by (rewrite wire_app; simpl; by rewrite str_app_nil_r).
  destruct (reads_quiet bs w s Hra Hs Hp) as (s1 & h & E1 & [p ->] & H1).
  { intros bs1 bs2 ->. apply (Hpart _ (match wire bs2 with EmptyString => c | String d _ => d end)
      (match wire bs2 with EmptyString => q | String _ x => x +:+ String c q end)).
    rewrite <-Hw, Hwl, wire_app, str_app_assoc. by destruct (wire bs2). }
  set (sb := set_pending p _) in E1.
  exists (complete ARead sb).2. split; [by eexists _, _|]. intros w2 Hd Hs2 Hr2.
  unfold reads in *. rewrite for_each_app, (bind_ok _ _ _ _ _ E1). simpl.
  set (wb := set_store (<[ss := sb]> (sv_store w)) w) in *.
  pose proof (Htext EmptyString) as Ht. rewrite str_app_nil_r, <-Hw, Hwl, split_lines_app in Ht.
  simpl in Ht. rewrite app_nil_r in Ht. injection Ht as Hls Hrest. unfold bind.
  erewrite (run_one_ok (TH := server_thread) _ wb);
    [done|apply (read_last sb wb w2 (split_lines EmptyString (wire bs)).2 h)|done];
    [apply lookup_insert_eq|done| |done|done].
  assert (dispatchMsg ss r (set_store (<[ss := (complete ARead sb).2]> (sv_store wb)) wb)
    = (Ok tt, w2)) as Hd'.
  { rewrite <-Hd. f_equal. unfold wb. simpl. by rewrite insert_insert_eq. }
  apply Hrun in Hd'. rewrite <-Hd', <-Hls, run_lines_app. unfold bind. by rewrite H1.
Qed.

(** The session is authenticated: the message goes to [handleAny]. *)
Lemma reads_routed text r ls blocks w s m cn :
  frame (dispatchMsg ss) ss text r ls -> wire blocks = text ->
  blocks <> [] -> Forall (fun b => b <> EmptyString) blocks ->
  sv_dispatcher w = server_dispatcher -> sv_raised w = None ->
  sv_store w !! ss = Some s -> m_processor s = IP_init -> m_msg1 s = Some m ->
  cname r = Ok cn -> cn <> "priority" ->
  exists s1, forall w2,
    handleAny r (set_store (<[ss := s1]> (sv_store w)) w) = (Ok tt, w2) ->
    is_Some (sv_store w2 !! ss) -> sv_raised w2 = None ->
    reads ss blocks w = (Ok tt, set_store (alter reading_again ss (sv_store w2)) w2).
Proof.
  intros Hf Hw Hne Hbl Hd Hra Hs Hp Hm Hcn Hpr.
  destruct (reads_frame text r ls blocks w s Hf Hw Hne Hbl Hra Hs Hp) as (s1 & (p & ip & ->) & H).
  set (s1 := set_pending p _) in H. exists s1. intros w2 E Hs2 Hr2. apply H; [|done..].
  rewrite (authenticated_message_is_routed (set_store (<[ss := s1]> (sv_store w)) w) ss s1 m cn r);
    [by rewrite E|exact Hd|apply lookup_insert_eq|exact Hm|exact Hcn|by right].
Qed.

(** A message for an application of this node. *)
Lemma reads_to_app text r ls blocks w s m cn raw t target :
  frame (dispatchMsg ss) ss text r ls -> wire blocks = text ->
  blocks <> [] -> Forall (fun b => b <> EmptyString) blocks ->
  sv_dispatcher w = server_dispatcher -> sv_raised w = None ->
  sv_store w !! ss = Some s -> m_processor s = IP_init -> m_msg1 s = Some m ->
  cname r = Ok cn -> cn <> "priority" -> charvec r = Ok raw ->
  m_destType r = local -> m_locals w !! m_appname (m_dest r) = Some t ->
  sv_store w !! t = Some target -> t <> ss ->
  exists w', reads ss blocks w = (Ok tt, w') /\
    sv_store w' !! t = Some (after_put r (sv_now w) target).
Proof.
  intros Hf Hw Hne Hbl Hd Hra Hs Hp Hm Hcn Hpr Hraw Hdt Hloc Ht Htne.
  destruct (reads_routed text r ls blocks w s m cn Hf Hw Hne Hbl Hd Hra Hs Hp Hm Hcn Hpr)
    as (s1 & H).
  eexists. split.
  - apply H.
    + unfold handleAny. rewrite Hdt. unfold handleLocalMsg, bind, gets. simpl. rewrite Hloc.
      apply (put_ok _ raw Hraw _ _ target). simpl. by rewrite lookup_insert_ne.
    + simpl. rewrite lookup_insert_ne, lookup_insert_eq by done. by eexists.
    + done.
  - simpl. by rewrite lookup_alter_ne, lookup_insert_eq.
Qed.

(** A message for a node whose channel is connected. *)
Lemma reads_to_node text r ls blocks w s m cn raw rm h sh :
  frame (dispatchMsg ss) ss text r ls -> wire blocks = text ->
  blocks <> [] -> Forall (fun b => b <> EmptyString) blocks ->
  sv_dispatcher w = server_dispatcher -> sv_raised w = None ->
  sv_store w !! ss = Some s -> m_processor s = IP_init -> m_msg1 s = Some m ->
  cname r = Ok cn -> cn <> "priority" -> charvec r = Ok raw ->
  m_destType r = remote -> m_nodeToSession w !! m_nodename (m_dest r) = Some rm ->
  line rm = Some h -> sv_store w !! h = Some sh -> h <> ss ->
  exists w', reads ss blocks w = (Ok tt, w') /\ sv_raised w' = None /\
    sv_store w' !! h = Some (after_put r (sv_now w) sh).
Proof.
  intros Hf Hw Hne Hbl Hd Hra Hs Hp Hm Hcn Hpr Hraw Hdt Hrm Hl Hh Hhne.
  destruct (reads_routed text r ls blocks w s m cn Hf Hw Hne Hbl Hd Hra Hs Hp Hm Hcn Hpr)
    as (s1 & H).
  set (w1 := set_store _ w) in H.
  destruct (send_to_ok r raw Hraw (m_nodename (m_dest r)) w1 rm Hrm) as (st & E & Hst).
  { intros x Hx. apply line_H in Hl. rewrite Hl in Hx. injection Hx as <-.
    simpl. rewrite lookup_insert_ne by done. by eexists. }
  eexists. split.
  - apply H.
    + unfold handleAny. rewrite Hdt. unfold handleRemoteMsg, route.
      unfold bind, findAddRemote, modify. simpl. rewrite Hrm. exact E.
    + simpl. rewrite Hst. rewrite decide_False by congruence. simpl.
      rewrite lookup_insert_eq. by eexists.
    + done.
  - split; [done|]. simpl. rewrite lookup_alter_ne, Hst, decide_True by done. simpl.
    by rewrite lookup_insert_ne, Hh.
Qed.
End Reads.

Section Texts.
Context {T : Type} {PL : Platform T}.

(** The write of the only queued message completes. *)
Lemma written_alone now ss buf q s (w : server T) :
  sv_raised w = None -> sv_store w !! ss = Some s -> m_outQueue s = [q] -> m_closeFlag s = false ->
  exists s' w', run_one (emit ss (write_handler now buf false)) w = (Ok tt, w') /\
    sv_store w' !! ss = Some s' /\ m_outQueue s' = [].
Proof.
  intros Hra Hs Hq Hc.
  set (s' := set_outQueue [] (complete (AWrite buf) s).2).
  assert (write_handler now buf false s = (Ok [], s')) as E.
  { unfold write_handler, bind at 1, complete, modify at 1. unfold bind at 1, gets at 1.
    simpl. rewrite Hq. unfold bind at 1, modify. fold s'.
    change (set_outQueue [] (set_pending _ s)) with s'.
    rewrite (bind_ok _ _ _ _ _ (deleteOld_nil now s' eq_refl)).
    unfold bind, gets. simpl. by rewrite Hc. }
  exists s', (set_store (<[ss := s']> (sv_store w)) w).
  split; [|split; [apply lookup_insert_eq|done]]. apply run_one_ok; [|done].
  unfold emit, bind. rewrite (sess_ok _ _ _ _ Hs), E. done.
Qed.

(** The two lines of a message, and what is written for it. *)
Lemma wire_frame ss hl v (hdr : T) :
  str_in NL hl = false -> str_in NL v = false ->
  read_json hl = Some hdr -> pt_find "body" hdr = None ->
  exists ls, frame (dispatchMsg ss) ss (hl +:+ str1 NL +:+ v +:+ str1 NL)
    (Msg_raw hdr v (Some ss)) ls.
Proof.
  intros Hl Hv Hr Hb. exists [hl; v]. unfold str1 at 1. autorewrite with strrw.
  apply (frame_two_lines _ _ _ _ hdr); [done|done| |].
  - intros w. by apply on_line_header.
  - intros w w' Hd. by rewrite on_line_body, Hd.
Qed.

Lemma raw_text hdr v hl o :
  write_json hdr = Some (hl +:+ str1 NL) ->
  charvec (Msg_raw hdr v o) = Ok (hl +:+ str1 NL +:+ v +:+ str1 NL).
Proof.
  intros Hw. unfold charvec, str, Msg_raw. rewrite updateDest_body, updateDest_header. simpl.
  rewrite Hw. by rewrite str_app_assoc.
Qed.

(** What [putOutQueue] leaves. *)
Lemma after_put_idle msg raw (Hraw : charvec msg = Ok raw) now s :
  m_outQueue s = [] ->
  after_put msg now s =
    set_pending (m_pending s ++ [AWrite raw]) (set_outQueue [entry msg raw now] s).
Proof.
  intros Hq. unfold after_put. rewrite (putOutQueue_ok _ _ _ _ Hraw).
  unfold outQueueEmpty. by rewrite Hq.
Qed.

Lemma after_put_queue msg raw (Hraw : charvec msg = Ok raw) now s :
  m_outQueue (after_put msg now s) = m_outQueue s ++ [entry msg raw now].
Proof.
  unfold after_put. rewrite (putOutQueue_ok _ _ _ _ Hraw).
  unfold outQueueEmpty. case_bool_decide as Hq; [by rewrite Hq|done].
Qed.

(** The caches of a message that was read. *)
Lemma raw_caches hdr v o :
  let app := pt_get_or ["to"; "a"] EmptyString hdr in
  let node := pt_get_or ["to"; "n"] EmptyString hdr in
  let r := Msg_raw hdr v o in
  m_dest r = mkAddr app node /\ m_destType r = (classify app node).1 /\
  cname r = of_option (ptree_bad_path "cname") (pt_get ["cname"] hdr).
Proof.
  intros app node r. unfold r, Msg_raw, cname. rewrite updateDest_dest, updateDest_header.
  split; [done|]. split; [|done].
  exact (f_equal fst (updateDest_class (updateFrom (mkMsg hdr (Raw v) local Addr_default
    Addr_default false o)))).
Qed.
End Texts.

(** ** Two nodes *)

Section Nodes.
Context {T : Type} (PT : PTree T) (JS : Json T).

(** The server process of a node. *)
Definition server_on (node pid : string) (ini : T) : Platform T := {|
  plat_PTree := PT;
  plat_Json := JS;
  host_name := node;
  proc_self_comm := "userver" +:+ str1 NL;
  uzel_ini := ini;
  getpid := pid;
|}.
End Nodes.

Section Relay.
Context {T : Type} {PT : PTree T} {JS : Json T}.
Variables (nodeA nodeB pidA pidB : string) (iniA iniB : T).
Abbreviation PA := (server_on PT JS nodeA pidA iniA).
Abbreviation PB := (server_on PT JS nodeB pidB iniB).

(** The class of a message for an application of node B, on either node. *)
Lemma class_on_A app : nodeB <> EmptyString -> nodeB <> STAR -> nodeA <> nodeB ->
  classify (PL := PA) app nodeB = (remote, false).
Proof.
  intros He Hs Hne. unfold classify. rewrite !str_empty_decide.
  rewrite (bool_decide_eq_false_2 (nodeB = EmptyString)), andb_false_r by done.
  rewrite (bool_decide_eq_false_2 (nodeB = nodeName)) by (intros ->; by apply Hne).
  by rewrite (bool_decide_eq_false_2 (nodeB = STAR)).
Qed.

Lemma class_on_B app : nodeB <> EmptyString -> app <> STAR ->
  (classify (PL := PB) app nodeB).1 = local.
Proof.
  intros He Hs. unfold classify. rewrite !str_empty_decide.
  rewrite (bool_decide_eq_false_2 (nodeB = EmptyString)), andb_false_r by done.
  rewrite (bool_decide_eq_true_2 (nodeB = nodeName)) by done.
  by rewrite (bool_decide_eq_false_2 (app = STAR)).
Qed.

(** C4: Two servers: a local application of node A writes the two lines of a
    message for an application of node B, in any blocks.  If both servers
    have their handlers registered and no exception pending, the reading
    sessions are authenticated, between two messages and not those written
    to, the channel of A to B is connected, its high priority session has an
    empty queue and is not closing, the JSON reader reads back the header
    from what the writer prints, in one line, the header has no body key and
    a cname other than priority, the application is not * and is connected
    to B, A and B differ and B is not *: then the server of A writes one
    text, the header as the writer prints it and the body as it was, on that
    session and nothing else there; when that text arrives at B, again in
    any blocks, it is queued once and byte for byte on the session of the
    application.  All the turns succeed.  tz.md says that intermediate nodes
    supplement the header: a finding. *)
Theorem relay_across_nodes (a b : server T) src sA mA rm ha sh hb sB mB t target
    hc hl v hdr cn app blocksA blocksB :
  let text := hl +:+ str1 NL +:+ v +:+ str1 NL in
  (* the message *)
  str_in NL hc = false -> str_in NL hl = false -> str_in NL v = false ->
  read_json hc = Some hdr -> write_json hdr = Some (hl +:+ str1 NL) ->
  read_json hl = Some hdr -> pt_find "body" hdr = None ->
  pt_get ["cname"] hdr = Some cn -> cn <> "priority" ->
  pt_get_or ["to"; "n"] EmptyString hdr = nodeB -> pt_get_or ["to"; "a"] EmptyString hdr = app ->
  nodeB <> EmptyString -> nodeB <> STAR -> nodeA <> nodeB -> app <> STAR ->
  (* the server of node A *)
  sv_dispatcher a = server_dispatcher -> sv_raised a = None ->
  sv_store a !! src = Some sA -> m_processor sA = IP_init -> m_msg1 sA = Some mA ->
  m_nodeToSession a !! nodeB = Some rm -> line rm = Some ha -> ha <> src ->
  sv_store a !! ha = Some sh -> m_outQueue sh = [] -> m_closeFlag sh = false ->
  (* the server of node B *)
  sv_dispatcher b = server_dispatcher -> sv_raised b = None ->
  sv_store b !! hb = Some sB -> m_processor sB = IP_init -> m_msg1 sB = Some mB ->
  m_locals b !! app = Some t -> sv_store b !! t = Some target -> t <> hb ->
  (* what the network does *)
  wire blocksA = hc +:+ str1 NL +:+ v +:+ str1 NL -> wire blocksB = text ->
  Forall (fun bl => bl <> EmptyString) (blocksA ++ blocksB) ->
  exists a1 sh1 b1 target1,
    reads (PL := PA) src blocksA a = (Ok tt, a1) /\
    sv_store a1 !! ha = Some sh1 /\ m_pending sh1 = m_pending sh ++ [AWrite text] /\
    (forall now, exists sh2 a2,
       run_one (emit ha (write_handler (PL := PA) now text false)) a1 = (Ok tt, a2) /\
       sv_store a2 !! ha = Some sh2 /\ m_outQueue sh2 = []) /\
    reads (PL := PB) hb blocksB b = (Ok tt, b1) /\
    sv_store b1 !! t = Some target1 /\
    m_outQueue target1 = m_outQueue target ++ [mkQueuedMsg text local (sv_now b)].
Proof.
  intros text Hnc Hnl Hnv Hrc Hw Hrl Hfb Hcn Hpr Hton Htoa He Hst Hab Has
    HdA HraA HsA HpA HmA Hrm Hline Hha Hsh Hqh Hch HdB HraB HsB HpB HmB Hloc Ht Htne HwA HwB
    [HblA HblB]%Forall_app.
  destruct (wire_frame (PL := PA) src hc v hdr Hnc Hnv Hrc Hfb) as [lsA HfA].
  destruct (wire_frame (PL := PB) hb hl v hdr Hnl Hnv Hrl Hfb) as [lsB HfB].
  set (rA := Msg_raw (PL := PA) hdr v (Some src)) in *.
  set (rB := Msg_raw (PL := PB) hdr v (Some hb)) in *.
  assert (charvec (PL := PA) rA = Ok text) as HrawA by (by apply (raw_text (PL := PA))).
  assert (charvec (PL := PB) rB = Ok text) as HrawB by (by apply (raw_text (PL := PB))).
  destruct (raw_caches (PL := PA) hdr v (Some src)) as (HdestA & HdtA & HcnA).
  destruct (raw_caches (PL := PB) hdr v (Some hb)) as (HdestB & HdtB & HcnB).
  fold rA in HdestA, HdtA, HcnA. fold rB in HdestB, HdtB, HcnB. simpl in *.
  rewrite Hton, Htoa in HdestA, HdtA, HdestB, HdtB. rewrite Hcn in HcnA, HcnB.
  rewrite class_on_A in HdtA by done. rewrite class_on_B in HdtB by done.
  destruct (reads_to_node (PL := PA) src (hc +:+ str1 NL +:+ v +:+ str1 NL) rA lsA blocksA
    a sA mA cn text rm ha sh) as (a1 & Ea & Hra1 & Hsh1); try done.
  { intros ->. by destruct hc, hl. }
  { by rewrite HdestA. }
  destruct (reads_to_app (PL := PB) hb text rB lsB blocksB b sB mB cn text t target)
    as (b1 & Eb & Ht1); try done.
  { intros ->. by destruct hc, hl. }
  { by rewrite HdestB. }
  rewrite (after_put_idle (PL := PA) rA text HrawA _ _ Hqh) in Hsh1.
  eexists a1, _, b1, _. split; [exact Ea|]. split; [exact Hsh1|]. split; [done|].
  split; [intros now; by eapply (written_alone (PL := PA))|].
  split; [exact Eb|]. split; [exact Ht1|].
  rewrite (after_put_queue (PL := PB) rB text HrawB). unfold entry, destType. by rewrite HdtB.
Qed.
End Relay.

(** ** What the witnesses use *)

Section Network_witness.
Definition nw_json : Json tree := {| write_json := DemoJson.write; read_json := DemoJson.read |}.
Definition nw_on (node : string) : Platform tree :=
  server_on tree_PTree nw_json node "4242" (Node EmptyString []).
Definition nw_peer (node app : string) : session tree :=
  set_msg1 (Some (Msg_out (PL := demo node app) Addr_default "auth" pt_empty))
    (new_session incoming "10.0.0.2" EmptyString).
Definition nw_text (l : string) : string := l +:+ str1 NL +:+ "{}" +:+ str1 NL.

End Network_witness.
