(* ===== verification/Roles.v ===== *)
(** * Roles: the two sides of a channel agree

    The composition of the channels ([Remote]) of two nodes: the node with
    the greater name gives each connection its role and announces it on that
    connection, the other node takes it over from the announcement.  The
    connections are independent: announcements on different ones arrive in
    any order, sessions close on either side at any time, and the sessions
    do anything else in between.  A connection is named by the identity of
    its session on the deciding side; [far] gives the other end. *)
From S2P Require Import Prelude Effects BetterEnum Priority AccuLine PTree UConfig.
From S2P Require Import Addr Demo Msg InputProcessor Stream Session Remote Network.

(** The session that plays a role in the channel. *)
Definition slot (p : Priority) (r : remote_t) : option sid :=
  match p with
  | high => m_sessionH r
  | low => m_sessionL r
  | control => m_sessionC r
  | undefined => None
  end.

(** The role a session plays, the first one it is found in. *)
Definition role_of (c : sid) (r : remote_t) : option Priority :=
  if decide (m_sessionH r = Some c) then Some high
  else if decide (m_sessionL r = Some c) then Some low
  else if decide (m_sessionC r = Some c) then Some control
  else None.

(** A session whose closing has been asked for. *)
Definition asked {T} (x : sid) (st : store T) : Prop :=
  exists s, st !! x = Some s /\ m_closeFlag s = true.

(** Sessions stay, and stay asked to close. *)
Definition store_le {T} (st st' : store T) : Prop :=
  forall x s, st !! x = Some s ->
    exists s', st' !! x = Some s' /\ (m_closeFlag s = true -> m_closeFlag s' = true).

(** The two channels, with what has happened to the connections. *)
Record duo (T : Type) := mkDuo {
  d_boss : remote_t * store T;
  d_other : remote_t * store T;
  d_added : gset sid;                 (* given to the boss *)
  d_announced : gmap sid Priority;    (* announced by the boss on the connection *)
  d_handled : gset sid;               (* the announcement has been handled *)
  d_closed : gset sid;                (* closed on the boss's side *)
  d_closed_far : gset sid;            (* closed on the other side *)
}.
Arguments mkDuo {T}.
Arguments d_boss {T}.
Arguments d_other {T}.
Arguments d_added {T}.
Arguments d_announced {T}.
Arguments d_handled {T}.
Arguments d_closed {T}.
Arguments d_closed_far {T}.

Section Duo.
Context {T : Type} {PT : PTree T} {JS : Json T}.
Variables (nodeA nodeB pidA pidB : string) (iniA iniB : T).
Abbreviation PA := (server_on PT JS nodeA pidA iniA).
Abbreviation PB := (server_on PT JS nodeB pidB iniB).
Variable far : sid -> sid.

(** The body of an announcement. *)
Definition prio_body (p : Priority) : T :=
  pt_add "priority" (default EmptyString (put_value p)) pt_empty.

(** The role the boss has given to [c], if it has. *)
Definition announce (c : sid) (r : remote_t) (m : gmap sid Priority) : gmap sid Priority :=
  match role_of c r with Some p => <[c := p]> m | None => m end.

Inductive duo_step : relation (duo T) :=
  | duo_boss_add now c b b' o ad an ha cl clf :
      c ∉ ad -> peer_of b.2 c = Some nodeB -> addSession (PL := PA) now c b = (Ok tt, b') ->
      duo_step (mkDuo b o ad an ha cl clf)
        (mkDuo b' o ({[ c ]} ∪ ad) (announce c b'.1 an) ha cl clf)
  | duo_other_add now x b o o' ad an ha cl clf :
      peer_of o.2 x = Some nodeA -> addSession (PL := PB) now x o = (Ok tt, o') ->
      duo_step (mkDuo b o ad an ha cl clf) (mkDuo b o' ad an ha cl clf)
  | duo_announced c p text msg r b o o' msg' ad an ha cl clf :
      (* an announcement arrives, once *)
      an !! c = Some p -> c ∉ ha ->
      transmits (PL := PB) (far c) (priority_msg (PL := PA) p) text msg ->
      is_Some (o.2 !! far c) ->
      remote_handlePriorityMsg (PL := PB) (o, msg) = (r, (o', msg')) -> r <> Undefined ->
      duo_step (mkDuo b o ad an ha cl clf) (mkDuo b o' ad an ({[ c ]} ∪ ha) cl clf)
  | duo_boss_closed c b o ad an ha cl clf :
      c ∈ ad ->
      duo_step (mkDuo b o ad an ha cl clf)
        (mkDuo (remote_onSessionClosed c b.1, b.2) o ad an ha ({[ c ]} ∪ cl) clf)
  | duo_other_closed c b o ad an ha cl clf :
      duo_step (mkDuo b o ad an ha cl clf)
        (mkDuo b (remote_onSessionClosed (far c) o.1, o.2) ad an ha cl ({[ c ]} ∪ clf))
  | duo_boss_send now msg b o ad an ha cl clf :
      duo_step (mkDuo b o ad an ha cl clf)
        (mkDuo (remote_send (PL := PA) now msg b).2 o ad an ha cl clf)
  | duo_other_send now msg b o ad an ha cl clf :
      duo_step (mkDuo b o ad an ha cl clf)
        (mkDuo b (remote_send (PL := PB) now msg o).2 ad an ha cl clf)
  | duo_boss_sessions st' b o ad an ha cl clf :
      duo_step (mkDuo b o ad an ha cl clf) (mkDuo (b.1, st') o ad an ha cl clf)
  | duo_other_sessions st' b o ad an ha cl clf :
      store_le o.2 st' ->
      duo_step (mkDuo b o ad an ha cl clf) (mkDuo b (o.1, st') ad an ha cl clf).

Definition duo_init (stA stB : store T) : duo T :=
  mkDuo (remote_init nodeB, stA) (remote_init nodeA, stB) ∅ ∅ ∅ ∅ ∅.
End Duo.

(** ** Lemmas *)

Lemma slot_roles r r' p : roles r = roles r' -> slot p r = slot p r'.
Proof. unfold roles. intros [= HH HL HC]. by destruct p. Qed.

Lemma slot_unwait p x r : slot p (unwait x r) = slot p r.
Proof. by destruct p. Qed.

Lemma slot_closed p x r : slot p (remote_onSessionClosed x r) = clear_if x (slot p r).
Proof. by destruct p; [|..]; simpl; try done; unfold clear_if; case_decide. Qed.

Lemma slot_relabel p q x r :
  q <> undefined -> slot p (relabel q x r) = if decide (p = q) then Some x else slot p r.
Proof. intros Hq. destruct q; [done|..]; destruct p; done. Qed.

Lemma role_of_slot c r p : role_of c r = Some p -> slot p r = Some c /\ p <> undefined.
Proof. unfold role_of. repeat case_decide; by intros [= <-]. Qed.

Lemma slot_role_of c r p : slot p r = Some c -> is_Some (role_of c r).
Proof.
  unfold role_of. intros Hs. repeat case_decide; try by eexists. by destruct p.
Qed.

(** What the boss's decision does to the slots: at most a free one is taken. *)
Lemma roles_with_slots {T} (st : store T) c r r' :
  roles r' = roles_with st c r ->
  (forall p, slot p r' = slot p r) \/
  exists q, q <> undefined /\ slot q r = None /\
    forall p, slot p r' = if decide (p = q) then Some c else slot p r.
Proof.
  unfold roles_with. destruct (m_sessionH r) as [h|] eqn:HH.
  - destruct (m_sessionL r) as [l|] eqn:HL.
    + destruct (m_sessionC r) as [k|] eqn:HC.
      * intros Hr. left. intros p. by apply slot_roles.
      * case_decide; intros Hr; [right|left; intros p; by apply slot_roles].
        exists control. split; [done|]. split; [done|]. injection Hr as H1 H2 H3.
        by intros []; simpl; congruence.
    + intros [= H1 H2 H3]. right. exists low. split; [done|]. split; [done|].
      by intros []; simpl; congruence.
  - intros [= H1 H2 H3]. right. exists high. split; [done|]. split; [done|].
    by intros []; simpl; congruence.
Qed.

Section Store_lemmas.
Context {T : Type}.
Implicit Types (st : store T).

#[export] Instance store_le_preorder : PreOrder (@store_le T).
Proof.
  split.
  - intros st x s Hs. by exists s.
  - intros st1 st2 st3 H12 H23 x s Hs. destruct (H12 _ _ Hs) as (s2 & Hs2 & H2).
    destruct (H23 _ _ Hs2) as (s3 & Hs3 & H3). exists s3. auto.
Qed.

Lemma asked_le x st st' : store_le st st' -> asked x st -> asked x st'.
Proof. intros Hle (s & Hs & Hc). destruct (Hle _ _ Hs) as (s' & Hs' & Hc'). exists s'. auto. Qed.

(** A method that does not withdraw the request to close. *)
Definition keeps_flag {A} (m : M (session T) A) : Prop :=
  preserves (fun s => m_closeFlag s = true) m.

Lemma store_le_insert x s s' st :
  st !! x = Some s -> (m_closeFlag s = true -> m_closeFlag s' = true) ->
  store_le st (<[x := s']> st).
Proof.
  intros Hs Hc y t Ht. destruct (decide (y = x)) as [->|Hy].
  - rewrite lookup_insert_eq. exists s'. rewrite Hs in Ht. injection Ht as <-. auto.
  - rewrite lookup_insert_ne by done. by exists t.
Qed.

Lemma store_le_on_session {A} x (m : M (session T) A) st :
  keeps_flag m -> store_le st (on_session x m st).2.
Proof.
  intros Hm. destruct (st !! x) as [s|] eqn:Hs.
  - rewrite (on_session_ok _ _ _ _ Hs). simpl. eapply store_le_insert; [done|apply Hm].
  - unfold on_session. by rewrite Hs.
Qed.
End Store_lemmas.

Section Handle_lemmas.
Context {T : Type} {PL : Platform T}.
Implicit Types (st : store T) (r : remote_t).

Lemma keeps_deleteOld now : keeps_flag (deleteOld (T := T) now).
Proof.
  unfold keeps_flag, deleteOld. apply preserves_bind; [auto with preserve|intros q].
  destruct (drop_old now q) as [n rest].
  apply preserves_bind; [by apply preserves_modify|intros _].
  apply preserves_if; [|auto with preserve].
  apply preserves_bind; [auto with preserve|intros m]. destruct m; auto with preserve.
Qed.

Lemma keeps_putOutQueue now msg : keeps_flag (putOutQueue now msg).
Proof.
  unfold keeps_flag, putOutQueue. apply preserves_bind; [auto with preserve|intros e].
  apply preserves_bind; [auto with preserve|intros qm].
  apply preserves_bind; [by apply preserves_modify|intros _]. apply preserves_when.
  unfold do_write. apply preserves_bind; [apply keeps_deleteOld|intros _].
  apply preserves_bind; [auto with preserve|intros q].
  destruct q; [auto with preserve|by apply preserves_modify].
Qed.

Lemma asks_gracefullClose reason s : m_closeFlag (gracefullClose reason s).2 = true.
Proof.
  unfold gracefullClose. unfold bind at 1, gets at 1. destruct (m_closeFlag s) eqn:Hc; [done|].
  unfold bind at 1, modify at 1. unfold bind at 1, gets at 1.
  apply (preserves_when (fun s => m_closeFlag s = true)); [|done].
  unfold sendByeAndClose. repeat (apply preserves_bind; [auto with preserve|intros ?]).
  all: by apply preserves_modify.
Qed.

Lemma store_le_send now msg r st : store_le st (remote_send now msg (r, st)).2.2.
Proof.
  unfold remote_send, bind at 1, gets. simpl. destruct (remote_connected r); simpl.
  - destruct (m_sessionH r) as [h|]; [|done]. unfold on_store, zoom. simpl.
    pose proof (store_le_on_session h (putOutQueue now msg) st (keeps_putOutQueue now msg)) as H.
    by destruct (on_session h (putOutQueue now msg) st).
  - unfold bind, lift. by destruct (QueuedMsg_of now msg).
Qed.

Lemma roles_send now msg r st : roles (remote_send now msg (r, st)).2.1 = roles r.
Proof. by apply (preserves_remote_send (fun x => roles x = roles r) now msg). Qed.

(** The session that played the role is asked to close. *)
Lemma close_overtaken_asked old r st o r' st' :
  close_overtaken old (r, st) = (o, (r', st')) -> o <> Undefined ->
  store_le st st' /\ forall y, old = Some y -> asked y st'.
Proof.
  unfold close_overtaken. destruct old as [y|]; [|by intros [= _ _ <-]].
  unfold on_store, zoom. simpl. destruct (st !! y) as [s|] eqn:Hs.
  - rewrite (on_session_ok _ _ _ _ Hs). intros [= _ _ <-] _. split.
    + eapply store_le_insert; [done|]. intros _. apply asks_gracefullClose.
    + intros z [= <-]. eexists. rewrite lookup_insert_eq. split; [done|].
      apply asks_gracefullClose.
  - unfold on_session. rewrite Hs. intros [= <- _ _] Hu. done.
Qed.

(** An announcement from a session without high or low role is obeyed. *)
Lemma handle_announcement msg x p body r st o r' st' msg' :
  m_origin msg = Some x -> is_Some (st !! x) -> m_sessionH r <> Some x -> m_sessionL r <> Some x ->
  (pbody msg).1 = Ok body -> pt_get ["priority"] body ≫= get_value = Some p -> p <> undefined ->
  remote_handlePriorityMsg ((r, st), msg) = (o, ((r', st'), msg')) -> o <> Undefined ->
  (forall q, slot q r' = if decide (q = p) then Some x else slot q r) /\
  store_le st st' /\ (forall y, slot p r = Some y -> asked y st').
Proof.
  intros Ho [s Hs] HH HL Hb Hp Hu E Hund. split.
  - intros q. pose proof (handlePriority_live msg x s r st Ho Hs) as Hr.
    rewrite E in Hr. simpl in Hr. rewrite !bool_decide_eq_false_2 in Hr by done. simpl in Hr.
    rewrite Hb, Hp in Hr. simpl in Hr. rewrite Hr, slot_relabel, slot_unwait by done. done.
  - revert E. unfold remote_handlePriorityMsg.
    unfold bind at 1 2, gets at 1 2. cbn [fst snd]. rewrite Ho. simpl. rewrite Hs. simpl.
    unfold zoom at 1, on_remote at 1, bind at 1, modify. simpl. unfold bind at 1, gets at 1. simpl.
    rewrite !bool_decide_eq_false_2 by done. simpl.
    unfold bind at 1, zoom at 1. simpl.
    destruct (pbody msg) as [o1 m1]. simpl in Hb. subst o1. rewrite Hp. simpl.
    unfold zoom. destruct p; [done|..]; unfold bind; simpl.
    all: match goal with |- context [close_overtaken ?old ?st0] =>
        destruct (close_overtaken old st0) as [o2 [r2 st2]] eqn:Ec end;
      simpl; intros [= <- _ <- _]; by apply close_overtaken_asked in Ec.
Qed.
End Handle_lemmas.

Section Duo_lemmas.
Context {T : Type} {PT : PTree T} {JS : Json T} {PTL : PTreeLaws T}.
Context {nodeA nodeB pidA pidB : string} {iniA iniB : T} {far : sid -> sid}.
Context `{!Inj (=) (=) far}.
Abbreviation PA := (server_on PT JS nodeA pidA iniA).
Abbreviation PB := (server_on PT JS nodeB pidB iniB).

(** JSON reads back the body of an announcement. *)
Hypothesis Hjson : forall p v,
  write_json (prio_body p) = Some (v +:+ str1 NL) -> read_json v = Some (prio_body p : T).

Lemma announcement_read x p text (msg : Msg T) :
  transmits (PL := PB) x (priority_msg (PL := PA) p) text msg ->
  m_origin msg = Some x /\ (pbody (PL := PB) msg).1 = Ok (prio_body p).
Proof.
  assert (m_body (priority_msg (PL := PA) p) = Parsed (prio_body p)) as Hbody.
  { unfold priority_msg, Msg_out, setCname, setDest, set_header. simpl. by rewrite updateDest_body. }
  intros [s hl v Hs Hh Hv Hhl Hvl Hr Hb|s b l h Hs Hb Hw Hl Hr Hf He].
  - unfold Msg_raw, updateFrom, pbody. rewrite updateDest_origin, updateDest_body. simpl.
    unfold wire_body in Hv. rewrite Hbody in Hv. by rewrite (Hjson _ _ Hv).
  - rewrite Hbody in Hb. injection Hb as <-. unfold Msg_parsed, updateFrom, pbody.
    by rewrite updateDest_origin, updateDest_body.
Qed.

Lemma prio_body_read p : pt_get ["priority"] (prio_body p : T) ≫= get_value = Some p.
Proof.
  unfold prio_body. rewrite pt_get_add by by rewrite pt_get_empty. by destruct p.
Qed.

(** What the two channels are. *)
Record duo_ok (d : duo T) : Prop := {
  dk_added p c : slot p (d_boss d).1 = Some c -> c ∈ d_added d;
  dk_role p c : slot p (d_boss d).1 = Some c -> d_announced d !! c = Some p;
  dk_keep p c : d_announced d !! c = Some p -> c ∈ d_closed d \/ slot p (d_boss d).1 = Some c;
  dk_known p c : d_announced d !! c = Some p -> c ∈ d_added d /\ p <> undefined;
  dk_handled c : c ∈ d_handled d -> is_Some (d_announced d !! c);
  dk_taken p x : slot p (d_other d).1 = Some x ->
    exists c, x = far c /\ c ∈ d_handled d /\ d_announced d !! c = Some p;
  dk_holds p c : c ∈ d_handled d -> d_announced d !! c = Some p ->
    c ∈ d_closed_far d \/ asked (far c) (d_other d).2 \/ slot p (d_other d).1 = Some (far c);
}.

Lemma duo_init_ok stA stB : duo_ok (duo_init nodeA nodeB (T := T) stA stB).
Proof.
  split; simpl; try (by intros []); try (by intros p c H; rewrite lookup_empty in H);
    intros; set_solver.
Qed.

(** Only the other side's sessions, and what it sends, have changed. *)
Lemma duo_other_frame b o o' ad an ha cl clf :
  duo_ok (mkDuo b o ad an ha cl clf) ->
  (forall p, slot p o'.1 = slot p o.1) -> store_le o.2 o'.2 ->
  duo_ok (mkDuo b o' ad an ha cl clf).
Proof.
  intros [] Hs Hle. split; simpl in *; try done.
  - intros p x. rewrite Hs. eauto.
  - intros p c Hc Hp. rewrite Hs.
    destruct (dk_holds0 p c Hc Hp) as [H|[H|H]]; [auto|right; left|auto].
    by eapply asked_le.
Qed.

Lemma duo_boss_frame b b' o ad an ha cl clf :
  duo_ok (mkDuo b o ad an ha cl clf) -> (forall p, slot p b'.1 = slot p b.1) ->
  duo_ok (mkDuo b' o ad an ha cl clf).
Proof. intros [] Hs. split; simpl in *; try done; intros p c; rewrite Hs; eauto. Qed.

Variables (Hne : nodeA <> nodeB) (Hboss : str_lt nodeA nodeB = false).

Lemma duo_boss_add_ok now c b b' r o ad an ha cl clf :
  duo_ok (mkDuo b o ad an ha cl clf) -> c ∉ ad -> peer_of b.2 c = Some nodeB ->
  addSession (PL := PA) now c b = (r, b') ->
  duo_ok (mkDuo b' o ({[ c ]} ∪ ad) (announce c b'.1 an) ha cl clf).
Proof.
  intros Hok Hc Hp E. pose proof Hok as []. simpl in *.
  assert (forall p, slot p b.1 <> Some c) as Hfree.
  { intros p Hs. by apply dk_added0 in Hs. }
  destruct (addSession_boss_roles (PL := PA) now c nodeB b.1 b.2 Hp Hboss) as [Hr _].
  rewrite <-surjective_pairing, E in Hr. simpl in Hr.
  destruct (roles_with_slots b.2 c b.1 b'.1 Hr) as [Hs|(q & Hq & Hqn & Hs)].
  - assert (announce c b'.1 an = an) as ->.
    { unfold announce. destruct (role_of c b'.1) as [p|] eqn:Hrole; [|done].
      apply role_of_slot in Hrole as [Hrole _]. rewrite Hs in Hrole. by apply Hfree in Hrole. }
    apply (duo_boss_frame _ b') in Hok as []; [|done]. split; simpl in *; set_solver.
  - assert (announce c b'.1 an = <[c := q]> an) as ->.
    { unfold announce. destruct (slot_role_of c b'.1 q) as [p Hrole].
      { by rewrite Hs, decide_True. }
      rewrite Hrole. apply role_of_slot in Hrole as [Hrole _]. rewrite Hs in Hrole.
      case_decide; [congruence|]. by apply Hfree in Hrole. }
    assert (an !! c = None) as Hnone.
    { destruct (an !! c) as [p|] eqn:Ha; [|done]. by apply dk_known0 in Ha as [? _]. }
    split; simpl in *.
    + intros p c'. rewrite Hs. case_decide; [intros [= <-]; set_solver|].
      intros Hx%dk_added0. set_solver.
    + intros p c'. rewrite Hs. case_decide as Hpq.
      * intros [= <-]. by rewrite Hpq, lookup_insert_eq.
      * intros H. rewrite lookup_insert_ne; [by apply dk_role0|]. intros <-. by apply Hfree in H.
    + intros p c'. rewrite Hs. destruct (decide (c' = c)) as [->|Hc'].
      * rewrite lookup_insert_eq. intros [= ->]. right. by rewrite decide_True.
      * rewrite lookup_insert_ne by done. intros H.
        destruct (dk_keep0 _ _ H) as [?|H']; [by left|right].
        rewrite decide_False; [done|]. intros ->. congruence.
    + intros p c'. destruct (decide (c' = c)) as [->|Hc'].
      * rewrite lookup_insert_eq. intros [= <-]. set_solver.
      * rewrite lookup_insert_ne by done. intros [? ?]%dk_known0. set_solver.
    + intros c1 Hc1%dk_handled0. apply lookup_insert_is_Some'. by right.
    + intros p x H. destruct (dk_taken0 _ _ H) as (c' & -> & Hh & Ha). exists c'.
      split_and!; [done|done|]. by rewrite lookup_insert_ne by congruence.
    + intros p c' Hh. rewrite lookup_insert_ne by (intros ->; apply dk_handled0 in Hh as [??]; congruence).
      by apply dk_holds0.
Qed.

Lemma duo_other_add_ok now x b o o' r ad an ha cl clf :
  duo_ok (mkDuo b o ad an ha cl clf) -> peer_of o.2 x = Some nodeA ->
  addSession (PL := PB) now x o = (r, o') -> duo_ok (mkDuo b o' ad an ha cl clf).
Proof.
  intros Hok Hp E. destruct o as [ro st]. simpl in Hp.
  rewrite (waits_addSession (PL := PB) now x ro st nodeA Hp) in E.
  - injection E as _ <-. eapply duo_other_frame; [exact Hok| |].
    + by intros [].
    + unfold st_slot. simpl. destruct (st !! x) as [s|] eqn:Hs; [|done].
      by apply (store_le_insert _ s).
  - change (str_lt nodeB nodeA = true). rewrite (str_lt_total nodeB nodeA) by done.
    by rewrite Hboss.
Qed.

Lemma duo_announced_ok c p text msg r b o o' msg' ad an ha cl clf :
  duo_ok (mkDuo b o ad an ha cl clf) -> an !! c = Some p -> c ∉ ha ->
  transmits (PL := PB) (far c) (priority_msg (PL := PA) p) text msg ->
  is_Some (o.2 !! far c) ->
  remote_handlePriorityMsg (PL := PB) (o, msg) = (r, (o', msg')) -> r <> Undefined ->
  duo_ok (mkDuo b o' ad an ({[ c ]} ∪ ha) cl clf).
Proof.
  intros Hok Ha Hh Ht Hst E Hr. pose proof Hok as []. simpl in *.
  assert (forall q, slot q o.1 <> Some (far c)) as Hfree.
  { intros q Hs. destruct (dk_taken0 _ _ Hs) as (c' & Hc' & Hh' & _).
    by apply (inj far) in Hc' as <-. }
  destruct (announcement_read _ _ _ _ Ht) as [Ho Hb].
  destruct o as [ro st], o' as [ro' st']. simpl in *.
  destruct (handle_announcement (PL := PB) msg (far c) p _ ro st r ro' st' msg' Ho Hst
    (Hfree high) (Hfree low) Hb (prio_body_read p) (proj2 (dk_known0 _ _ Ha)) E Hr)
    as (Hs & Hle & Hover).
  split; simpl; try done.
  - intros c' [->%elem_of_singleton|H]%elem_of_union; [by eexists|by apply dk_handled0].
  - intros q x. rewrite Hs. case_decide as Hq.
    + intros [= <-]. exists c. subst q. set_solver.
    + intros H. destruct (dk_taken0 _ _ H) as (c' & -> & ? & ?). exists c'. set_solver.
  - intros q c' [->%elem_of_singleton|H]%elem_of_union Hq.
    + right; right. rewrite Hs, decide_True; [done|congruence].
    + destruct (dk_holds0 _ _ H Hq) as [?|[?|Hslot]]; [by left|right; left; by eapply asked_le|].
      rewrite Hs. case_decide as Hqp; [|auto]. right; left. subst q. by apply Hover.
Qed.

Lemma duo_step_ok d d' :
  duo_ok d -> duo_step nodeA nodeB pidA pidB iniA iniB far d d' -> duo_ok d'.
Proof.
  intros Hok Hs. revert Hok. destruct Hs as [now c b b' o ad an ha cl clf Hc Hp E|now x b o o' ad an ha cl clf Hp E
    |c p text msg r b o o' msg' ad an ha cl clf Ha Hh Ht Hst E Hr|c b o ad an ha cl clf Hc
    |c b o ad an ha cl clf|now msg b o ad an ha cl clf|now msg b o ad an ha cl clf
    |st' b o ad an ha cl clf|st' b o ad an ha cl clf Hle]; intros Hok.
  - exact (duo_boss_add_ok _ _ _ _ _ _ _ _ _ _ _ Hok Hc Hp E).
  - exact (duo_other_add_ok _ _ _ _ _ _ _ _ _ _ _ Hok Hp E).
  - exact (duo_announced_ok _ _ _ _ _ _ _ _ _ _ _ _ _ _ Hok Ha Hh Ht Hst E Hr).
  - destruct Hok. split; simpl in *; try done.
    + intros p x. rewrite slot_closed, clear_if_Some. intros [? _]. eauto.
    + intros p x. rewrite slot_closed, clear_if_Some. intros [? _]. eauto.
    + intros p x H. rewrite slot_closed, clear_if_Some.
      destruct (decide (x = c)), (dk_keep0 _ _ H); set_solver.
  - destruct Hok. split; simpl in *; try done.
    + intros p x. rewrite slot_closed, clear_if_Some. intros [? _]. eauto.
    + intros p x Hx H. rewrite slot_closed, clear_if_Some.
      destruct (decide (x = c)) as [->|Hxc]; [set_solver|].
      destruct (dk_holds0 _ _ Hx H) as [?|[?|?]]; [set_solver|auto|].
      right; right. split; [done|]. by intros ?%(inj far).
  - eapply duo_boss_frame; [exact Hok|]. intros p. apply slot_roles. destruct b. apply roles_send.
  - eapply duo_other_frame; [exact Hok| |].
    + intros p. apply slot_roles. destruct o. apply roles_send.
    + destruct o. apply store_le_send.
  - by eapply duo_boss_frame.
  - by eapply duo_other_frame.
Qed.

Lemma duo_reachable_ok stA stB d :
  rtc (duo_step nodeA nodeB pidA pidB iniA iniB far) (duo_init nodeA nodeB stA stB) d -> duo_ok d.
Proof.
  revert d. apply (rtc_ind_r duo_ok); [apply duo_init_ok|]. intros d1 d2 _ Hs Hd.
  by eapply duo_step_ok.
Qed.
End Duo_lemmas.

(** ** Properties *)

Section Roles_props.
Context {T : Type} {PT : PTree T} {JS : Json T} {PTL : PTreeLaws T}.
Variables (nodeA nodeB pidA pidB : string) (iniA iniB : T) (far : sid -> sid).

(** C38: The channels of two nodes agree on the roles of their connections:
    in whatever order sessions are added and closed on either side,
    announcements on different connections arrive and messages are sent, a
    connection never has two different roles; the side that does not decide
    gives a session a role only after the other has announced that role on
    that connection; it uses a connection in the role the deciding side uses
    it in, once the announcement has been handled, unless its own end is
    closed or has been asked to close; and the other way round for a
    connection that is open on the deciding side. *)
Theorem roles_agree `{!Inj (=) (=) far} stA stB (d : duo T) :
  (forall p v, write_json (prio_body p) = Some (v +:+ str1 NL) -> read_json v = Some (prio_body p : T)) ->
  nodeA <> nodeB -> str_lt nodeA nodeB = false ->
  rtc (duo_step nodeA nodeB pidA pidB iniA iniB far) (duo_init nodeA nodeB stA stB) d ->
  let boss := (d_boss d).1 in let other := (d_other d).1 in
  (forall c p q, slot p boss = Some c -> slot q other = Some (far c) -> p = q) /\
  (forall x q, slot q other = Some x -> exists c, x = far c /\ d_announced d !! c = Some q) /\
  (forall c p, slot p boss = Some c -> c ∈ d_handled d -> c ∉ d_closed_far d ->
     ~ asked (far c) (d_other d).2 -> slot p other = Some (far c)) /\
  (forall c p, slot p other = Some (far c) -> c ∉ d_closed d -> slot p boss = Some c).
Proof.
  intros Hjson Hne Hboss Hr. cbv zeta.
  destruct (duo_reachable_ok Hjson Hne Hboss _ _ _ Hr) as [_ Hrole Hkeep _ _ Htaken Hholds].
  split_and!.
  - intros c p q Hp Hq. apply Hrole in Hp. destruct (Htaken _ _ Hq) as (c' & Hc & _ & Ha).
    apply (inj far) in Hc as <-. congruence.
  - intros x q Hq. destruct (Htaken _ _ Hq) as (c & -> & _ & Ha). by exists c.
  - intros c p Hp Hh Hcl Has. apply Hrole in Hp.
    by destruct (Hholds _ _ Hh Hp) as [?|[?|?]].
  - intros c p Hp Hcl. destruct (Htaken _ _ Hp) as (c' & Hc & _ & Ha).
    apply (inj far) in Hc as <-. by destruct (Hkeep _ _ Ha).
Qed.
End Roles_props.

(** ** Witnesses *)

Section Roles_witnesses.
#[local] Existing Instance nw_json.
Abbreviation step := (duo_step (T := tree) (PT := tree_PTree) "pingutv" "liver" "4242" "4242"
  (Node EmptyString []) (Node EmptyString []) id).
Abbreviation platform := (nw_on "pingutv").

Definition ro_store (node : string) : store tree :=
  <[1%positive := nw_peer node "userver"]> {[2%positive := nw_peer node "userver"]}.
Definition ro_text (p : Priority) : string :=
  st_text (charvec (PL := platform) (priority_msg (PL := platform) p)).
Definition ro_msg (c : sid) (p : Priority) : Msg tree :=
  Msg_raw (PL := nw_on "liver") (m_header (priority_msg (PL := platform) p))
    (demo_line (prio_body p)) (Some c).

Lemma ro_transmits c p :
  p <> undefined ->
  transmits (PL := nw_on "liver") c (priority_msg (PL := platform) p) (ro_text p) (ro_msg c p).
Proof.
  intros Hp. apply (by_str (PL := nw_on "liver") c _ _
    (demo_line (m_header (priority_msg (PL := platform) p)))); destruct p; try done;
    vm_compute; reflexivity.
Qed.

Definition ro_init : duo tree :=
  duo_init "pingutv" "liver" (ro_store "liver") (ro_store "pingutv").

(** Both connections are given to the deciding side. *)
Definition ro_add (c : sid) (d : duo tree) : duo tree :=
  let b := (addSession (PL := platform) 0 c (d_boss d)).2 in
  mkDuo b (d_other d) ({[ c ]} ∪ d_added d) (announce c b.1 (d_announced d)) (d_handled d)
    (d_closed d) (d_closed_far d).
Definition ro_hear (c : sid) (p : Priority) (d : duo tree) : duo tree :=
  mkDuo (d_boss d) (remote_handlePriorityMsg (PL := nw_on "liver") (d_other d, ro_msg c p)).2.1
    (d_added d) (d_announced d) ({[ c ]} ∪ d_handled d) (d_closed d) (d_closed_far d).
Definition ro_close (c : sid) (d : duo tree) : duo tree :=
  mkDuo (remote_onSessionClosed c (d_boss d).1, (d_boss d).2) (d_other d) (d_added d)
    (d_announced d) (d_handled d) ({[ c ]} ∪ d_closed d) (d_closed_far d).

Lemma ro_add_step c d :
  c ∉ d_added d -> peer_of (d_boss d).2 c = Some "liver" ->
  (addSession (PL := platform) 0 c (d_boss d)).1 = Ok tt -> step d (ro_add c d).
Proof.
  intros Hc Hp E. destruct d as [b o ad an ha cl clf]. simpl in *.
  apply (duo_boss_add _ _ _ _ _ _ _ 0); [done|done|].
  rewrite <-E. apply surjective_pairing.
Qed.

Lemma ro_hear_step c p d :
  d_announced d !! c = Some p -> c ∉ d_handled d -> p <> undefined ->
  is_Some ((d_other d).2 !! c) ->
  (remote_handlePriorityMsg (PL := nw_on "liver") (d_other d, ro_msg c p)).1 <> Undefined ->
  step d (ro_hear c p d).
Proof.
  intros Ha Hh Hp Hst Hu. destruct d as [b o ad an ha cl clf]. simpl in *.
  destruct (remote_handlePriorityMsg (PL := nw_on "liver") (o, ro_msg c p)) as [r [o' msg']] eqn:E.
  unfold ro_hear. simpl. rewrite E. simpl in Hu.
  exact (duo_announced _ _ _ _ _ _ _ c p (ro_text p) _ r b o o' msg' ad an ha cl clf Ha Hh
    (ro_transmits c p Hp) Hst E Hu).
Qed.

Lemma ro_close_step c d : c ∈ d_added d -> step d (ro_close c d).
Proof. intros Hc. destruct d. by apply duo_boss_closed. Qed.

Lemma ro_json p v :
  write_json (prio_body p : tree) = Some (v +:+ str1 NL) -> read_json v = Some (prio_body p : tree).
Proof.
  assert (write_json (prio_body p : tree) = Some (demo_line (prio_body p) +:+ str1 NL)) as E
    by (destruct p; vm_compute; reflexivity).
  rewrite E. intros [= <-%str_app_inj_r]. by destruct p; vm_compute.
Qed.

(** The high priority connection of liver, as pingutv announced it. *)
Lemma roles_agree_witness :
  m_sessionH (d_other (ro_hear 1%positive high (ro_add 1%positive ro_init))).1 = Some 1%positive.
Proof.
  destruct (roles_agree (PT := tree_PTree) (JS := nw_json) "pingutv" "liver" "4242" "4242"
    (Node EmptyString []) (Node EmptyString []) id (ro_store "liver") (ro_store "pingutv")
    (ro_hear 1%positive high (ro_add 1%positive ro_init))) as (_ & _ & H & _).
  - exact ro_json.
  - discriminate.
  - reflexivity.
  - eapply rtc_l; [apply ro_add_step|apply rtc_once, ro_hear_step]; try done.
  - apply (H 1%positive high).
    + vm_compute. reflexivity.
    + vm_compute. reflexivity.
    + apply not_elem_of_empty.
    + intros (s & Hs & Hc). vm_compute in Hs. injection Hs as <-. discriminate.
Defined.

(** Announcements on different connections may overtake each other: the
    deciding side closes its first high priority connection and announces a
    second one; when the first announcement is handled last, the other side
    uses the connection that is closed and asks the one in use to close. *)
Lemma stale_announcement_wins :
  let d := ro_hear 1%positive high (ro_hear 2%positive high
             (ro_add 2%positive (ro_close 1%positive (ro_add 1%positive ro_init)))) in
  rtc step ro_init d /\
  m_sessionH (d_boss d).1 = Some 2%positive /\ 1%positive ∈ d_closed d /\
  m_sessionH (d_other d).1 = Some 1%positive /\ asked 2%positive (d_other d).2.
Proof.
  cbv zeta. split_and!.
  - eapply rtc_l; [apply (ro_add_step 1%positive); done|].
    eapply rtc_l; [apply (ro_close_step 1%positive); apply (bool_decide_unpack _); reflexivity|].
    eapply rtc_l; [apply (ro_add_step 2%positive); try done; by apply (bool_decide_unpack _)|].
    eapply rtc_l; [apply (ro_hear_step 2%positive high)|
      apply rtc_once, (ro_hear_step 1%positive high)]; try done; by apply (bool_decide_unpack _).
  - vm_compute. reflexivity.
  - apply (bool_decide_unpack _). vm_compute. reflexivity.
  - vm_compute. reflexivity.
  - eexists. split; vm_compute; reflexivity.
Qed.
End Roles_witnesses.
