(* ===== verification/NetRuns.v ===== *)
(** * NetRuns: runs of a network that can be computed

    [net_play] follows a list of happenings in a network as the code does,
    and is sound for [net_step].  With it two servers are started from their
    constructors and connect. *)
From S2P Require Import Prelude Effects BetterEnum Priority AccuLine PTree UConfig.
From S2P Require Import Addr Demo Msg InputProcessor Stream Dispatcher Session OutQueue.
From S2P Require Import Transport Remote Outgoing NetServer Events ServerWf ServerProps Network Nodes.

(** What may happen next. *)
Inductive happening :=
  | HTurn (node : string) (ev : event)
  | HExpire (node : string)                       (* the timer of the outgoing manager *)
  | HTick (node : string)
  | HWritten (node : string) (ss : sid)           (* the write of the session completes *)
  | HArrive (node : string) (ss : sid)            (* all that is on its way is read *)
  | HRead (node : string) (ss : sid) (block : string)  (* from an application *)
  | HConnect (e1 e2 : endpoint).

Section Play.
Context {T : Type} (PT : PTree T) (JS : Json T).
Variables (pid : string -> string) (ini : string -> T).
Abbreviation net_step := (net_step PT JS pid ini).
Abbreviation platform_of := (platform_of PT JS pid ini).

(** A turn of one server that leaves its channels with the bytes it wrote. *)
Definition turn (node : string) (ev : event) (wires : gmap endpoint (endpoint * string)) (N : net T)
    : option (net T) :=
  w ← n_servers N !! node;
  match handle (PL := platform_of node) ev w with
  | (Ok _, w') => Some (mkNet (<[node := w']> (n_servers N))
                         (transmit node w w' (fun _ => EmptyString) wires))
  | _ => None
  end.

Definition is_read (ev : event) : bool := match ev with EvRead _ (Some _) => true | _ => false end.

Definition happen (h : happening) (N : net T) : option (net T) :=
  match h with
  | HTurn node ev =>
      w ← n_servers N !! node;
      if ready_b (T := T) ev w && negb (is_read ev) then turn node ev (n_wires N) N else None
  | HExpire node =>
      w ← n_servers N !! node;
      d ← m_wait (m_outman w);
      if (d <=? sv_now w)%Z then
        turn node (EvTimer (set_fired (S (m_fired (m_outman w))) (set_wait_until None (m_outman w))))
          (n_wires N) N
      else None
  | HTick node =>
      w ← n_servers N !! node;
      match m_fired (m_outman w) with
      | S n => turn node (EvTimer (tick (sv_now w) (set_fired n (m_outman w))))
                 (n_wires N) N
      | O => None
      end
  | HWritten node ss =>
      w ← n_servers N !! node;
      s ← sv_store w !! ss;
      match writes s with
      | AWrite buf :: _ => turn node (EvWritten ss buf false) (n_wires N) N
      | _ => None
      end
  | HArrive node ss =>
      w ← n_servers N !! node;
      '(from, text) ← n_wires N !! (node, ss);
      if in_progress_b ARead ss w && negb (str_empty text) then
        turn node (EvRead ss (Some text)) (<[(node, ss) := (from, EmptyString)]> (n_wires N)) N
      else None
  | HRead node ss block =>
      w ← n_servers N !! node;
      match n_wires N !! (node, ss) with
      | None => if in_progress_b ARead ss w then turn node (EvRead ss (Some block)) (n_wires N) N else None
      | Some _ => None
      end
  | HConnect e1 e2 =>
      match n_wires N !! e1, n_wires N !! e2 with
      | None, None =>
          if decide (e1 = e2) then None
          else Some (mkNet (n_servers N)
                 (<[e1 := (e2, EmptyString)]> (<[e2 := (e1, EmptyString)]> (n_wires N))))
      | _, _ => None
      end
  end.

Fixpoint net_play (hs : list happening) (N : net T) : option (net T) :=
  match hs with
  | [] => Some N
  | h :: hs' => N' ← happen h N; net_play hs' N'
  end.
End Play.

Section Play_lemmas.
Context {T : Type} (PT : PTree T) (JS : Json T).
Variables (pid : string -> string) (ini : string -> T).
Abbreviation net_step := (net_step PT JS pid ini).
Abbreviation turn := (turn PT JS pid ini).
Abbreviation platform_of := (platform_of PT JS pid ini).

Lemma turn_sound node ev (N N' : net T) w :
  n_servers N !! node = Some w -> ready (PL := platform_of node) ev w ->
  (forall ss block, ev = EvRead ss (Some block) -> n_wires N !! (node, ss) = None) ->
  turn node ev (n_wires N) N = Some N' -> net_step N N'.
Proof.
  intros Hw Hr Hev. unfold NetRuns.turn. rewrite Hw. simpl.
  destruct (handle ev w) as [[[]|e| |] w'] eqn:E; try done. intros [= <-].
  destruct N as [servers wires]. by apply (net_turn _ _ _ _ node ev w w').
Qed.

Lemma happen_sound h (N N' : net T) : happen PT JS pid ini h N = Some N' -> net_step N N'.
Proof.
  destruct h as [node ev|node|node|node ss|node ss|node ss block|e1 e2]; cbn [happen].
  - destruct (n_servers N !! node) as [w|] eqn:Hw; [|done]. simpl.
    destruct (ready_b ev w) eqn:Hr; [|done]. destruct (is_read ev) eqn:Hev; [done|].
    apply (turn_sound node ev N N' w); [done|by apply ready_b_sound|]. by intros ss block ->.
  - destruct (n_servers N !! node) as [w|] eqn:Hw; [|done]. simpl.
    destruct (m_wait (m_outman w)) as [d|] eqn:Hd; [|done]. simpl.
    destruct (Z.leb_spec d (sv_now w)); [|done].
    apply (turn_sound node _ N N' w); [done| |done]. by eapply tm_expire.
  - destruct (n_servers N !! node) as [w|] eqn:Hw; [|done]. simpl.
    destruct (m_fired (m_outman w)) as [|n] eqn:Hf; [done|].
    apply (turn_sound node _ N N' w); [done| |done]. by apply tm_fired.
  - destruct (n_servers N !! node) as [w|] eqn:Hw; [|done]. simpl.
    destruct (sv_store w !! ss) as [s|] eqn:Hs; [|done]. simpl.
    destruct (writes s) as [|[| |buf|] l] eqn:Hwr; try done.
    apply (turn_sound node _ N N' w); [done| |done]. exists s. split; [done|].
    assert (AWrite buf ∈ writes s) as Hin by (rewrite Hwr; by left).
    by apply list_elem_of_filter in Hin as [_ ?].
  - destruct (n_servers N !! node) as [w|] eqn:Hw; [|done]. simpl.
    destruct (n_wires N !! (node, ss)) as [[from text]|] eqn:Hwi; [|done]. simpl.
    destruct (in_progress_b ARead ss w) eqn:Hr; [|done]. simpl.
    destruct (str_empty text) eqn:He; [done|]. simpl. unfold NetRuns.turn. rewrite Hw. simpl.
    destruct (run_one (read_handler ss (Some text)) w) as [[[]|e| |] w'] eqn:E; try done. intros [= <-].
    destruct N as [servers wires]. simpl in *.
    apply (net_read _ _ _ _ node ss from text EmptyString w w' (fun _ => EmptyString)); try done.
    + by rewrite str_app_nil_r.
    + by intros ->.
    + by apply in_progress_b_sound.
  - destruct (n_servers N !! node) as [w|] eqn:Hw; [|done]. simpl.
    destruct (n_wires N !! (node, ss)) eqn:Hwi; [done|].
    destruct (in_progress_b ARead ss w) eqn:Hr; [|done].
    apply (turn_sound node _ N N' w); [done|by apply in_progress_b_sound|]. by intros x b [= -> ->].
  - destruct (n_wires N !! e1) eqn:H1; [done|]. destruct (n_wires N !! e2) eqn:H2; [done|].
    case_decide; [done|]. intros [= <-]. destruct N. by apply net_connect.
Qed.

Lemma net_play_reaches hs (N N' : net T) :
  net_play PT JS pid ini hs N = Some N' -> rtc net_step N N'.
Proof.
  revert N; induction hs as [|h hs IH]; intros N; cbn [net_play]; [by intros [= ->]|].
  destruct (happen _ _ _ _ h N) as [N1|] eqn:E; [|done]. simpl. intros H.
  eapply rtc_l; [by eapply happen_sound|by apply IH].
Qed.
End Play_lemmas.

(** ** Two servers *)

Section Two_servers.
Definition tw_pid (node : string) : string := "4242".
(** Each is configured to connect to pingutv; pingutv itself does not. *)
Definition tw_ini (node : string) : tree := pt_put ["remotes"; "name"] "pingutv" pt_empty.
Abbreviation tw_on := (platform_of tree_PTree nw_json tw_pid tw_ini).
Definition tw_start (node : string) : outcome unit * server tree :=
  NetServer_ctor (PL := tw_on node) true (server_init 0 32300).
Definition tw_net : net tree :=
  mkNet (<["liver" := (tw_start "liver").2]> {["pingutv" := (tw_start "pingutv").2]}) ∅.

(** The connection of the sessions [ss] of both nodes. *)
Definition tw_connect (ss : sid) : list happening :=
  [HConnect ("liver", ss) ("pingutv", ss);
   HTurn "pingutv" (EvAccept (Some (Some "10.0.0.2"))); HTurn "liver" (EvConnected ss false);
   HWritten "pingutv" ss; HWritten "liver" ss; HArrive "liver" ss; HArrive "pingutv" ss;
   HWritten "pingutv" ss; HArrive "liver" ss].
Definition tw_run : list happening :=
  [HExpire "liver"; HTick "liver"; HTurn "liver" (EvResolved (Some "10.0.0.9") "pingutv" [] [])] ++
  tw_connect 1%positive ++ tw_connect 2%positive.

Definition tw_header : tree :=
  pt_put ["cname"] "ping" (pt_put ["to"; "n"] STAR (pt_put ["to"; "a"] "uecho" pt_empty)).

(** An application of liver connects, says who it is and sends to uecho@*. *)
Definition tw_auth : tree :=
  pt_put ["cname"] "auth" (pt_put ["from"; "n"] "liver" (pt_put ["from"; "a"] "uecho" pt_empty)).
Definition tw_storm : list happening :=
  [HTurn "liver" (EvAccept (Some (Some "127.0.0.1"))); HWritten "liver" 3%positive;
   HRead "liver" 3%positive (nw_text (demo_line tw_auth));
   HRead "liver" 3%positive (nw_text (demo_line tw_header));
   HWritten "liver" 1%positive].

Definition tw_connected : net tree :=
  default tw_net (net_play tree_PTree nw_json tw_pid tw_ini tw_run tw_net).
Definition tw_stormy : net tree :=
  default tw_net (net_play tree_PTree nw_json tw_pid tw_ini tw_storm tw_connected).
Definition tw_server (node : string) (N : net tree) : server tree :=
  default (tw_start node).2 (n_servers N !! node).

(** The two servers, started by their constructors, connect: both channels
    are, with the same session in each role. *)
Lemma servers_connect :
  rtc (net_step tree_PTree nw_json tw_pid tw_ini) tw_net tw_connected /\
  roles <$> m_nodeToSession (tw_server "liver" tw_connected) !! "pingutv" =
    Some (Some 1%positive, Some 2%positive, None) /\
  roles <$> m_nodeToSession (tw_server "pingutv" tw_connected) !! "liver" =
    Some (Some 1%positive, Some 2%positive, None).
Proof.
  split_and!; [|vm_compute; reflexivity..].
  apply (net_play_reaches _ _ _ _ tw_run). vm_compute. reflexivity.
Qed.

Lemma tw_stormy_reached : rtc (net_step tree_PTree nw_json tw_pid tw_ini) tw_net tw_stormy.
Proof.
  etrans; [apply servers_connect|].
  apply (net_play_reaches _ _ _ _ tw_storm). vm_compute. reflexivity.
Qed.

#[local] Opaque tw_stormy tw_connected.

Lemma tw_joined node peer :
  node = "liver" /\ peer = "pingutv" \/ node = "pingutv" /\ peer = "liver" ->
  joined (tw_server node tw_stormy) peer 1%positive.
Proof.
  intros H. split.
  - by destruct H as [[-> ->]|[-> ->]]; vm_compute.
  - exists (default (remote_init peer) (m_nodeToSession (tw_server node tw_stormy) !! peer)).
    by destruct H as [[-> ->]|[-> ->]]; split; vm_compute.
  - by destruct H as [[-> ->]|[-> ->]]; vm_compute.
  - exists (default (session_init incoming EmptyString EmptyString)
      (sv_store (tw_server node tw_stormy) !! 1%positive)).
    by destruct H as [[-> ->]|[-> ->]]; split; [vm_compute|split; vm_compute; eauto|vm_compute|split; vm_compute; eauto].
Qed.

Lemma feeds_checked (node : string) (ss : sid) (e : endpoint) (wires : gmap endpoint (endpoint * string)) :
  forallb (fun x => Bool.eqb (bool_decide (x.2.1 = (node, ss))) (bool_decide (x.1 = e)))
    (map_to_list wires) = true ->
  feeds node ss e wires.
Proof.
  rewrite forallb_forall. intros H x from bytes Hx%elem_of_map_to_list%list_elem_of_In.
  specialize (H _ Hx). apply Bool.eqb_prop in H. simpl in H.
  by repeat case_bool_decide.
Qed.


(** An application of each node connects and says who it is; then that of
    liver sends to that of pingutv. *)
Definition tw_join (node app : string) (ss : sid) : list happening :=
  [HTurn node (EvAccept (Some (Some "127.0.0.1"))); HWritten node ss;
   HRead node ss (nw_text (demo_line
     (pt_put ["cname"] "auth" (pt_put ["from"; "n"] node (pt_put ["from"; "a"] app pt_empty)))))].
Definition tw_apps : list happening :=
  tw_join "liver" "usender" 3%positive ++ tw_join "pingutv" "uecho" 3%positive.
Definition tw_peopled : net tree :=
  default tw_net (net_play tree_PTree nw_json tw_pid tw_ini tw_apps tw_connected).
Definition tw_session (node : string) (ss : sid) : session tree :=
  default (session_init incoming EmptyString EmptyString) (sv_store (tw_server node tw_peopled) !! ss).
Definition tw_msg1 (node : string) (ss : sid) : Msg tree :=
  default (Msg_out (PL := tw_on node) Addr_default "auth" pt_empty) (m_msg1 (tw_session node ss)).
Definition tw_ping : tree :=
  pt_put ["cname"] "ping" (pt_put ["to"; "n"] "pingutv" (pt_put ["to"; "a"] "uecho" pt_empty)).
Definition tw_spaced : string := nw_text (" " +:+ demo_line tw_ping).
Definition tw_text : string := nw_text (demo_line tw_ping).

Lemma tw_peopled_reached : rtc (net_step tree_PTree nw_json tw_pid tw_ini) tw_net tw_peopled.
Proof.
  etrans; [apply servers_connect|].
  apply (net_play_reaches _ _ _ _ tw_apps). vm_compute. reflexivity.
Qed.

#[local] Opaque tw_peopled.

Lemma relay_across_nodes_witness :
  rtc (net_step tree_PTree nw_json tw_pid tw_ini) tw_net tw_peopled /\
  exists a1 sh1 b1 target1,
    reads (PL := tw_on "liver") 3%positive [str_take 10 tw_spaced; str_drop 10 tw_spaced]
      (tw_server "liver" tw_peopled) = (Ok tt, a1) /\
    sv_store a1 !! 1%positive = Some sh1 /\ m_pending sh1 = [ARead; AWrite tw_text] /\
    reads (PL := tw_on "pingutv") 1%positive [str_take 20 tw_text; str_drop 20 tw_text]
      (tw_server "pingutv" tw_peopled) = (Ok tt, b1) /\
    sv_store b1 !! 3%positive = Some target1 /\
    m_outQueue target1 = [mkQueuedMsg tw_text local 0].
Proof.
  split; [exact tw_peopled_reached|].
  destruct (relay_across_nodes (PT := tree_PTree) (JS := nw_json) "liver" "pingutv" "4242" "4242"
    (tw_ini "liver") (tw_ini "pingutv") (tw_server "liver" tw_peopled) (tw_server "pingutv" tw_peopled)
    3%positive (tw_session "liver" 3%positive) (tw_msg1 "liver" 3%positive)
    (default (remote_init "pingutv") (m_nodeToSession (tw_server "liver" tw_peopled) !! "pingutv"))
    1%positive (tw_session "liver" 1%positive)
    1%positive (tw_session "pingutv" 1%positive) (tw_msg1 "pingutv" 1%positive)
    3%positive (tw_session "pingutv" 3%positive) (" " +:+ demo_line tw_ping) (demo_line tw_ping)
    "{}" tw_ping "ping" "uecho"
    [str_take 10 tw_spaced; str_drop 10 tw_spaced] [str_take 20 tw_text; str_drop 20 tw_text])
    as (a1 & sh1 & b1 & t1 & Ea & Hsh & Hp & _ & Eb & Ht & Hq);
    [first [vm_compute; reflexivity
      | vm_compute; discriminate | vm_compute; repeat constructor; discriminate] ..|].
  exists a1, sh1, b1, t1. split_and!; [exact Ea|exact Hsh| |exact Eb|exact Ht| ].
  - rewrite Hp. vm_compute. reflexivity.
  - rewrite Hq. vm_compute. reflexivity.
Defined.
End Two_servers.
