(* ===== verification/NetLeaf.v ===== *)
(** * NetLeaf: a client on top of the outgoing manager
    (src/uzel/NetLeaf.h, src/uzel/NetLeaf.cpp)

    The class [Channel] of NetLeaf.h is declared and nowhere defined: it is
    the parameter [Channel] of the model, its laws are [ChannelLaws].  The
    manager is the one of the server, on another owner: [leaf_OutHost] is the
    second instance of its interface.  Nothing is connected to
    [s_sessionCreated] here. *)
From S2P Require Import Prelude Effects BetterEnum Priority AccuLine PTree UConfig.
From S2P Require Import Addr Demo Msg InputProcessor Dispatcher Session Remote.
From S2P Require Import Outgoing NetServer ServerWf.

Class Channel (T C : Type) := {
  chan_make : string -> C;                               (* the constructor *)
  chan_addSession : Z -> sid -> M (C * store T) unit;
  chan_send : Z -> Msg T -> M (C * store T) unit;
  chan_connected : C -> bool;
}.

(** The channel does not touch the signal [s_auth] of a session, whose slots
    only the owner of the session connects. *)
Definition same_signal {T} (st st' : store T) : Prop :=
  forall id, s_auth <$> st' !! id = s_auth <$> st !! id.
Class ChannelLaws (T C : Type) `{Channel T C} := {
  chan_send_signal now msg c st : same_signal st (chan_send now msg (c, st)).2.2;
}.

Record leaf (T C : Type) := mkLeaf {
  lf_now : Z;
  lf_store : store T;
  m_channel : C;
  lf_port : Z;                              (* m_port *)
  lf_ipToSession : gmap ip_address (gset sid);
  lf_outman : OutgoingManager;
  lf_dispatcher : MsgDispatcher T Empty_set Empty_set;
  lf_resolving : list string;               (* the async_resolve of start() *)
  lf_raised : option exn;                   (* pending on the loop's thread *)
}.
Arguments mkLeaf {T C}.
Arguments lf_now {T C}.
Arguments lf_store {T C}.
Arguments m_channel {T C}.
Arguments lf_port {T C}.
Arguments lf_ipToSession {T C}.
Arguments lf_outman {T C}.
Arguments lf_dispatcher {T C}.
Arguments lf_resolving {T C}.
Arguments lf_raised {T C}.

Section Setters.
Context {T C : Type}.
Implicit Types (w : leaf T C).
Definition lf_set_now v w : leaf T C := mkLeaf v (lf_store w) (m_channel w) (lf_port w)
  (lf_ipToSession w) (lf_outman w) (lf_dispatcher w) (lf_resolving w) (lf_raised w).
Definition lf_set_store v w : leaf T C := mkLeaf (lf_now w) v (m_channel w) (lf_port w)
  (lf_ipToSession w) (lf_outman w) (lf_dispatcher w) (lf_resolving w) (lf_raised w).
Definition lf_set_channel v w : leaf T C := mkLeaf (lf_now w) (lf_store w) v (lf_port w)
  (lf_ipToSession w) (lf_outman w) (lf_dispatcher w) (lf_resolving w) (lf_raised w).
Definition lf_set_outman v w : leaf T C := mkLeaf (lf_now w) (lf_store w) (m_channel w) (lf_port w)
  (lf_ipToSession w) v (lf_dispatcher w) (lf_resolving w) (lf_raised w).
Definition lf_set_dispatcher v w : leaf T C := mkLeaf (lf_now w) (lf_store w) (m_channel w) (lf_port w)
  (lf_ipToSession w) (lf_outman w) v (lf_resolving w) (lf_raised w).
Definition lf_set_resolving v w : leaf T C := mkLeaf (lf_now w) (lf_store w) (m_channel w) (lf_port w)
  (lf_ipToSession w) (lf_outman w) (lf_dispatcher w) v (lf_raised w).
Definition lf_set_raised v w : leaf T C := mkLeaf (lf_now w) (lf_store w) (m_channel w) (lf_port w)
  (lf_ipToSession w) (lf_outman w) (lf_dispatcher w) (lf_resolving w) v.
End Setters.

#[export] Instance leaf_thread {T C} : Thread (leaf T C) := {
  raised := lf_raised;
  set_raised := lf_set_raised;
}.

Section NetLeaf.
Context {T C : Type} {PL : Platform T} {CH : Channel T C}.
Abbreviation W := (leaf T C).

Definition lf_sess {A} (ss : sid) (m : M (session T) A) : M W A :=
  zoom lf_store lf_set_store (on_session ss m).

(** A method of the channel. *)
Definition on_channel (m : M (C * store T) unit) : M W unit :=
  zoom (fun w => (m_channel w, lf_store w))
       (fun v w => lf_set_channel v.1 (lf_set_store v.2 w)) m.

(** The constructor. *)
Definition NetLeaf_ctor (now port : Z) : W :=
  mkLeaf now ∅ (chan_make "userver") port ∅
    (start_manager now (add_host now "localhost" (OutgoingManager_init port 1)))
    MsgDispatcher_init [] None.

(** Resolves localhost; nobody calls it. *)
Definition leaf_start : M W unit :=
  modify (fun w => lf_set_resolving (lf_resolving w ++ ["localhost"]) w).

Definition leaf_auth (ss : sid) : M W unit :=
  isLocal <- lf_sess ss peerIsLocal ;;
  if negb isLocal then lf_sess ss (gracefullClose "remote connection refused")
  else
    appname <- lf_sess ss peerApp ;;
    if bool_decide (appname <> "userver") then
      lf_sess ss (gracefullClose "remote connection refused")
    else
      now <- gets lf_now ;;
      on_channel (chan_addSession now ss).

Definition leaf_send (msg : Msg T) : M W unit :=
  now <- gets lf_now ;;
  on_channel (chan_send now msg).

(** What the manager sees of the leaf: its table of sessions by address is
    never filled, and the creation of a session is not noticed. *)
#[export] Instance leaf_OutHost : OutHost T W := {
  out_get := lf_outman;
  out_set := lf_set_outman;
  out_now := lf_now;
  out_store := lf_store;
  out_found addr w :=
    omap (lf_store w !!.) (elements (default ∅ (lf_ipToSession w !! addr)));
  out_connectedFn w := fun _ => Some (chan_connected (m_channel w));
  out_make_session d ip hname w :=
    let id := fresh (dom (lf_store w)) in
    (Ok id, lf_set_store (<[id := session_init d ip hname]> (lf_store w)) w);
  out_sessionCreated _ := ret tt;
  out_on_session := lf_sess;
}.

(** session::dispatchMsg, and the handlers of the session's operations. *)
Definition leaf_dispatchMsg (ss : sid) (msg : Msg T) : M W unit :=
  authed <- lf_sess ss (gets authenticated) ;;
  if negb authed then
    ok <- lf_sess ss (authenticate msg) ;;
    if negb ok then lf_sess ss (gracefullClose "authentication failed")
    else
      slot <- lf_sess ss (gets s_auth) ;;
      when slot (leaf_auth ss)
  else dispatch lf_dispatcher lf_set_dispatcher
         (fun h : Empty_set => match h with end) (fun h : Empty_set => match h with end) true msg.

Definition leaf_run_slot (slot : closed_slot) : M W unit :=
  match slot with
  | SlotHost hname =>
      modify (fun w => lf_set_outman (host_closed (lf_now w) hname (lf_outman w)) w)
  | _ => ret tt
  end.
Definition leaf_emit (ss : sid) (m : M (session T) (list closed_slot)) : M W unit :=
  slots <- lf_sess ss m ;;
  for_each slots leaf_run_slot.

Definition leaf_get_processor (ss : sid) (w : W) : InputProcessor T * W :=
  (default IP_init (m_processor <$> lf_store w !! ss), w).
Definition leaf_put_processor (ss : sid) (v : InputProcessor T * W) (w : W) : W :=
  lf_set_store (alter (set_processor v.1) ss (lf_store v.2)) v.2.
Definition leaf_read_handler (ss : sid) (data : option string) : M W unit :=
  lf_sess ss (complete ARead) ;;
  match data with
  | None => leaf_emit ss stop
  | Some input =>
      ok <- zoom (leaf_get_processor ss) (leaf_put_processor ss)
              (processNewInput (leaf_dispatchMsg ss) ss input) ;;
      if negb ok then leaf_emit ss stop else lf_sess ss do_read
  end.
End NetLeaf.

(** One turn of the event loop of a leaf, or a message its user sends. *)
Inductive lf_step {T C} {PL : Platform T} {CH : Channel T C} : relation (leaf T C) :=
  | lf_clock now w : (lf_now w <= now)%Z -> lf_step w (lf_set_now now w)
  | lf_timer w o : timer_step (lf_now w) (lf_outman w) o -> lf_step w (lf_set_outman o w)
  | lf_resolved rezit hname l1 l2 w :
      m_resolves (lf_outman w) = l1 ++ hname :: l2 ->
      lf_step w (run_one (connectResolved rezit hname)
        (lf_set_outman (set_resolves (l1 ++ l2) (lf_outman w)) w)).2
  | lf_connected ss ec w : lf_step w (run_one (leaf_emit ss (connectHandler (lf_now w) ec)) w).2
  | lf_read ss data w : lf_step w (run_one (leaf_read_handler ss data) w).2
  | lf_written ss buf ec w :
      lf_step w (run_one (leaf_emit ss (write_handler (lf_now w) buf ec)) w).2
  | lf_bye ss buf w : lf_step w (run_one (leaf_emit ss (bye_handler buf)) w).2
  | lf_send msg w : lf_step w (leaf_send msg w).2.

(** ** Lemmas *)

Section Leaf_inv.
Context {T C : Type} {PL : Platform T} {CH : Channel T C} {LAWS : ChannelLaws T C}.
Implicit Types (w : leaf T C).
Variable P : C -> Prop.
Hypothesis Psend : forall now msg c st, P c -> P (chan_send now msg (c, st)).2.1.

(** No session has a slot on [s_auth], the table of sessions is empty, and
    the channel is what sending alone makes of it. *)
Definition leaf_inv w : Prop :=
  (forall id s, lf_store w !! id = Some s -> s_auth s = false) /\
  lf_ipToSession w = ∅ /\ P (m_channel w).

(** A method that does not connect [s_auth]. *)
Definition deaf {A} (m : M (session T) A) : Prop := forall s, s_auth (m s).2 = s_auth s.

Lemma deaf_quiet {A} (m : M (session T) A) : quiet m -> deaf m.
Proof. intros Hm s. apply (le_auth _ _ _ (Hm (fun _ => True) s)). Qed.

Lemma inv_sess {A} ss (m : M (session T) A) : deaf m -> preserves leaf_inv (lf_sess ss m).
Proof.
  intros Hm w (Hs & Hip & HP). unfold lf_sess, zoom, on_session.
  destruct (lf_store w !! ss) as [s|] eqn:E; [|by split_and!].
  pose proof (Hm s) as Ha. destruct (m s) as [o s']. simpl in *. split_and!; try done.
  intros id s0. simpl. destruct (decide (id = ss)) as [->|Hne].
  - rewrite lookup_insert_eq. intros [= <-]. rewrite Ha. by eapply Hs.
  - rewrite lookup_insert_ne by done. apply Hs.
Qed.

Lemma deaf_bind {A B} (m : M (session T) A) (k : A -> M (session T) B) :
  deaf m -> (forall a, deaf (k a)) -> deaf (bind m k).
Proof.
  intros Hm Hk s. unfold bind. specialize (Hm s).
  destruct (m s) as [[a|e| |] s']; simpl in *; try done. by rewrite Hk.
Qed.

Lemma deaf_stop : deaf (stop (T := T)).
Proof.
  intros s. unfold stop, shutdown. run_m. destruct (m_stopped s) eqn:Hs; simpl; [done|].
  by rewrite Hs.
Qed.

Lemma deaf_write now buf ec : deaf (write_handler (T := T) now buf ec).
Proof.
  apply deaf_bind; [apply deaf_quiet, quiet_complete|intros _].
  destruct ec; [apply deaf_stop|]. apply deaf_bind; [done|intros [|m q]]; [done|].
  apply deaf_bind; [done|intros _]. apply deaf_bind; [apply deaf_quiet, quiet_deleteOld|intros _].
  apply deaf_bind; [done|intros b]. apply deaf_bind; [|done].
  destruct b; [apply deaf_quiet, quiet_sendByeAndClose|done].
Qed.

Lemma deaf_authenticate msg : deaf (authenticate (T := T) msg).
Proof.
  intros s. unfold authenticate. run_m.
  by repeat match goal with |- context [if ?b then _ else _] => destruct b end.
Qed.

Lemma inv_emit ss m : deaf m -> preserves leaf_inv (leaf_emit (C := C) ss m).
Proof.
  intros Hm. apply preserves_bind; [by apply inv_sess|intros slots].
  apply preserves_for_each. intros [| |h] _; [apply preserves_ret..|].
  apply preserves_modify. by intros w.
Qed.
#[local] Hint Resolve inv_sess inv_emit deaf_stop deaf_authenticate : preserve.

(** The authentication slot is never reached. *)
Lemma inv_dispatchMsg ss msg : preserves leaf_inv (leaf_dispatchMsg (C := C) ss msg).
Proof.
  unfold leaf_dispatchMsg. apply preserves_bind; [by apply inv_sess|intros authed].
  apply preserves_if.
  - apply preserves_bind; [auto with preserve|intros ok].
    apply preserves_if; [apply inv_sess, deaf_quiet, quiet_gracefullClose|].
    intros w Hw. unfold bind. destruct (lf_store w !! ss) as [s|] eqn:E.
    + unfold lf_sess, zoom, on_session. rewrite E. unfold gets. simpl.
      rewrite (proj1 Hw _ _ E). simpl. rewrite insert_id by done. exact Hw.
    + unfold lf_sess, zoom, on_session. by rewrite E.
  - apply dispatch_inline_preserves; [by intros w Hw|by intros v w Hw|intros []|intros []].
Qed.

Lemma inv_read ss data : preserves leaf_inv (leaf_read_handler (C := C) ss data).
Proof.
  unfold leaf_read_handler.
  apply preserves_bind; [apply inv_sess, deaf_quiet, quiet_complete|intros _].
  destruct data as [input|]; [|auto with preserve].
  apply preserves_bind; [|intros ok; apply preserves_if;
    [auto with preserve|apply inv_sess, deaf_quiet, quiet_async]].
  apply (preserves_zoom _ (fun s => leaf_inv s.2)).
  - apply processNewInput_preserves. intros msg. apply inv_dispatchMsg.
  - done.
  - intros w [ip w'] _ (Hs & Hip & HP). split_and!; [|done..]. intros id s.
    unfold leaf_put_processor. simpl in *. destruct (decide (id = ss)) as [->|Hne].
    + rewrite lookup_alter_eq. intros (s0 & Hs0 & ->)%fmap_Some. simpl. by eapply Hs.
    + rewrite lookup_alter_ne by done. apply Hs.
Qed.

Lemma inv_outman o w : leaf_inv w -> leaf_inv (lf_set_outman o w).
Proof. done. Qed.

Lemma inv_connectResolved rezit hname :
  preserves leaf_inv (connectResolved (W := leaf T C) rezit hname).
Proof.
  assert (forall f, preserves leaf_inv (on_out (W := leaf T C) f)) as Hout
    by (intros f; by apply preserves_modify).
  unfold connectResolved. destruct rezit as [addr|]; [|auto with preserve].
  apply preserves_bind; [done|intros _].
  apply preserves_bind; [apply preserves_gets|intros [rh|]]; [|apply preserves_ub].
  apply preserves_bind; [apply preserves_gets|intros found].
  apply preserves_bind; [apply preserves_gets|intros fn].
  destruct (judge _ _ _) as [| |n]; [auto with preserve..|].
  apply preserves_bind; [done|intros _]. apply preserves_bind; [|done].
  induction (Z.to_nat n) as [|k IH]; [apply preserves_ret|].
  apply preserves_bind; [|intros _; exact IH].
  unfold create_session. apply preserves_bind; [|intros id].
  { intros w (Hs & Hip & HP). split_and!; try done. simpl. intros i s.
    destruct (decide (i = fresh (dom (lf_store w)))) as [->|Hne].
    - rewrite lookup_insert_eq. by intros [= <-].
    - rewrite lookup_insert_ne by done. apply Hs. }
  apply preserves_bind; [apply preserves_ret|intros _].
  apply preserves_bind; [by apply inv_sess|intros _; by apply inv_sess].
Qed.

Lemma inv_send msg : preserves leaf_inv (leaf_send (T := T) (C := C) msg).
Proof.
  intros w (Hs & Hip & HP). unfold leaf_send, bind, gets, on_channel, zoom.
  pose proof (chan_send_signal (lf_now w) msg (m_channel w) (lf_store w)) as Hsig.
  pose proof (Psend (lf_now w) msg (m_channel w) (lf_store w) HP) as HP'.
  destruct (chan_send _ _ _) as [o [c st]]. simpl in *. split_and!; try done.
  intros id s E. change (st !! id = Some s) in E. specialize (Hsig id). rewrite E in Hsig.
  symmetry in Hsig. apply fmap_Some in Hsig as (s0 & E0 & ->). by eapply Hs.
Qed.

Lemma inv_run_one m : preserves leaf_inv m -> preserves leaf_inv (run_one m).
Proof. intros Hm. by apply preserves_run_one; [|intros v w Hw]. Qed.

Lemma inv_step w w' : leaf_inv w -> lf_step w w' -> leaf_inv w'.
Proof.
  intros Hw Hstep. destruct Hstep as [now w1 _|w1 o _|rezit hname l1 l2 w1 _|ss ec w1|ss data w1
    |ss buf ec w1|ss buf w1|msg w1].
  - exact Hw.
  - exact Hw.
  - by apply inv_run_one; [apply inv_connectResolved|].
  - apply inv_run_one; [apply inv_emit|done]. apply deaf_bind; [apply deaf_quiet, quiet_complete|intros _].
    destruct ec; [apply deaf_stop|]. apply deaf_bind; [apply deaf_quiet, quiet_start|done].
  - by apply inv_run_one; [apply inv_read|].
  - by apply inv_run_one; [apply inv_emit, deaf_write|].
  - apply inv_run_one; [apply inv_emit|done].
    apply deaf_bind; [apply deaf_quiet, quiet_complete|intros _; apply deaf_stop].
  - by apply inv_send.
Qed.
End Leaf_inv.

Section Leaf_props.
Context {T C : Type} {PL : Platform T} {CH : Channel T C} {LAWS : ChannelLaws T C}.

Lemma authenticate_true msg (s : session T) :
  (authenticate msg s).1 = Ok true -> authenticate msg s = (Ok true, set_msg1 (Some msg) s).
Proof.
  unfold authenticate. run_m.
  by repeat match goal with |- context [if ?b then _ else _] => destruct b end.
Qed.

(** C36: Whatever the channel class does, as long as it does not connect the
    slots of sessions: in every state a NetLeaf reaches no session has a
    slot on s_auth, because nothing is connected to s_sessionCreated; the
    first message of a session that authenticates is recorded and nothing
    else happens, and the channel is only ever what sending makes of it: it
    is never given a session. *)
Theorem leaf_never_joins_channel (P : C -> Prop) now port (w : leaf T C) :
  P (chan_make "userver") ->
  (forall now msg c st, P c -> P (chan_send now msg (c, st)).2.1) ->
  rtc lf_step (NetLeaf_ctor now port) w ->
  P (m_channel w) /\
  forall ss s msg, lf_store w !! ss = Some s ->
    s_auth s = false /\
    (m_msg1 s = None -> (authenticate msg s).1 = Ok true ->
     leaf_dispatchMsg ss msg w =
       (Ok tt, lf_set_store (<[ss := set_msg1 (Some msg) s]> (lf_store w)) w)).
Proof.
  intros HP Hsend Hr.
  assert (leaf_inv P w) as (Ha & _ & Hc).
  { revert w Hr. apply (rtc_ind_r (leaf_inv P)).
    - split_and!; [|done..]. intros id s. unfold NetLeaf_ctor. simpl. by rewrite lookup_empty.
    - intros w1 w2 _ Hs Hw. by eapply inv_step. }
  split; [done|]. intros ss s msg Hs. pose proof (Ha _ _ Hs) as Hsa. split; [done|].
  intros Hm Hau%authenticate_true. unfold leaf_dispatchMsg, bind, lf_sess, zoom, on_session.
  rewrite Hs. unfold gets, authenticated. simpl. rewrite Hm. simpl.
  rewrite lookup_insert_eq. simpl. rewrite Hau. simpl. rewrite lookup_insert_eq. simpl.
  rewrite Hsa. simpl. by rewrite !insert_insert_eq.
Qed.
End Leaf_props.

(** ** Witness *)

(** A channel that keeps the messages until it has a session. *)
Record kept_channel := mkKept { kc_session : option sid; kc_kept : list (Msg tree) }.

Section Leaf_witness.
#[local] Instance lw_liver : Platform tree := demo "liver" "usender".

#[local] Instance kept_Channel : Channel tree kept_channel := {
  chan_make _ := mkKept None [];
  chan_addSession _ ss := modify (fun v => (mkKept (Some ss) (kc_kept v.1), v.2));
  chan_send now msg v :=
    match kc_session v.1 with
    | None => (Ok tt, (mkKept None (kc_kept v.1 ++ [msg]), v.2))
    | Some ss => zoom snd (fun st v => (v.1, st)) (on_session ss (putOutQueue now msg)) v
    end;
  chan_connected c := bool_decide (is_Some (kc_session c));
}.

#[local] Instance kept_ChannelLaws : ChannelLaws tree kept_channel.
Proof.
  split. intros now msg c st id. unfold chan_send, kept_Channel, zoom, on_session. simpl.
  destruct (kc_session c) as [ss|]; [|done]. destruct (st !! ss) as [s|] eqn:Hs; [|done].
  pose proof (deaf_quiet (putOutQueue now msg) (quiet_putOutQueue now msg) s) as Ha.
  destruct (putOutQueue now msg s) as [o s']. simpl in *.
  destruct (decide (id = ss)) as [->|Hne].
  - rewrite lookup_insert_eq, Hs. simpl. by rewrite Ha.
  - by rewrite lookup_insert_ne.
Qed.

Definition lw_init : leaf tree kept_channel := NetLeaf_ctor 0 32300.
Definition lw_ticked : leaf tree kept_channel :=
  lf_set_outman (tick 0 (set_fired 0 (set_fired 1 (set_wait_until None (lf_outman lw_init)))))
    (lf_set_outman (set_fired 1 (set_wait_until None (lf_outman lw_init))) lw_init).
Definition lw_created : leaf tree kept_channel :=
  (run_one (connectResolved (Some "127.0.0.1") "localhost")
    (lf_set_outman (set_resolves ([] ++ []) (lf_outman lw_ticked)) lw_ticked)).2.

Lemma lw_reachable : rtc lf_step lw_init lw_created.
Proof.
  eapply rtc_l; [|eapply rtc_l; [|apply rtc_once]].
  - apply (lf_timer lw_init). apply (tm_expire _ 0); [vm_compute; reflexivity|done].
  - apply lf_timer. by apply (tm_fired _ 0).
  - assert (m_resolves (lf_outman lw_ticked) = [] ++ "localhost" :: []) as H
      by (vm_compute; reflexivity).
    unfold lw_created. exact (lf_resolved (Some "127.0.0.1") "localhost" [] [] lw_ticked H).
Qed.

Definition lw_session : session tree :=
  default (session_init incoming EmptyString EmptyString) (lf_store lw_created !! 1%positive).
Definition lw_auth : Msg tree :=
  Msg_out (PL := demo "liver" "userver") Addr_default "auth" pt_empty.

Lemma leaf_never_joins_channel_witness :
  chan_connected (m_channel lw_created) = false /\
  leaf_dispatchMsg 1%positive lw_auth lw_created =
    (Ok tt, lf_set_store (<[1%positive := set_msg1 (Some lw_auth) lw_session]>
              (lf_store lw_created)) lw_created).
Proof.
  destruct (leaf_never_joins_channel (fun c : kept_channel => kc_session c = None)
    0 32300 lw_created) as [Hc H].
  - reflexivity.
  - intros now msg c st Hc. unfold chan_send, kept_Channel. simpl. by rewrite Hc.
  - apply lw_reachable.
  - split; [unfold chan_connected, kept_Channel; by rewrite Hc|].
    apply H; vm_compute; reflexivity.
Defined.
End Leaf_witness.
