(* ===== verification/NetClient.v ===== *)
(** * NetClient: an application of the bus (src/uzel/netclient.h,
    src/uzel/netclient.cpp, app/uecho/main.cpp, app/usender/main.cpp)

    The state of a client process: its sessions, the session by application
    name, the two timers.  Both timer handlers ignore their error code, so a
    cancelled wait runs its handler as an expired one does: a [timer] is the
    deadline of the pending wait and the number of handlers that are queued. *)
From S2P Require Import Prelude Effects BetterEnum Priority AccuLine PTree UConfig.
From S2P Require Import Addr Demo Msg InputProcessor Dispatcher Session Remote.
From S2P Require Import Outgoing.

Definition delay_reconnect_s : Z := 10.
Definition send_s : Z := 2.

(** The handlers the applications register. *)
Inductive client_handler := HPing | HPong.

Record timer := mkTimer { t_wait : option Z; t_queued : nat }.

(** [expires_after(secs)] cancels the pending wait, [async_wait] starts one. *)
Definition rearm (now secs : Z) (t : timer) : timer :=
  mkTimer (Some (now + seconds secs)%Z)
    (match t_wait t with Some _ => S (t_queued t) | None => t_queued t end).

Record client (T : Type) := mkClient {
  cl_now : Z;
  cl_store : store T;
  cl_locals : gmap string sid;      (* m_locals *)
  cl_dispatcher : MsgDispatcher T client_handler Empty_set;
  cl_resolving : nat;               (* async_resolve in flight *)
  m_reconnectTimer : timer;
  s_authSuccess : bool;             (* usender connects sendMsg *)
  m_sendTimer : timer;
  m_addrto : Addr;
  m_serial : Z;
  cl_work : bool;                   (* m_work holds a guard of the io_context *)
  cl_raised : option exn;           (* pending on the event loop's thread *)
}.
Arguments mkClient {T}.
Arguments cl_now {T}.
Arguments cl_store {T}.
Arguments cl_locals {T}.
Arguments cl_dispatcher {T}.
Arguments cl_resolving {T}.
Arguments m_reconnectTimer {T}.
Arguments s_authSuccess {T}.
Arguments m_sendTimer {T}.
Arguments m_addrto {T}.
Arguments m_serial {T}.
Arguments cl_work {T}.
Arguments cl_raised {T}.

Section Setters.
Context {T : Type}.
Implicit Types (c : client T).
Definition cl_set_now v c := mkClient v (cl_store c) (cl_locals c) (cl_dispatcher c)
  (cl_resolving c) (m_reconnectTimer c) (s_authSuccess c) (m_sendTimer c)
  (m_addrto c) (m_serial c) (cl_work c) (cl_raised c).
Definition cl_set_store v c := mkClient (cl_now c) v (cl_locals c) (cl_dispatcher c)
  (cl_resolving c) (m_reconnectTimer c) (s_authSuccess c) (m_sendTimer c)
  (m_addrto c) (m_serial c) (cl_work c) (cl_raised c).
Definition cl_set_locals v c := mkClient (cl_now c) (cl_store c) v (cl_dispatcher c)
  (cl_resolving c) (m_reconnectTimer c) (s_authSuccess c) (m_sendTimer c)
  (m_addrto c) (m_serial c) (cl_work c) (cl_raised c).
Definition cl_set_dispatcher v c := mkClient (cl_now c) (cl_store c) (cl_locals c) v
  (cl_resolving c) (m_reconnectTimer c) (s_authSuccess c) (m_sendTimer c)
  (m_addrto c) (m_serial c) (cl_work c) (cl_raised c).
Definition cl_set_resolving v c := mkClient (cl_now c) (cl_store c) (cl_locals c) (cl_dispatcher c)
  v (m_reconnectTimer c) (s_authSuccess c) (m_sendTimer c)
  (m_addrto c) (m_serial c) (cl_work c) (cl_raised c).
Definition cl_set_reconnect v c := mkClient (cl_now c) (cl_store c) (cl_locals c) (cl_dispatcher c)
  (cl_resolving c) v (s_authSuccess c) (m_sendTimer c)
  (m_addrto c) (m_serial c) (cl_work c) (cl_raised c).
Definition cl_set_send v c := mkClient (cl_now c) (cl_store c) (cl_locals c) (cl_dispatcher c)
  (cl_resolving c) (m_reconnectTimer c) (s_authSuccess c) v
  (m_addrto c) (m_serial c) (cl_work c) (cl_raised c).
Definition cl_set_serial v c := mkClient (cl_now c) (cl_store c) (cl_locals c) (cl_dispatcher c)
  (cl_resolving c) (m_reconnectTimer c) (s_authSuccess c) (m_sendTimer c)
  (m_addrto c) v (cl_work c) (cl_raised c).
Definition cl_set_work v c := mkClient (cl_now c) (cl_store c) (cl_locals c) (cl_dispatcher c)
  (cl_resolving c) (m_reconnectTimer c) (s_authSuccess c) (m_sendTimer c)
  (m_addrto c) (m_serial c) v (cl_raised c).
Definition cl_set_raised v c := mkClient (cl_now c) (cl_store c) (cl_locals c) (cl_dispatcher c)
  (cl_resolving c) (m_reconnectTimer c) (s_authSuccess c) (m_sendTimer c)
  (m_addrto c) (m_serial c) (cl_work c) v.
End Setters.

#[export] Instance client_thread {T} : Thread (client T) := {
  raised := cl_raised;
  set_raised := cl_set_raised;
}.

Section NetClient.
Context {T : Type} {PL : Platform T}.
Abbreviation C := (client T).

Definition cl_sess {A} (ss : sid) (m : M (session T) A) : M C A :=
  zoom cl_store cl_set_store (on_session ss m).

(** Resolves localhost. *)
Definition cl_start : M C unit := modify (fun c => cl_set_resolving (S (cl_resolving c)) c).

Definition reconnectAfterDelay : M C unit :=
  modify (fun c => cl_set_reconnect (rearm (cl_now c) delay_reconnect_s (m_reconnectTimer c)) c).

(** The completion of the resolution; [None] when [ec] is set.  The socket is
    made on the context of the guard. *)
Definition cl_connectResolved (rezit : option ip_address) : M C unit :=
  modify (fun c => cl_set_resolving (pred (cl_resolving c)) c) ;;
  match rezit with
  | None => reconnectAfterDelay
  | Some addr =>
    work <- gets cl_work ;;
    if negb work then ub else fun c =>
      let id := fresh (dom (cl_store c)) in
      let unauth := connect_auth (session_init outgoing addr "localhost") in
      cl_sess id startConnection (cl_set_store (<[id := unauth]> (cl_store c)) c)
  end.

(** session::connectHandler; the slot of [s_connect_error] reconnects. *)
Definition cl_connectHandler (ss : sid) (ec : bool) : M C unit :=
  when ec reconnectAfterDelay ;;
  now <- gets cl_now ;;
  cl_sess ss (connectHandler now ec) ;;
  ret tt.

(** [m_locals["userver"]->putOutQueue(msg)]: a missing entry is null. *)
Definition cl_send (msg : Msg T) : M C unit :=
  ss <- gets (fun c => cl_locals c !! "userver") ;;
  match ss with
  | Some ss =>
      now <- gets cl_now ;;
      cl_sess ss (putOutQueue now msg)
  | None => ub
  end.

(** NetPrinter::sendMsg of usender. *)
Definition sendMsg : M C unit :=
  modify (fun c => cl_set_send (rearm (cl_now c) send_s (m_sendTimer c)) c) ;;
  c <- gets id ;;
  cl_send (Msg_out (m_addrto c) "ping"
             (pt_put ["serial"] (dec_string (m_serial c)) pt_empty)) ;;
  modify (fun c => cl_set_serial (size_t (m_serial c + 1)) c).

(** [ss->takeOverMessages( *old)] *)
Definition cl_take_over (ss old : sid) : M C unit := fun c =>
  match cl_store c !! ss, cl_store c !! old with
  | Some s, Some o =>
      if decide (ss = old) then
        (if outQueueEmpty s then (Ok tt, c) else (Diverges, c))
      else
        let '(r, (s', q)) := takeOverMessages (cl_now c) (s, m_outQueue o) in
        (r, cl_set_store (<[ss := s']> (<[old := set_outQueue q o]> (cl_store c))) c)
  | _, _ => (Undefined, c)
  end.

Definition cl_auth (ss : sid) : M C unit :=
  isLocal <- cl_sess ss peerIsLocal ;;
  if isLocal : bool then
    appname <- cl_sess ss peerApp ;;
    oldSessionIt <- gets (fun c => cl_locals c !! appname) ;;
    match oldSessionIt with
    | Some old => cl_take_over ss old
    | None => ret tt
    end ;;
    modify (fun c => cl_set_locals (<[appname := ss]> (cl_locals c)) c) ;;
    fire <- gets s_authSuccess ;;
    when fire sendMsg
  else
    cl_sess ss (gracefullClose "bad auth") ;;
    reconnectAfterDelay.

(** uecho answers a "ping" to its sender; usender prints a "pong". *)
Definition ping_handler : M (C * Msg T) unit :=
  msg <- gets snd ;;
  let responce := setCname "pong" (Msg_forward (m_from msg) msg) in
  zoom fst (fun c s => (c, s.2)) (cl_send responce).
Definition pong_handler : M (C * Msg T) unit :=
  body <- zoom snd (fun m s => (s.1, m)) pbody ;;
  ret tt.
Definition run_client (h : client_handler) : M (C * Msg T) unit :=
  match h with HPing => ping_handler | HPong => pong_handler end.

(** session::dispatchMsg. *)
Definition cl_dispatchMsg (ss : sid) (msg : Msg T) : M C unit :=
  authed <- cl_sess ss (gets authenticated) ;;
  if negb authed then
    ok <- cl_sess ss (authenticate msg) ;;
    if negb ok then cl_sess ss (gracefullClose "authentication failed")
    else
      slot <- cl_sess ss (gets s_auth) ;;
      when slot (cl_auth ss)
  else dispatch cl_dispatcher cl_set_dispatcher run_client
         (fun h : Empty_set => match h with end) true msg.

(** The completion handler of session::do_read; nothing is connected to
    [s_closed] in a client. *)
Definition cl_get_processor (ss : sid) (c : C) : InputProcessor T * C :=
  (default IP_init (m_processor <$> cl_store c !! ss), c).
Definition cl_put_processor (ss : sid) (v : InputProcessor T * C) (c : C) : C :=
  cl_set_store (alter (set_processor v.1) ss (cl_store v.2)) v.2.
Definition cl_stop (ss : sid) : M C unit := cl_sess ss stop ;; ret tt.
Definition cl_read_handler (ss : sid) (data : option string) : M C unit :=
  cl_sess ss (complete ARead) ;;
  match data with
  | None => cl_stop ss
  | Some input =>
      ok <- zoom (cl_get_processor ss) (cl_put_processor ss)
              (processNewInput (cl_dispatchMsg ss) ss input) ;;
      if negb ok then cl_stop ss else cl_sess ss do_read
  end.

(** The handler of [m_sendTimer], and of [m_reconnectTimer]. *)
Definition send_timer_handler : M C unit :=
  modify (fun c => cl_set_send (mkTimer (t_wait (m_sendTimer c))
                                  (pred (t_queued (m_sendTimer c)))) c) ;;
  sendMsg.
Definition reconnect_timer_handler : M C unit :=
  modify (fun c => cl_set_reconnect (mkTimer (t_wait (m_reconnectTimer c))
                                       (pred (t_queued (m_reconnectTimer c)))) c) ;;
  cl_start.
End NetClient.

(** One turn of the event loop of a client, and what it ends with. *)
Inductive cl_turn {T} {PL : Platform T} : client T -> outcome unit * client T -> Prop :=
  | cl_clock now c : (cl_now c <= now)%Z -> cl_turn c (Ok tt, cl_set_now now c)
  | cl_resolved rezit c :
      cl_resolving c <> 0 -> cl_turn c (run_one (cl_connectResolved rezit) c)
  | cl_connected ss s ec c :
      cl_store c !! ss = Some s -> AConnect ∈ m_pending s ->
      cl_turn c (run_one (cl_connectHandler ss ec) c)
  | cl_read ss data c : cl_turn c (run_one (cl_read_handler ss data) c)
  | cl_written ss buf ec c :
      cl_turn c (run_one (bind (cl_sess ss (write_handler (cl_now c) buf ec)) (fun _ => ret tt)) c)
  | cl_bye ss buf c :
      cl_turn c (run_one (bind (cl_sess ss (bye_handler buf)) (fun _ => ret tt)) c)
  | cl_send_timer c : t_queued (m_sendTimer c) <> 0 -> cl_turn c (run_one send_timer_handler c)
  | cl_send_expired d c :
      t_wait (m_sendTimer c) = Some d -> (d <= cl_now c)%Z ->
      cl_turn c (Ok tt, cl_set_send (mkTimer None (S (t_queued (m_sendTimer c)))) c)
  | cl_reconnect_timer c :
      t_queued (m_reconnectTimer c) <> 0 -> cl_turn c (run_one reconnect_timer_handler c)
  | cl_reconnect_expired d c :
      t_wait (m_reconnectTimer c) = Some d -> (d <= cl_now c)%Z ->
      cl_turn c (Ok tt, cl_set_reconnect (mkTimer None (S (t_queued (m_reconnectTimer c)))) c).

(** A turn, however it ends. *)
Definition cl_step {T} {PL : Platform T} : relation (client T) := fun c c' =>
  exists o, cl_turn c (o, c').

(** ** Lemmas *)

Section NetClient_lemmas.
Context {T : Type} {PL : Platform T}.
Implicit Types (c : client T).

Lemma cl_sess_ok {A} ss (m : M (session T) A) c s :
  cl_store c !! ss = Some s ->
  cl_sess ss m c = ((m s).1, cl_set_store (<[ss := (m s).2]> (cl_store c)) c).
Proof. intros Hs. unfold cl_sess, zoom. by rewrite (on_session_ok _ _ _ _ Hs). Qed.

Lemma cl_set_store_same c : cl_set_store (cl_store c) c = c.
Proof. by destruct c. Qed.

Lemma cl_sess_read {A} ss (m : M (session T) A) c s o :
  cl_store c !! ss = Some s -> m s = (o, s) -> cl_sess ss m c = (o, c).
Proof.
  intros Hs Hm. rewrite (cl_sess_ok _ _ _ _ Hs), Hm. simpl.
  by rewrite insert_id, cl_set_store_same.
Qed.

Lemma cl_send_ok c ss s msg raw :
  cl_locals c !! "userver" = Some ss -> cl_store c !! ss = Some s -> charvec msg = Ok raw ->
  exists s', cl_send msg c = (Ok tt, cl_set_store (<[ss := s']> (cl_store c)) c) /\
    m_outQueue s' = m_outQueue s ++ [mkQueuedMsg raw (destType msg) (cl_now c)] /\
    m_msg1 s' = m_msg1 s.
Proof.
  intros Hl Hs Hraw. exists (putOutQueue (cl_now c) msg s).2.
  unfold cl_send. unfold bind at 1, gets at 1. rewrite Hl.
  unfold bind, gets. rewrite (cl_sess_ok _ _ _ _ Hs).
  rewrite (putOutQueue_ok _ _ _ _ Hraw). split; [done|].
  unfold outQueueEmpty. case_bool_decide as Hq; simpl; [by rewrite Hq|done].
Qed.
End NetClient_lemmas.

(** ** Properties *)

Section NetClient_props.
Context {T : Type} {PL : Platform T}.
Implicit Types (c : client T) (s : session T).

(** A session that has authenticated and is not being connected. *)
Definition settled s : Prop := is_Some (m_msg1 s) /\ AConnect ∉ m_pending s.

(** The client has had its connection, whatever became of it. *)
Definition past_connect (D : gset sid) c : Prop :=
  cl_resolving c = 0 /\ m_reconnectTimer c = mkTimer None 0 /\ dom (cl_store c) = D /\
  map_Forall (fun _ => settled) (cl_store c).

Lemma settled_modify f :
  (forall s, m_msg1 (f s) = m_msg1 s) -> (forall s, m_pending (f s) = m_pending s) ->
  preserves settled (modify f).
Proof. intros Hm Hp s [H1 H2]. unfold settled. simpl. by rewrite Hm, Hp. Qed.

Lemma settled_async op : op <> AConnect -> preserves settled (async op).
Proof. intros Ho s [H1 H2]. split; simpl; [done|]. set_solver. Qed.

Lemma settled_complete op : preserves settled (complete op).
Proof.
  intros s [H1 H2]. split; simpl; [done|]. intros Hin. by apply H2, (remove_op_incl op).
Qed.

#[local] Hint Resolve settled_complete : preserve.
#[local] Hint Extern 1 (preserves settled (async _)) => by apply settled_async : preserve.
#[local] Hint Extern 1 (preserves settled (modify _)) => by apply settled_modify : preserve.

Lemma settled_deleteOld now : preserves settled (deleteOld (T := T) now).
Proof.
  unfold deleteOld. apply preserves_bind; [auto with preserve|intros q].
  destruct (drop_old now q). auto 10 with preserve.
Qed.
#[local] Hint Resolve settled_deleteOld : preserve.

Lemma settled_putOutQueue now msg : preserves settled (putOutQueue (T := T) now msg).
Proof. unfold putOutQueue, do_write. auto 15 with preserve. Qed.

Lemma settled_stop : preserves settled (stop (T := T)).
Proof. unfold stop, shutdown. auto 15 with preserve. Qed.
#[local] Hint Resolve settled_stop : preserve.

Lemma settled_write now buf ec : preserves settled (write_handler (T := T) now buf ec).
Proof. unfold write_handler, sendByeAndClose. auto 15 with preserve. Qed.

Lemma past_sess {A} D ss (m : M (session T) A) :
  preserves settled m -> preserves (past_connect D) (cl_sess ss m).
Proof.
  intros Hm c (H1 & H2 & H3 & H4). unfold cl_sess, zoom, on_session.
  destruct (cl_store c !! ss) as [s|] eqn:Hs; [|by split_and!].
  specialize (Hm s (H4 ss s Hs)). destruct (m s) as [o s']. split_and!; try done; simpl.
  - rewrite dom_insert_L, <-H3. apply elem_of_dom_2 in Hs. set_solver.
  - by apply map_Forall_insert_2.
Qed.

Lemma past_send D msg : preserves (past_connect D) (cl_send (T := T) msg).
Proof.
  unfold cl_send. apply preserves_bind; [apply preserves_gets|intros [ss|]]; [|apply preserves_ub].
  apply preserves_bind; [apply preserves_gets|intros now].
  apply past_sess, settled_putOutQueue.
Qed.

Lemma past_sendMsg D : preserves (past_connect D) (sendMsg (T := T)).
Proof.
  unfold sendMsg. apply preserves_bind; [by apply preserves_modify|intros _].
  apply preserves_bind; [apply preserves_gets|intros c].
  apply preserves_bind; [apply past_send|intros _]. by apply preserves_modify.
Qed.

Lemma past_dispatchMsg D ss msg : preserves (past_connect D) (cl_dispatchMsg (T := T) ss msg).
Proof.
  intros c Hc. unfold cl_dispatchMsg, bind at 1.
  destruct (cl_store c !! ss) as [s|] eqn:Hs.
  - destruct (proj2 (proj2 (proj2 Hc)) ss s Hs) as [[m Hm] _].
    rewrite (cl_sess_read _ _ _ _ (Ok true) Hs) by (unfold gets, authenticated; by rewrite Hm).
    simpl. match goal with |- past_connect D ((?p c).2) =>
      apply (fun H : preserves (past_connect D) p => H c Hc) end.
    apply dispatch_preserves; [by intros d c'|by intros v c'|intros []|intros []].
    + apply preserves_bind; [apply preserves_gets|intros m'].
      apply (preserves_zoom _ (past_connect D)); auto using past_send.
    + apply preserves_bind; [|intros _; apply preserves_ret].
      intros [c' m'] H. unfold zoom. simpl. by destruct (pbody m').
  - unfold cl_sess, zoom, on_session. rewrite Hs. simpl. by rewrite cl_set_store_same.
Qed.

Lemma past_read D ss data : preserves (past_connect D) (cl_read_handler (T := T) ss data).
Proof.
  assert (preserves (past_connect D) (cl_stop (T := T) ss)) as Hstop.
  { apply preserves_bind; [apply past_sess, settled_stop|intros _; apply preserves_ret]. }
  unfold cl_read_handler.
  apply preserves_bind; [apply past_sess, settled_complete|intros _].
  destruct data as [input|]; [|exact Hstop].
  apply preserves_bind; [|intros ok; apply preserves_if;
    [exact Hstop|by apply past_sess, settled_async]].
  apply (preserves_zoom _ (fun v => past_connect D v.2)); [|done|].
  - apply processNewInput_preserves. intros msg. apply past_dispatchMsg.
  - intros c [ip c'] _ (H1 & H2 & H3 & H4). split_and!; simpl in *; try done.
    + rewrite <-H3. apply set_eq. intros x. rewrite !elem_of_dom.
      destruct (decide (x = ss)) as [->|Hx]; [rewrite lookup_alter_eq|by rewrite lookup_alter_ne].
      by rewrite fmap_is_Some.
    + intros x s'. destruct (decide (x = ss)) as [->|Hx].
      * rewrite lookup_alter_eq. intros (s & Hs & ->)%fmap_Some.
        by destruct (H4 ss s Hs).
      * rewrite lookup_alter_ne by done. apply H4.
Qed.

Lemma past_run_one D (m : M (client T) unit) :
  preserves (past_connect D) m -> preserves (past_connect D) (run_one m).
Proof. intros Hm. by apply preserves_run_one; [|intros v c Hc]. Qed.

Lemma past_step D c c' : past_connect D c -> cl_step c c' -> past_connect D c'.
Proof.
  intros Hc [o Hturn]. pose proof Hc as (H1 & H2 & H3 & H4).
  change c' with (o, c').2. generalize dependent (o, c'). clear o c'. intros r Hturn.
  destruct Hturn as [now c _|rezit c Hr|ss s ec c Hs Hp|ss data c|ss buf ec c|ss buf c
    |c _|d c _ _|c Hq|d c Hw _].
  - done.
  - congruence.
  - exfalso. by eapply H4.
  - by apply past_run_one; [apply past_read|].
  - apply past_run_one; [|done].
    apply preserves_bind; [by apply past_sess, settled_write|intros ?; apply preserves_ret].
  - apply past_run_one; [|done]. apply preserves_bind; [|intros ?; apply preserves_ret].
    apply past_sess. unfold bye_handler.
    apply preserves_bind; [apply settled_complete|intros _; apply settled_stop].
  - apply past_run_one; [|done]. unfold send_timer_handler.
    apply preserves_bind; [by apply preserves_modify|intros _; apply past_sendMsg].
  - done.
  - by rewrite H2 in Hq.
  - by rewrite H2 in Hw.
Qed.

(** C34: A client whose sessions have all been authenticated and that has no
    reconnection pending never makes another session, never resolves again
    and never arms its reconnection timer, whatever happens, the loss of the
    connection included. *)
Theorem client_never_reconnects D c c' :
  past_connect D c -> rtc cl_step c c' ->
  cl_resolving c' = 0 /\ m_reconnectTimer c' = mkTimer None 0 /\ dom (cl_store c') = D /\
  forall ss s, cl_store c' !! ss = Some s -> AConnect ∉ m_pending s.
Proof.
  intros Hc Hr. assert (past_connect D c') as (H1 & H2 & H3 & H4).
  { revert c' Hr. apply (rtc_ind_r (past_connect D)); [done|].
    intros c1 c2 _ Hstep H. by eapply past_step. }
  split_and!; try done. intros ss s Hs. by destruct (H4 ss s Hs).
Qed.

(** The dispatcher of uecho. *)
Definition uecho_dispatcher : MsgDispatcher T client_handler Empty_set :=
  (registerHandler true "ping" HPing MsgDispatcher_init).2.
End NetClient_props.

Section Uecho.
Context {T : Type} {PL : Platform T} {LAWS : PTreeLaws T}.
Implicit Types (c : client T).

(** C33: uecho, connected to its server, answers a ping: dispatching the
    message queues one message on the server's session, named pong,
    addressed to the sender of the ping, from this application, with the
    same body. *)
Theorem uecho_answers_ping c ss s m us u msg raw :
  cl_dispatcher c = uecho_dispatcher ->
  cl_store c !! ss = Some s -> m_msg1 s = Some m ->
  cl_locals c !! "userver" = Some us -> cl_store c !! us = Some u ->
  cname msg = Ok "ping" -> toMe msg = true ->
  m_appname (m_from msg) <> EmptyString -> m_nodename (m_from msg) <> EmptyString ->
  m_nodename (m_from msg) <> "localhost" ->
  let pong := setCname "pong" (Msg_forward (m_from msg) msg) in
  charvec pong = Ok raw ->
  hdr_dest pong = m_from msg /\ hdr_from pong = mkAddr appName nodeName /\
  cname pong = Ok "pong" /\ m_body pong = m_body msg /\
  exists u',
    cl_dispatchMsg ss msg c = (Ok tt, cl_set_store (<[us := u']> (cl_store c)) c) /\
    m_outQueue u' = m_outQueue u ++ [mkQueuedMsg raw (destType pong) (cl_now c)].
Proof.
  intros Hd Hs Hm Hl Hu Hcn Hto Ha Hn Hlh pong Hraw.
  assert (pong = setCname "pong" (updateDest (set_header
    (pt_put ["to"; "a"] (m_appname (m_from msg))
      (pt_put ["to"; "n"] (m_nodename (m_from msg)) (m_header (setFromLocal msg))))
    (setFromLocal msg)))) as Hp.
  { subst pong. unfold Msg_forward, setDest. rewrite !str_empty_decide.
    by rewrite !bool_decide_eq_false_2. }
  split; [|split; [|split; [|split]]].
  - rewrite Hp. unfold hdr_dest, setCname, setFromLocal. simpl. rewrite updateDest_header. simpl.
    autorewrite with msgrw. by destruct (m_from msg).
  - rewrite Hp. unfold hdr_from, setCname, setFromLocal. simpl. rewrite updateDest_header. simpl.
    by autorewrite with msgrw.
  - rewrite Hp. unfold cname, setCname. simpl. by rewrite pt_get_put by done.
  - rewrite Hp. unfold setCname. simpl. by rewrite updateDest_body.
  - destruct (cl_send_ok c us u pong raw Hl Hu Hraw) as (u' & E & Hq & _).
    exists u'. split; [|exact Hq].
    unfold cl_dispatchMsg, bind at 1.
    rewrite (cl_sess_read _ _ _ _ (Ok true) Hs) by (unfold gets, authenticated; by rewrite Hm).
    simpl. unfold dispatch, bind at 1, zoom at 1. rewrite Hd. simpl.
    assert (cl_set_dispatcher uecho_dispatcher c = c) as -> by (rewrite <-Hd; by destruct c).
    unfold captured, with_msg, dispatch_job, bind at 1, gets at 1. simpl.
    unfold bind at 1, lift. rewrite Hcn, Hto. simpl.
    unfold bind, gets. simpl. rewrite Hd. simpl.
    unfold guarded, catch_all, run_client, ping_handler, bind, gets, zoom. simpl.
    rewrite lookup_insert_eq, lookup_empty. cbn [default app id for_each snd fst]; unfold id; cbn [for_each snd fst].
    unfold bind. cbn [snd fst]. fold pong. rewrite E. simpl. by rewrite Hd.
Qed.
End Uecho.

(** ** Witnesses *)

Section NetClient_witnesses.
#[local] Instance cw_uecho : Platform tree := demo "liver" "uecho".

(** The session with the daemon. *)
Definition cw_session : session tree :=
  set_msg1 (Some (Msg_out (PL := demo "liver" "userver") Addr_default "auth" pt_empty))
    (session_init outgoing "127.0.0.1" "localhost").
Definition cw_client : client tree :=
  mkClient 0 {[1%positive := cw_session]} {["userver" := 1%positive]} uecho_dispatcher 0
    (mkTimer None 0) false (mkTimer None 0) Addr_default 0 true None.

Definition cw_ping : Msg tree :=
  Msg_out (PL := demo "pingutv" "usender") (mkAddr "uecho" "liver") "ping" ping_body.
Definition cw_in : Msg tree := Msg_parsed (m_header cw_ping) ping_body (Some 1%positive).
Definition cw_pong : Msg tree := setCname "pong" (Msg_forward (m_from cw_in) cw_in).

Lemma uecho_answers_ping_witness :
  exists u', cl_dispatchMsg 1%positive cw_in cw_client =
      (Ok tt, cl_set_store (<[1%positive := u']> (cl_store cw_client)) cw_client) /\
    m_dt <$> m_outQueue u' = [remote].
Proof.
  destruct (uecho_answers_ping cw_client 1%positive cw_session
    (Msg_out (PL := demo "liver" "userver") Addr_default "auth" pt_empty) 1%positive cw_session
    cw_in (match charvec cw_pong with Ok r => r | _ => EmptyString end))
    as (_ & _ & _ & _ & u' & E & Hq);
    try (vm_compute; reflexivity); try (vm_compute; discriminate).
  exists u'. split; [exact E|]. rewrite Hq. vm_compute. reflexivity.
Defined.

Lemma client_never_reconnects_witness :
  cl_resolving (run_one (cl_read_handler 1%positive None) cw_client).2 = 0.
Proof.
  apply (client_never_reconnects {[1%positive]} cw_client).
  - split_and!; [reflexivity|reflexivity|vm_compute; reflexivity|].
    apply map_Forall_singleton. split; [by eexists|]. simpl. apply not_elem_of_nil.
  - apply rtc_once. unfold cl_step. pose proof (cl_read 1%positive None cw_client) as H.
    destruct (run_one (cl_read_handler 1%positive None) cw_client) as [o c']. by exists o.
Defined.
End NetClient_witnesses.
