(* ===== verification/EnumRuntime.v ===== *)
(** * EnumRuntime: names on demand, compile-time names, maps and streams
    (src/uzel/enum.h)

    The static data of an enumeration in the fast version of the library: the
    names are trimmed in place, once, by whichever call needs them first.
    The version that trims at compile time ([SLOW_ENUM]) copies at most 24
    characters of each name.  [map] turns a function on the enumerators
    around, and the stream operators read and write names. *)
From S2P Require Import Prelude Effects BetterEnum PTree UConfig Priority.

(** ** Names on demand *)

(** The function-local statics [_initialized], [_name_storage] (the raw names
    with their separators and the terminator) and [_name_array] (offsets in
    the storage; [None] is the null pointer). *)
Record enum_data := mkData {
  d_initialized : bool;
  d_storage : list ascii;
  d_names : list (option nat);
}.

(** The C string [_name_array()[i]]; [None] is the null pointer. *)
Definition name_at (d : enum_data) (p : option nat) : option string :=
  (fun o => c_str (drop o (d_storage d))) <$> p.

Section Names.
Context {E : Type} {BE : BetterEnum E}.

Definition data_init : enum_data :=
  mkData false (reserve_storage raw_names ++ [NUL]) (replicate (length raw_names) None).

Definition initialize : M enum_data unit :=
  initialized <- gets d_initialized ;;
  if initialized : bool then ret tt
  else modify (fun d =>
    let '(offs, storage) := trim_loop raw_names 0 (d_storage d) in
    mkData true storage (Some <$> offs)).

(** [_to_string()]: [CallInitialize] is [continue_with(initialize(), value)]. *)
Definition rt_to_string (e : E) : M enum_data (option string) :=
  initialize ;;
  gets (fun d => from_value_loop (to_integral e) ≫= fun i => d_names d !! i ≫= name_at d).

(** [_names()], all of it. *)
Definition rt_names : M enum_data (list (option string)) :=
  initialize ;;
  gets (fun d => name_at d <$> d_names d).

(** The calls that touch the statics; the first one is made at the start of
    the program by [_force_initialization], or earlier by another static
    object. *)
Inductive data_step : relation enum_data :=
  | step_initialize d : data_step d (initialize d).2
  | step_to_string e d : data_step d (rt_to_string e d).2
  | step_names d : data_step d (rt_names d).2.
End Names.
Arguments data_init E {BE}.

(** ** The comparisons, [_or_throw] and the case-insensitive names *)

Section More.
Context {E : Type} {BE : BetterEnum E}.

Definition enum_eq (a b : E) : bool := (to_integral a =? to_integral b)%Z.
Definition enum_ne (a b : E) : bool := negb (to_integral a =? to_integral b)%Z.
Definition enum_lt (a b : E) : bool := (to_integral a <? to_integral b)%Z.
Definition enum_le (a b : E) : bool := (to_integral a <=? to_integral b)%Z.
Definition enum_gt (a b : E) : bool := (to_integral b <? to_integral a)%Z.
Definition enum_ge (a b : E) : bool := (to_integral b <=? to_integral a)%Z.

Definition or_throw {A} (maybe : option A) (message : string) : outcome A :=
  of_option (runtime_error message) maybe.
Definition from_string_nocase (name : string) : outcome E :=
  or_throw (from_string_nocase_nothrow name) "_from_string_nocase: invalid argument".
Definition is_valid_nocase (name : string) : bool :=
  bool_decide (is_Some (from_string_nocase_loop (E := E) name)).
Definition values_size : nat := length (value_array : list E).
End More.

(** ** Names at compile time *)

(** [BETTER_ENUMS_ITERATE] yields the indices 0 to 23. *)
Definition iterate_count : nat := 24.

Definition select (from : string) (from_length index : nat) : ascii :=
  if (from_length <=? index)%nat then NUL else default NUL (str_list from !! index).

Definition trimmed (expression : string) : list ascii :=
  select expression (constant_length expression) <$> seq 0 iterate_count.

(** A C string in an array: reading past the array is undefined. *)
Definition c_str_in (l : list ascii) : outcome string :=
  if bool_decide (NUL ∈ l) then Ok (c_str l) else Undefined.

(** [_final_]: the array, or the literal itself. *)
Definition final_name (expression : string) : outcome string :=
  if has_initializer expression then c_str_in (trimmed expression) else Ok expression.

(** ** Maps *)

Section Map.
Context {E : Type} {BE : BetterEnum E} {A : Type}.
Variable less : A -> A -> bool.
Variable f : E -> A.

Fixpoint to_enum_in (l : list E) (value : A) : option E :=
  match l with
  | [] => None
  | e :: l' =>
      if less (f e) value || less value (f e) then to_enum_in l' value else Some e
  end.
Definition to_enum_nothrow (value : A) : option E := to_enum_in value_array value.
Definition to_enum (value : A) : outcome E :=
  or_throw (to_enum_nothrow value) "map::to_enum: invalid argument".
End Map.

(** Plain [char] is signed on the platforms of the program. *)
Definition schar (c : ascii) : Z :=
  let n := Z.of_nat (nat_of_ascii c) in if (n <? 128)%Z then n else (n - 256)%Z.

(** [map_compare<const char*>::less_loop] *)
Fixpoint less_loop (a b : string) : bool :=
  match a, b with
  | EmptyString, EmptyString => false
  | EmptyString, String d _ => if decide (NUL <> d) then (schar NUL <? schar d)%Z else false
  | String c _, EmptyString => if decide (c <> NUL) then (schar c <? schar NUL)%Z else false
  | String c a', String d b' =>
      if decide (c <> d) then (schar c <? schar d)%Z
      else if decide (c = NUL) then false
      else less_loop a' b'
  end.

(** ** Streams *)

Section Streams.
Context {E : Type} {BE : BetterEnum E}.

(** What [operator<<] writes; [None]: a null pointer, which sets badbit. *)
Definition enum_print (value : E) : option string := to_string value.

(** [operator>>]: the value after, and whether failbit is set. *)
Definition enum_extract (input : string) (value : E) : E * bool :=
  let buffer := word_go (skip_ws input) in
  match from_string_nothrow buffer with
  | Some converted => (converted, false)
  | None => (value, true)
  end.
End Streams.

(** ** Lemmas *)

Section Names_lemmas.
Context {E : Type} {BE : BetterEnum E} {OK : BetterEnumOk E}.

(** The statics once the names are trimmed. *)
Definition data_ready : enum_data := (initialize (data_init E)).2.

Definition data_ok (d : enum_data) : Prop := d = data_init E \/ d = data_ready.

Lemma initialize_ok d : data_ok d -> initialize d = (Ok tt, data_ready).
Proof.
  assert (d_initialized data_ready = true) as H.
  { unfold data_ready, initialize. run_m. by destruct (trim_loop _ _ _). }
  intros [->| ->]; [done|]. unfold initialize. run_m. by rewrite H.
Qed.

Lemma data_ready_names : name_at data_ready <$> d_names data_ready = Some <$> (trim <$> raw_names).
Proof.
  unfold data_ready, initialize, bind, gets. simpl.
  pose proof (trim_loop_spec raw_names [] [NUL]) as Ht. simpl in Ht. rewrite Ht. simpl.
  rewrite <-(offsets_c_str raw_names [] [NUL] be_no_nul). by rewrite <-!list_fmap_compose.
Qed.

Lemma rt_to_string_ok e d :
  data_ok d -> rt_to_string e d = (Ok (to_string e), data_ready).
Proof.
  intros Hd. unfold rt_to_string. rewrite (bind_ok _ _ _ _ _ (initialize_ok d Hd)).
  unfold gets. do 2 f_equal.
  destruct (from_value_loop_complete e) as (i & Hi & Hl). rewrite Hi. simpl.
  rewrite (to_string_lookup e i Hl), <-list_lookup_fmap.
  pose proof (f_equal (.!! i) data_ready_names) as Hn. simpl in Hn.
  rewrite !list_lookup_fmap in Hn. rewrite list_lookup_fmap.
  destruct (d_names data_ready !! i) as [p|], (raw_names !! i) as [n|]; simpl in *; congruence.
Qed.

Lemma rt_names_ok d :
  data_ok d -> rt_names d = (Ok (Some <$> (trim <$> raw_names)), data_ready).
Proof.
  intros Hd. unfold rt_names. rewrite (bind_ok _ _ _ _ _ (initialize_ok d Hd)).
  unfold gets. by rewrite data_ready_names.
Qed.

Lemma data_ok_reachable d : rtc data_step (data_init E) d -> data_ok d.
Proof.
  revert d. apply (rtc_ind_r data_ok); [by left|]. intros d1 d2 _ Hs Hd. right.
  destruct Hs as [d1|e d1|d1].
  - by rewrite initialize_ok.
  - by rewrite rt_to_string_ok.
  - by rewrite rt_names_ok.
Qed.
End Names_lemmas.

Section More_lemmas.
Context {E : Type} {BE : BetterEnum E} {OK : BetterEnumOk E}.
Implicit Types (e : E).

Lemma enum_compare_total a b :
  enum_eq a b = bool_decide (a = b) /\ enum_ne a b = negb (enum_eq a b) /\
  enum_le a b = enum_lt a b || enum_eq a b /\ enum_gt a b = negb (enum_le a b) /\
  enum_ge a b = negb (enum_lt a b).
Proof.
  unfold enum_eq, enum_ne, enum_le, enum_lt, enum_gt, enum_ge. split_and!; try done.
  - destruct (Z.eqb_spec (to_integral a) (to_integral b)) as [H|H].
    + apply be_inj in H as ->. by rewrite bool_decide_eq_true_2.
    + rewrite bool_decide_eq_false_2; [done|]. by intros ->.
  - apply Bool.eq_true_iff_eq. rewrite orb_true_iff, Z.leb_le, Z.ltb_lt, Z.eqb_eq. lia.
  - by rewrite Z.ltb_antisym.
  - by rewrite Z.leb_antisym.
Qed.

(** The enumerator a name matches without regard to case. *)
Lemma from_string_nocase_spec name e :
  NoDup (str_map to_lower_ascii <$> (trim <$> raw_names)) ->
  from_string_nocase name = Ok e <->
  exists n, to_string e = Some n /\ str_map to_lower_ascii n = str_map to_lower_ascii name.
Proof.
  intros Hnd. unfold from_string_nocase, from_string_nocase_nothrow, from_string_nocase_loop.
  pose proof (from_string_loop_in_spec names_match_nocase raw_names name 0) as H.
  destruct (from_string_loop_in _ _ _ _) as [j|].
  - destruct H as (n & _ & Hn & Hm & _). rewrite Nat.sub_0_r in Hn.
    unfold names_match_nocase in Hm. rewrite names_match_by_spec in Hm.
    apply bool_decide_eq_true in Hm. simpl. split.
    + intros He. destruct (value_array !! j) as [e'|] eqn:Hj; [|done].
      injection He as ->. exists (trim n).
      by rewrite (to_string_lookup e j Hj), Hn.
    + intros (n' & Hs & Hn').
      destruct (list_elem_of_lookup_1 _ _ (be_complete e)) as [i Hi].
      rewrite (to_string_lookup e i Hi) in Hs. apply fmap_Some in Hs as (m & Hm' & ->).
      assert (i = j) as ->; [|by rewrite Hi].
      apply (NoDup_lookup _ i j (str_map to_lower_ascii name) Hnd);
        rewrite !list_lookup_fmap, ?Hm', ?Hn; simpl; congruence.
  - split; [done|]. intros (n' & Hs & Hn').
    destruct (list_elem_of_lookup_1 _ _ (be_complete e)) as [i Hi].
    rewrite (to_string_lookup e i Hi) in Hs. apply fmap_Some in Hs as (m & Hm' & ->).
    rewrite Forall_forall in H. specialize (H m (list_elem_of_lookup_2 _ _ _ Hm')).
    unfold names_match_nocase in H. rewrite names_match_by_spec in H.
    by apply bool_decide_eq_false in H.
Qed.
End More_lemmas.

(** *** Names at compile time *)

Lemma str_list_take k n : str_list (str_take k n) = take k (str_list n).
Proof.
  revert k; induction n as [|c n IH]; intros [|k]; try done. cbn. by rewrite IH.
Qed.

Lemma select_seq n len k j :
  len <= String.length n ->
  (select n len <$> seq j k) = take k (drop j (take len (str_list n))) ++
                               replicate (k - (len - j)) NUL.
Proof.
  intros Hlen. revert j; induction k as [|k IH]; intros j; [done|].
  cbn [seq fmap list_fmap]. rewrite IH. unfold select.
  destruct (Nat.leb_spec len j) as [Hj|Hj].
  - rewrite !(drop_ge (take len _)) by (rewrite length_take; lia).
    rewrite !take_nil. simpl.
    by replace (k - (len - S j)) with k by lia; replace (len - j) with 0 by lia.
  - destruct (lookup_lt_is_Some_2 (str_list n) j) as [c Hc]; [by rewrite str_list_length; lia|].
    rewrite Hc. simpl.
    rewrite (drop_S (take len (str_list n)) c j) by (by rewrite lookup_take_lt).
    simpl. do 2 f_equal. f_equal. lia.
Qed.

Lemma c_str_zero s l : str_in NUL s = false -> c_str (str_list s ++ NUL :: l) = s.
Proof.
  induction s as [|c s IH]; intros Hs; [done|]. simpl in *.
  apply orb_false_iff in Hs as [Hc%bool_decide_eq_false Hs].
  by rewrite decide_False, IH.
Qed.

Lemma str_in_list c s : str_in c s = false -> c ∉ str_list s.
Proof.
  induction s as [|d s IH]; simpl; [intros _; apply not_elem_of_nil|].
  intros [Hc%bool_decide_eq_false Hs]%orb_false_iff. apply not_elem_of_cons.
  split; [by intros ->|by apply IH].
Qed.

Lemma str_in_trim n : str_in NUL n = false -> str_in NUL (trim n) = false.
Proof.
  unfold trim. induction n as [|c n IH]; intros Hn; [done|]. simpl in Hn.
  apply orb_false_iff in Hn as [Hc Hn]. simpl.
  destruct (ends_name c); simpl; [done|]. by rewrite Hc, IH.
Qed.

Lemma trimmed_eq n :
  trimmed n = take iterate_count (str_list (trim n)) ++
              replicate (iterate_count - constant_length n) NUL.
Proof.
  unfold trimmed, trim. rewrite select_seq by apply constant_length_le.
  by rewrite str_list_take, drop_0, Nat.sub_0_r.
Qed.

(** *** The order of C strings *)

Lemma schar_inj c d : schar c = schar d -> c = d.
Proof.
  unfold schar. pose proof (nat_ascii_bounded c). pose proof (nat_ascii_bounded d).
  intros Heq. rewrite <-(ascii_nat_embedding c), <-(ascii_nat_embedding d). f_equal.
  destruct (Z.ltb_spec (Z.of_nat (nat_of_ascii c)) 128),
    (Z.ltb_spec (Z.of_nat (nat_of_ascii d)) 128); lia.
Qed.

(** Neither is less: the strings are equal. *)
Lemma less_loop_total a b :
  str_in NUL a = false -> str_in NUL b = false ->
  less_loop a b || less_loop b a = false <-> a = b.
Proof.
  revert b; induction a as [|c a IH]; intros [|d b] Ha Hb; simpl in *.
  - done.
  - apply orb_false_iff in Hb as [Hd%bool_decide_eq_false _].
    rewrite !decide_True by congruence. split; [|done]. intros H. exfalso.
    apply orb_false_iff in H as [H1%Z.ltb_ge H2%Z.ltb_ge].
    by apply Hd, schar_inj, Z.le_antisymm.
  - apply orb_false_iff in Ha as [Hc%bool_decide_eq_false _].
    rewrite !decide_True by congruence. split; [|done]. intros H. exfalso.
    apply orb_false_iff in H as [H1%Z.ltb_ge H2%Z.ltb_ge].
    by apply Hc, schar_inj, Z.le_antisymm.
  - apply orb_false_iff in Ha as [Hc%bool_decide_eq_false Ha].
    apply orb_false_iff in Hb as [Hd%bool_decide_eq_false Hb].
    destruct (decide (c = d)) as [->|Hcd].
    + rewrite !(decide_False (P := d <> d)) by naive_solver.
      rewrite !decide_False by congruence. rewrite IH by done. naive_solver.
    + rewrite !decide_True by congruence. split; [|congruence]. intros H. exfalso.
      apply orb_false_iff in H as [H1%Z.ltb_ge H2%Z.ltb_ge].
      by apply Hcd, schar_inj, Z.le_antisymm.
Qed.

Section Map_lemmas.
Context {E : Type} {BE : BetterEnum E} {A : Type}.
Variable less : A -> A -> bool.
Variable f : E -> A.

Lemma to_enum_in_spec l v :
  (forall e, e ∈ l -> less (f e) v || less v (f e) = false <-> f e = v) ->
  match to_enum_in less f l v with
  | Some e => e ∈ l /\ f e = v
  | None => forall e, e ∈ l -> f e <> v
  end.
Proof.
  induction l as [|e l IH]; intros Hl; simpl; [intros e He; by apply not_elem_of_nil in He|].
  destruct (less (f e) v || less v (f e)) eqn:He.
  - assert (f e <> v) as Hne.
    { intros H. apply (Hl e ltac:(by left)) in H. congruence. }
    specialize (IH (fun e' He' => Hl e' ltac:(by right))).
    destruct (to_enum_in less f l v) as [e'|]; [set_solver|].
    intros e' [->|He']%elem_of_cons; [done|by apply IH].
  - split; [by left|]. apply Hl; [by left|done].
Qed.
End Map_lemmas.

(** *** Words *)

Lemma word_go_word s c rest :
  Forall (fun d => Ascii.is_space d = false) (str_list s) -> Ascii.is_space c = true ->
  word_go (s +:+ String c rest) = s.
Proof.
  intros Hs Hc. induction s as [|d s IH]; simpl; [by rewrite Hc|].
  simpl in Hs. apply Forall_cons in Hs as [Hd Hs]. by rewrite Hd, IH.
Qed.

Lemma skip_ws_word s t :
  s <> EmptyString -> Forall (fun d => Ascii.is_space d = false) (str_list s) ->
  skip_ws (s +:+ t) = s +:+ t.
Proof.
  destruct s as [|d s]; [done|]. intros _ Hs. simpl in *.
  apply Forall_cons in Hs as [Hd _]. by rewrite Hd.
Qed.

(** ** Properties *)

Section Enum_props.
Context {E : Type} {BE : BetterEnum E} {OK : BetterEnumOk E}.

(** Whatever calls have touched the static data of an enumeration before,
    _to_string of each value yields a name that _from_string turns back into
    the value, and _names yields the written names trimmed of their
    initializers; once the names are trimmed no call changes the static data
    again, so the pointers handed out stay valid. *)
Lemma names_trimmed_once d :
  rtc data_step (data_init E) d ->
  (forall e : E, exists n, (rt_to_string e d).1 = Ok (Some n) /\ from_string n = Ok e) /\
  (rt_names d).1 = Ok (Some <$> (trim <$> raw_names)) /\
  (forall d', d_initialized d = true -> rtc data_step d d' -> d' = d).
Proof.
  intros Hd%data_ok_reachable. split_and!.
  - intros e. rewrite rt_to_string_ok by done.
    destruct (list_elem_of_lookup_1 _ _ (be_complete e)) as [i Hi].
    destruct (lookup_lt_is_Some_2 raw_names i) as [n Hn].
    { rewrite be_length. by apply lookup_lt_is_Some_1. }
    exists (trim n). rewrite (to_string_lookup e i Hi), Hn. split; [done|].
    unfold from_string, from_string_nothrow.
    rewrite (from_string_loop_lookup i n Hn); simpl. by rewrite Hi.
  - by rewrite rt_names_ok.
  - intros d' Hi. assert (d = data_ready) as ->.
    { destruct Hd as [->| ->]; [done|done]. }
    revert d'. apply (rtc_ind_r (fun d' => d' = data_ready)); [done|].
    intros d1 d2 _ Hs ->. assert (data_ok data_ready) as Hr by by right.
    inversion Hs; subst.
    + by rewrite initialize_ok.
    + by rewrite rt_to_string_ok.
    + by rewrite rt_names_ok.
Qed.

(** A map made from an injective function on the enumerators to C strings
    turns the image of a value back into the value, and throws on any other
    string. *)
Lemma to_enum_inverts (f : E -> string) v :
  (forall e, str_in NUL (f e) = false) -> str_in NUL v = false ->
  (forall a b, f a = f b -> a = b) ->
  (forall e, f e = v -> to_enum less_loop f v = Ok e) /\
  ((forall e, f e <> v) ->
     to_enum less_loop f v = Throw (runtime_error "map::to_enum: invalid argument")).
Proof.
  intros Hf Hv Hinj. unfold to_enum, or_throw, to_enum_nothrow.
  pose proof (to_enum_in_spec less_loop f value_array v) as H.
  destruct (to_enum_in less_loop f value_array v) as [e|].
  - destruct H as [_ He]; [intros; by apply less_loop_total|].
    split; [|intros Hn; by destruct (Hn e)]. intros e' He'. simpl. f_equal. apply Hinj. congruence.
  - split; [|done]. intros e He. exfalso.
    apply (H ltac:(intros; by apply less_loop_total) e); [apply be_complete|done].
Qed.
End Enum_props.

(** The compile-time name is the written name trimmed of its initializer
    when that has fewer than 24 characters; with 24 or more the array has no
    terminator and reading it is undefined; a literal without initializer is
    used as it is. *)
Lemma final_name_spec (n : string) :
  str_in NUL n = false ->
  (has_initializer n = true -> constant_length n < 24 -> final_name n = Ok (trim n)) /\
  (has_initializer n = true -> 24 <= constant_length n -> final_name n = Undefined) /\
  (has_initializer n = false -> final_name n = Ok n).
Proof.
  intros Hn. unfold final_name, c_str_in. rewrite trimmed_eq.
  assert (length (str_list (trim n)) = constant_length n) as Hlen.
  { unfold trim. rewrite str_list_take, length_take, str_list_length.
    pose proof (constant_length_le n). lia. }
  split_and!; intros ->; [intros Hl|intros Hl|done].
  - rewrite take_ge by (unfold iterate_count; lia).
    replace (iterate_count - constant_length n) with (S (23 - constant_length n))
      by (unfold iterate_count; lia). simpl.
    rewrite bool_decide_eq_true_2 by (apply elem_of_app; right; left).
    by rewrite c_str_zero by by apply str_in_trim.
  - replace (iterate_count - constant_length n) with 0 by (unfold iterate_count; lia).
    rewrite app_nil_r, bool_decide_eq_false_2; [done|].
    intros Hin%elem_of_take. destruct Hin as (i & Hi & _).
    apply list_elem_of_lookup_2 in Hi. revert Hi. by apply str_in_list, str_in_trim.
Qed.

(** What [<<] wrote and white space ended, [>>] reads back. *)
Lemma extract_print {E} {BE : BetterEnum E} {OK : BetterEnumOk E} (e old : E) n c rest :
  enum_print e = Some n -> n <> EmptyString ->
  Forall (fun d => Ascii.is_space d = false) (str_list n) -> Ascii.is_space c = true ->
  enum_extract (n +:+ String c rest) old = (e, false).
Proof.
  intros Hp Hne Hsp Hc. unfold enum_extract. rewrite skip_ws_word, word_go_word by done.
  destruct (list_elem_of_lookup_1 _ _ (be_complete e)) as [i Hi].
  unfold enum_print in Hp. rewrite (to_string_lookup e i Hi) in Hp.
  apply fmap_Some in Hp as (m & Hm & ->). unfold from_string_nothrow.
  rewrite (from_string_loop_lookup i m Hm). simpl. by rewrite Hi.
Qed.

(** ** Witnesses *)

Section EnumRuntime_witnesses.
Lemma names_trimmed_once_witness :
  (rt_names (E := Priority) (rt_to_string high (data_init Priority)).2).1
  = Ok [Some "undefined"; Some "low"; Some "high"; Some "control"].
Proof.
  destruct (names_trimmed_once (E := Priority) (rt_to_string high (data_init Priority)).2)
    as (_ & H & _); [|exact H].
  apply rtc_once. apply step_to_string.
Defined.

Definition status_word (s : HostStatus) : string := default EmptyString (to_string s).

Lemma to_enum_inverts_witness :
  to_enum less_loop status_word "resolving_error" = Ok resolving_error.
Proof.
  apply (to_enum_inverts status_word "resolving_error"); try reflexivity.
  - intros []; reflexivity.
  - intros [] []; vm_compute; (reflexivity || discriminate).
Defined.

Lemma final_name_spec_witness : final_name "undefined=255" = Ok "undefined".
Proof.
  apply (final_name_spec "undefined=255"); [reflexivity|reflexivity|].
  apply (bool_decide_unpack _). reflexivity.
Defined.

Example extract_priority : enum_extract " high " low = (high, false).
Proof. reflexivity. Qed.
Example extract_fails : enum_extract "highest" low = (low, true).
Proof. reflexivity. Qed.
End EnumRuntime_witnesses.
