(* ===== verification/EnumDecl.v ===== *)
(** * EnumDecl: what a declaration of an enumeration expands to
    (src/uzel/enum.h, the preprocessor lists and BETTER_ENUMS_TYPE)

    [BETTER_ENUM(Enum, Underlying, ...)] runs over its constants with the
    preprocessor: PP_COUNT chooses the macro [M##count], which applies a
    macro to each constant with an index that counts down.  The arrays of the
    class are generated this way; here they are computed from the list of
    constants, and the declarations of the program are shown to give the
    instances of [Priority]. *)
From S2P Require Import Prelude Effects BetterEnum PTree UConfig Priority EnumRuntime.

(** One argument of the declaration: the identifier, and the text from the
    end of the identifier on with the value it initialises to.  Evaluating a
    constant expression is the compiler's. *)
Record constant := mkConstant {
  c_name : string;
  c_init : option (string * Z);
}.

(** [#expression] *)
Definition spelling (c : constant) : string :=
  c_name c +:+ match c_init c with None => EmptyString | Some (text, _) => text end.

(** ** The preprocessor lists *)

(** An argument of PP_COUNT_IMPL: a constant, or a number of PP_COUNT. *)
Inductive pp_arg := Constant (c : constant) | Number (n : nat).

(** 64, 63, ..., 1 *)
Fixpoint count_down (n : nat) : list nat :=
  match n with O => [] | S n' => n :: count_down n' end.

(** The parameter after [_64]; [None]: too few arguments. *)
Definition pp_count_impl (args : list pp_arg) : option pp_arg := args !! 64.
Definition pp_count (args : list constant) : option pp_arg :=
  pp_count_impl ((Constant <$> args) ++ (Number <$> count_down 64)).

(** [BETTER_ENUMS_M1] to [BETTER_ENUMS_M64] applied to [m], [d] and the
    constants; [None]: the number of arguments does not fit the macro. *)
Fixpoint pp_m {D A} (k : nat) (m : D -> nat -> constant -> list A) (d : D)
    (args : list constant) : option (list A) :=
  match k, args with
  | S O, [x] => Some (m d 0 x)
  | S k', x :: rest => app (m d k' x) <$> pp_m k' m d rest
  | _, _ => None
  end.

(** [BETTER_ENUMS_PP_MAP]; [None]: no macro has the name [M##count]. *)
Definition pp_map {D A} (m : D -> nat -> constant -> list A) (d : D)
    (args : list constant) : option (list A) :=
  match pp_count args with
  | Some (Number k) => pp_m k m d args
  | _ => None
  end.

(** ** The generated arrays *)

(** [_eat_assign] *)
Record eat_assign := mkEat { ea_value : Z }.
Definition eat_assign_op (e : eat_assign) (dummy : Z) : eat_assign := e.

(** [EnumType] is the scope of the enumerators. *)
Definition eat_assign_single (EnumType : string -> option Z) (index : nat) (c : constant)
    : list (option Z) :=
  let e := mkEat <$> EnumType (c_name c) in
  [ea_value <$> match c_init c with
                | None => e
                | Some (_, dummy) => (fun e => eat_assign_op e dummy) <$> e
                end].

Definition stringize_single (ignored : unit) (index : nat) (c : constant) : list string :=
  [spelling c].

(** Adjacent literals, each with its comma. *)
Definition reserve_storage_single (ignored : unit) (index : nat) (c : constant) : list ascii :=
  str_list (spelling c +:+ ",").

(** The declaration of [_final_##index]. *)
Definition trim_single_string (ignored : unit) (index : nat) (c : constant)
    : list (nat * outcome string) :=
  [(index, final_name (spelling c))].
Definition refer_to_single_string (ignored : unit) (index : nat) (c : constant) : list nat :=
  [index].

(** ** The class *)

(** [enum _enumerated : Underlying { __VA_ARGS__ }]: a constant without
    initializer is one more than the one before, the first one 0; [None]: a
    name declared twice or a value the underlying type cannot hold. *)
Fixpoint enumerators (underlying : Z -> Z) (next : Z) (cs : list constant)
    : option (list (string * Z)) :=
  match cs with
  | [] => Some []
  | c :: cs' =>
      let v := match c_init c with None => next | Some (_, v) => v end in
      es ← enumerators underlying (v + 1) cs';
      if bool_decide (underlying v = v) && bool_decide (c_name c ∉ es.*1)
      then Some ((c_name c, v) :: es) else None
  end.

(** Lookup of an enumerator in the scope of the class. *)
Fixpoint scope (es : list (string * Z)) (name : string) : option Z :=
  match es with
  | [] => None
  | (n, v) :: es' => if decide (n = name) then Some v else scope es' name
  end.

(** The static data of the class: [_size_constant], [_value_array],
    [_the_raw_names] and the initial [storage]. *)
Record declaration := mkDecl {
  dl_size : nat;
  dl_values : list Z;
  dl_raw_names : list string;
  dl_storage : list ascii;
}.

(** [BETTER_ENUM]; [None]: the declaration does not compile. *)
Definition better_enum (underlying : Z -> Z) (cs : list constant) : option declaration :=
  es ← enumerators underlying 0 cs;
  size ← pp_count cs ≫= (fun a => match a with Number n => Some n | _ => None end);
  values ← pp_map eat_assign_single (scope es) cs ≫= mapM id;
  raw_names ← pp_map stringize_single tt cs;
  storage ← pp_map reserve_storage_single tt cs;
  Some (mkDecl size values raw_names (storage ++ [NUL])).

(** [_the_name_array] of [SLOW_ENUM]: the strings declared by TRIM_STRINGS,
    referred to by REFER_TO_STRINGS. *)
Definition slow_names (cs : list constant) : option (list (outcome string)) :=
  finals ← pp_map trim_single_string tt cs;
  indices ← pp_map refer_to_single_string tt cs;
  mapM (fun i => (list_to_map finals : gmap nat (outcome string)) !! i) indices.

(** ** A declared enumeration *)

Section Declared.
Variable underlying : Z -> Z.
Variable d : declaration.

(** An object of the class that holds the value of an enumerator. *)
Definition declared : Type := dsig (fun v => v ∈ dl_values d).

Definition declared_at (v : Z) : option declared :=
  match decide (v ∈ dl_values d) with left H => Some (dexist v H) | right _ => None end.

Definition declared_enum : BetterEnum declared := {|
  BetterEnum.underlying := underlying;
  to_integral := proj1_sig;
  value_array := omap declared_at (dl_values d);
  raw_names := dl_raw_names d;
|}.
End Declared.

(** ** The declarations of the program *)

Definition Priority_constants : list constant :=
  [mkConstant "undefined" (Some ("=255", 255%Z)); mkConstant "low" (Some (" = 0", 0%Z));
   mkConstant "high" (Some (" = 10", 10%Z)); mkConstant "control" None].
Definition Direction_constants : list constant :=
  [mkConstant "incoming" (Some (" = 0", 0%Z)); mkConstant "outgoing" None].
Definition HostStatus_constants : list constant :=
  [mkConstant "initial" None; mkConstant "resolving" None; mkConstant "resolving_error" None;
   mkConstant "connecting" None; mkConstant "connection_error" None; mkConstant "connected" None;
   mkConstant "closed" None].

(** ** Lemmas *)

Lemma count_down_length n : length (count_down n) = n.
Proof. induction n; simpl; lia. Qed.

Lemma count_down_lookup n i : i < n -> count_down n !! i = Some (n - i).
Proof.
  revert i; induction n as [|n IH]; intros [|i] Hi; simpl; [lia|lia|done|].
  by rewrite IH by lia.
Qed.

(** PP_COUNT counts up to 64 constants. *)
Lemma pp_count_le args : 0 < length args <= 64 -> pp_count args = Some (Number (length args)).
Proof.
  intros H. unfold pp_count, pp_count_impl.
  rewrite lookup_app_r by (rewrite length_fmap; lia).
  rewrite length_fmap, list_lookup_fmap, count_down_lookup by lia. simpl. do 2 f_equal. lia.
Qed.

(** With more constants it is the 65th of them. *)
Lemma pp_count_gt args : 64 < length args -> exists c, pp_count args = Some (Constant c).
Proof.
  intros H. unfold pp_count, pp_count_impl.
  rewrite lookup_app_l, list_lookup_fmap by (rewrite length_fmap; lia).
  destruct (lookup_lt_is_Some_2 args 64 H) as [c ->]. by exists c.
Qed.

(** What the macros of an expansion see: the constants with the indices that
    remain. *)
Fixpoint indexed (args : list constant) : list (nat * constant) :=
  match args with [] => [] | c :: args' => (length args', c) :: indexed args' end.

Lemma pp_m_spec {D A} (m : D -> nat -> constant -> list A) d args :
  0 < length args ->
  pp_m (length args) m d args = Some (indexed args ≫= fun ic => m d ic.1 ic.2).
Proof.
  induction args as [|x args IH]; [simpl; lia|]. intros _.
  destruct args as [|y args]; [simpl; by rewrite app_nil_r|].
  change (app (m d (length (y :: args)) x) <$> pp_m (length (y :: args)) m d (y :: args)
    = Some (indexed (x :: y :: args) ≫= fun ic => m d ic.1 ic.2)).
  rewrite IH by (simpl; lia). done.
Qed.

Lemma pp_map_le {D A} (m : D -> nat -> constant -> list A) d args :
  0 < length args <= 64 ->
  pp_map m d args = Some (indexed args ≫= fun ic => m d ic.1 ic.2).
Proof. intros H. unfold pp_map. rewrite pp_count_le by done. apply pp_m_spec. lia. Qed.

Lemma indexed_snd args : (indexed args).*2 = args.
Proof. induction args; csimpl; congruence. Qed.

Lemma indexed_length args : length (indexed args) = length args.
Proof. by rewrite <-(length_fmap snd), indexed_snd. Qed.

(** A macro that does not use the index. *)
Lemma indexed_bind {A} (f : constant -> list A) args :
  (indexed args ≫= fun ic => f ic.2) = args ≫= f.
Proof. induction args as [|c args IH]; csimpl; [done|]. by rewrite IH. Qed.

Lemma bind_singleton {A B} (f : A -> B) (l : list A) : (l ≫= fun x => [f x]) = f <$> l.
Proof. induction l as [|x l IH]; csimpl; [done|]. by rewrite IH. Qed.

Lemma pp_map_const {D A} (m : D -> nat -> constant -> list A) d (f : constant -> list A) args :
  (forall i c, m d i c = f c) -> 0 < length args <= 64 -> pp_map m d args = Some (args ≫= f).
Proof.
  intros Hm Hl. rewrite pp_map_le by done. f_equal. rewrite <-(indexed_bind f).
  clear Hl. induction (indexed args) as [|ic l IH]; csimpl; [done|]. by rewrite Hm, IH.
Qed.

(** The macros that do not use the index. *)
Lemma raw_names_spec cs : 0 < length cs <= 64 -> pp_map stringize_single tt cs = Some (spelling <$> cs).
Proof.
  intros H. rewrite (pp_map_const _ _ (fun c => [spelling c])) by done.
  by rewrite bind_singleton.
Qed.

Lemma storage_spec cs :
  0 < length cs <= 64 ->
  pp_map reserve_storage_single tt cs = Some (reserve_storage (spelling <$> cs)).
Proof.
  intros H. rewrite (pp_map_const _ _ (fun c => str_list (spelling c) ++ [","%char])).
  - f_equal. unfold reserve_storage. clear H.
    induction cs as [|c cs IH]; csimpl; [done|]. by rewrite IH.
  - intros i c. unfold reserve_storage_single. by rewrite str_list_app.
  - done.
Qed.

Lemma enumerators_spec u next cs es :
  enumerators u next cs = Some es ->
  es.*1 = c_name <$> cs /\ NoDup es.*1 /\ Forall (fun nv => u nv.2 = nv.2) es.
Proof.
  revert next es; induction cs as [|c cs IH]; intros next es; simpl.
  - intros [= <-]. split_and!; [done|apply NoDup_nil_2|done].
  - set (v := match c_init c with None => next | Some (_, v) => v end).
    intros (es' & He & H)%bind_Some. destruct (IH _ _ He) as (Hn & Hd & Hu).
    destruct (bool_decide (u v = v)) eqn:Hv; [|done]. simpl in H.
    destruct (bool_decide (c_name c ∉ es'.*1)) eqn:Hc; [|done].
    apply bool_decide_eq_true in Hv, Hc. injection H as <-. csimpl.
    rewrite Hn. rewrite <-Hn. split_and!; [done|by apply NoDup_cons_2|by constructor].
Qed.

Lemma scope_lookup es i n v : NoDup es.*1 -> es !! i = Some (n, v) -> scope es n = Some v.
Proof.
  revert i; induction es as [|[n' v'] es IH]; intros i Hd Hi; [done|].
  csimpl. csimpl in Hd. apply NoDup_cons in Hd as [Hn Hd].
  destruct i as [|i]; csimpl in Hi.
  - injection Hi as -> ->. by rewrite decide_True.
  - rewrite decide_False; [by apply (IH i)|]. intros ->. apply Hn.
    apply list_elem_of_fmap. exists (n, v). split; [done|]. by apply (list_elem_of_lookup_2 _ i).
Qed.

(** The assignments of the array are eaten. *)
Lemma eat_assign_single_eq f i c : eat_assign_single f i c = [f (c_name c)].
Proof. unfold eat_assign_single. destruct (f (c_name c)), (c_init c) as [[??]|]; done. Qed.

Lemma values_spec cs es :
  0 < length cs <= 64 -> NoDup es.*1 -> es.*1 = c_name <$> cs ->
  pp_map eat_assign_single (scope es) cs ≫= mapM id = Some es.*2.
Proof.
  intros Hl Hd Hn. rewrite (pp_map_const _ _ (fun c => [scope es (c_name c)])); simpl;
    [|apply eat_assign_single_eq|done].
  rewrite bind_singleton. apply mapM_Some. rewrite Forall2_fmap_l.
  apply Forall2_same_length_lookup_2.
  - by rewrite length_fmap, <-(length_fmap c_name), <-Hn, length_fmap.
  - intros i c v Hc Hv. apply list_lookup_fmap_Some in Hv as ([n v'] & -> & Hi). simpl.
    assert (c_name c = n) as ->.
    { apply (f_equal (lookup i)) in Hn. rewrite !list_lookup_fmap, Hi, Hc in Hn.
      by injection Hn as ->. }
    by apply (scope_lookup es i).
Qed.

(** What the compiler and the [#] operator make of a constant: an identifier
    without white space, then an initializer: an equals sign, perhaps with
    white space before it, and an expression. *)
Definition constant_ok (c : constant) : Prop :=
  Forall (fun a => ends_name a = false) (str_list (c_name c)) /\
  match c_init c with
  | None => True
  | Some (text, _) => exists a t, text = String a t /\ ends_name a = true /\
                        has_initializer text = true /\ str_in NUL text = false
  end.

Lemma trim_app n t :
  Forall (fun a => ends_name a = false) (str_list n) -> constant_length t = 0 ->
  trim (n +:+ t) = n.
Proof.
  intros Hn Ht. induction n as [|a n IH].
  - unfold trim. by rewrite str_app_nil_l, Ht.
  - apply Forall_cons in Hn as [Ha Hn]. rewrite str_app_cons. unfold trim in *; simpl.
    rewrite Ha; simpl. by rewrite IH.
Qed.

Lemma trim_spelling c : constant_ok c -> trim (spelling c) = c_name c.
Proof.
  intros [Hn Hi]. unfold spelling. apply trim_app; [done|].
  destruct (c_init c) as [[t v]|]; [|done]. destruct Hi as (a & t' & -> & Ha & _).
  simpl. by rewrite Ha.
Qed.

Lemma trim_spellings cs : Forall constant_ok cs -> trim <$> (spelling <$> cs) = c_name <$> cs.
Proof.
  intros H. rewrite <-list_fmap_compose. apply list_fmap_ext. intros i c Hc.
  apply trim_spelling. by eapply Forall_lookup_1.
Qed.

Lemma spelling_no_nul c : constant_ok c -> str_in NUL (spelling c) = false.
Proof.
  intros [Hn Hi]. unfold spelling. rewrite str_in_app. apply orb_false_iff. split.
  - clear Hi. induction (c_name c) as [|a n IH]; [done|]. apply Forall_cons in Hn as [Ha Hn].
    simpl. rewrite IH by done. rewrite bool_decide_eq_false_2; [done|]. by intros ->.
  - destruct (c_init c) as [[t v]|]; [|done]. by destruct Hi as (a & t' & _ & _ & _ & H).
Qed.

Lemma has_initializer_app n t :
  Forall (fun a => ends_name a = false) (str_list n) ->
  has_initializer (n +:+ t) = has_initializer t.
Proof.
  induction n as [|a n IH]; [done|]. intros [Ha Hn]%Forall_cons. rewrite str_app_cons. simpl.
  rewrite decide_False; [by apply IH|]. by intros ->.
Qed.

(** The names of [SLOW_ENUM]: trimmed when they are written with an
    initializer. *)
Lemma final_name_spelling c :
  constant_ok c -> String.length (c_name c) < iterate_count ->
  final_name (spelling c) = Ok (c_name c).
Proof.
  intros Hok Hl. pose proof (trim_spelling c Hok) as Ht.
  destruct (final_name_spec (spelling c) (spelling_no_nul c Hok)) as (Hy & _ & Hno).
  destruct (has_initializer (spelling c)) eqn:Hi.
  - rewrite <-Ht. apply Hy; [done|].
    pose proof (f_equal (length ∘ str_list) Ht) as Hlen. unfold trim, compose in Hlen.
    rewrite str_list_take, length_take, !str_list_length in Hlen.
    pose proof (constant_length_le (spelling c)). unfold iterate_count in Hl. lia.
  - rewrite Hno by done. f_equal. revert Hi. destruct Hok as [Hn Hi]. unfold spelling.
    rewrite has_initializer_app by done. destruct (c_init c) as [[t v]|].
    + by destruct Hi as (a & t' & _ & _ & -> & _).
    + intros _. apply str_app_nil_r.
Qed.

Lemma indexed_fst_lt args i : i ∈ (indexed args).*1 -> i < length args.
Proof.
  induction args as [|c args IH]; csimpl; [by intros ?%not_elem_of_nil|].
  intros [->|H]%elem_of_cons; [lia|]. apply IH in H. lia.
Qed.

Lemma indexed_fst_nodup args : NoDup (indexed args).*1.
Proof.
  induction args as [|c args IH]; csimpl; [apply NoDup_nil_2|].
  apply NoDup_cons_2; [|done]. intros H%indexed_fst_lt. lia.
Qed.

(** The strings that the indices refer to are those of the constants. *)
Lemma slow_names_spec cs :
  0 < length cs <= 64 -> slow_names cs = Some ((fun c => final_name (spelling c)) <$> cs).
Proof.
  intros H. unfold slow_names. rewrite !pp_map_le by done. simpl.
  unfold trim_single_string, refer_to_single_string. rewrite !bind_singleton.
  apply mapM_Some. apply Forall2_fmap_l.
  assert ((fun c => final_name (spelling c)) <$> cs
    = (fun ic => final_name (spelling ic.2)) <$> indexed cs) as ->.
  { by rewrite <-(indexed_snd cs) at 1; rewrite <-list_fmap_compose. }
  apply Forall2_fmap_r.
  apply Forall_Forall2_diag, Forall_forall. intros [i c] Hic. simpl.
  apply elem_of_list_to_map_1.
  - rewrite <-list_fmap_compose. apply indexed_fst_nodup.
  - apply list_elem_of_fmap. by exists (i, c).
Qed.

(** Both versions of the library give an enumerator the same name, up to 23
    characters. *)
Lemma slow_names_agree cs :
  0 < length cs <= 64 -> Forall constant_ok cs ->
  Forall (fun c => String.length (c_name c) < iterate_count) cs ->
  slow_names cs = Some (Ok <$> (trim <$> (spelling <$> cs))).
Proof.
  intros H Hok Hl. rewrite slow_names_spec, trim_spellings by done. f_equal.
  rewrite <-list_fmap_compose. apply list_fmap_ext. intros i c Hc. simpl.
  apply final_name_spelling; [exact (Forall_lookup_1 _ _ _ _ Hok Hc)|].
  exact (Forall_lookup_1 _ _ _ _ Hl Hc).
Qed.

Section Declared_lemmas.
Variable u : Z -> Z.
Variable d : declaration.

Lemma declared_at_values (l : list Z) :
  (forall v, v ∈ l -> v ∈ dl_values d) -> proj1_sig <$> omap (declared_at d) l = l.
Proof.
  induction l as [|v l IH]; intros Hl; csimpl; [done|]. unfold declared_at at 1.
  destruct (decide (v ∈ dl_values d)) as [H|H]; csimpl.
  - rewrite IH; [done|]. intros w Hw. apply Hl. by right.
  - destruct H. apply Hl. by left.
Qed.

Lemma declared_values : proj1_sig <$> value_array (BetterEnum := declared_enum u d) = dl_values d.
Proof. by apply declared_at_values. Qed.

Lemma declared_complete (e : declared d) : e ∈ value_array (BetterEnum := declared_enum u d).
Proof.
  assert (proj1_sig e ∈ proj1_sig <$> value_array (BetterEnum := declared_enum u d)) as He.
  { pose proof (proj2_dsig e) as H. by pose proof (eq_ind_r (fun l => proj1_sig e ∈ l) H declared_values). }
  apply list_elem_of_fmap in He as (e' & He & Hin). by apply dsig_eq in He as ->.
Qed.

(** A declaration with distinct values and distinct names is well formed. *)
Lemma declared_ok :
  length (dl_raw_names d) = length (dl_values d) -> NoDup (dl_values d) ->
  Forall (fun v => u v = v) (dl_values d) -> NoDup (trim <$> dl_raw_names d) ->
  Forall (fun n => str_in NUL n = false) (dl_raw_names d) ->
  @BetterEnumOk (declared d) (declared_enum u d).
Proof.
  intros Hlen Hnd Hu Hnames Hnul. pose proof declared_values as Hv.
  split.
  - pose proof (f_equal length Hv) as Hl. rewrite length_fmap in Hl. etrans; [exact Hlen|done].
  - apply declared_complete.
  - intros e e' He. by apply dsig_eq.
  - apply (NoDup_fmap_1 proj1_sig). by rewrite Hv.
  - intros e. pose proof (proj2_dsig e) as He. rewrite Forall_forall in Hu. by apply Hu.
  - done.
  - done.
Qed.

(** The value and the name at one place of the arrays go together. *)
Lemma declared_lookup (i : nat) (v : Z) (r : string) :
  @BetterEnumOk (declared d) (declared_enum u d) ->
  dl_values d !! i = Some v -> dl_raw_names d !! i = Some r ->
  exists e : declared d,
    @to_integral _ (declared_enum u d) e = v /\
    @to_string _ (declared_enum u d) e = Some (trim r) /\
    @from_string _ (declared_enum u d) (trim r) = Ok e /\
    @from_integral _ (declared_enum u d) v = Ok e.
Proof.
  intros OK Hv Hr. pose proof (f_equal (lookup i) declared_values) as He.
  rewrite Hv in He. apply list_lookup_fmap_Some in He as (e & -> & He). exists e. split_and!; [done|..].
  - etrans; [apply (to_string_lookup (BE := declared_enum u d) e i He)|].
    simpl. by rewrite Hr.
  - unfold from_string, from_string_nothrow.
    rewrite (from_string_loop_lookup (BE := declared_enum u d) i r Hr).
    exact (f_equal (of_option _) He).
  - unfold from_integral.
    rewrite (proj2 (from_integral_spec (BE := declared_enum u d) _ e)); [done|].
    apply (be_underlying (BE := declared_enum u d)).
Qed.
End Declared_lemmas.

(** ** Properties *)

(** C29: The expansion of BETTER_ENUM over constants with distinct names and
    representable values: with more than 64 constants it does not compile;
    with 1 to 64 it yields the size, the values of the enumerators, and raw
    names that trim to the identifiers, all in order; and when no two values
    are equal, every enumerator is converted to its name and its number, and
    back from either. *)
Theorem declaration_expands u cs es :
  0 < length cs -> Forall constant_ok cs -> enumerators u 0 cs = Some es ->
  (64 < length cs -> better_enum u cs = None) /\
  (length cs <= 64 -> exists d, better_enum u cs = Some d /\
     dl_size d = length cs /\ dl_values d = es.*2 /\ trim <$> dl_raw_names d = c_name <$> cs /\
     (NoDup es.*2 -> @BetterEnumOk (declared d) (declared_enum u d) /\
        forall n v, (n, v) ∈ es -> exists e : declared d,
          @to_integral _ (declared_enum u d) e = v /\
          @to_string _ (declared_enum u d) e = Some n /\
          @from_string _ (declared_enum u d) n = Ok e /\
          @from_integral _ (declared_enum u d) v = Ok e)).
Proof.
  intros Hpos Hok He. destruct (enumerators_spec _ _ _ _ He) as (Hn & Hnd & Hu).
  unfold better_enum. rewrite He; simpl. split.
  - intros Hl. by destruct (pp_count_gt cs Hl) as [c ->].
  - intros Hl. rewrite pp_count_le, values_spec, raw_names_spec, storage_spec by done.
    simpl. eexists. split; [done|]. simpl. split_and!; [done|done|by apply trim_spellings|].
    intros Hv. set (d := mkDecl _ _ _ _).
    assert (@BetterEnumOk (declared d) (declared_enum u d)) as OK.
    { apply declared_ok; simpl.
      - by rewrite length_fmap, <-(length_fmap c_name), <-Hn, !length_fmap.
      - done.
      - by apply Forall_fmap.
      - by rewrite trim_spellings, <-Hn.
      - apply Forall_fmap. eapply Forall_impl; [done|]. apply spelling_no_nul. }
    split; [done|]. intros n v [i Hi]%list_elem_of_lookup_1.
    assert (c_name <$> cs !! i = Some n) as (c & Hc & ->)%fmap_Some.
    { by rewrite <-list_lookup_fmap, <-Hn, list_lookup_fmap, Hi. }
    rewrite <-(trim_spelling c) by by eapply Forall_lookup_1.
    apply (declared_lookup u d i); [done|..]; simpl; rewrite list_lookup_fmap;
      [by rewrite Hi|by rewrite Hc].
Qed.

(** ** The declarations of the program *)

Lemma Priority_declared :
  (fun d => (dl_values d, dl_raw_names d)) <$> better_enum uint16 Priority_constants
  = Some (to_integral <$> (value_array : list Priority), raw_names (E := Priority)).
Proof. reflexivity. Qed.

Lemma Direction_declared :
  (fun d => (dl_values d, dl_raw_names d)) <$> better_enum uint8 Direction_constants
  = Some (to_integral <$> (value_array : list Direction), raw_names (E := Direction)).
Proof. reflexivity. Qed.

Lemma HostStatus_declared :
  (fun d => (dl_values d, dl_raw_names d)) <$> better_enum int8 HostStatus_constants
  = Some (to_integral <$> (value_array : list HostStatus), raw_names (E := HostStatus)).
Proof. reflexivity. Qed.

Ltac solve_constants_ok :=
  repeat constructor; simpl; repeat eexists.

Lemma Priority_constants_ok : Forall constant_ok Priority_constants.
Proof. solve_constants_ok. Qed.
Lemma HostStatus_constants_ok : Forall constant_ok HostStatus_constants.
Proof. solve_constants_ok. Qed.

(** ** Witnesses *)

Section EnumDecl_witnesses.
Lemma declaration_expands_witness :
  exists d, better_enum uint16 Priority_constants = Some d /\ dl_size d = 4 /\
    exists e : declared d,
      @to_string _ (declared_enum uint16 d) e = Some "control" /\
      @from_integral _ (declared_enum uint16 d) 11 = Ok e.
Proof.
  destruct (declaration_expands uint16 Priority_constants
    [("undefined", 255%Z); ("low", 0%Z); ("high", 10%Z); ("control", 11%Z)]) as [_ H].
  - simpl. lia.
  - exact Priority_constants_ok.
  - reflexivity.
  - destruct H as (d & Hd & Hs & _ & _ & H); [simpl; lia|].
    destruct H as [_ H]; [apply (bool_decide_unpack _); reflexivity|].
    destruct (H "control" 11%Z) as (e & _ & Hn & _ & Hi);
      [apply (bool_decide_unpack _); reflexivity|].
    exists d. split_and!; [exact Hd|exact Hs|]. exists e. by split.
Defined.

Lemma slow_names_agree_witness :
  slow_names HostStatus_constants
  = Some (Ok <$> ["initial"; "resolving"; "resolving_error"; "connecting";
                  "connection_error"; "connected"; "closed"]).
Proof.
  rewrite (slow_names_agree HostStatus_constants); [reflexivity|simpl; lia|..].
  - exact HostStatus_constants_ok.
  - unfold iterate_count. repeat constructor; simpl; lia.
Defined.

(** 65 constants do not compile. *)
Example too_many_constants :
  pp_map stringize_single tt (replicate 65 (mkConstant "a" None)) = None.
Proof. reflexivity. Qed.
Example index_counts_down :
  pp_map refer_to_single_string tt Priority_constants = Some [3; 2; 1; 0].
Proof. reflexivity. Qed.
End EnumDecl_witnesses.
