(* ===== verification/ClientMain.v ===== *)
(** * ClientMain: the processes uecho and usender (app/uecho/main.cpp,
    app/usender/main.cpp; the constructor of NetClient in
    src/uzel/netclient.cpp)

    The constructors of the applications, their [main] with its exit codes,
    and the pace of usender: the timer handler that ignores its error code
    runs at once when the wait is armed again before it has expired, and arms
    it again. *)
From S2P Require Import Prelude Effects BetterEnum Priority AccuLine PTree UConfig.
From S2P Require Import Addr Demo Msg InputProcessor Dispatcher Session Remote.
From S2P Require Import Outgoing NetClient.

Definition client_errorcode : Z := 200.   (* generic_errorcode *)
Definition usage_errorcode : Z := 150.

Section Main.
Context {T : Type} {PL : Platform T}.

Definition client_blank (now : Z) (addrto : Addr) (connects : bool) : client T :=
  mkClient now ∅ ∅ MsgDispatcher_init 0 (mkTimer None 0) connects (mkTimer None 0) addrto 0
    false None.

(** The constructor of NetClient emplaces the guard and resolves. *)
Definition NetClient_ctor : M (client T) unit :=
  modify (cl_set_work true) ;;
  cl_start.

(** The constructors of NetPrinter: uecho's registers "ping", usender's
    connects [s_authSuccess] (a field of the state) and registers "pong";
    [inline]: the dispatcher's strand runs functions at once. *)
Definition register (inline : bool) (cname : string) (h : client_handler) : M (client T) unit :=
  zoom cl_dispatcher cl_set_dispatcher (registerHandler inline cname h) ;;
  ret tt.
Definition uecho_ctor (inline : bool) : M (client T) unit :=
  NetClient_ctor ;; register inline "ping" HPing.
Definition usender_ctor (inline : bool) : M (client T) unit :=
  NetClient_ctor ;; register inline "pong" HPong.

(** What [io_context::run] waits for. *)
Definition client_has_work (c : client T) : bool :=
  cl_work c
  || negb (cl_resolving c =? 0)%nat
  || existsb (fun ks => negb (bool_decide (m_pending ks.2 = []))) (map_to_list (cl_store c))
  || bool_decide (is_Some (t_wait (m_sendTimer c))) || negb (t_queued (m_sendTimer c) =? 0)%nat
  || bool_decide (is_Some (t_wait (m_reconnectTimer c)))
  || negb (t_queued (m_reconnectTimer c) =? 0)%nat
  || negb (bool_decide (m_strand (cl_dispatcher c) = [])).

(** A turn after which the loop goes on. *)
Definition cl_goes_on (c c' : client T) : Prop := cl_turn c (Ok tt, c').
End Main.

(** The loop of [main] after the constructor [ctor]. *)
Inductive loop_returns {T} {PL : Platform T} (ctor : M (client T) unit) (c : client T) : Z -> Prop :=
  | ctor_throws e c' : ctor c = (Throw e, c') -> loop_returns ctor c client_errorcode
  | handler_throws e c0 c1 c2 :
      ctor c = (Ok tt, c0) -> rtc cl_goes_on c0 c1 -> cl_turn c1 (Throw e, c2) ->
      loop_returns ctor c client_errorcode
  | no_work_left c0 c1 :
      ctor c = (Ok tt, c0) -> rtc cl_goes_on c0 c1 -> client_has_work c1 = false ->
      loop_returns ctor c 0.

Inductive uecho_returns {T} {PL : Platform T} (inline : bool) (now : Z) : Z -> Prop :=
  | uecho_loop code :
      loop_returns (T := T) (uecho_ctor inline) (client_blank now Addr_default false) code ->
      uecho_returns inline now code.

(** [args]: the arguments after the name of the program. *)
Inductive usender_returns {T} {PL : Platform T} (inline : bool) (now : Z) (args : list string)
    : Z -> Prop :=
  | usender_usage : args = [] -> usender_returns inline now args usage_errorcode
  | usender_loop argv1 rest code :
      args = argv1 :: rest ->
      loop_returns (T := T) (usender_ctor inline)
        (client_blank now (Addr_of_string argv1) true) code ->
      usender_returns inline now args code.

(** ** How the processes end *)

(** No handler resets the guard. *)
Section Guard.
Context {T : Type} {PL : Platform T}.
Implicit Types (c : client T).

Definition guarded_loop c : Prop := cl_work c = true.
Abbreviation keeps := (preserves guarded_loop).

Lemma guard_sess {A} ss (m : M (session T) A) : keeps (cl_sess ss m).
Proof. intros c Hc. unfold cl_sess, zoom. by destruct (on_session _ _ _). Qed.

Lemma guard_reconnect : keeps (reconnectAfterDelay (T := T)).
Proof. by apply preserves_modify. Qed.

Lemma guard_send msg : keeps (cl_send (T := T) msg).
Proof.
  unfold cl_send. apply preserves_bind; [apply preserves_gets|intros [ss|]]; [|apply preserves_ub].
  apply preserves_bind; [apply preserves_gets|intros now; apply guard_sess].
Qed.

Lemma guard_sendMsg : keeps (sendMsg (T := T)).
Proof.
  unfold sendMsg. apply preserves_bind; [by apply preserves_modify|intros _].
  apply preserves_bind; [apply preserves_gets|intros c].
  apply preserves_bind; [apply guard_send|intros _; by apply preserves_modify].
Qed.

Lemma guard_take_over ss old : keeps (cl_take_over (T := T) ss old).
Proof.
  intros c Hc. unfold cl_take_over.
  destruct (cl_store c !! ss), (cl_store c !! old); try done.
  case_decide; [by destruct (outQueueEmpty _)|]. by destruct (takeOverMessages _ _) as [r [s' q]].
Qed.
#[local] Hint Resolve guard_sess guard_reconnect guard_sendMsg guard_take_over : preserve.

Lemma guard_auth ss : keeps (cl_auth (T := T) ss).
Proof.
  unfold cl_auth. apply preserves_bind; [auto with preserve|intros isLocal].
  apply preserves_if; [|auto with preserve].
  apply preserves_bind; [auto with preserve|intros app].
  apply preserves_bind; [auto with preserve|intros old].
  apply preserves_bind; [destruct old; auto with preserve|intros _].
  apply preserves_bind; [by apply preserves_modify|intros _].
  auto with preserve.
Qed.

Lemma guard_dispatchMsg ss msg : keeps (cl_dispatchMsg (T := T) ss msg).
Proof.
  unfold cl_dispatchMsg. apply preserves_bind; [auto with preserve|intros authed].
  apply preserves_if.
  - apply preserves_bind; [auto with preserve|intros ok].
    apply preserves_if; [auto with preserve|].
    apply preserves_bind; [auto with preserve|intros slot]. apply preserves_when, guard_auth.
  - apply dispatch_preserves; [done|done|intros []|intros []].
    + apply preserves_bind; [apply preserves_gets|intros m'].
      apply (preserves_zoom _ guarded_loop); auto using guard_send.
    + apply preserves_bind; [|intros _; apply preserves_ret].
      intros [c' m'] Hc. unfold zoom. simpl. by destruct (pbody m').
Qed.

Lemma guard_read ss data : keeps (cl_read_handler (T := T) ss data).
Proof.
  assert (keeps (cl_stop (T := T) ss)) as Hstop by (unfold cl_stop; auto with preserve).
  unfold cl_read_handler. apply preserves_bind; [auto with preserve|intros _].
  destruct data as [input|]; [|exact Hstop].
  apply preserves_bind; [|intros ok; apply preserves_if; auto with preserve].
  apply (preserves_zoom _ (fun v => guarded_loop v.2)); [|done|done].
  apply processNewInput_preserves. intros msg. apply guard_dispatchMsg.
Qed.

Lemma guard_turn c r : guarded_loop c -> cl_turn c r -> guarded_loop r.2.
Proof.
  intros Hc Ht. assert (forall m, keeps m -> guarded_loop (run_one m c).2) as H.
  { intros m Hm. by apply preserves_run_one. }
  destruct Ht as [now c _|rezit c _|ss s ec c _ _|ss data c|ss buf ec c|ss buf c
    |c _|d c _ _|c _|d c _ _]; try done; apply H; auto with preserve.
  - unfold cl_connectResolved. apply preserves_bind; [by apply preserves_modify|intros _].
    destruct rezit as [addr|]; [|auto with preserve].
    apply preserves_bind; [auto with preserve|intros work]. apply preserves_if; [apply preserves_ub|].
    intros c' Hc'. by apply guard_sess.
  - unfold cl_connectHandler. auto with preserve.
  - apply guard_read.
  - unfold send_timer_handler. apply preserves_bind; [by apply preserves_modify|auto with preserve].
Qed.

Lemma work_stays c c' : rtc cl_goes_on c c' -> guarded_loop c -> client_has_work c' = true.
Proof.
  intros Hr Hc. assert (guarded_loop c') as H.
  { revert c' Hr. apply (rtc_ind_r guarded_loop); [done|].
    intros c1 c2 _ Hs H1. exact (guard_turn _ _ H1 Hs). }
  unfold client_has_work. by rewrite H.
Qed.
End Guard.

Section Ending.
Context {T : Type} {PL : Platform T}.
Implicit Types (c : client T).

Lemma ctor_work inline cname h c c' :
  bind NetClient_ctor (fun _ => register (T := T) inline cname h) c = (Ok tt, c') ->
  guarded_loop c'.
Proof.
  unfold NetClient_ctor, register, zoom. unfold bind at 1 2, modify at 1. simpl.
  unfold bind. destruct (registerHandler _ _ _ _) as [[k|e| |] d]; try done.
  by intros [= <-].
Qed.

Lemma loop_code inline cname h c code :
  loop_returns (bind NetClient_ctor (fun _ => register inline cname h)) c code ->
  code = client_errorcode.
Proof.
  intros [e c' _|e c0 c1 c2 _ _ _|c0 c1 E Hr Hw]; [done..|].
  apply ctor_work in E. pose proof (work_stays _ _ Hr E). congruence.
Qed.

(** uecho never returns anything but 200, usender returns 150 without an
    argument and otherwise nothing but 200: no handler resets the work guard
    that the constructor of NetClient sets, so io_context::run never runs
    out of work.  Constructed outside the loop, as main does, both run into
    the uninitialised identifier of the dispatcher. *)
Lemma clients_never_return_zero inline now args code :
  (uecho_returns (T := T) inline now code -> code = 200%Z) /\
  (usender_returns (T := T) inline now args code ->
     code = 200%Z /\ args <> [] \/ code = 150%Z /\ args = []) /\
  (uecho_ctor (T := T) false (client_blank now Addr_default false)).1 = Undefined /\
  (usender_ctor (T := T) false (client_blank now Addr_default true)).1 = Undefined.
Proof.
  split_and!; [| |done..].
  - intros [c H]. by apply loop_code in H.
  - intros [Hn|argv1 rest c -> H]; [by right|]. left. by apply loop_code in H.
Qed.
End Ending.

(** ** The pace of usender *)

Section Pace.
Context {T : Type} {PL : Platform T}.
Implicit Types (c : client T).

(** The ping with a serial number. *)
Definition ping (addrto : Addr) (serial : Z) : Msg T :=
  Msg_out addrto "ping" (pt_put ["serial"] (dec_string serial) pt_empty).

Variable ss : sid.
Variable addrto : Addr.
Hypothesis Hprint : forall serial, exists raw, charvec (ping addrto serial) = Ok raw.

(** The client has its server session, [n] messages queued, and a wait of the
    send timer pending. *)
Record sending (now serial : Z) (queued n : nat) c : Prop := {
  sn_local : cl_locals c !! "userver" = Some ss;
  sn_store : exists s, cl_store c !! ss = Some s /\ length (m_outQueue s) = n;
  sn_addr : m_addrto c = addrto;
  sn_now : cl_now c = now;
  sn_serial : m_serial c = serial;
  sn_wait : is_Some (t_wait (m_sendTimer c));
  sn_queued : t_queued (m_sendTimer c) = queued;
  sn_raised : cl_raised c = None;
}.

Lemma sendMsg_ok now serial queued n c :
  sending now serial queued n c ->
  exists c', sendMsg c = (Ok tt, c') /\ sending now (size_t (serial + 1)) (S queued) (S n) c'.
Proof.
  intros [Hl (s & Hs & Hn) Ha Hnow Hse [d Hw] Hq Hra]. unfold sendMsg.
  unfold bind at 1, modify at 1. set (c1 := cl_set_send _ c). unfold bind at 1, gets at 1.
  destruct (Hprint serial) as [raw Hraw].
  assert (m_serial (id c1) = serial /\ m_addrto (id c1) = addrto) as [-> ->] by done.
  destruct (cl_send_ok c1 ss s _ raw Hl Hs Hraw) as (s' & E & Hqs & _).
  unfold ping in E. rewrite (bind_ok _ _ _ _ _ E). unfold modify.
  eexists. split; [done|]. split; simpl; try done.
  - exists s'. rewrite lookup_insert_eq. split; [done|]. rewrite Hqs, length_app. simpl. lia.
  - by rewrite Hse.
  - by rewrite Hw, Hq.
Qed.

Lemma handler_sends now serial queued n c :
  sending now serial (S queued) n c ->
  exists c', cl_step c c' /\ sending now (size_t (serial + 1)) (S queued) (S n) c'.
Proof.
  intros Hc. set (c1 := cl_set_send (mkTimer (t_wait (m_sendTimer c))
                          (pred (t_queued (m_sendTimer c)))) c).
  assert (sending now serial queued n c1) as H1.
  { destruct Hc as [Hl Hs Ha Hnow Hse Hw Hq Hra]. split; try done. simpl. by rewrite Hq. }
  destruct (sendMsg_ok _ _ _ _ _ H1) as (c' & E & H'). exists c'. split; [|done].
  exists (Ok tt).
  assert (run_one send_timer_handler c = (Ok tt, c')) as <-.
  { apply run_one_ok; [exact E|]. exact (sn_raised _ _ _ _ _ H'). }
  apply cl_send_timer. rewrite (sn_queued _ _ _ _ _ Hc). done.
Qed.

(** A call of sendMsg while the wait of the send timer is pending makes
    usender send without pause: the cancelled wait's handler sends and arms
    again, which cancels again, for any number of pings while the clock
    stands still. *)
Lemma early_send_floods now serial n c k :
  sending now serial 0 n c ->
  exists c1 ck, sendMsg c = (Ok tt, c1) /\ nsteps cl_step k c1 ck /\
    sending now (size_t (serial + Z.of_nat (S k))) 1 (n + S k) ck.
Proof.
  intros Hc. destruct (sendMsg_ok _ _ _ _ _ Hc) as (c1 & E & H1).
  exists c1. induction k as [|k (ck & _ & Hk & Hs)].
  - exists c1. split; [done|]. split; [constructor|]. by rewrite Nat.add_1_r.
  - destruct (handler_sends _ _ _ _ _ Hs) as (ck' & Hstep & Hs').
    exists ck'. split; [done|]. split; [by eapply nsteps_r|].
    replace (n + S (S k)) with (S (n + S k)) by lia.
    replace (size_t (serial + Z.of_nat (S (S k)))) with
      (size_t (size_t (serial + Z.of_nat (S k)) + 1)); [done|].
    unfold size_t. rewrite Zplus_mod_idemp_l. f_equal. lia.
Qed.
End Pace.

(** ** Witnesses *)

Section ClientMain_witnesses.
#[local] Instance mw_usender : Platform tree := demo "liver" "usender".

Lemma plain_dec_go fuel n acc :
  DemoJson.plain acc = true -> DemoJson.plain (dec_go fuel n acc) = true.
Proof.
  revert n acc; induction fuel as [|fuel IH]; intros n acc Hacc; [done|]. cbn [dec_go].
  assert (DemoJson.plain (String (digit_of (n mod 10)) acc) = true) as H.
  { pose proof (Z.mod_pos_bound n 10 ltac:(lia)) as Hb. revert Hb.
    generalize (n mod 10)%Z as d. intros d Hd.
    assert (d = 0 \/ d = 1 \/ d = 2 \/ d = 3 \/ d = 4 \/ d = 5 \/ d = 6 \/ d = 7 \/ d = 8 \/ d = 9)%Z
      as Hc by lia.
    cbn [DemoJson.plain]. rewrite Hacc, andb_true_r.
    by repeat (destruct Hc as [-> | Hc]); subst. }
  destruct (_ =? 0)%Z; [done|]. by apply IH.
Qed.

Lemma plain_dec n : DemoJson.plain (dec_string n) = true.
Proof.
  unfold dec_string. destruct (n <? 0)%Z; [|by apply plain_dec_go].
  cbn [DemoJson.plain]. by rewrite plain_dec_go.
Qed.

Lemma mw_prints serial : exists raw, charvec (ping (mkAddr "uecho" "liver") serial) = Ok raw.
Proof.
  unfold charvec, str, ping. eexists. unfold Msg_out, setCname, setDest. simpl.
  unfold DemoJson.write. simpl. unfold DemoJson.quoted. rewrite plain_dec. reflexivity.
Qed.

Definition mw_session : session tree :=
  set_msg1 (Some (Msg_out (PL := demo "liver" "userver") Addr_default "auth" pt_empty))
    (session_init outgoing "127.0.0.1" "localhost").
Definition mw_client : client tree :=
  mkClient 0 {[1%positive := mw_session]} {["userver" := 1%positive]} MsgDispatcher_init 0
    (mkTimer None 0) true (mkTimer (Some 2000000000%Z) 0) (mkAddr "uecho" "liver") 7
    true None.

Lemma early_send_floods_witness :
  exists c1 ck, sendMsg mw_client = (Ok tt, c1) /\ nsteps cl_step 1000 c1 ck /\
    cl_now ck = 0%Z.
Proof.
  destruct (early_send_floods 1%positive (mkAddr "uecho" "liver") mw_prints 0 7 0 mw_client 1000)
    as (c1 & ck & E & Hn & Hs).
  - split; try reflexivity; [by exists mw_session|by eexists].
  - exists c1, ck. split; [exact E|]. split; [exact Hn|]. exact (sn_now _ _ _ _ _ _ _ Hs).
Defined.
End ClientMain_witnesses.
